(* ===== verification/_CoqProject ===== *)
-Q . S2P
Prelude.v
Json.v
Float64.v
Engine.v
Randutil.v
RootAccess.v
RootAccessFacts.v
RootAccessInv.v
RootAccessMoves.v
RootAccessCodec.v
RootAccessTyped.v
RootAccessPlay.v
RootAccessGame.v
RootAccessView.v
RootAccessSpec.v
RootAccessFindings.v
TicTacToe.v
TicTacToeSpec.v
Backend.v
Store.v
BackendLogic.v
Lobby.v
Runtime.v
Grpc.v
Atomicity.v
Consistency.v
Requests.v
Demo.v
Serving.v
RuntimeSpec.v
LobbySpec.v
Matchmaking.v
MatchmakingSpec.v
Programs.v
Queue.v
Backfill.v
Middleware.v
Streams.v
StreamsSpec.v
Rating.v
RatingService.v
RatingSpec.v
RatingDemo.v
Achievements.v
AchievementsSpec.v
EventLog.v
EventLogSpec.v
Users.v
Web.v
Ranked.v
QueueSpec.v
BackfillSpec.v
UsersApi.v
UsersSpec.v
Bot.v
Mcts.v
MctsSpec.v
MctsTotal.v
TicTacToeBot.v
RootAccessBot.v
RootAccessBotSpec.v
Entitled.v
Api.v
ApiSpec.v
ApiDemo.v
Ownership.v
Gateway.v
GatewaySpec.v
GatewayDemo.v
Auth.v
AuthSpec.v
AuthDemo.v
RateLimit.v
Chat.v
ChatSpec.v
Notify.v
NotifySpec.v
ChatDemo.v
BotRunner.v
BotRunnerSpec.v
