(* ===== verification/Prelude.v ===== *)
(** * Tableforge: its games, its game server and the services around it

    Tableforge is a Go monorepo of services for turn-based multiplayer games. In
    [services/game-server] games are plugins behind the [engine.Game] interface; the
    lobby seats players in rooms and starts sessions; the session runtime applies moves,
    ends games and publishes the result; bots search for their moves; everything is
    persisted in PostgreSQL and turn timers are delayed tasks. Around it stand the
    services for ranked match-making, ratings, users, authentication, chat,
    notifications and the websocket gateway, which talk over HTTP, gRPC, Redis streams
    and Redis channels. This library is a shallow embedding of that code with the
    theorems that make it correct. All paths below are relative to [src/].

    The games are pure functions. The runtime and the lobby are programs of a state and
    error monad in which any statement may fail ([Backend]). The other services are
    programs of atomic commands, one per statement, per Redis command or per critical
    section, and the commands of any number of calls interleave ([Programs]).

    ** The files

    - [Prelude]: results of Go calls ([Ok]/[Err]), 64-bit integers, lemmas on
      lists, sums and maps, the hint database [recess].
    - [Json]: the dynamically typed values of [map[string]any], the accessors of
      encoding/json's types and what a marshal/unmarshal round trip does to them.
    - [Engine]: [internal/domain/engine] and [games/registry.go]: players, moves,
      states, the record [Game] with the optional interfaces, lobby settings.
    - [Randutil]: [shared/platform/randutil]: Fisher-Yates shuffles. The sources of
      randomness are classes ([PRNG] for math/rand, [Entropy] for crypto/rand)
      with the documented range of a draw as their only law.
    - [RootAccess]: [games/rootaccess], a card game: every accessor, card effect,
      validation, round resolution and the plugin methods, over the JSON-shaped
      state the code works on. [RootAccessFacts], [RootAccessCodec],
      [RootAccessTyped]: reading the state back and which values survive a round
      trip. [RootAccessInv]: the invariant [live] and the deal. [RootAccessMoves],
      [RootAccessPlay]: the effects of moves and one validated move as a step.
      [RootAccessGame]: plays, scores and the turn order. [RootAccessView]: views.
      [RootAccessSpec]: the properties. [RootAccessFindings]: defects, proved.
    - [TicTacToe], [TicTacToeSpec]: [games/tictactoe], an abstract game on boards,
      the refinement between them and the properties.
    - [Backend]: what the services run on: UUIDs (a class), Go errors, the tables,
      the world and the monad [M] of the services, with statements that may fail,
      transactions that roll back, random draws, timers and published messages.
    - [Store]: [internal/platform/store], one definition per method with its SQL
      over finite maps: keys, unique and foreign keys, checks, defaults.
    - [BackendLogic]: two program logics for [M]: [wp] over everything observable
      and [wpd] over the database alone, each with a rule per construct, valid for
      every pattern of failing statements; [keeps], its invariant form, and the
      tactic [keep] that applies it.
    - [Lobby]: [internal/domain/lobby/lobby.go]. [LobbySpec]: its properties.
    - [Runtime]: [internal/domain/runtime]: moves, views, replay, surrender,
      rematch, pause, resume and ready votes, turn and ready timeouts, timers.
    - [Atomicity]: the transaction of a move, row by row.
    - [Consistency]: the invariant [consistent] of the tables and the lemmas on how
      the services change them. [Requests]: the service as a state machine: the
      requests, [serve], the databases it [reaches]. [Serving]: every request
      takes a sound step. [Demo]: a concrete deployment on which the theorems are
      tried. [RuntimeSpec]: the properties of the runtime.
    - [Grpc]: [internal/platform/grpc], what the other services ask of rooms and sessions.
      [Entitled]: what a caller may change in the database, and that every operation of
      the services respects it. [Api], [ApiSpec], [ApiDemo]: [internal/platform/api], the
      handlers and the router of the game server behind the session cookie.
    - [RateLimit]: [internal/platform/ratelimit], the limiter in front of the game server and
      its script in Redis, with what it bounds.
    - [Programs]: calls as programs of atomic commands over a store, runs of interleaved
      calls, and three logics for them: [every], [wps] and [wpr]. [Ownership]: two more,
      for objects that belong to a call and for invariants that speak of the past.
    - [Float64]: binary64 arithmetic as the code uses it (Go's [float64]).
    - [Matchmaking], [MatchmakingSpec]: [shared/domain/matchmaking], the pure part of
      match-making: quality, spread, windows and the snake draft.
    - [Queue]: [match-service/internal/queue/queue.go], the ranked queue. [Backfill]:
      [backfill.go], idle bots for lonely humans. [Ranked]: the HTTP interface of the match
      service, its consumer of bans, and all its calls as one system. [QueueSpec],
      [BackfillSpec]: the properties and the races.
    - [Streams], [StreamsSpec]: [shared/streams], the producer and the worker that reads,
      acknowledges, retries and gives up. Also the events
      between the services ([shared/events]).
    - [Rating]: [shared/domain/rating], Elo with teams. [RatingService]: the rating
      service, its consumer, storage and interface. [RatingSpec], [RatingDemo].
    - [Achievements], [AchievementsSpec]: [shared/achievements] and the consumer of the user
      service. [EventLog], [EventLogSpec]: the event log of a session, in
      [game-server/internal/platform/events] and [platform/store/pg_events.go].
    - [Middleware]: [shared/middleware/auth.go], cookies, claims and roles. [Web]: calls of
      another service, maintenance mode, pages of a list.
    - [Users]: the store of the user service, every statement as a command. [UsersApi]: its
      HTTP and gRPC handlers. [UsersSpec].
    - [Gateway]: [services/ws-gateway], connections, pumps, the hub, presence, revocations
      and broadcasts, over the class [Peers] of what it asks of the other services.
      [GatewaySpec]. [GatewayDemo] implements [Peers] with [UsersApi] and [Grpc], and has the
      hub of the game server, which publishes what the gateway reads.
    - [Auth], [AuthSpec], [AuthDemo]: [services/auth-service]: logins through GitHub, by bots
      and in test mode, refresh sessions, tokens and cookies, the consumer of bans.
    - [Chat], [ChatSpec], [ChatDemo]: [services/chat-service]: messages in rooms and between
      players, and who may moderate them.
    - [Notify], [NotifySpec]: [services/notification-service]: the consumers
      that make notifications, the inbox, and the actions passed on to the user service.
    - [Bot]: [game-server/internal/bot]: the adapter interface, profiles,
      configuration, [DecideMove]. [Mcts]: [bot/mcts], the tree search, over any
      adapter; the tree is the list of its allocated nodes. [MctsSpec]: what a search
      returns. [MctsTotal]: searches of games of perfect information end.
    - [TicTacToeBot], [RootAccessBot], [RootAccessBotSpec]: the two adapters.
    - [BotRunner]: [game-server/cmd/bot-runner]: the bots that play over HTTP and websockets as
      interaction trees, on their own or when the backfill activates them. [BotRunnerSpec]: a
      program logic for these trees, the protocol of a bot, and a bot on a small network.

    ** What the theorems show

    - Root Access: a game stays well formed from the deal to the end, validated
      moves succeed, it ends within a bounded number of moves, there is always a
      move that also the documented rules allow, each card, the turn order, the scoring and the validation do what the
      rules say, storage is transparent, and the view of a player does not depend
      on what is hidden from the player.
    - Tic-tac-toe: the implementation refines the abstract game; results and
      validation are exactly those of the rules.
    - The runtime: a move is atomic under every failure of the database and changes
      exactly the rows of that move; whatever requests are served one after another, every
      stored game is a log of legal moves, results are recorded once and only for
      finished sessions, finished games do not change, rooms stay within their
      capacity, pausing needs consensus, published and stored outcomes agree. The end of
      [RuntimeSpec] shows what requests that overtake each other can do to results,
      finished games and capacities.
    - The lobby: joining and configuring a room have no effect but the intended
      one, seats are rotated, default settings are valid.
    - The HTTP interface of the game server: every effect of a request on the database is
      one that its caller, known by a valid token, is entitled to.
    - The limiter bounds the requests of an address in a window, up to the delay of scripts
      and the rounding of times, and refuses none without cause.
    - Match-making partitions the players it is given, drafts the teams in a snake, rates
      them by their averages and the spread of the longest wait, and misses no good window; a ranked session is only started for two players of one match who both
      accepted it in requests of their own, whatever the interleaving; a scan for
      backfill activates at most one bot, the closest one.
    - Streams: no message that was published for a group is lost, whatever workers do and
      commands fail, unless the cap of the dead letter stream evicts it. Ratings: a match updates each player once from the ratings before it;
      a session counts once, under redelivery and overlap. Achievements: what a finished
      game does to each progress. The event log of a session is read back as appended.
    - Users: every row of the user service is there because a caller entitled to it has
      asked for it. Authentication: tokens and sessions only go to players the request is
      entitled to act for, and revoked sessions stay revoked.
    - The gateway: every event written to a websocket has a reason, listeners are those of
      the subscribers, no channel is closed twice or written to when closed.
    - Chat and notifications: messages are sent, read and moderated by those entitled, and
      stay until their room or a player they belong to is deleted;
      a notification comes from an event or a valid request, is acted on by its
      recipient only, and an accepted friend request is passed on at most once.
    - The bots: a search returns a legal move with consistent visit counts, ends in
      games of perfect information, and both adapters only offer moves their game
      accepts. For Root Access it is not proved that a search ends with a move: its
      tree moves may be illegal in the world they are played in. Over the network, whatever
      the servers answer, a bot follows the protocol, sends only moves decided on a state it
      has just fetched, which the game accepts there, and gives back its sockets and its place, unless the
      process stops during a game.
    - The files [RootAccessFindings], those ending in [Demo], and the ends of the [Spec]
      files prove what the code does and, by its comments and documents, should not: as
      runs on a small deployment.

    ** Modelling decisions

    - A panic is an error value ([GPanic], [Panic]), so that its absence is part of
      the statements. Integers are [Z]; the sums of the games stay far below 64
      bits and the accessors convert as the code does.
    - The state of a session is stored as the state its bytes decode to
      ([stateJSON]); marshalling is [reload], after [json_ok].
    - [Requests.serve] runs one request of the game server at a time, with failures at
      every statement; the real server answers requests concurrently, and the invariants
      of the runtime only hold of requests one after another. [RuntimeSpec.overtaken]
      serves a request between two statements of another, for the races that are proved. In all other services calls interleave at every
      command, a command may fail, and it may take effect and lose its reply.
    - Code outside the repository is a class or a parameter with its documented laws:
      math.Pow and math.Log, sort.Slice, the randomness, the JWT library, uuid.New and
      gen_random_uuid, LOWER and the clock of Postgres, RFC 3339 times, the schema
      library, the feature flags, GitHub, the codec of events, and JSON where nothing
      here reads it back.
    - Request bodies, stream messages and task payloads are what they decode to, [None]
      when they do not. A redelivered message is one more call.
    - A statement fails when [fault] says so or when a constraint is violated, and
      then an open transaction only accepts a rollback, as in PostgreSQL. A commit
      that fails leaves no trace. Times are microseconds from [clock].
    - What a bot of the runner meets (answers, sockets, deadlines, the clock) are events
      that its environment answers as it likes. The theorems speak of the traces of the first
      [n] nodes, for every [n]; a search that outruns its fuel is a tree that never ends.
      When the process is told to stop during a game of the backfill, the game goes on
      beside the deregistration until the end of the process, as Asynq documents.
    - The only fuel is in the loops of [Prelude]'s and [Randutil]'s folds, which
      are structural, and in the loops of the tree search, where [MctsTotal] shows that
      it is enough; [RootAccessPlay.fuel] is a measure, not a bound on runs.
    - The service is wired as cmd/server/main.go does, with timer, producer and
      hub. Task and message delivery do not fail in the model: the code ignores
      and logs those errors. A broadcast is the list of its messages.

    ** Not modelled

    Test doubles and fixtures ([internal/testutil], the scenarios of [api_debug.go]); the
    commands that simulate, migrate or seed ([cmd/simulate], [tools]); the
    wiring of the processes beyond their routers; configuration, metrics, traces and logs;
    the gRPC client of the game server, which forwards; the code that protoc generates;
    the frontend. They are I/O or glue around code that is modelled.
*)
From stdpp Require Export base gmap strings list fin_maps sorting.
From Stdlib Require Export ZArith Lia.

(** ** Fallible computations *)

(** A Go call returning [(T, error)]: either a value or an error. A run-time
    panic (index out of range) is an error value of the component's own error
    type, so that "does not panic" can be stated. *)
Inductive result (E A : Type) : Type :=
  | Ok (a : A)
  | Err (e : E).
Arguments Ok {_ _} _.
Arguments Err {_ _} _.

#[export] Instance result_ret E : MRet (result E) := λ A a, Ok a.
#[export] Instance result_bind E : MBind (result E) := λ A B f r,
  match r with Ok a => f a | Err e => Err e end.
#[export] Instance result_fmap E : FMap (result E) := λ A B f r,
  match r with Ok a => Ok (f a) | Err e => Err e end.

Lemma Ok_inj {E A} (a b : A) : @Ok E A a = Ok b → a = b.
Proof. congruence. Qed.

Definition is_ok {E A} (r : result E A) : bool :=
  match r with Ok _ => true | Err _ => false end.

Lemma result_bind_ok {E A B} (r : result E A) (f : A → result E B) b :
  r ≫= f = Ok b ↔ ∃ a, r = Ok a ∧ f a = Ok b.
Proof. destruct r; cbn; naive_solver. Qed.

Lemma result_bind_err {E A B} (r : result E A) (f : A → result E B) e :
  r ≫= f = Err e ↔ r = Err e ∨ ∃ a, r = Ok a ∧ f a = Err e.
Proof. destruct r; cbn; naive_solver. Qed.

(** ** Machine integers *)

(** Go's [int] and [int64] are 64-bit two's complement; arithmetic wraps. *)
Definition wrap64 (n : Z) : Z := ((n + 2 ^ 63) mod 2 ^ 64 - 2 ^ 63)%Z.

Lemma wrap64_id n : (- 2 ^ 63 ≤ n < 2 ^ 63)%Z → wrap64 n = n.
Proof. intros H. unfold wrap64. rewrite Z.mod_small; lia. Qed.

Lemma wrap64_bounds n : (- 2 ^ 63 ≤ wrap64 n < 2 ^ 63)%Z.
Proof.
  unfold wrap64.
  pose proof (Z.mod_pos_bound (n + 2 ^ 63) (2 ^ 64) ltac:(lia)). lia.
Qed.

(** ** Lists *)

(** Occurrences of an element, the measure in which multisets are compared. *)
Definition occ (c : string) (l : list string) : nat :=
  length (filter (λ x, x = c) l).

Lemma occ_nil c : occ c [] = 0.
Proof. done. Qed.

Lemma occ_cons c x l : occ c (x :: l) = (if decide (x = c) then 1 else 0) + occ c l.
Proof. unfold occ. rewrite filter_cons. by destruct (decide (x = c)). Qed.

Lemma occ_app c l1 l2 : occ c (l1 ++ l2) = occ c l1 + occ c l2.
Proof. unfold occ. by rewrite filter_app, length_app. Qed.

Lemma occ_perm c l1 l2 : l1 ≡ₚ l2 → occ c l1 = occ c l2.
Proof. intros H. unfold occ. by rewrite H. Qed.

Lemma occ_not_elem c l : c ∉ l → occ c l = 0.
Proof.
  induction l as [|x l IH]; [done|]. intros Hn.
  rewrite occ_cons. rewrite not_elem_of_cons in Hn. destruct Hn as [Hx Hl].
  rewrite decide_False by congruence. by rewrite IH.
Qed.

Lemma filter_all {A} (P : A → Prop) `{!∀ x, Decision (P x)} (l : list A) :
  (∀ x, x ∈ l → P x) → filter P l = l.
Proof.
  induction l as [|x l IH]; [done|]. intros Hl.
  rewrite filter_cons_True by (apply Hl; set_solver). f_equal. apply IH. set_solver.
Qed.

Lemma length_ne {A} (l : list A) : 0 < length l → l ≠ [].
Proof. intros H ->. cbn in H. lia. Qed.

(** Sum of a natural-valued measure over a list. *)
Definition sumf {A} (f : A → nat) (l : list A) : nat := list_sum (f <$> l).

Lemma sumf_cons {A} (f : A → nat) x l : sumf f (x :: l) = f x + sumf f l.
Proof. done. Qed.

Lemma sumf_ext {A} (f g : A → nat) l : (∀ x, x ∈ l → f x = g x) → sumf f l = sumf g l.
Proof.
  induction l as [|x l IH]; [done|]. intros H.
  rewrite !sumf_cons, IH, H; [done|set_solver|set_solver].
Qed.

Lemma sumf_zero {A} (l : list A) : sumf (λ _, 0) l = 0.
Proof. induction l as [|x l IH]; [done|]. by rewrite sumf_cons, IH. Qed.

Lemma sumf_le {A} (f g : A → nat) l : (∀ x, x ∈ l → f x ≤ g x) → sumf f l ≤ sumf g l.
Proof.
  induction l as [|x l IH]; [done|]. intros H. rewrite !sumf_cons.
  assert (f x ≤ g x) by (apply H; set_solver).
  assert (sumf f l ≤ sumf g l) by (apply IH; set_solver). lia.
Qed.

Lemma sumf_lt {A} (f g : A → nat) p l :
  (∀ x, x ∈ l → f x ≤ g x) → p ∈ l → f p < g p → sumf f l < sumf g l.
Proof.
  induction l as [|x l IH]; [set_solver|]. intros H Hp Hlt. rewrite !sumf_cons.
  assert (f x ≤ g x) by (apply H; set_solver).
  assert (sumf f l ≤ sumf g l) by (apply sumf_le; set_solver).
  apply elem_of_cons in Hp as [->|Hp]; [lia|].
  assert (sumf f l < sumf g l) by (apply IH; set_solver). lia.
Qed.

Lemma sumf_le_const {A} (f : A → nat) b l :
  (∀ x, x ∈ l → f x ≤ b) → sumf f l ≤ length l * b.
Proof.
  induction l as [|x l IH]; [done|]. intros H. rewrite sumf_cons. cbn.
  assert (f x ≤ b) by (apply H; set_solver).
  assert (sumf f l ≤ length l * b) by (apply IH; set_solver). lia.
Qed.

(** Changing the measure at one member of a duplicate-free list changes the
    sum by the difference there. *)
Lemma sumf_update {A} (f g : A → nat) (p : A) l :
  NoDup l → p ∈ l → (∀ x, x ∈ l → x ≠ p → f x = g x) →
  sumf f l + g p = sumf g l + f p.
Proof.
  induction 1 as [|x l Hx Hnd IH]; [set_solver|]. intros Hp Heq.
  rewrite !sumf_cons. apply elem_of_cons in Hp as [->|Hp].
  - rewrite (sumf_ext f g l); [lia|]. intros y Hy. apply Heq; set_solver.
  - assert (x ≠ p) by set_solver.
    rewrite (Heq x) by set_solver.
    assert (∀ y, y ∈ l → y ≠ p → f y = g y) as Hl by (intros; apply Heq; set_solver).
    specialize (IH Hp Hl). lia.
Qed.

(** ** Maps *)

Lemma alter_compose {K V} `{Countable K} (f g : V → V) (m : gmap K V) k :
  alter (f ∘ g) k m = alter f k (alter g k m).
Proof.
  apply map_eq. intros k'. destruct (decide (k = k')) as [<-|Hne].
  - rewrite !lookup_alter_eq. by destruct (m !! k).
  - by rewrite !lookup_alter_ne.
Qed.

(** ** Automation *)

Create HintDb recess discriminated.

(** Decide string inequalities between literals and close the rest. *)
Ltac neq := solve [discriminate | done | congruence].
