(* ===== verification/Json.v ===== *)
(** Go's dynamically typed values ([any]) as they occur in [engine.GameState.Data]
    and [engine.Move.Payload], the JSON round trip of the standard library, and
    [engine.DeepCopyData] (services/game-server/internal/domain/engine/state.go).

    Strings stand for Go strings holding valid UTF-8, on which encoding/json is
    the identity. A nil slice and an empty slice are not distinguished: every
    accessor of the games treats them alike. *)
From S2P Require Import Prelude.
From Stdlib Require Import Floats.SpecFloat.

(** ** float64 *)

(** IEEE 754 binary64, as the pure specification floats of the Standard Library. *)
Definition float64 : Type := spec_float.

(** [float64(n)]: round to nearest even. Also what [json.Unmarshal] produces for
    the literal that [json.Marshal] writes for the int [n]. *)
Definition float64_of_int (n : Z) : float64 := binary_normalize 53 1024 n 0 false.

(** [int(f)]: truncation towards zero; the result for a value that does not fit
    is left to the implementation by the Go specification, amd64 gives the
    smallest int64. *)
Definition int_of_float64 (f : float64) : Z :=
  match f with
  | S754_zero _ => 0
  | S754_finite s m e =>
      let a := if (0 <=? e)%Z then (Z.pos m * 2 ^ e)%Z else (Z.pos m / 2 ^ (- e))%Z in
      let v := if s then (- a)%Z else a in
      if ((- 2 ^ 63 <=? v) && (v <? 2 ^ 63))%Z then v else (- 2 ^ 63)%Z
  | _ => (- 2 ^ 63)%Z
  end.

Definition float64_finite (f : float64) : bool :=
  match f with S754_zero _ | S754_finite _ _ _ => true | _ => false end.

Lemma digits2_shift k p : digits2_pos (Pos.iter xO p k) = (k + digits2_pos p)%positive.
Proof.
  induction k using Pos.peano_ind; [cbn; lia|].
  rewrite Pos.iter_succ. cbn. rewrite IHk. lia.
Qed.

Lemma shift_pos_Z k p : Z.pos (Pos.iter xO p k) = (Z.pos p * 2 ^ Z.pos k)%Z.
Proof.
  induction k using Pos.peano_ind; [cbn; lia|].
  rewrite Pos.iter_succ, Pos2Z.inj_xO, IHk, Pos2Z.inj_succ, Z.pow_succ_r; lia.
Qed.

Lemma digits2_pos_lower p : (2 ^ (Z.pos (digits2_pos p) - 1) ≤ Z.pos p)%Z.
Proof.
  induction p as [p IH|p IH|]; cbn [digits2_pos]; [| |done].
  all: rewrite Pos2Z.inj_succ.
  all: replace (Z.succ (Z.pos (digits2_pos p)) - 1)%Z
      with (Z.succ (Z.pos (digits2_pos p) - 1))%Z by lia.
  all: rewrite Z.pow_succ_r by lia; lia.
Qed.

Lemma digits2_pos_le53 p : (Z.pos p < 2 ^ 53)%Z → (digits2_pos p ≤ 53)%positive.
Proof.
  intros H. pose proof (digits2_pos_lower p) as Hl.
  destruct (decide (digits2_pos p ≤ 53)%positive); [done|].
  assert (2 ^ 53 ≤ 2 ^ (Z.pos (digits2_pos p) - 1))%Z by (apply Z.pow_le_mono_r; lia).
  lia.
Qed.

(** A mantissa that already has 53 digits at its exponent is left alone. *)
Lemma round_aux_exact sx m e :
  (- 1074 ≤ e ≤ 971)%Z → digits2_pos m = 53%positive →
  binary_round_aux 53 1024 sx (Z.pos m) e loc_Exact = S754_finite sx m e.
Proof.
  intros He Hd. unfold binary_round_aux, shr_fexp.
  assert (fexp 53 1024 (Zdigits2 (Z.pos m) + e) - e = 0)%Z as ->.
  { cbn [Zdigits2]. rewrite Hd. unfold fexp, emin. lia. }
  cbn [shr shr_record_of_loc shr_m loc_of_shr_record round_nearest_even].
  assert (fexp 53 1024 (Zdigits2 (Z.pos m) + e) - e = 0)%Z as ->.
  { cbn [Zdigits2]. rewrite Hd. unfold fexp, emin. lia. }
  cbn [shr shr_record_of_loc shr_m].
  replace (e <=? 1024 - 53)%Z with true by lia. done.
Qed.

Lemma binary_round_int sx p :
  (Z.pos p < 2 ^ 53)%Z →
  ∃ m e, binary_round 53 1024 sx p 0 = S754_finite sx m e ∧
         (e ≤ 0)%Z ∧ Z.pos m = (Z.pos p * 2 ^ (- e))%Z.
Proof.
  intros Hp. pose proof (digits2_pos_le53 p Hp) as Hd.
  unfold binary_round, shl_align.
  assert (fexp 53 1024 (Z.pos (digits2_pos p) + 0) - 0 = Z.pos (digits2_pos p) - 53)%Z as Hf
    by (unfold fexp, emin; lia).
  destruct (decide (digits2_pos p = 53)%positive) as [H53|H53].
  - exists p, 0%Z. rewrite Hf. rewrite H53. cbn [Z.sub].
    split; [by apply round_aux_exact; [lia|]|]. rewrite Z.pow_0_r. lia.
  - set (k := (53 - digits2_pos p)%positive).
    assert (Z.pos (digits2_pos p) - 53 = Z.neg k)%Z as Hk by (unfold k; lia).
    exists (Pos.iter xO p k), (Z.neg k).
    rewrite Hf, Hk.
    replace (fexp 53 1024 (Z.pos (digits2_pos p) + 0)) with (Z.neg k) by lia.
    split; [|split; [lia|]].
    + apply round_aux_exact; [unfold k; lia|]. rewrite digits2_shift. unfold k. lia.
    + rewrite shift_pos_Z. done.
Qed.

(** Every integer below 2^53 in absolute value survives the trip through a
    JSON number. *)
Lemma int_float64_int n : (Z.abs n < 2 ^ 53)%Z → int_of_float64 (float64_of_int n) = n.
Proof.
  intros Hn. unfold float64_of_int, binary_normalize.
  assert (∀ sx p, (Z.pos p < 2 ^ 53)%Z →
    int_of_float64 (binary_round 53 1024 sx p 0) = if sx then Z.neg p else Z.pos p) as Hr.
  { intros sx p Hp. destruct (binary_round_int sx p Hp) as (m & e & -> & He & Hm).
    cbn [int_of_float64].
    assert ((if (0 <=? e)%Z then (Z.pos m * 2 ^ e)%Z else (Z.pos m / 2 ^ (- e))%Z) = Z.pos p) as ->.
    { destruct (0 <=? e)%Z eqn:E.
      - assert (e = 0)%Z as -> by lia. lia.
      - rewrite Hm. apply Z.div_mul. apply Z.pow_nonzero; lia. }
    destruct sx; [|].
    - replace (_ && _) with true by lia. done.
    - replace (_ && _) with true by lia. done. }
  destruct n as [|p|p]; [done| |]; rewrite Hr by lia; done.
Qed.

Lemma float64_of_int_finite n : (Z.abs n < 2 ^ 53)%Z → float64_finite (float64_of_int n) = true.
Proof.
  intros Hn. destruct n as [|p|p]; [done| |];
    cbn [float64_of_int binary_normalize];
    destruct (binary_round_int false p ltac:(lia)) as (m1 & e1 & E1 & _);
    destruct (binary_round_int true p ltac:(lia)) as (m2 & e2 & E2 & _).
  - unfold float64_of_int, binary_normalize. by rewrite E1.
  - unfold float64_of_int, binary_normalize. by rewrite E2.
Qed.

(** ** Dynamically typed values *)

(** The dynamic types that occur behind [any] in the states and payloads of the
    games. [Slice] and [Map] are the only ones [json.Unmarshal] produces. *)
Inductive any : Type :=
  | Nil
  | Bool (b : bool)
  | Int (n : Z)                                  (* int *)
  | Float (f : float64)                          (* float64 *)
  | Str (s : string)                             (* string *)
  | Strs (l : list string)                       (* []string *)
  | Arr9 (l : list string)                       (* [9]string *)
  | Cards (l : list string)                      (* []CardName *)
  | Discards (l : list (string * string))        (* []discardEntry *)
  | Slice (l : list any)                         (* []any *)
  | Map (m : gmap string any)                    (* map[string]any *)
  | MapStr (m : gmap string string)              (* map[string]string *)
  | MapInt (m : gmap string Z)                   (* map[string]int *)
  | MapStrs (m : gmap string (list string)).     (* map[string][]string *)

Abbreviation data := (gmap string any).

(** What [json.Unmarshal] makes of what [json.Marshal] writes for a value. *)
Fixpoint json_rt (v : any) : any :=
  match v with
  | Nil => Nil
  | Bool b => Bool b
  | Int n => Float (float64_of_int n)
  | Float f => Float f
  | Str s => Str s
  | Strs l | Arr9 l | Cards l => Slice (Str <$> l)
  | Discards l =>
      Slice ((λ e : string * string,
        Map (<["player_id" := Str e.1]> {["card" := Str e.2]})) <$> l)
  | Slice l => Slice (json_rt <$> l)
  | Map m => Map (json_rt <$> m)
  | MapStr m => Map (Str <$> m)
  | MapInt m => Map ((λ n, Float (float64_of_int n)) <$> m)
  | MapStrs m => Map ((λ l, Slice (Str <$> l)) <$> m)
  end.

(** [json.Marshal] fails on NaN and the infinities, and on nothing else here. *)
Fixpoint json_ok (v : any) : bool :=
  match v with
  | Float f => float64_finite f
  | Slice l => forallb json_ok l
  | Map m => map_fold (λ _ v b, json_ok v && b) true m
  | _ => true
  end.

(** [engine.DeepCopyData]: the round trip, or the original when marshalling fails. *)
Definition DeepCopyData (d : data) : data :=
  if json_ok (Map d) then json_rt <$> d else d.

(** ** Induction over nested values *)

Fixpoint any_size (v : any) : nat :=
  match v with
  | Slice l => S (list_sum (any_size <$> l))
  | Map m => S (map_fold (λ _ v n, any_size v + n) 0 m)
  | _ => 1
  end.

Lemma any_size_map_subterm (m : data) k v :
  m !! k = Some v → any_size v < any_size (Map m).
Proof.
  cbn [any_size]. intros Hk.
  rewrite (map_fold_delete_L _ _ k v m); [|intros; cbn; lia|done]. lia.
Qed.

Lemma any_size_slice_subterm (l : list any) v : v ∈ l → any_size v < any_size (Slice l).
Proof.
  cbn [any_size]. induction l as [|x l IH]; [set_solver|].
  change (list_sum (any_size <$> x :: l)) with (any_size x + list_sum (any_size <$> l)).
  intros [->|H]%elem_of_cons; [lia|]. specialize (IH H). lia.
Qed.

Lemma any_rect_nested (P : any → Prop) :
  (∀ v, (∀ l, v ≠ Slice l) → (∀ m, v ≠ Map m) → P v) →
  (∀ l, (∀ v, v ∈ l → P v) → P (Slice l)) →
  (∀ m : data, map_Forall (λ _, P) m → P (Map m)) →
  ∀ v, P v.
Proof.
  intros Hb Hs Hm v. remember (any_size v) as n eqn:Hn. revert v Hn.
  induction (lt_wf n) as [n _ IH]; intros v ->.
  destruct v as [|?|?|?|?|?|?|?|?|l|m|?|?|?]; try (apply Hb; discriminate).
  - apply Hs. intros v Hv. eapply IH; [|done]. by apply any_size_slice_subterm.
  - apply Hm. intros k v Hv. eapply IH; [|done]. by eapply any_size_map_subterm.
Qed.

(** ** The round trip *)

(** Once through JSON is as good as twice. *)
Lemma json_rt_idem v : json_rt (json_rt v) = json_rt v.
Proof.
  induction v as [v Hs Hm|l IH|m IH] using any_rect_nested.
  - destruct v as [|?|?|?|?|?|?|?|l|l|m|m|m|m]; cbn [json_rt]; try done;
      try (by destruct (Hs l)); try (by destruct (Hm m)).
    1-3: f_equal; rewrite <- list_fmap_compose; by apply list_fmap_ext.
    + f_equal. rewrite <- list_fmap_compose. apply list_fmap_ext. intros i [a b] _. cbn.
      by rewrite fmap_insert, map_fmap_singleton.
    + f_equal. rewrite <- map_fmap_compose. by apply map_fmap_ext.
    + f_equal. rewrite <- map_fmap_compose. by apply map_fmap_ext.
    + f_equal. rewrite <- map_fmap_compose. apply map_fmap_ext. intros i l _. cbn.
      f_equal. rewrite <- list_fmap_compose. by apply list_fmap_ext.
  - cbn. f_equal. rewrite <- list_fmap_compose. apply list_fmap_ext.
    intros i v Hv. apply IH. by eapply list_elem_of_lookup_2.
  - cbn. f_equal. rewrite <- map_fmap_compose. apply map_fmap_ext. intros k v Hv. by apply (IH k).
Qed.

Lemma json_ok_map (m : data) : json_ok (Map m) = true ↔ map_Forall (λ _ v, json_ok v = true) m.
Proof.
  cbn [json_ok]. induction m as [|k v m Hk Hf IH] using map_first_key_ind.
  - rewrite map_fold_empty. split; [intros _; apply map_Forall_empty|done].
  - rewrite map_fold_insert_first_key by done.
    rewrite andb_true_iff, map_Forall_insert by done. by rewrite IH.
Qed.

Lemma json_ok_slice (l : list any) : json_ok (Slice l) = true ↔ ∀ v, v ∈ l → json_ok v = true.
Proof.
  cbn [json_ok]. rewrite forallb_forall. split; intros H v Hv; apply H;
    by apply list_elem_of_In.
Qed.
