(* ===== verification/Float64.v ===== *)
(** Arithmetic and comparison of Go's float64, IEEE 754 binary64 with rounding to
    nearest even, on the specification floats of the Standard Library. *)
From S2P Require Import Prelude Json.
From Stdlib Require Import Floats.SpecFloat.

Module Float64.

Abbreviation f64 := spec_float.
Definition fadd : f64 → f64 → f64 := SFadd 53 1024.
Definition fsub : f64 → f64 → f64 := SFsub 53 1024.
Definition fmul : f64 → f64 → f64 := SFmul 53 1024.
Definition fdiv : f64 → f64 → f64 := SFdiv 53 1024.
Definition fsqrt : f64 → f64 := SFsqrt 53 1024.
Definition flt (x y : f64) : bool := match SFcompare x y with Some Lt => true | _ => false end.
Definition fle (x y : f64) : bool := match SFcompare x y with Some (Lt | Eq) => true | _ => false end.
Definition f_of_Z (n : Z) : f64 := float64_of_int n.

(** A decimal literal with [k] digits after the point: the quotient of two exact
    integers is rounded once, as the compiler rounds the literal. *)
Definition f_dec (n : Z) (k : nat) : f64 := fdiv (f_of_Z n) (f_of_Z (10 ^ Z.of_nat k)).

(** [math.Inf(1)] *)
Definition f_inf : f64 := S754_infinity false.

Lemma SFcompare_antisym x y : SFcompare x y = Some Lt → SFcompare y x = Some Gt.
Proof.
  destruct x as [[]|[]| |[] m e], y as [[]|[]| |[] m' e']; cbn; try done;
    rewrite (Z.compare_antisym e e'); destruct (e ?= e')%Z; cbn; try done;
    change (Pos.compare_cont Eq m' m) with (m' ?= m)%positive;
    change (Pos.compare_cont Eq m m') with (m ?= m')%positive;
    rewrite (Pos.compare_antisym m m'); destruct (m ?= m')%positive; done.
Qed.

Lemma flt_asym x y : flt x y = true → flt y x = false.
Proof.
  unfold flt. destruct (SFcompare x y) as [[]|] eqn:Hc; try done. by rewrite (SFcompare_antisym _ _ Hc).
Qed.

Lemma flt_spec x y : flt x y = true ↔ SFcompare x y = Some Lt.
Proof. unfold flt. by destruct (SFcompare x y) as [[]|]. Qed.

(** Finite numbers of one sign are ordered by exponent and mantissa. *)
Definition below (e : Z) (m : positive) (e' : Z) (m' : positive) : Prop :=
  (e < e')%Z ∨ e = e' ∧ (m < m')%positive.

Lemma SFcompare_finite s m e m' e' :
  SFcompare (S754_finite s m e) (S754_finite s m' e') = Some Lt ↔
  if s then below e' m' e m else below e m e' m'.
Proof.
  unfold below. cbn. change (Pos.compare_cont Eq m m') with (m ?= m')%positive.
  destruct s, (Z.compare_spec e e'), (Pos.compare_spec m m'); cbn; split; try done; subst; lia.
Qed.

Lemma flt_trans x y z : flt x y = true → flt y z = true → flt x z = true.
Proof.
  rewrite !flt_spec.
  destruct x as [[]|[]| |[] m e], y as [[]|[]| |[] m' e'], z as [[]|[]| |[] m'' e'']; try done;
    rewrite !SFcompare_finite; unfold below; lia.
Qed.

End Float64.
