(* ===== verification/Engine.v ===== *)
(** The game engine's core types (services/game-server/internal/domain/engine):
    players, moves, states, results, the [Game] plugin interface with its
    optional interfaces, lobby settings, and the plugin registry
    (services/game-server/games/registry.go). *)
From S2P Require Import Prelude Json.

(** ** Core data (engine/game.go) *)

Record Player := mkPlayer { Player_ID : string; Username : string }.

Record Move := mkMove { Move_PlayerID : string; Payload : data; Timestamp : Z }.

Record GameState := mkState { CurrentPlayerID : string; Data : data }.

Definition ResultWin : string := "win".
Definition ResultDraw : string := "draw".

(** [engine.Result]; the zero value has an empty status. *)
Record Result := mkResult { Status : string; WinnerID : option string; EndedBy : string }.

Definition zeroResult : Result := mkResult "" None "".

(** An error value: the format string of the call site with its arguments, or a
    run-time panic. *)
Inductive gerror : Type :=
  | GErr (format : string) (args : list string)
  | GPanic (what : string).

Definition is_panic (e : gerror) : bool :=
  match e with GPanic _ => true | _ => false end.

Definition index_out_of_range : gerror := GPanic "index out of range".

(** A slice index, which panics out of range. *)
Definition index {A} (l : list A) (i : nat) : result gerror A :=
  match l !! i with Some a => Ok a | None => Err index_out_of_range end.

(** [state.Data[k] = v] and [delete(state.Data, k)]. *)
Definition setData (k : string) (v : any) (st : GameState) : GameState :=
  mkState (CurrentPlayerID st) (<[k := v]> (Data st)).

Definition delData (k : string) (st : GameState) : GameState :=
  mkState (CurrentPlayerID st) (delete k (Data st)).

Definition setCurrent (p : string) (st : GameState) : GameState :=
  mkState p (Data st).

(** What the runtime persists and reloads: the JSON of a state, decoded again. *)
Definition reload (st : GameState) : GameState :=
  mkState (CurrentPlayerID st) (json_rt <$> Data st).

(** ** Lobby settings (engine/lobby_settings.go) *)

Definition SettingTypeSelect : string := "select".
Definition SettingTypeInt : string := "int".

Record SettingOption := mkOption { Value : string; OptLabel : string }.

Record LobbySetting := mkSetting {
  Key : string;
  Label : string;
  Description : string;
  Type_ : string;
  Default : string;
  Options : list SettingOption;
  Min : option Z;
  Max : option Z
}.

Definition DefaultLobbySettings : list LobbySetting := [
  mkSetting "room_visibility" "Visibility"
    "Public rooms appear in the lobby list. Private rooms are hidden — only joinable by code."
    SettingTypeSelect "public"
    [mkOption "public" "Public"; mkOption "private" "Private"] None None;
  mkSetting "allow_spectators" "Spectators"
    "Allow other players to watch the game without participating."
    SettingTypeSelect "no"
    [mkOption "no" "Not allowed"; mkOption "yes" "Allowed"] None None;
  mkSetting "first_mover_policy" "First move"
    "Who takes the first turn at the start of a game."
    SettingTypeSelect "random"
    [mkOption "random" "Random"; mkOption "fixed" "Fixed seat";
     mkOption "game_default" "Decided by the game"] None None;
  mkSetting "first_mover_seat" "First mover seat"
    "Which seat goes first when policy is set to Fixed seat (0 = host)."
    SettingTypeInt "0" [] (Some 0%Z) None;
  mkSetting "rematch_first_mover_policy" "Rematch first move"
    "Who takes the first turn on rematches."
    SettingTypeSelect "random"
    [mkOption "random" "Random"; mkOption "fixed" "Fixed seat";
     mkOption "game_default" "Decided by the game";
     mkOption "winner_first" "Winner goes first"; mkOption "loser_first" "Loser goes first";
     mkOption "winner_chooses" "Winner chooses"; mkOption "loser_chooses" "Loser chooses"]
    None None
].

(** ** The plugin interface *)

(** A value of interface type [engine.Game], with the optional interfaces
    ([StateFilter], [TurnTimeoutHandler], [LobbySettingsProvider]) it implements.
    [Init] takes the outcome of the cryptographic draw it makes ([None]: the
    random source failed). *)
Record Game := mkGame {
  ID : string;
  Name : string;
  MinPlayers : Z;
  MaxPlayers : Z;
  Init : option Z → list Player → result gerror GameState;
  ValidateMove : GameState → Move → result gerror unit;
  ApplyMove : GameState → Move → result gerror GameState;
  IsOver : GameState → bool * Result;
  FilterState : option (GameState → string → GameState);
  TimeoutMove : option (string → data);
  LobbySettings : option (list LobbySetting)
}.

(** ** The plugin registry (games/registry.go) *)

Abbreviation registry := (gmap string Game).

(** [games.Register] panics when the ID is taken. *)
Definition Register (g : Game) (r : registry) : result gerror registry :=
  match r !! ID g with
  | Some _ => Err (GPanic "game already registered")
  | None => Ok (<[ID g := g]> r)
  end.

(** [games.Get] *)
Definition Get (id : string) (r : registry) : result gerror Game :=
  match r !! id with
  | Some g => Ok g
  | None => Err (GErr "game not found: %s" [id])
  end.
