(* ===== verification/Randutil.v ===== *)
(** Shuffling (shared/platform/randutil): the Fisher-Yates shuffle over an
    explicit source of random numbers. *)
From S2P Require Import Prelude.

(** The deterministic generator of math/rand: a state made from a seed, and
    [Intn], which the package documents to return a value in [0, n). *)
Class PRNG := {
  rng : Type;
  NewSource : Z → rng;
  Intn : rng → Z → Z * rng;
  Intn_range : ∀ r n, (0 < n)%Z → (0 ≤ (Intn r n).1 < n)%Z
}.

(** [out[i], out[j] = out[j], out[i]] *)
Definition swap {A} (i j : nat) (l : list A) : list A :=
  match l !! i, l !! j with
  | Some a, Some b => <[j := a]> (<[i := b]> l)
  | _, _ => l
  end.

(** The body of the loop [for i := len(out)-1; i > 0; i--]. *)
Fixpoint shuffle_loop `{PRNG} {A} (i : nat) (out : list A) (r : rng) : list A :=
  match i with
  | O => out
  | S i' =>
      let '(j, r') := Intn r (Z.of_nat i + 1) in
      shuffle_loop i' (swap i (Z.to_nat j) out) r'
  end.

(** [randutil.ShuffleWith] *)
Definition ShuffleWith `{PRNG} {A} (s : list A) (r : rng) : list A :=
  shuffle_loop (length s - 1) s r.

(** ** The cryptographic source *)

(** [crypto/rand.Int]: [None] when the reader fails, otherwise a value
    documented to lie in [0, max). *)
Class Entropy := {
  entropy : Type;
  rand_Int : entropy → Z → option Z * entropy;
  rand_Int_range : ∀ e n v, (0 < n)%Z → (rand_Int e n).1 = Some v → (0 ≤ v < n)%Z
}.

Inductive rand_error := ErrInvalidBound | ErrEmptySlice | ErrSource.

(** [randutil.Intn] *)
Definition crypto_Intn `{Entropy} (n : Z) (e : entropy) : result rand_error Z * entropy :=
  if (n <=? 0)%Z then (Err ErrInvalidBound, e)
  else match rand_Int e n with
       | (Some v, e') => (Ok v, e')
       | (None, e') => (Err ErrSource, e')
       end.

Fixpoint crypto_shuffle_loop `{Entropy} {A} (i : nat) (out : list A) (e : entropy)
    : result rand_error (list A) * entropy :=
  match i with
  | O => (Ok out, e)
  | S i' =>
      match crypto_Intn (Z.of_nat i + 1) e with
      | (Ok j, e') => crypto_shuffle_loop i' (swap i (Z.to_nat j) out) e'
      | (Err x, e') => (Err x, e')
      end
  end.

(** [randutil.Shuffle] *)
Definition Shuffle `{Entropy} {A} (s : list A) (e : entropy) : result rand_error (list A) * entropy :=
  crypto_shuffle_loop (length s - 1) s e.

(** [randutil.Pick] *)
Definition Pick `{Entropy} {A} (s : list A) (e : entropy) : result rand_error A * entropy :=
  match s with
  | [] => (Err ErrEmptySlice, e)
  | _ =>
      match crypto_Intn (Z.of_nat (length s)) e with
      | (Ok i, e') =>
          match s !! Z.to_nat i with
          | Some a => (Ok a, e')
          | None => (Err ErrSource, e')   (* index below [length s]: not reached *)
          end
      | (Err x, e') => (Err x, e')
      end
  end.

(** ** Lemmas *)

Lemma swap_perm {A} i j (l : list A) : swap i j l ≡ₚ l.
Proof.
  unfold swap. destruct (l !! i) as [a|] eqn:Hi; [|done].
  destruct (l !! j) as [b|] eqn:Hj; [|done].
  by apply Permutation_insert_swap.
Qed.

Lemma shuffle_loop_perm `{PRNG} {A} i (l : list A) r : shuffle_loop i l r ≡ₚ l.
Proof.
  revert l r. induction i as [|i IH]; intros l r; [done|]. cbn [shuffle_loop].
  destruct (Intn _ _) as [j r']. rewrite IH. apply swap_perm.
Qed.

Lemma ShuffleWith_perm `{PRNG} {A} (l : list A) r : ShuffleWith l r ≡ₚ l.
Proof. apply shuffle_loop_perm. Qed.

Lemma crypto_shuffle_loop_perm `{Entropy} {A} i (l l' : list A) e e' :
  crypto_shuffle_loop i l e = (Ok l', e') → l' ≡ₚ l.
Proof.
  revert l e. induction i as [|i IH]; intros l e Hs; cbn in Hs; [by simplify_eq|].
  destruct (crypto_Intn _ e) as [[j|x] e''] eqn:E; [|done].
  rewrite (IH _ _ Hs). apply swap_perm.
Qed.

Lemma Shuffle_perm `{Entropy} {A} (l l' : list A) e e' :
  Shuffle l e = (Ok l', e') → l' ≡ₚ l.
Proof. apply crypto_shuffle_loop_perm. Qed.

Lemma crypto_Intn_range `{Entropy} n v e e' : crypto_Intn n e = (Ok v, e') → (0 ≤ v < n)%Z.
Proof.
  unfold crypto_Intn. destruct (n <=? 0)%Z eqn:E; [done|].
  destruct (rand_Int e n) as [[w|] e''] eqn:E'; [|done]. intros [= -> ->].
  eapply rand_Int_range; [lia|by rewrite E'].
Qed.
