(* ===== verification/RootAccess.v ===== *)
(** The Root Access card game (services/game-server/games/rootaccess):
    cards, the accessors over the dynamically typed state, the card effects,
    turn advancement, round resolution, move validation and view filtering.
    The definitions follow rootaccess.go function by function. *)
From S2P Require Import Prelude Json Engine Randutil.

Module RootAccess.

(** ** Cards (rootaccess_cards.go) *)

Definition CardBackdoor : string := "backdoor".
Definition CardPing : string := "ping".
Definition CardSniffer : string := "sniffer".
Definition CardBufferOverflow : string := "buffer_overflow".
Definition CardFirewall : string := "firewall".
Definition CardReboot : string := "reboot".
Definition CardDebugger : string := "debugger".
Definition CardSwap : string := "swap".
Definition CardEncryptedKey : string := "encrypted_key".
Definition CardRoot : string := "root".
Definition CardPenaltyLose : string := "penalty_lose".

Definition cardValues : gmap string Z := list_to_map [
  (CardBackdoor, 0%Z); (CardPing, 1%Z); (CardSniffer, 2%Z); (CardBufferOverflow, 3%Z);
  (CardFirewall, 4%Z); (CardReboot, 5%Z); (CardDebugger, 6%Z); (CardSwap, 7%Z);
  (CardEncryptedKey, 8%Z); (CardRoot, 9%Z)].

Definition cardValue (c : string) : Z := default (-1)%Z (cardValues !! c).

Definition deckComposition : list string := [
  CardBackdoor; CardBackdoor;
  CardPing; CardPing; CardPing; CardPing; CardPing; CardPing;
  CardSniffer; CardSniffer;
  CardBufferOverflow; CardBufferOverflow;
  CardFirewall; CardFirewall;
  CardReboot; CardReboot;
  CardDebugger; CardDebugger;
  CardSwap;
  CardEncryptedKey;
  CardRoot].

Definition buildDeck : list string := deckComposition.

Definition allNonPingCards : list string := [
  CardBackdoor; CardSniffer; CardBufferOverflow; CardFirewall; CardReboot;
  CardDebugger; CardSwap; CardEncryptedKey; CardRoot].

Definition isValidGuess (c : string) : bool := bool_decide (c ∈ allNonPingCards).

Definition tokensToWin (playerCount : Z) : Z :=
  if (playerCount =? 2)%Z then 7
  else if (playerCount =? 3)%Z then 5
  else if (playerCount =? 4)%Z then 4
  else 3.

(** ** Phases *)

Definition gameID : string := "rootaccess".
Definition phasePlaying : string := "playing".
Definition phaseDebuggerPending : string := "debugger_pending".
Definition phaseRoundOver : string := "round_over".
Definition phaseGameOver : string := "game_over".

(** ** Data accessors *)

Definition getString (d : data) (key : string) : string :=
  match d !! key with Some (Str s) => s | _ => "" end.

Definition getInt (d : data) (key : string) : Z :=
  match d !! key with
  | Some (Int v) => v
  | Some (Float v) => int_of_float64 v
  | _ => 0
  end.

(** The strings among the items of a [[]any]. *)
Definition stringItems (l : list any) : list string :=
  omap (λ v, match v with Str s => Some s | _ => None end) l.

Definition getStringSlice (d : data) (key : string) : list string :=
  match d !! key with
  | None => []
  | Some (Strs v) => v
  | Some (Slice v) => stringItems v
  | Some _ => []
  end.

Definition toStringSlice (v : any) : list string :=
  match v with
  | Strs l => l
  | Slice l => stringItems l
  | _ => []
  end.

Definition getHands (d : data) : gmap string (list string) :=
  match d !! "hands" with
  | None => ∅
  | Some (MapStrs v) => v
  | Some (Map v) => toStringSlice <$> v
  | Some _ => ∅
  end.

Definition getDiscardPiles (d : data) : gmap string (list string) :=
  match d !! "discard_piles" with
  | None => ∅
  | Some (MapStrs v) => v
  | Some (Map v) => toStringSlice <$> v
  | Some _ => ∅
  end.

Definition getTokens (d : data) : gmap string Z :=
  match d !! "tokens" with
  | None => ∅
  | Some (MapInt v) => v
  | Some (Map v) =>
      omap (λ n, match n with
                 | Int n => Some n
                 | Float f => Some (int_of_float64 f)
                 | _ => None
                 end) v
  | Some _ => ∅
  end.

Definition getStringFromPayload (payload : data) (key : string) : string :=
  match payload !! key with Some (Str s) => s | _ => "" end.

Definition getCardFromPayload (payload : data) (key : string) : string :=
  match payload !! key with Some (Str s) => s | _ => "" end.

Definition getCardSliceFromPayload (payload : data) (key : string) : list string :=
  match payload !! key with
  | None => []
  | Some (Cards v) => v
  | Some (Strs v) => v
  | Some (Slice v) => stringItems v
  | Some _ => []
  end.

(** [discardEntry], as (PlayerID, Card). *)
Definition getDiscardOrder (d : data) : list (string * string) :=
  match d !! "discard_order" with
  | None => []
  | Some (Discards v) => v
  | Some (Slice v) =>
      omap (λ item, match item with
        | Map entry => Some (getString entry "player_id", getString entry "card")
        | _ => None
        end) v
  | Some _ => []
  end.

(** ** Serialization helpers *)

Definition handsToAny (hands : gmap string (list string)) : any := Map (Strs <$> hands).

Definition discardPilesToAny (piles : gmap string (list string)) : any := Map (Strs <$> piles).

Definition discardOrderToAny (order : list (string * string)) : any :=
  Slice ((λ e : string * string,
    Map (<["player_id" := Str e.1]> {["card" := Str e.2]})) <$> order).

Definition tokensToAny (tokens : gmap string Z) : any := Map (Int <$> tokens).

(** ** Misc helpers *)

Definition containsCard (hand : list string) (card : string) : bool := bool_decide (card ∈ hand).

Definition containsString (ss : list string) (s : string) : bool := bool_decide (s ∈ ss).

Definition appendUnique (ss : list string) (s : string) : list string :=
  if containsString ss s then ss else ss ++ [s].

(** A map lookup with the zero value of a slice. *)
Definition handOf (m : gmap string (list string)) (p : string) : list string :=
  default [] (m !! p).

(** The first element, [hand[0]], where the code has checked [len(hand) > 0]. *)
Definition firstCard (hand : list string) : string := default "" (head hand).

(** ** State mutation helpers *)

Definition drawCard (st : GameState) (playerID : string) : result gerror (GameState * string) :=
  match getStringSlice (Data st) "deck" with
  | [] => Err (GErr "deck is empty" [])
  | card :: deck =>
      let st := setData "deck" (Strs deck) st in
      let hands := getHands (Data st) in
      let hands := <[playerID := handOf hands playerID ++ [card]]> hands in
      Ok (setData "hands" (handsToAny hands) st, card)
  end.

(** The hand without the first occurrence of the card. *)
Fixpoint removeFirst (card : string) (hand : list string) : list string :=
  match hand with
  | [] => []
  | c :: rest => if decide (c = card) then rest else c :: removeFirst card rest
  end.

Definition removeFromHand (st : GameState) (playerID card : string) : GameState :=
  let hands := getHands (Data st) in
  let newHand := removeFirst card (handOf hands playerID) in
  setData "hands" (handsToAny (<[playerID := newHand]> hands)) st.

Definition appendDiscard (st : GameState) (playerID card : string) : GameState :=
  let piles := getDiscardPiles (Data st) in
  let piles := <[playerID := handOf piles playerID ++ [card]]> piles in
  let st := setData "discard_piles" (discardPilesToAny piles) st in
  let order := getDiscardOrder (Data st) ++ [(playerID, card)] in
  setData "discard_order" (discardOrderToAny order) st.

Definition eliminatePlayer (st : GameState) (playerID : string) : GameState :=
  let eliminated := getStringSlice (Data st) "eliminated" in
  let st := setData "eliminated" (Strs (appendUnique eliminated playerID)) st in
  let hands := getHands (Data st) in
  let hand := handOf hands playerID in
  let st := foldl (λ st c, appendDiscard st playerID c) st hand in
  let st := setData "hands" (handsToAny (<[playerID := []]> hands)) st in
  foldl (λ st c,
    if decide (c = CardBackdoor) then
      setData "backdoor_played_by"
        (Strs (appendUnique (getStringSlice (Data st) "backdoor_played_by") playerID)) st
    else st) st hand.

Definition activePlayers (st : GameState) : list string :=
  let players := getStringSlice (Data st) "players" in
  let eliminated := getStringSlice (Data st) "eliminated" in
  filter (λ id, id ∉ eliminated) players.

(** The index of the first occurrence, 0 when absent. *)
Definition indexOr0 (players : list string) (p : string) : nat :=
  default 0 (fst <$> list_find (λ id, id = p) players).

Definition nextActivePlayer (st : GameState) (currentPlayer : string) : string :=
  let players := getStringSlice (Data st) "players" in
  let active := activePlayers st in
  match active with
  | [] => currentPlayer
  | a0 :: _ =>
      let idx := indexOr0 players currentPlayer in
      let candidates :=
        omap (λ i, players !! ((idx + i) mod length players)) (seq 1 (length players)) in
      match list_find (λ c, c ∈ active) candidates with
      | Some (_, c) => c
      | None => a0
      end
  end.

(** ** Round setup *)

(** [deck[0]] followed by [deck = deck[1:]]. *)
Definition popCard (deck : list string) : result gerror (string * list string) :=
  match deck with
  | [] => Err index_out_of_range
  | c :: rest => Ok (c, rest)
  end.

Fixpoint popCards (n : nat) (deck : list string) : result gerror (list string * list string) :=
  match n with
  | O => Ok ([], deck)
  | S n' =>
      '(c, deck) ← popCard deck;
      '(cs, deck) ← popCards n' deck;
      Ok (c :: cs, deck)
  end.

Fixpoint dealHands (players : list string) (deck : list string)
    (hands : gmap string (list string)) : result gerror (gmap string (list string) * list string) :=
  match players with
  | [] => Ok (hands, deck)
  | id :: rest =>
      '(c, deck) ← popCard deck;
      dealHands rest deck (<[id := [c]]> hands)
  end.

Section Rules.
Context `{PRNG}.

Definition dealRound (st : GameState) (players : list string) (firstPlayer : string)
    : result gerror GameState :=
  let unshuffled := buildDeck in
  let gameSeed := getInt (Data st) "game_seed" in
  let round := getInt (Data st) "round" in
  let r := NewSource (wrap64 (wrap64 (gameSeed * 1000) + round)) in
  let deck := ShuffleWith unshuffled r in
  '(faceDown, deck) ← popCard deck;
  '(faceUp, deck) ← (if decide (length players = 2) then popCards 3 deck else Ok ([], deck));
  '(hands, deck) ← dealHands players deck ∅;
  let st := setData "deck" (Strs deck) st in
  let st := setData "hands" (handsToAny hands) st in
  let st := setData "set_aside_face_down" (Str faceDown) st in
  let st := setData "set_aside_visible" (Strs faceUp) st in
  let st := setData "eliminated" (Strs []) st in
  let st := setData "protected" (Strs []) st in
  let st := setData "backdoor_played_by" (Strs []) st in
  let st := setData "discard_piles" (Map ∅) st in
  let st := setData "discard_order" (Slice []) st in
  let st := setData "phase" (Str phasePlaying) st in
  let st := setCurrent firstPlayer st in
  (* state, _, _ = drawCard(...): an empty deck leaves the state unchanged *)
  Ok (match drawCard st firstPlayer with Ok (st', _) => st' | Err _ => st end).

Definition Init (seed : option Z) (players : list Player) : result gerror GameState :=
  if (length players <? 2) || (5 <? length players) then
    Err (GErr "rootaccess requires 2–5 players, got %d" [])
  else
    let playerIDs := Player_ID <$> players in
    let tokens : gmap string Z := foldl (λ m id, <[id := 0%Z]> m) ∅ playerIDs in
    p0 ← index playerIDs 0;
    let st := mkState p0 ∅ in
    let gameSeed := default 0%Z seed in
    let st := setData "players" (Strs playerIDs) st in
    let st := setData "tokens" (MapInt tokens) st in
    let st := setData "round" (Int 1) st in
    let st := setData "phase" (Str phasePlaying) st in
    let st := setData "game_seed" (Int gameSeed) st in
    let st := setData "tokens_to_win" (Int (tokensToWin (Z.of_nat (length players)))) st in
    dealRound st playerIDs p0.

(** ** Turn advancement and round resolution *)

Definition discardTotal (pile : list string) : Z :=
  foldl (λ v c, wrap64 (v + cardValue c)) 0%Z pile.

Definition highestHandWinner (st : GameState) (active : list string) : string :=
  let hands := getHands (Data st) in
  let discards := getDiscardPiles (Data st) in
  let '(bestPlayer, _, _) :=
    foldl (λ '(bestPlayer, bestHandVal, bestDiscardVal) id,
      let hand := handOf hands id in
      let handVal := match hand with [] => 0%Z | c :: _ => cardValue c end in
      let discardVal := discardTotal (handOf discards id) in
      if (bestHandVal <? handVal)%Z
         || ((handVal =? bestHandVal)%Z && (bestDiscardVal <? discardVal)%Z)
      then (id, handVal, discardVal)
      else (bestPlayer, bestHandVal, bestDiscardVal)) ("", (-1)%Z, (-1)%Z) active in
  bestPlayer.

(** [tokens[id]++] *)
Definition incToken (tokens : gmap string Z) (id : string) : gmap string Z :=
  <[id := wrap64 (default 0%Z (tokens !! id) + 1)]> tokens.

Definition resolveRound (st : GameState) : result gerror GameState :=
  let players := getStringSlice (Data st) "players" in
  let active := activePlayers st in
  let tokens := getTokens (Data st) in
  let roundWinner :=
    match active with
    | [a] => a
    | _ => highestHandWinner st active
    end in
  let backdoorPlayed := getStringSlice (Data st) "backdoor_played_by" in
  let tokens := match backdoorPlayed with [b] => incToken tokens b | _ => tokens end in
  let tokens := if decide (roundWinner = "") then tokens else incToken tokens roundWinner in
  let st := setData "tokens" (tokensToAny tokens) st in
  let st := setData "round_winner_id" (Str roundWinner) st in
  let st := setData "last_round_backdoor_bonus_by" (Strs backdoorPlayed) st in
  let target := getInt (Data st) "tokens_to_win" in
  let target := if (target =? 0)%Z then tokensToWin (Z.of_nat (length players)) else target in
  match list_find (λ id, (target ≤ default 0%Z (tokens !! id))%Z) players with
  | Some (_, id) =>
      let st := setData "game_winner_id" (Str id) st in
      let st := setData "phase" (Str phaseGameOver) st in
      Ok (setCurrent id st)
  | None =>
      let round := getInt (Data st) "round" in
      let st := setData "round" (Int (wrap64 (round + 1))) st in
      firstPlayer ← (if decide (roundWinner = "") then index players 0 else Ok roundWinner);
      dealRound st players firstPlayer
  end.

Definition advanceTurn (st : GameState) : result gerror GameState :=
  let currentPlayer := CurrentPlayerID st in
  let active := activePlayers st in
  if decide (length active ≤ 1) then resolveRound st
  else
    let next := nextActivePlayer st currentPlayer in
    let protected := getStringSlice (Data st) "protected" in
    let newProtected := filter (λ id, id ≠ next) protected in
    let st := setData "protected" (Strs newProtected) st in
    let st := setCurrent next st in
    let hands := getHands (Data st) in
    if decide (length (handOf hands next) < 2) then
      match drawCard st next with
      | Ok (st', _) => Ok st'
      | Err _ => resolveRound st
      end
    else Ok st.

(** ** Card effects *)

Definition applyBackdoor (st : GameState) (playerID : string) : GameState :=
  let backdoorPlayed := getStringSlice (Data st) "backdoor_played_by" in
  setData "backdoor_played_by" (Strs (appendUnique backdoorPlayed playerID)) st.

Definition applyPing (st : GameState) (target guess : string) : GameState :=
  if decide (target = "") then st
  else
    match handOf (getHands (Data st)) target with
    | c :: _ => if decide (c = guess) then eliminatePlayer st target else st
    | [] => st
    end.

Definition applySniffer (st : GameState) (actorID target : string) : GameState :=
  if decide (target = "") then st
  else
    let revealed := firstCard (handOf (getHands (Data st)) target) in
    let reveals : gmap string any :=
      match Data st !! "private_reveals" with Some (Map m) => m | _ => ∅ end in
    setData "private_reveals" (Map (<[actorID := Str revealed]> reveals)) st.

Definition applyBufferOverflow (st : GameState) (actorID target : string) : GameState :=
  if decide (target = "") then st
  else
    let hands := getHands (Data st) in
    match handOf hands actorID, handOf hands target with
    | a :: _, t :: _ =>
        let actorVal := cardValue a in
        let targetVal := cardValue t in
        if (actorVal <? targetVal)%Z then eliminatePlayer st actorID
        else if (targetVal <? actorVal)%Z then eliminatePlayer st target
        else st
    | _, _ => st
    end.

Definition applyFirewall (st : GameState) (playerID : string) : GameState :=
  let protected := getStringSlice (Data st) "protected" in
  setData "protected" (Strs (appendUnique protected playerID)) st.

Definition applyReboot (st : GameState) (target : string) : GameState :=
  if decide (target = "") then st
  else
    let hands := getHands (Data st) in
    match handOf hands target with
    | [] => st
    | discarded :: _ =>
        let st := appendDiscard st target discarded in
        let hands := <[target := []]> hands in
        let st := setData "hands" (handsToAny hands) st in
        if decide (discarded = CardRoot) then eliminatePlayer st target
        else
          match getStringSlice (Data st) "deck" with
          | [] =>
              let setAside := getString (Data st) "set_aside_face_down" in
              if decide (setAside = "") then st
              else
                let hands := <[target := [setAside]]> hands in
                let st := setData "set_aside_face_down" (Str "") st in
                setData "hands" (handsToAny hands) st
          | newCard :: deck =>
              let st := setData "deck" (Strs deck) st in
              let hands := <[target := [newCard]]> hands in
              setData "hands" (handsToAny hands) st
          end
    end.

Definition applyDebugger (st : GameState) (playerID : string) : GameState :=
  let hands := getHands (Data st) in
  let hand := handOf hands playerID in
  let deck := getStringSlice (Data st) "deck" in
  let drawn := take 2 deck in
  let deck := drop 2 deck in
  let st := setData "deck" (Strs deck) st in
  let choices := hand ++ drawn in
  let st := setData "debugger_choices" (Strs choices) st in
  let hands := <[playerID := []]> hands in
  let st := setData "hands" (handsToAny hands) st in
  setData "phase" (Str phaseDebuggerPending) st.

Definition applyDebuggerResolve (st : GameState) (move : Move) : result gerror GameState :=
  let playerID := Move_PlayerID move in
  let keep := getCardFromPayload (Payload move) "keep" in
  let ret := getCardSliceFromPayload (Payload move) "return" in
  let hands := getHands (Data st) in
  let hands := <[playerID := [keep]]> hands in
  let st := setData "hands" (handsToAny hands) st in
  let deck := getStringSlice (Data st) "deck" in
  let deck := deck ++ ret in
  let st := setData "deck" (Strs deck) st in
  let st := delData "debugger_choices" st in
  let st := setData "phase" (Str phasePlaying) st in
  advanceTurn st.

Definition applySwap (st : GameState) (actorID target : string) : GameState :=
  if decide (target = "") then st
  else
    let hands := getHands (Data st) in
    let actorHand := handOf hands actorID in
    let targetHand := handOf hands target in
    let hands := <[target := actorHand]> (<[actorID := targetHand]> hands) in
    setData "hands" (handsToAny hands) st.

Definition applyRoot (st : GameState) (playerID : string) : result gerror GameState :=
  advanceTurn (eliminatePlayer st playerID).

Definition applyPenaltyLose (st : GameState) (playerID : string) : result gerror GameState :=
  advanceTurn (eliminatePlayer st playerID).

(** ** ApplyMove *)

Definition applyStandardMove (st : GameState) (move : Move) (card : string)
    : result gerror GameState :=
  let playerID := Move_PlayerID move in
  let st := delData "private_reveals" st in
  let st := removeFromHand st playerID card in
  let st := appendDiscard st playerID card in
  if decide (card = CardRoot) then applyRoot st playerID
  else
    let target := getStringFromPayload (Payload move) "target_player_id" in
    let target := if decide (target = "" ∧ card = CardReboot) then playerID else target in
    if decide (card = CardBackdoor) then advanceTurn (applyBackdoor st playerID)
    else if decide (card = CardPing) then
      advanceTurn (applyPing st target (getCardFromPayload (Payload move) "guess"))
    else if decide (card = CardSniffer) then advanceTurn (applySniffer st playerID target)
    else if decide (card = CardBufferOverflow) then
      advanceTurn (applyBufferOverflow st playerID target)
    else if decide (card = CardFirewall) then advanceTurn (applyFirewall st playerID)
    else if decide (card = CardReboot) then advanceTurn (applyReboot st target)
    else if decide (card = CardDebugger) then Ok (applyDebugger st playerID)
    else if decide (card = CardSwap) then advanceTurn (applySwap st playerID target)
    else if decide (card = CardEncryptedKey) then advanceTurn st
    else Err (GErr "rootaccess: unknown card %q" [card]).

Definition ApplyMove (st : GameState) (move : Move) : result gerror GameState :=
  let st := mkState (CurrentPlayerID st) (DeepCopyData (Data st)) in
  let card := getCardFromPayload (Payload move) "card" in
  if decide (card = CardPenaltyLose) then applyPenaltyLose st (Move_PlayerID move)
  else if decide (getString (Data st) "phase" = phaseDebuggerPending)
  then applyDebuggerResolve st move
  else applyStandardMove st move card.

End Rules.

(** ** ValidateMove *)

Definition validateTarget (st : GameState) (actorID target : string) (allowSelf : bool)
    : result gerror unit :=
  if decide (target = "") then Ok tt
  else
    let eliminated := getStringSlice (Data st) "eliminated" in
    let protected := getStringSlice (Data st) "protected" in
    let players := getStringSlice (Data st) "players" in
    if decide (target ∉ players) then Err (GErr "target player %q not found" [target])
    else if negb allowSelf && bool_decide (target = actorID) then
      Err (GErr "cannot target yourself with this card" [])
    else if decide (target ∈ eliminated) then
      Err (GErr "target player %q is eliminated" [target])
    else if decide (target ∈ protected) then
      Err (GErr "target player %q is protected by the Firewall" [target])
    else Ok tt.

Definition validateDebuggerResolve (st : GameState) (move : Move) : result gerror unit :=
  let card := getCardFromPayload (Payload move) "card" in
  if decide (card ≠ "debugger_resolve") then
    Err (GErr "waiting for debugger_resolve move" [])
  else
    let keep := getCardFromPayload (Payload move) "keep" in
    if decide (keep = "") then Err (GErr "debugger_resolve requires 'keep'" [])
    else
      let ret := getCardSliceFromPayload (Payload move) "return" in
      if decide (length ret ≠ 2) then
        Err (GErr "debugger_resolve requires exactly 2 cards in 'return'" [])
      else
        let choices := getStringSlice (Data st) "debugger_choices" in
        let all := keep :: ret in
        if decide (length choices ≠ 3) then Err (GErr "debugger_choices state is invalid" [])
        else
          match list_find (λ c, containsString choices c = false) all with
          | Some (_, c) => Err (GErr "card %q is not among debugger choices" [c])
          | None => Ok tt
          end.

Definition validateStandardMove (st : GameState) (move : Move) : result gerror unit :=
  let card := getCardFromPayload (Payload move) "card" in
  if decide (card = "") then Err (GErr "move payload must contain 'card'" [])
  else
    match getHands (Data st) !! Move_PlayerID move with
    | None | Some [] => Err (GErr "player has no cards in hand" [])
    | Some hand =>
        if negb (containsCard hand card) then Err (GErr "card %q is not in your hand" [card])
        else if bool_decide (card ≠ CardEncryptedKey) && containsCard hand CardEncryptedKey
                && (containsCard hand CardSwap || containsCard hand CardReboot) then
          Err (GErr "you must play the Encrypted Key when holding a Swap or Reboot" [])
        else
          let target := getStringFromPayload (Payload move) "target_player_id" in
          if decide (card = CardPing) then
            _ ← validateTarget st (Move_PlayerID move) target false;
            if decide (target = "") then Ok tt
            else
              let guess := getCardFromPayload (Payload move) "guess" in
              if decide (guess = "") then Err (GErr "ping requires a 'guess' card name" [])
              else if negb (isValidGuess guess) then Err (GErr "invalid ping guess: %q" [guess])
              else Ok tt
          else if decide (card = CardSniffer ∨ card = CardBufferOverflow ∨ card = CardSwap) then
            validateTarget st (Move_PlayerID move) target false
          else if decide (card = CardReboot) then
            if decide (target ≠ "" ∧ target ≠ Move_PlayerID move) then
              validateTarget st (Move_PlayerID move) target false
            else Ok tt
          else Ok tt
    end.

Definition ValidateMove (st : GameState) (move : Move) : result gerror unit :=
  let phase := getString (Data st) "phase" in
  if decide (getCardFromPayload (Payload move) "card" = CardPenaltyLose) then Ok tt
  else if decide (Move_PlayerID move ≠ CurrentPlayerID st) then
    Err (GErr "it is not your turn" [])
  else if decide (Move_PlayerID move ∈ getStringSlice (Data st) "eliminated") then
    Err (GErr "you have been eliminated this round" [])
  else if decide (phase = phaseDebuggerPending) then validateDebuggerResolve st move
  else if decide (phase = phasePlaying) then validateStandardMove st move
  else Err (GErr "no moves allowed in phase %q" [phase]).

(** ** TimeoutMove, IsOver, FilterState *)

Definition TimeoutMove (penalty : string) : data := {["card" := Str CardPenaltyLose]}.

Definition IsOver (st : GameState) : bool * Result :=
  if decide (getString (Data st) "phase" ≠ phaseGameOver) then (false, zeroResult)
  else
    let winnerID := getString (Data st) "game_winner_id" in
    if decide (winnerID = "") then (true, mkResult ResultDraw None "")
    else (true, mkResult ResultWin (Some winnerID) "").

Definition FilterState (st : GameState) (playerID : string) : GameState :=
  let filtered := mkState (CurrentPlayerID st) (Data st) in
  let hands := getHands (Data st) in
  let filteredHands : gmap string (list string) :=
    if decide (playerID = "") then (λ _, []) <$> hands
    else map_imap (λ id hand, Some (if decide (id = playerID) then hand else [])) hands in
  let filtered := setData "hands" (handsToAny filteredHands) filtered in
  let filtered :=
    if decide (playerID = "" ∨ playerID ≠ CurrentPlayerID st)
    then delData "debugger_choices" filtered else filtered in
  if decide (playerID = "") then delData "private_reveals" filtered
  else
    match Data st !! "private_reveals" with
    | Some (Map reveals) =>
        match reveals !! playerID with
        | Some myReveal => setData "private_reveals" (Map {[playerID := myReveal]}) filtered
        | None => delData "private_reveals" filtered
        end
    | _ => filtered
    end.

(** rootaccess_settings.go *)
Definition LobbySettings : list LobbySetting :=
  mkSetting "player_count" "Players" "Number of players in the game (2–5)."
    SettingTypeInt "2" [] (Some 2%Z) (Some 5%Z) :: DefaultLobbySettings.

(** The plugin as the registry holds it. *)
Definition game `{PRNG} : Game :=
  mkGame gameID "Root Access" 2 5 Init ValidateMove ApplyMove IsOver
    (Some FilterState) (Some TimeoutMove) (Some LobbySettings).

End RootAccess.
