(* ===== verification/RootAccessFacts.v ===== *)
(** Reading back what the Root Access operations write: rewrite rules for the
    data accessors over [setData]/[delData], list lemmas about hands, and what
    survives the JSON round trip. *)
From S2P Require Import Prelude Json Engine Randutil RootAccess.
Import RootAccess.

(** ** Accessors over updates *)

Section Accessors.
Implicit Types (d : data) (k : string).

Lemma getString_insert d k s : getString (<[k := Str s]> d) k = s.
Proof. unfold getString. by rewrite lookup_insert_eq. Qed.
Lemma getString_insert_ne d k k' v : k' ≠ k → getString (<[k' := v]> d) k = getString d k.
Proof. intros. unfold getString. by rewrite lookup_insert_ne. Qed.
Lemma getString_delete_ne d k k' : k' ≠ k → getString (delete k' d) k = getString d k.
Proof. intros. unfold getString. by rewrite lookup_delete_ne. Qed.

Lemma getInt_insert d k n : getInt (<[k := Int n]> d) k = n.
Proof. unfold getInt. by rewrite lookup_insert_eq. Qed.
Lemma getInt_insert_ne d k k' v : k' ≠ k → getInt (<[k' := v]> d) k = getInt d k.
Proof. intros. unfold getInt. by rewrite lookup_insert_ne. Qed.
Lemma getInt_delete_ne d k k' : k' ≠ k → getInt (delete k' d) k = getInt d k.
Proof. intros. unfold getInt. by rewrite lookup_delete_ne. Qed.

Lemma getStringSlice_insert d k l : getStringSlice (<[k := Strs l]> d) k = l.
Proof. unfold getStringSlice. by rewrite lookup_insert_eq. Qed.
Lemma getStringSlice_insert_ne d k k' v :
  k' ≠ k → getStringSlice (<[k' := v]> d) k = getStringSlice d k.
Proof. intros. unfold getStringSlice. by rewrite lookup_insert_ne. Qed.
Lemma getStringSlice_delete_ne d k k' :
  k' ≠ k → getStringSlice (delete k' d) k = getStringSlice d k.
Proof. intros. unfold getStringSlice. by rewrite lookup_delete_ne. Qed.

Lemma fmap_toStringSlice_Strs (m : gmap string (list string)) : toStringSlice <$> (Strs <$> m) = m.
Proof. rewrite <- map_fmap_compose. rewrite <- (map_fmap_id m) at 2. by apply map_fmap_ext. Qed.

Lemma getHands_insert d h : getHands (<["hands" := handsToAny h]> d) = h.
Proof. unfold getHands, handsToAny. rewrite lookup_insert_eq. apply fmap_toStringSlice_Strs. Qed.
Lemma getHands_insert_ne d k v : k ≠ "hands" → getHands (<[k := v]> d) = getHands d.
Proof. intros. unfold getHands. by rewrite lookup_insert_ne. Qed.
Lemma getHands_delete_ne d k : k ≠ "hands" → getHands (delete k d) = getHands d.
Proof. intros. unfold getHands. by rewrite lookup_delete_ne. Qed.

Lemma getDiscardPiles_insert d h :
  getDiscardPiles (<["discard_piles" := discardPilesToAny h]> d) = h.
Proof.
  unfold getDiscardPiles, discardPilesToAny. rewrite lookup_insert_eq.
  apply fmap_toStringSlice_Strs.
Qed.
Lemma getDiscardPiles_insert_empty d : getDiscardPiles (<["discard_piles" := Map ∅]> d) = ∅.
Proof. unfold getDiscardPiles. by rewrite lookup_insert_eq, fmap_empty. Qed.
Lemma getDiscardPiles_insert_ne d k v :
  k ≠ "discard_piles" → getDiscardPiles (<[k := v]> d) = getDiscardPiles d.
Proof. intros. unfold getDiscardPiles. by rewrite lookup_insert_ne. Qed.
Lemma getDiscardPiles_delete_ne d k :
  k ≠ "discard_piles" → getDiscardPiles (delete k d) = getDiscardPiles d.
Proof. intros. unfold getDiscardPiles. by rewrite lookup_delete_ne. Qed.

Lemma getTokens_insert d t : getTokens (<["tokens" := tokensToAny t]> d) = t.
Proof.
  unfold getTokens, tokensToAny. rewrite lookup_insert_eq.
  apply map_eq. intros k. rewrite lookup_omap, lookup_fmap. by destruct (t !! k).
Qed.
Lemma getTokens_insert_int d t : getTokens (<["tokens" := MapInt t]> d) = t.
Proof. unfold getTokens. by rewrite lookup_insert_eq. Qed.
Lemma getTokens_insert_ne d k v : k ≠ "tokens" → getTokens (<[k := v]> d) = getTokens d.
Proof. intros. unfold getTokens. by rewrite lookup_insert_ne. Qed.
Lemma getTokens_delete_ne d k : k ≠ "tokens" → getTokens (delete k d) = getTokens d.
Proof. intros. unfold getTokens. by rewrite lookup_delete_ne. Qed.

Lemma handOf_insert h p l : handOf (<[p := l]> h) p = l.
Proof. unfold handOf. by rewrite lookup_insert_eq. Qed.
Lemma handOf_insert_ne h p q l : p ≠ q → handOf (<[p := l]> h) q = handOf h q.
Proof. intros. unfold handOf. by rewrite lookup_insert_ne. Qed.
Lemma handOf_empty p : handOf ∅ p = [].
Proof. done. Qed.

End Accessors.

Lemma Data_setData k v st : Data (setData k v st) = <[k := v]> (Data st).
Proof. done. Qed.
Lemma Data_delData k st : Data (delData k st) = delete k (Data st).
Proof. done. Qed.
Lemma Data_setCurrent p st : Data (setCurrent p st) = Data st.
Proof. done. Qed.
Lemma Cur_setData k v st : CurrentPlayerID (setData k v st) = CurrentPlayerID st.
Proof. done. Qed.
Lemma Cur_delData k st : CurrentPlayerID (delData k st) = CurrentPlayerID st.
Proof. done. Qed.
Lemma Cur_setCurrent p st : CurrentPlayerID (setCurrent p st) = p.
Proof. done. Qed.

Create Rewrite HintDb ra.
Create HintDb ra.
#[export] Hint Rewrite Data_setData Data_delData Data_setCurrent Cur_setData Cur_delData
  Cur_setCurrent getString_insert getInt_insert getStringSlice_insert getHands_insert
  getDiscardPiles_insert getDiscardPiles_insert_empty getTokens_insert getTokens_insert_int
  handOf_insert handOf_empty : ra.
#[export] Hint Rewrite getString_insert_ne getString_delete_ne getInt_insert_ne
  getInt_delete_ne getStringSlice_insert_ne getStringSlice_delete_ne getHands_insert_ne
  getHands_delete_ne getDiscardPiles_insert_ne getDiscardPiles_delete_ne
  getTokens_insert_ne getTokens_delete_ne using neq : ra.

(** Read accessors through the updates in front of them. *)
Ltac ra := autorewrite with ra.
Tactic Notation "ra" "in" hyp(H) := autorewrite with ra in H.

(** ** Observations of a state *)

Section Observations.
Implicit Types (st : GameState) (p c : string).

Definition players st : list string := getStringSlice (Data st) "players".
Definition deck st : list string := getStringSlice (Data st) "deck".
Definition elim st : list string := getStringSlice (Data st) "eliminated".
Definition prot st : list string := getStringSlice (Data st) "protected".
Definition backdoors st : list string := getStringSlice (Data st) "backdoor_played_by".
Definition faceUp st : list string := getStringSlice (Data st) "set_aside_visible".
Definition choices st : list string := getStringSlice (Data st) "debugger_choices".
Definition faceDown st : list string :=
  let s := getString (Data st) "set_aside_face_down" in if decide (s = "") then [] else [s].
Definition phase st : string := getString (Data st) "phase".
Definition hand st p : list string := handOf (getHands (Data st)) p.
Definition pile st p : list string := handOf (getDiscardPiles (Data st)) p.
Definition token st p : Z := default 0%Z (getTokens (Data st) !! p).
Definition round_no st : Z := getInt (Data st) "round".
Definition to_win st : Z := getInt (Data st) "tokens_to_win".

(** How many copies of card [c] the table holds, wherever they are. *)
Definition total c st : nat :=
  occ c (deck st) + sumf (λ p, occ c (hand st p)) (players st)
  + sumf (λ p, occ c (pile st p)) (players st)
  + occ c (faceDown st) + occ c (faceUp st)
  + (if decide (phase st = phaseDebuggerPending) then occ c (choices st) else 0).
End Observations.

#[export] Hint Unfold players deck elim prot backdoors faceUp choices faceDown phase hand pile
  token round_no to_win : ra.

(** ** Framing: which keys an operation may touch *)

(** [st'] agrees with [st] on every key outside [ks], and on whose turn it is. *)
Record frame (ks : list string) (st st' : GameState) : Prop := {
  frame_data : ∀ k, k ∉ ks → Data st' !! k = Data st !! k;
  frame_cur : CurrentPlayerID st' = CurrentPlayerID st
}.

Section Frame.
Implicit Types (st : GameState) (ks : list string).

Lemma frame_refl ks st : frame ks st st.
Proof. by split. Qed.

Lemma frame_trans ks st1 st2 st3 : frame ks st1 st2 → frame ks st2 st3 → frame ks st1 st3.
Proof. intros [H1 H1'] [H2 H2']. split; [intros k Hk; rewrite H2, H1; done|congruence]. Qed.

Lemma frame_setData ks k v st : k ∈ ks → frame ks st (setData k v st).
Proof. intros Hk. split; [|done]. intros k' Hk'. cbn. by rewrite lookup_insert_ne by set_solver. Qed.

Lemma frame_delData ks k st : k ∈ ks → frame ks st (delData k st).
Proof. intros Hk. split; [|done]. intros k' Hk'. cbn. by rewrite lookup_delete_ne by set_solver. Qed.

Lemma frame_foldl {A} ks (f : GameState → A → GameState) l st :
  (∀ st a, frame ks st (f st a)) → frame ks st (foldl f st l).
Proof.
  intros Hf. revert st. induction l as [|a l IH]; intros st; cbn; [apply frame_refl|].
  eapply frame_trans; [apply Hf|apply IH].
Qed.

Lemma frame_weaken ks ks' st st' : ks ⊆ ks' → frame ks st st' → frame ks' st st'.
Proof. intros Hs [H H']. split; [|done]. intros k Hk. apply H. set_solver. Qed.

Context {ks : list string} {st st' : GameState} (F : frame ks st st').

Lemma frame_getString k : k ∉ ks → getString (Data st') k = getString (Data st) k.
Proof. intros Hk. unfold getString. by rewrite (frame_data _ _ _ F). Qed.
Lemma frame_getInt k : k ∉ ks → getInt (Data st') k = getInt (Data st) k.
Proof. intros Hk. unfold getInt. by rewrite (frame_data _ _ _ F). Qed.
Lemma frame_getStringSlice k : k ∉ ks → getStringSlice (Data st') k = getStringSlice (Data st) k.
Proof. intros Hk. unfold getStringSlice. by rewrite (frame_data _ _ _ F). Qed.
Lemma frame_getHands : "hands" ∉ ks → getHands (Data st') = getHands (Data st).
Proof. intros Hk. unfold getHands. by rewrite (frame_data _ _ _ F). Qed.
Lemma frame_getDiscardPiles :
  "discard_piles" ∉ ks → getDiscardPiles (Data st') = getDiscardPiles (Data st).
Proof. intros Hk. unfold getDiscardPiles. by rewrite (frame_data _ _ _ F). Qed.
Lemma frame_getTokens : "tokens" ∉ ks → getTokens (Data st') = getTokens (Data st).
Proof. intros Hk. unfold getTokens. by rewrite (frame_data _ _ _ F). Qed.
End Frame.

(** Membership of literal keys in literal key lists. *)
Ltac key := solve [apply (bool_decide_unpack _); vm_compute; exact I | set_solver].

(** ** Hands *)

Lemma removeFirst_notin c l : c ∉ l → removeFirst c l = l.
Proof.
  induction l as [|x l IH]; [done|]. intros Hn. cbn.
  rewrite not_elem_of_cons in Hn. destruct Hn as [Hx Hl].
  rewrite decide_False by congruence. by rewrite IH.
Qed.

Lemma removeFirst_occ x c l : c ∈ l →
  occ x l = (if decide (c = x) then 1 else 0) + occ x (removeFirst c l).
Proof.
  induction l as [|y l IH]; [set_solver|]. intros [->|Hc]%elem_of_cons; cbn [removeFirst].
  - destruct (decide (y = y)) as [_|]; [apply occ_cons|done].
  - destruct (decide (y = c)) as [->|Hne]; [apply occ_cons|].
    rewrite !occ_cons, IH by done. lia.
Qed.

Lemma removeFirst_length c l : c ∈ l → length l = S (length (removeFirst c l)).
Proof.
  induction l as [|y l IH]; [set_solver|]. intros [->|Hc]%elem_of_cons; cbn [removeFirst].
  - by rewrite decide_True.
  - destruct (decide (y = c)); [done|]. cbn. by rewrite <- IH.
Qed.

Lemma removeFirst_length_le c l : length (removeFirst c l) ≤ length l.
Proof.
  destruct (decide (c ∈ l)) as [Hc|Hc]; [rewrite (removeFirst_length c l Hc); lia|].
  by rewrite removeFirst_notin.
Qed.

Lemma appendUnique_elem l s x : x ∈ appendUnique l s ↔ x ∈ l ∨ x = s.
Proof.
  unfold appendUnique, containsString. case_bool_decide; [naive_solver|set_solver].
Qed.

Lemma appendUnique_NoDup l s : NoDup l → NoDup (appendUnique l s).
Proof.
  unfold appendUnique, containsString. case_bool_decide; [done|]. intros.
  apply NoDup_app. repeat split; [done|set_solver|apply NoDup_singleton].
Qed.
