(* ===== verification/RootAccessInv.v ===== *)
(** The invariant of a Root Access round and its preservation by the state
    mutation helpers, the deal, the round resolution and the turn advance. *)
From S2P Require Import Prelude Json Engine Randutil RootAccess RootAccessFacts.
Import RootAccess.

Section Invariant.
Implicit Types (st : GameState) (p q c : string).

(** ** Discarding and eliminating *)

Definition discard_keys : list string := ["discard_piles"; "discard_order"].

Lemma appendDiscard_frame st p c : frame discard_keys st (appendDiscard st p c).
Proof.
  unfold appendDiscard. eapply frame_trans; apply frame_setData; set_solver.
Qed.

Lemma appendDiscard_pile st p c q :
  pile (appendDiscard st p c) q = if decide (q = p) then pile st p ++ [c] else pile st q.
Proof.
  unfold appendDiscard, pile. cbn. ra.
  destruct (decide (q = p)) as [->|Hne]; [by rewrite handOf_insert|].
  by rewrite handOf_insert_ne.
Qed.

Lemma discardAll_frame st p l : frame discard_keys st (foldl (λ st c, appendDiscard st p c) st l).
Proof. apply frame_foldl. intros. apply appendDiscard_frame. Qed.

Lemma discardAll_pile st p l q :
  pile (foldl (λ st c, appendDiscard st p c) st l) q =
  if decide (q = p) then pile st p ++ l else pile st q.
Proof.
  revert st. induction l as [|c l IH]; intros st; cbn.
  - rewrite app_nil_r. by case_decide; subst.
  - rewrite IH, !appendDiscard_pile. destruct (decide (p = p)) as [_|]; [|done].
    case_decide; [by rewrite <- app_assoc|done].
Qed.

Definition elim_keys : list string :=
  ["eliminated"; "hands"; "backdoor_played_by"; "discard_piles"; "discard_order"].

Lemma eliminatePlayer_frame st p : frame elim_keys st (eliminatePlayer st p).
Proof.
  unfold eliminatePlayer. set (hd := handOf _ p).
  eapply frame_trans; [|apply frame_foldl; intros; case_decide;
    [apply frame_setData; key|apply frame_refl]].
  eapply frame_trans; [|apply frame_setData; key].
  eapply frame_trans; [|eapply frame_weaken; [|apply discardAll_frame];
    unfold discard_keys, elim_keys; set_solver].
  apply frame_setData; key.
Qed.

Lemma markBackdoor_frame st p l :
  frame ["backdoor_played_by"] st (foldl (λ st c,
    if decide (c = CardBackdoor) then
      setData "backdoor_played_by"
        (Strs (appendUnique (getStringSlice (Data st) "backdoor_played_by") p)) st
    else st) st l).
Proof.
  apply frame_foldl. intros. case_decide; [apply frame_setData; set_solver|apply frame_refl].
Qed.

Lemma eliminatePlayer_elim st p : elim (eliminatePlayer st p) = appendUnique (elim st) p.
Proof.
  unfold eliminatePlayer, elim.
  rewrite (frame_getStringSlice (markBackdoor_frame _ _ _)) by key. ra.
  rewrite (frame_getStringSlice (discardAll_frame _ _ _)) by key. by ra.
Qed.

Lemma eliminatePlayer_hand st p q :
  hand (eliminatePlayer st p) q = if decide (q = p) then [] else hand st q.
Proof.
  unfold eliminatePlayer, hand.
  rewrite (frame_getHands (markBackdoor_frame _ _ _)) by key. ra.
  destruct (decide (q = p)) as [->|Hne]; [by rewrite handOf_insert|].
  by rewrite handOf_insert_ne.
Qed.

Lemma eliminatePlayer_pile st p q :
  pile (eliminatePlayer st p) q = if decide (q = p) then pile st p ++ hand st p else pile st q.
Proof.
  unfold eliminatePlayer, pile.
  rewrite (frame_getDiscardPiles (markBackdoor_frame _ _ _)) by key. ra.
  fold (pile (foldl (λ st c, appendDiscard st p c)
    (setData "eliminated" (Strs (appendUnique (getStringSlice (Data st) "eliminated") p)) st)
    (handOf (getHands (Data st)) p)) q).
  rewrite discardAll_pile. unfold pile. by ra.
Qed.

(** ** Conservation of cards under a change at one player *)

(** The part of [total] that an operation on player [p] can change. *)
Definition local c st p : nat :=
  occ c (deck st) + occ c (hand st p) + occ c (pile st p) + occ c (faceDown st)
  + (if decide (phase st = phaseDebuggerPending) then occ c (choices st) else 0).

Lemma total_local c st st' p :
  NoDup (players st) → p ∈ players st → players st' = players st →
  faceUp st' = faceUp st →
  (∀ q, q ≠ p → hand st' q = hand st q) → (∀ q, q ≠ p → pile st' q = pile st q) →
  total c st' + local c st p = total c st + local c st' p.
Proof.
  intros Hnd Hp Hpl Hfu Hh Hd. unfold total, local. rewrite Hpl, Hfu.
  pose proof (sumf_update (λ q, occ c (hand st' q)) (λ q, occ c (hand st q)) p (players st) Hnd Hp
    ltac:(intros; cbn; rewrite Hh; done)).
  pose proof (sumf_update (λ q, occ c (pile st' q)) (λ q, occ c (pile st q)) p (players st) Hnd Hp
    ltac:(intros; cbn; rewrite Hd; done)).
  cbn in *. lia.
Qed.

Lemma eliminatePlayer_total c st p :
  NoDup (players st) → p ∈ players st → total c (eliminatePlayer st p) = total c st.
Proof.
  intros Hnd Hp. pose proof (eliminatePlayer_frame st p) as F.
  pose proof (total_local c st (eliminatePlayer st p) p Hnd Hp) as H.
  enough (local c (eliminatePlayer st p) p = local c st p) as E.
  { rewrite E in H.
    enough (total c (eliminatePlayer st p) + local c st p = total c st + local c st p) by lia.
    apply H.
    - unfold players. by rewrite (frame_getStringSlice F) by key.
    - unfold faceUp. by rewrite (frame_getStringSlice F) by key.
    - intros q Hq. rewrite eliminatePlayer_hand. by rewrite decide_False.
    - intros q Hq. rewrite eliminatePlayer_pile. by rewrite decide_False. }
  unfold local. rewrite eliminatePlayer_hand, eliminatePlayer_pile.
  destruct (decide (p = p)) as [_|]; [|done]. rewrite occ_app.
  unfold deck, faceDown, phase, choices.
  rewrite !(frame_getStringSlice F), !(frame_getString F) by key. cbn. lia.
Qed.

(** ** The invariant *)

Definition active st : list string := activePlayers st.

(** What holds of the table between rounds and inside them. *)
Record seated st : Prop := {
  seated_nodup : NoDup (players st);
  seated_len : 2 ≤ length (players st) ≤ 5;
  seated_named : "" ∉ players st;
  seated_to_win : to_win st = tokensToWin (Z.of_nat (length (players st)));
  seated_tokens : ∀ p, p ∈ players st → (0 ≤ token st p < to_win st)%Z;
  seated_round : (1 ≤ round_no st ≤ 1 + Z.of_nat (sumf (λ p, Z.to_nat (token st p)) (players st)))%Z
}.

Definition conserved st : Prop := ∀ c, total c st = occ c deckComposition.

(** A state in which the current player is to move. *)
Record live st : Prop := {
  live_seated : seated st;
  live_cards : conserved st;
  live_cur : CurrentPlayerID st ∈ active st;
  live_active : 2 ≤ length (active st);
  live_phase :
    (phase st = phasePlaying ∧ length (hand st (CurrentPlayerID st)) = 2) ∨
    (phase st = phaseDebuggerPending ∧ hand st (CurrentPlayerID st) = [] ∧ choices st ≠ []);
  live_others : ∀ p, p ∈ active st → p ≠ CurrentPlayerID st → length (hand st p) = 1;
  live_elim : ∀ p, p ∈ players st → p ∈ elim st → hand st p = []
}.

(** A finished game: the winner sits at the table and has the tokens. *)
Definition over st : Prop :=
  phase st = phaseGameOver ∧
  ∃ w, w ∈ players st ∧ w ≠ "" ∧ getString (Data st) "game_winner_id" = w ∧
       CurrentPlayerID st = w ∧ (to_win st ≤ token st w)%Z.

(** A state just before the turn passes on: the played card has taken effect. *)
Record settled st : Prop := {
  settled_seated : seated st;
  settled_cards : conserved st;
  settled_cur : CurrentPlayerID st ∈ players st;
  settled_active : 1 ≤ length (active st);
  settled_phase : phase st = phasePlaying;
  settled_hands : ∀ p, p ∈ players st → length (hand st p) ≤ 1;
  settled_one : ∀ p, p ∈ active st → deck st ≠ [] → length (hand st p) = 1;
  settled_elim : ∀ p, p ∈ players st → p ∈ elim st → hand st p = []
}.

Lemma active_spec st p : p ∈ active st ↔ p ∈ players st ∧ p ∉ elim st.
Proof. unfold active, activePlayers. rewrite list_elem_of_filter. unfold players, elim. tauto. Qed.

Lemma active_NoDup st : NoDup (players st) → NoDup (active st).
Proof. intros H. by apply NoDup_filter. Qed.

(** The turn passed on from [st] to [st']: the game is over, the same round goes
    on with one card fewer in the deck, or the next round has started. *)
Definition passed st st' : Prop :=
  players st' = players st ∧ to_win st' = to_win st ∧
  (over st' ∨
   live st' ∧ phase st' = phasePlaying ∧
   ((round_no st' = round_no st ∧ length (deck st) = S (length (deck st'))) ∨
    round_no st' = (round_no st + 1)%Z)).

(** ** Dealing *)

Lemma dealHands_ok ps dk hs :
  NoDup ps → length ps ≤ length dk →
  ∃ cs hs',
    dealHands ps dk hs = Ok (hs', drop (length ps) dk) ∧
    take (length ps) dk = cs ∧
    (∀ p, p ∈ ps → length (handOf hs' p) = 1) ∧
    (∀ q, q ∉ ps → handOf hs' q = handOf hs q) ∧
    (∀ c, sumf (λ p, occ c (handOf hs' p)) ps = occ c cs).
Proof.
  intros Hnd. revert dk hs. induction Hnd as [|p ps Hp Hnd IH]; intros dk hs Hlen.
  { exists [], hs. cbn. rewrite drop_0. split_and!; [done|done|set_solver|done|done]. }
  destruct dk as [|c0 dk]; cbn in Hlen; [lia|].
  destruct (IH dk (<[p := [c0]]> hs) ltac:(lia)) as (cs & hs' & Hd & Ht & H1 & H2 & H3).
  exists (c0 :: cs), hs'. cbn [dealHands popCard mbind result_bind length drop take].
  rewrite Hd.
  assert (handOf hs' p = [c0]) as Hpc by (rewrite H2 by done; apply handOf_insert).
  split_and!.
  - done.
  - by rewrite Ht.
  - intros q [->|Hq]%elem_of_cons; [by rewrite Hpc|by apply H1].
  - intros q Hq. rewrite H2 by set_solver. apply handOf_insert_ne. set_solver.
  - intros c. rewrite sumf_cons, H3, Hpc, occ_cons. unfold occ at 1. cbn.
    by destruct (decide (c0 = c)).
Qed.

Lemma popCards_ok n dk : n ≤ length dk → popCards n dk = Ok (take n dk, drop n dk).
Proof.
  revert dk. induction n as [|n IH]; intros [|c dk] Hn; cbn in *; try lia; [done|done|].
  rewrite IH by lia. done.
Qed.

Lemma occ_take_drop c n l : occ c (take n l) + occ c (drop n l) = occ c l.
Proof. by rewrite <- occ_app, take_drop. Qed.

Lemma drawCard_some st p c dk :
  deck st = c :: dk →
  drawCard st p = Ok (setData "hands"
    (handsToAny (<[p := hand st p ++ [c]]> (getHands (Data st)))) (setData "deck" (Strs dk) st), c).
Proof. intros Hd. unfold drawCard. unfold deck in Hd. rewrite Hd. cbn. unfold hand. by ra. Qed.

Lemma seated_ext st st' :
  players st' = players st → to_win st' = to_win st → round_no st' = round_no st →
  (∀ p, token st' p = token st p) → seated st → seated st'.
Proof.
  intros Hp Hw Hr Ht [H1 H2 H3 H4 H5 H6]. split; rewrite ?Hp, ?Hw, ?Hr; try done.
  - intros p Hin. rewrite Ht. by apply H5.
  - rewrite (sumf_ext _ (λ p, Z.to_nat (token st p))); [done|]. intros. by rewrite Ht.
Qed.

(** The state that [dealRound] builds, before the first card is drawn. *)
Definition dealt st (dk fu : list string) (fd : string) (hs : gmap string (list string))
    (first : string) : GameState :=
  setCurrent first (setData "phase" (Str phasePlaying) (setData "discard_order" (Slice [])
    (setData "discard_piles" (Map ∅) (setData "backdoor_played_by" (Strs [])
    (setData "protected" (Strs []) (setData "eliminated" (Strs [])
    (setData "set_aside_visible" (Strs fu) (setData "set_aside_face_down" (Str fd)
    (setData "hands" (handsToAny hs) (setData "deck" (Strs dk) st)))))))))).

Lemma dealt_live st x dk fu fd hs first :
  let st1 := dealt st (x :: dk) fu fd hs first in
  seated st → first ∈ players st → fd ≠ "" →
  (∀ p, p ∈ players st → length (handOf hs p) = 1) →
  (∀ c, occ c (x :: dk) + sumf (λ p, occ c (handOf hs p)) (players st) + occ c [fd] + occ c fu
        = occ c deckComposition) →
  ∃ st', drawCard st1 first = Ok (st', x) ∧ live st' ∧ phase st' = phasePlaying ∧
    players st' = players st ∧ to_win st' = to_win st ∧ round_no st' = round_no st ∧
    CurrentPlayerID st' = first.
Proof.
  intros st1 Hs Hf Hfd Hone Hocc.
  pose proof (drawCard_some st1 first x dk ltac:(unfold st1, dealt, deck; by ra)) as Hd.
  eexists. split; [exact Hd|].
  set (st' := setData _ _ _).
  assert (players st' = players st) as Epl by (unfold st', st1, dealt, players; by ra).
  assert (to_win st' = to_win st) as Etw by (unfold st', st1, dealt, to_win; by ra).
  assert (round_no st' = round_no st) as Ern by (unfold st', st1, dealt, round_no; by ra).
  assert (elim st' = []) as Eel by (unfold st', st1, dealt, elim; by ra).
  assert (phase st' = phasePlaying) as Eph by (unfold st', st1, dealt, phase; by ra).
  assert (∀ p, hand st' p = if decide (p = first) then handOf hs p ++ [x] else handOf hs p) as Eh.
  { intros p. unfold st', st1, dealt, hand. ra. case_decide as Hp; subst.
    - by rewrite handOf_insert.
    - by rewrite handOf_insert_ne by congruence. }
  assert (active st' = players st) as Eac.
  { unfold active, activePlayers. fold (players st') (elim st'). rewrite Epl, Eel.
    apply filter_all. intros q _. apply not_elem_of_nil. }
  split_and!; [|done..]. split.
  - eapply seated_ext; [done|done|done| |exact Hs].
    intros p. unfold st', st1, dealt, token. by ra.
  - intros c. unfold total. rewrite Eph, Epl. rewrite decide_False by done.
    pose proof (sumf_update (λ p, occ c (hand st' p)) (λ p, occ c (handOf hs p)) first (players st)
      (seated_nodup _ Hs) Hf ltac:(intros; cbn; rewrite Eh, decide_False; done)) as Hu.
    cbn in Hu. rewrite (Eh first), decide_True, occ_app in Hu by done.
    rewrite <- (Hocc c), occ_cons.
    assert (deck st' = dk) as -> by (unfold st', st1, dealt, deck; by ra).
    assert (faceUp st' = fu) as -> by (unfold st', st1, dealt, faceUp; by ra).
    assert (faceDown st' = [fd]) as ->.
    { unfold st', st1, dealt, faceDown. ra. by rewrite decide_False. }
    rewrite (sumf_ext (λ p, occ c (pile st' p)) (λ _, 0)).
    2:{ intros p _. unfold st', st1, dealt, pile. by ra. }
    rewrite sumf_zero.
    rewrite (occ_cons c x []) in Hu. rewrite occ_nil in Hu. lia.
  - rewrite Eac. done.
  - rewrite Eac. apply Hs.
  - left. split; [done|]. rewrite Eh.
    change (CurrentPlayerID st') with first. rewrite decide_True by done.
    rewrite length_app, Hone by done. done.
  - rewrite Eac. intros p Hp Hne. rewrite Eh, decide_False by done. by apply Hone.
  - rewrite Eel. by intros p _ ?%elem_of_nil.
Qed.

Section Deal.
Context `{PRNG}.

Lemma dealRound_live st first :
  seated st → first ∈ players st →
  ∃ st', dealRound st (players st) first = Ok st' ∧ live st' ∧ phase st' = phasePlaying ∧
    players st' = players st ∧ to_win st' = to_win st ∧ round_no st' = round_no st ∧
    CurrentPlayerID st' = first.
Proof.
  intros Hs Hf. unfold dealRound.
  set (sd := ShuffleWith _ _).
  assert (sd ≡ₚ deckComposition) as Hperm by apply ShuffleWith_perm.
  assert (length sd = 21) as Hlen by (by rewrite Hperm).
  destruct sd as [|fd dk]; [done|]. cbn [popCard mbind result_bind]. cbn in Hlen.
  assert (fd ≠ "") as Hfd.
  { assert (fd ∈ deckComposition) as Hin by (rewrite <- Hperm; set_solver).
    intros ->. revert Hin. by apply (bool_decide_unpack _). }
  assert (∀ n, n = (if decide (length (players st) = 2) then 3 else 0) →
    (if decide (length (players st) = 2) then popCards 3 dk else Ok ([], dk))
    = Ok (take n dk, drop n dk)) as Hup.
  { intros n ->. case_decide; [apply popCards_ok; lia|]. by rewrite drop_0. }
  set (n := if decide (length (players st) = 2) then 3 else 0) in *.
  rewrite (Hup n eq_refl). cbn [mbind result_bind].
  pose proof (seated_len _ Hs) as Hpl.
  assert (n ≤ 3) as Hn by (unfold n; case_decide; lia).
  destruct (dealHands_ok (players st) (drop n dk) ∅ (seated_nodup _ Hs)) as
    (cs & hs & Hd & Hcs & Hone & _ & Hsum); [rewrite length_drop; lia|].
  rewrite Hd. cbn [mbind result_bind].
  remember (drop (length (players st)) (drop n dk)) as dk' eqn:Hdk'.
  assert (length dk' = 20 - n - length (players st)) as Hl' by (subst; rewrite !length_drop; lia).
  destruct dk' as [|x dk']; [cbn in Hl'; lia|].
  destruct (dealt_live st x dk' (take n dk) fd hs first Hs Hf Hfd Hone) as (st' & Hdraw & Hrest).
  { intros c. rewrite Hsum, <- Hcs, Hdk'.
    rewrite <- (occ_perm c _ _ Hperm), (occ_cons c fd dk), (occ_cons c fd []), occ_nil.
    rewrite <- (occ_take_drop c n dk).
    rewrite <- (occ_take_drop c (length (players st)) (drop n dk)). lia. }
  unfold dealt in Hdraw. rewrite Hdraw. eauto.
Qed.

(** ** Resolving a round *)

Lemma card_in_deck st p c : conserved st → p ∈ players st → c ∈ hand st p → c ∈ deckComposition.
Proof.
  intros Hc Hp Hin. destruct (decide (c ∈ deckComposition)) as [|Hn]; [done|].
  apply occ_not_elem in Hn. rewrite <- Hc in Hn. unfold total in Hn.
  assert (0 < sumf (λ p, occ c (hand st p)) (players st)) as Hpos; [|lia].
  apply list_elem_of_split in Hp as (l1 & l2 & ->).
  apply list_elem_of_split in Hin as (h1 & h2 & Hh).
  unfold sumf. rewrite fmap_app, list_sum_app. cbn. rewrite Hh, occ_app, occ_cons.
  destruct (decide (c = c)); [lia|done].
Qed.

Lemma cardValue_nonneg c : c ∈ deckComposition → (0 ≤ cardValue c)%Z.
Proof.
  assert (Forall (λ c, (0 ≤ cardValue c)%Z) deckComposition) as Hall.
  { apply (bool_decide_unpack _). vm_compute. exact I. }
  rewrite Forall_forall in Hall. apply Hall.
Qed.

(** The winner by hand is one of the candidates, if there are any. *)
Lemma highestHandWinner_elem st l :
  (∀ p c, p ∈ l → c ∈ hand st p → (0 ≤ cardValue c)%Z) →
  l ≠ [] → highestHandWinner st l ∈ l.
Proof.
  intros Hval Hl. unfold highestHandWinner.
  set (f := λ '(bp, bh, bd) id, _).
  enough (∀ l' acc, (∀ p, p ∈ l' → p ∈ l) →
    (acc.1.1 ∈ l ∨ acc.1.2 = (-1)%Z ∧ l' ≠ []) →
    (foldl f acc l').1.1 ∈ l) as Hg.
  { specialize (Hg l ("", (-1)%Z, (-1)%Z) ltac:(done) ltac:(right; done)).
    destruct (foldl _ _ _) as [[bp bh] bd]. done. }
  induction l' as [|p l' IH]; intros [[bp bh] bd] Hsub Hacc; cbn [foldl].
  - cbn in *. naive_solver.
  - apply IH; [set_solver|]. cbn [f fst snd] in *.
    set (hv := match handOf (getHands (Data st)) p with [] => 0%Z | c :: _ => cardValue c end).
    assert (0 ≤ hv)%Z as Hhv.
    { unfold hv. destruct (handOf _ p) as [|c h] eqn:E; [done|].
      apply (Hval p); [apply Hsub; set_solver|]. unfold hand. rewrite E. set_solver. }
    left. destruct Hacc as [Hbp|[-> _]].
    + destruct (_ || _); cbn; [apply Hsub; set_solver|done].
    + replace (-1 <? hv)%Z with true by lia. cbn. apply Hsub. set_solver.
Qed.

Lemma incToken_lookup t p q :
  default 0%Z (incToken t p !! q) =
  if decide (p = q) then wrap64 (default 0%Z (t !! p) + 1) else default 0%Z (t !! q).
Proof.
  unfold incToken. rewrite lookup_insert. by case_decide; subst.
Qed.

(** The winner of the round and the bonus, as [resolveRound] computes them. *)
Definition round_winner st : string :=
  match active st with [a] => a | _ => highestHandWinner st (active st) end.

Definition awarded st : gmap string Z :=
  let t := getTokens (Data st) in
  let t := match backdoors st with [b] => incToken t b | _ => t end in
  if decide (round_winner st = "") then t else incToken t (round_winner st).

Lemma round_winner_active st :
  conserved st → active st ≠ [] → round_winner st ∈ active st.
Proof.
  intros Hc Ha. unfold round_winner.
  destruct (active st) as [|a [|b l]] eqn:E; [done|set_solver|].
  apply highestHandWinner_elem; [|done]. rewrite <- E. intros p c Hp Hin.
  apply active_spec in Hp as [Hp _]. apply cardValue_nonneg. by eapply card_in_deck.
Qed.

Lemma tokensToWin_bounds n : (3 ≤ tokensToWin n ≤ 7)%Z.
Proof. unfold tokensToWin. repeat case_match; lia. Qed.

(** Tokens never decrease, grow by at most two, and the winner's grows. *)
Lemma awarded_spec st p :
  seated st → p ∈ players st →
  (token st p ≤ default 0%Z (awarded st !! p) ≤ token st p + 2)%Z ∧
  (round_winner st = p → p ≠ "" → (token st p + 1 ≤ default 0%Z (awarded st !! p))%Z).
Proof.
  intros Hs Hp. pose proof (seated_tokens _ Hs p Hp) as Ht.
  pose proof (seated_to_win _ Hs) as Htw.
  pose proof (tokensToWin_bounds (Z.of_nat (length (players st)))) as Hb.
  assert (token st p < 7)%Z as Ht7 by lia.
  unfold awarded. fold (token st p).
  set (t1 := match backdoors st with [b] => _ | _ => _ end).
  assert (token st p ≤ default 0%Z (t1 !! p) ≤ token st p + 1)%Z as H1.
  { unfold t1. destruct (backdoors st) as [|b [|??]]; fold (token st p); [lia| |unfold token; lia].
    rewrite incToken_lookup. case_decide as E; [|unfold token; lia]. subst b.
    fold (token st p). rewrite wrap64_id by lia. lia. }
  case_decide as Hw; [split; [lia|congruence]|].
  rewrite incToken_lookup. case_decide as E.
  - rewrite E in *. rewrite wrap64_id by lia. split; [lia|intros; lia].
  - split; [lia|congruence].
Qed.

Lemma list_find_token_None (t : gmap string Z) n l :
  list_find (λ id, (n ≤ default 0%Z (t !! id))%Z) l = None →
  ∀ p, p ∈ l → (default 0%Z (t !! p) < n)%Z.
Proof.
  intros Hf%list_find_None p Hp. rewrite Forall_forall in Hf.
  specialize (Hf p Hp). cbn in Hf. lia.
Qed.

Lemma resolveRound_passed st :
  seated st → conserved st → active st ≠ [] →
  ∃ st', resolveRound st = Ok st' ∧ players st' = players st ∧ to_win st' = to_win st ∧
    (over st' ∨ live st' ∧ phase st' = phasePlaying ∧ round_no st' = (round_no st + 1)%Z).
Proof.
  intros Hs Hc Ha. unfold resolveRound.
  fold (players st) (backdoors st). fold (active st) in *.
  fold (round_winner st). fold (awarded st).
  pose proof (round_winner_active st Hc Ha) as Hw.
  apply active_spec in Hw as [Hwp _].
  assert (round_winner st ≠ "") as Hwn by (intros E; rewrite E in Hwp; by apply (seated_named _ Hs)).
  pose proof (seated_to_win _ Hs) as Htw.
  pose proof (tokensToWin_bounds (Z.of_nat (length (players st)))) as Hb.
  ra. fold (to_win st) (round_no st).
  destruct (to_win st =? 0)%Z eqn:E0; [lia|].
  destruct (list_find _ (players st)) as [[i w]|] eqn:Ef.
  - apply list_find_Some in Ef as (Hi & Hge & _).
    apply list_elem_of_lookup_2 in Hi.
    eexists. split; [done|]. unfold players, to_win. ra. split_and!; [done..|].
    left. split; [unfold phase; by ra|]. exists w. unfold players, to_win, token. ra.
    split_and!; [done| |done|done|done]. intros ->. by apply (seated_named _ Hs).
  - pose proof (list_find_token_None _ _ _ Ef) as Hlt. rewrite decide_False by done.
    cbn [mbind result_bind].
    set (st1 := setData "round" _ _).
    assert (players st1 = players st) as Ep by (unfold st1, players; by ra).
    assert (to_win st1 = to_win st) as Et by (unfold st1, to_win; by ra).
    assert (∀ p, token st1 p = default 0%Z (awarded st !! p)) as Ek
      by (intros; unfold st1, token; by ra).
    pose proof (seated_round _ Hs) as Hr.
    assert (sumf (λ p, Z.to_nat (token st p)) (players st) ≤ 5 * 7) as Hsum.
    { etransitivity; [apply (sumf_le_const _ 7)|pose proof (seated_len _ Hs); lia].
      intros p Hp. pose proof (seated_tokens _ Hs p Hp). lia. }
    assert (round_no st1 = round_no st + 1)%Z as Er
      by (unfold st1, round_no; ra; rewrite wrap64_id by (fold (round_no st); lia); done).
    assert (seated st1) as Hs1.
    { split; rewrite ?Ep, ?Et; try apply Hs.
      - intros p Hp. rewrite Ek. pose proof (seated_tokens _ Hs p Hp).
        destruct (awarded_spec st p Hs Hp) as [? _]. specialize (Hlt p Hp). lia.
      - rewrite Er. split; [lia|].
        enough (sumf (λ p, Z.to_nat (token st p)) (players st) <
                sumf (λ p, Z.to_nat (token st1 p)) (players st)) by lia.
        apply (sumf_lt _ _ (round_winner st)); [|done|].
        + intros p Hp. rewrite Ek. destruct (awarded_spec st p Hs Hp) as [? _]. lia.
        + rewrite Ek. pose proof (seated_tokens _ Hs _ Hwp).
          destruct (awarded_spec st _ Hs Hwp) as [_ Hinc]. specialize (Hinc eq_refl Hwn). lia. }
    destruct (dealRound_live st1 (round_winner st) Hs1) as
      (st' & Hd & Hlive & Hph & Hpl & Htw' & Hrn & _); [by rewrite Ep|].
    rewrite Ep in Hd. fold st1. rewrite Hd.
    eexists. split; [done|]. rewrite Hpl, Htw', Hrn, Ep, Et, Er.
    split_and!; [done|done|]. right. split_and!; done.
Qed.

(** ** Passing the turn *)

Lemma nextActivePlayer_elem st p : active st ≠ [] → nextActivePlayer st p ∈ active st.
Proof.
  intros Ha. unfold nextActivePlayer. fold (active st).
  destruct (active st) as [|a l] eqn:E; [done|]. rewrite <- E.
  destruct (list_find _ _) as [[i c]|] eqn:Ef.
  - apply list_find_Some in Ef as (_ & Hin & _). by rewrite E in *.
  - rewrite E. set_solver.
Qed.

(** The state once the turn has moved on, before the card is drawn. *)
Definition turned st : GameState :=
  let next := nextActivePlayer st (CurrentPlayerID st) in
  setCurrent next (setData "protected"
    (Strs (filter (λ id, id ≠ next) (getStringSlice (Data st) "protected"))) st).

Lemma turned_obs st :
  players (turned st) = players st ∧ to_win (turned st) = to_win st ∧
  round_no (turned st) = round_no st ∧ deck (turned st) = deck st ∧
  (∀ p, hand (turned st) p = hand st p) ∧ phase (turned st) = phase st ∧
  active (turned st) = active st ∧ elim (turned st) = elim st ∧
  (∀ p, token (turned st) p = token st p) ∧ (∀ c, total c (turned st) = total c st).
Proof.
  unfold turned, total, active, activePlayers, players, to_win, round_no, deck, hand, phase,
    elim, token, faceUp, faceDown, pile, choices. ra. done.
Qed.

Lemma advanceTurn_eq st :
  1 < length (active st) →
  (∀ p, p ∈ active st → length (hand st p) ≤ 1) →
  advanceTurn st =
    match drawCard (turned st) (nextActivePlayer st (CurrentPlayerID st)) with
    | Ok (st', _) => Ok st'
    | Err _ => resolveRound (turned st)
    end.
Proof.
  intros Hlen Hh. unfold advanceTurn. fold (active st). rewrite decide_False by lia.
  fold (turned st). rewrite decide_True; [done|].
  change (handOf (getHands (Data (turned st))) (nextActivePlayer st (CurrentPlayerID st)))
    with (hand (turned st) (nextActivePlayer st (CurrentPlayerID st))).
  destruct (turned_obs st) as (_ & _ & _ & _ & -> & _).
  specialize (Hh (nextActivePlayer st (CurrentPlayerID st))).
  assert (nextActivePlayer st (CurrentPlayerID st) ∈ active st).
  { apply nextActivePlayer_elem, length_ne. lia. }
  specialize (Hh ltac:(done)). lia.
Qed.

Lemma drawn_live st x dk :
  settled st → 1 < length (active st) → deck st = x :: dk →
  let next := nextActivePlayer st (CurrentPlayerID st) in
  ∃ st', drawCard (turned st) next = Ok (st', x) ∧ live st' ∧ phase st' = phasePlaying ∧
    players st' = players st ∧ to_win st' = to_win st ∧ round_no st' = round_no st ∧
    deck st' = dk ∧ CurrentPlayerID st' = next.
Proof.
  intros [Hs Hc Hcur Hact Hph Hhs Hone Hel] Hlen Hdk next.
  destruct (turned_obs st) as (Tp & Tw & Tr & Td & Th & Tph & Ta & Te & Tt & Ttot).
  assert (next ∈ active st) as Hnext by (apply nextActivePlayer_elem, length_ne; lia).
  pose proof (proj1 (active_spec _ _) Hnext) as [Hnp Hne].
  rewrite <- Td in Hdk. pose proof (drawCard_some (turned st) next x dk Hdk) as Hd.
  eexists. split; [exact Hd|]. set (st' := setData _ _ _).
  assert (players st' = players st) as Ep by (rewrite <- Tp; unfold st', players; by ra).
  assert (to_win st' = to_win st) as Et by (rewrite <- Tw; unfold st', to_win; by ra).
  assert (round_no st' = round_no st) as Er by (rewrite <- Tr; unfold st', round_no; by ra).
  assert (elim st' = elim st) as Eel by (rewrite <- Te; unfold st', elim; by ra).
  assert (phase st' = phase st) as Eph by (rewrite <- Tph; unfold st', phase; by ra).
  assert (active st' = active st) as Ea.
  { rewrite <- Ta. unfold active, activePlayers, st'. by ra. }
  assert (∀ p, hand st' p = if decide (p = next) then hand st p ++ [x] else hand st p) as Eh.
  { intros p. rewrite <- !Th. unfold st', hand. ra. case_decide as Hp; subst.
    - by rewrite handOf_insert.
    - by rewrite handOf_insert_ne by congruence. }
  assert (deck st ≠ []) as Hne0 by (rewrite <- Td, Hdk; done).
  split_and!; [|congruence|done|done|done|unfold st', deck; by ra|done]. split.
  - eapply seated_ext; [done|done|done| |exact Hs].
    intros p. rewrite <- Tt. unfold st', token. by ra.
  - intros c. rewrite <- (Hc c), <- Ttot.
    pose proof (total_local c (turned st) st' next) as Hl. rewrite Tp in Hl.
    specialize (Hl (seated_nodup _ Hs) Hnp Ep ltac:(unfold st', faceUp; by ra)
      ltac:(intros; rewrite Eh, Th, decide_False; done) ltac:(intros; unfold st', pile; by ra)).
    enough (local c st' next = local c (turned st) next) by lia.
    unfold local. rewrite Eh, Th, Eph, Tph, Hph, decide_True by done.
    rewrite !decide_False by done.
    assert (deck st' = dk) as -> by (unfold st', deck; by ra).
    assert (pile st' next = pile (turned st) next) as -> by (unfold st', pile; by ra).
    assert (faceDown st' = faceDown (turned st)) as -> by (unfold st', faceDown; by ra).
    rewrite Hdk, occ_cons, occ_app, occ_cons, occ_nil. lia.
  - by rewrite Ea.
  - rewrite Ea. lia.
  - left. rewrite Eph, Eh. change (CurrentPlayerID st') with next. rewrite decide_True by done.
    rewrite length_app, (Hone next) by done. done.
  - rewrite Ea. intros p Hp Hpn. rewrite Eh, decide_False by done. by apply Hone.
  - rewrite Ep, Eel. intros p Hp Hpe. rewrite Eh, decide_False by (intros ->; done). by apply Hel.
Qed.

Lemma advanceTurn_passed st :
  settled st → ∃ st', advanceTurn st = Ok st' ∧ passed st st'.
Proof.
  intros Hst. pose proof Hst as [Hs Hc Hcur Hact Hph Hhs Hone Hel].
  assert (active st ≠ []) as Hne by (apply length_ne; lia).
  destruct (decide (length (active st) ≤ 1)) as [Hle|Hgt].
  - destruct (resolveRound_passed st Hs Hc Hne) as (st' & Hr & Hp & Hw & Hcase).
    exists st'. unfold advanceTurn. fold (active st). rewrite decide_True by done.
    split; [done|]. split_and!; [done|done|]. naive_solver.
  - assert (1 < length (active st)) as Hlen by lia.
    rewrite advanceTurn_eq; [|done|intros p Hp; apply Hhs; by apply active_spec in Hp as [? _]].
    destruct (deck st) as [|x dk] eqn:Edk.
    + destruct (turned_obs st) as (Tp & Tw & Tr & Td & Th & Tph & Ta & Te & Tt & Ttot).
      assert (drawCard (turned st) (nextActivePlayer st (CurrentPlayerID st))
              = Err (GErr "deck is empty" [])) as ->.
      { unfold drawCard. fold (deck (turned st)). by rewrite Td, Edk. }
      destruct (resolveRound_passed (turned st)) as (st' & Hr & Hp & Hw & Hcase).
      * by eapply seated_ext.
      * intros c. by rewrite Ttot.
      * by rewrite Ta.
      * exists st'. split; [done|]. rewrite Tp in Hp. rewrite Tw in Hw. rewrite Tr in Hcase.
        split_and!; [done|done|]. naive_solver.
    + destruct (drawn_live st x dk Hst Hlen Edk) as (st' & Hd & Hl & Hp & Hpl & Hw & Hr & Hdk & _).
      rewrite Hd. exists st'. split; [done|]. split_and!; [done|done|]. right.
      split_and!; [done|done|]. left. split; [done|]. rewrite Edk, Hdk. done.
Qed.
End Deal.
End Invariant.
