(* ===== verification/RootAccessMoves.v ===== *)
(** Each Root Access card effect, played from a live state, leads to a state in
    which the turn can pass on; and the accessors read the same values before
    and after the deep copy with which every move starts. *)
From S2P Require Import Prelude Json Engine Randutil RootAccess RootAccessFacts RootAccessInv.
Import RootAccess.

Section Effects.
Implicit Types (st : GameState) (p q c : string).

(** ** States that differ in irrelevant keys *)

Definition aside_keys : list string :=
  ["private_reveals"; "protected"; "backdoor_played_by"; "discard_order"].

Lemma aside_obs st st' :
  frame aside_keys st st' →
  players st' = players st ∧ to_win st' = to_win st ∧ round_no st' = round_no st ∧
  deck st' = deck st ∧ elim st' = elim st ∧ phase st' = phase st ∧
  (∀ p, hand st' p = hand st p) ∧ (∀ p, pile st' p = pile st p) ∧
  (∀ p, token st' p = token st p) ∧ (∀ c, total c st' = total c st) ∧
  active st' = active st.
Proof.
  intros F.
  unfold active, activePlayers, total, players, to_win, round_no, deck, elim, phase, hand, pile,
    token, faceUp, faceDown, choices.
  rewrite ?(frame_getStringSlice F), ?(frame_getInt F), ?(frame_getString F),
    ?(frame_getHands F), ?(frame_getDiscardPiles F), ?(frame_getTokens F) by key.
  done.
Qed.

Lemma settled_aside st st' : frame aside_keys st st' → settled st → settled st'.
Proof.
  intros F [Hs Hc Hcur Ha Hp Hh H1 He].
  destruct (aside_obs st st' F) as (Ep & Ew & Er & Ed & Ee & Eph & Eh & _ & Et & Etot & Ea).
  split; rewrite ?Ep, ?Ea, ?Eph, ?Ed, ?Ee, ?(frame_cur _ _ _ F); try done.
  - by eapply seated_ext.
  - intros c. by rewrite Etot.
  - intros p. rewrite Eh. apply Hh.
  - intros p. rewrite Eh. apply H1.
  - intros p. rewrite Eh. apply He.
Qed.

(** ** Elimination *)

Lemma eliminatePlayer_active st p :
  active (eliminatePlayer st p) = filter (λ q, q ≠ p) (active st).
Proof.
  unfold active, activePlayers. fold (elim (eliminatePlayer st p)) (elim st) (players st).
  fold (players (eliminatePlayer st p)).
  assert (players (eliminatePlayer st p) = players st) as ->.
  { unfold players. by rewrite (frame_getStringSlice (eliminatePlayer_frame st p)) by key. }
  rewrite eliminatePlayer_elim, list_filter_filter. apply list_filter_iff.
  intros q. rewrite appendUnique_elem. tauto.
Qed.

Lemma filter_ne_length p (l : list string) : NoDup l → length l ≤ S (length (filter (λ q, q ≠ p) l)).
Proof.
  induction 1 as [|x l Hx Hnd IH]; [cbn; lia|]. rewrite filter_cons.
  destruct (decide (x ≠ p)) as [Hne|Heq]; cbn; [lia|].
  apply dec_stable in Heq. subst. rewrite filter_all; [lia|]. intros y Hy ->. done.
Qed.

(** Elimination settles the table even when the eliminated player's own hand
    is out of step. *)
Lemma eliminate_settles st p :
  seated st → conserved st → CurrentPlayerID st ∈ players st → phase st = phasePlaying →
  (∀ q, q ∈ players st → q ≠ p → length (hand st q) ≤ 1) →
  (∀ q, q ∈ active st → q ≠ p → deck st ≠ [] → length (hand st q) = 1) →
  (∀ q, q ∈ players st → q ∈ elim st → hand st q = []) →
  p ∈ players st → 2 ≤ length (active st) → settled (eliminatePlayer st p).
Proof.
  intros Hs Hc Hcur Hp Hh H1 He Hin H2.
  pose proof (eliminatePlayer_frame st p) as F.
  assert (players (eliminatePlayer st p) = players st) as Ep
    by (unfold players; by rewrite (frame_getStringSlice F) by key).
  split; rewrite ?Ep, ?eliminatePlayer_active, ?(frame_cur _ _ _ F).
  - eapply seated_ext; [done| | | |exact Hs].
    + unfold to_win. by rewrite (frame_getInt F) by key.
    + unfold round_no. by rewrite (frame_getInt F) by key.
    + intros q. unfold token. by rewrite (frame_getTokens F) by key.
  - intros c. rewrite eliminatePlayer_total; [apply Hc|apply Hs|done].
  - done.
  - pose proof (filter_ne_length p (active st) (active_NoDup st (seated_nodup _ Hs))). lia.
  - unfold phase. by rewrite (frame_getString F) by key.
  - intros q Hq. rewrite eliminatePlayer_hand. case_decide; [cbn; lia|by apply Hh].
  - intros q Hq Hd. rewrite eliminatePlayer_hand.
    apply list_elem_of_filter in Hq as [Hqp Hq]. rewrite decide_False by done.
    apply H1; [done|done|]. revert Hd. unfold deck. by rewrite (frame_getStringSlice F) by key.
  - intros q Hq. rewrite eliminatePlayer_hand, eliminatePlayer_elim.
    intros [Hq'| ->]%appendUnique_elem; case_decide; try done. by apply He.
Qed.

Lemma settled_eliminate st p :
  settled st → p ∈ players st → 2 ≤ length (active st) → settled (eliminatePlayer st p).
Proof. intros [Hs Hc Hcur Ha Hp Hh H1 He] Hin H2. apply eliminate_settles; auto. Qed.

(** ** Playing the card *)

(** The played card moves from the hand to the discard pile. *)
Definition played st p c : GameState :=
  appendDiscard (removeFromHand (delData "private_reveals" st) p c) p c.

Definition play_keys : list string :=
  ["private_reveals"; "hands"; "discard_piles"; "discard_order"].

Lemma played_frame st p c : frame play_keys st (played st p c).
Proof.
  unfold played, removeFromHand.
  eapply frame_trans; [|eapply frame_weaken; [|apply appendDiscard_frame];
    unfold discard_keys, play_keys; set_solver].
  eapply frame_trans; [|apply frame_setData; key]. apply frame_delData; key.
Qed.

Lemma played_hand st p c q :
  hand (played st p c) q = if decide (q = p) then removeFirst c (hand st p) else hand st q.
Proof.
  unfold played, hand. rewrite (frame_getHands (appendDiscard_frame _ _ _)) by key.
  unfold removeFromHand. ra. case_decide as Hq; subst; [by rewrite handOf_insert|].
  by rewrite handOf_insert_ne by congruence.
Qed.

Lemma played_pile st p c q :
  pile (played st p c) q = if decide (q = p) then pile st p ++ [c] else pile st q.
Proof. unfold played. rewrite appendDiscard_pile. unfold pile, removeFromHand. by ra. Qed.

Lemma played_obs st p c :
  players (played st p c) = players st ∧ to_win (played st p c) = to_win st ∧
  round_no (played st p c) = round_no st ∧ deck (played st p c) = deck st ∧
  elim (played st p c) = elim st ∧ phase (played st p c) = phase st ∧
  prot (played st p c) = prot st ∧ faceUp (played st p c) = faceUp st ∧
  faceDown (played st p c) = faceDown st ∧ choices (played st p c) = choices st ∧
  (∀ q, token (played st p c) q = token st q) ∧ active (played st p c) = active st.
Proof.
  pose proof (played_frame st p c) as F.
  unfold active, activePlayers, players, to_win, round_no, deck, elim, phase,
    token, faceUp, faceDown, choices, prot.
  rewrite ?(frame_getStringSlice F), ?(frame_getInt F), ?(frame_getString F),
    ?(frame_getTokens F) by key.
  done.
Qed.

Lemma played_total st p c x :
  NoDup (players st) → p ∈ players st → c ∈ hand st p → total x (played st p c) = total x st.
Proof.
  intros Hnd Hp Hc.
  destruct (played_obs st p c) as (Ep & Ew & Er & Ed & Ee & Eph & _ & Efu & Efd & Ech & _).
  pose proof (total_local x st (played st p c) p Hnd Hp Ep Efu) as Hl.
  enough (local x (played st p c) p = local x st p) as E.
  { rewrite E in Hl.
    enough (total x (played st p c) + local x st p = total x st + local x st p) by lia.
    apply Hl; intros q Hq; [rewrite played_hand|rewrite played_pile]; by rewrite decide_False. }
  unfold local. rewrite Ed, Efd, Ech, Eph, played_hand, played_pile.
  destruct (decide (p = p)) as [_|]; [|done].
  rewrite (removeFirst_occ x c (hand st p) Hc), occ_app, occ_cons, occ_nil. lia.
Qed.

(** Playing a card from a live state: every active player then holds one card. *)
Lemma played_settled st c :
  live st → phase st = phasePlaying → c ∈ hand st (CurrentPlayerID st) →
  settled (played st (CurrentPlayerID st) c) ∧
  ∀ q, q ∈ active st → length (hand (played st (CurrentPlayerID st) c) q) = 1.
Proof.
  intros [Hs Hc Hcur Ha Hph Hoth Hel] Hpl Hin. set (p := CurrentPlayerID st) in *.
  destruct (played_obs st p c) as (Ep & Ew & Er & Ed & Ee & Eph & _ & _ & _ & _ & Et & Eac).
  assert (length (hand st p) = 2) as H2.
  { destruct Hph as [[_ H]|[E _]]; [done|]. by rewrite Hpl in E. }
  pose proof (removeFirst_length c (hand st p) Hin) as Hlen.
  assert (∀ q, q ∈ active st → length (hand (played st p c) q) = 1) as Hone.
  { intros q Hq. rewrite played_hand. case_decide; [lia|]. by apply Hoth. }
  split; [|done].
  pose proof (proj1 (active_spec _ _) Hcur) as [Hpp Hpe].
  split; rewrite ?Ep, ?Eac, ?Eph, ?(frame_cur _ _ _ (played_frame st p c)).
  - by eapply seated_ext.
  - intros x. rewrite played_total; [apply Hc|apply Hs|done|done].
  - done.
  - lia.
  - done.
  - intros q Hq. destruct (decide (q ∈ elim st)) as [He|He].
    + rewrite played_hand. case_decide; [lia|]. rewrite Hel by done. cbn. lia.
    + rewrite Hone; [lia|]. by apply active_spec.
  - intros q Hq _. by apply Hone.
  - rewrite Ee. intros q Hq He. rewrite played_hand. case_decide; [by subst|]. by apply Hel.
Qed.

(** ** The card effects *)

Lemma settled_ping st t g :
  settled st → 2 ≤ length (active st) → (t = "" ∨ t ∈ players st) → settled (applyPing st t g).
Proof.
  intros Hs H2 Ht. unfold applyPing. case_decide as Et; [done|].
  destruct Ht as [?|Ht]; [done|].
  destruct (handOf _ t); [done|]. case_decide; [|done]. by apply settled_eliminate.
Qed.

Lemma settled_overflow st a t :
  settled st → 2 ≤ length (active st) → a ∈ players st → (t = "" ∨ t ∈ players st) →
  settled (applyBufferOverflow st a t).
Proof.
  intros Hs H2 Ha Ht. unfold applyBufferOverflow. case_decide as Et; [done|].
  destruct Ht as [?|Ht]; [done|].
  destruct (handOf _ a); [done|]. destruct (handOf _ t); [done|].
  repeat case_match; [by apply settled_eliminate..|done].
Qed.

Lemma settled_backdoor st p : settled st → settled (applyBackdoor st p).
Proof. apply settled_aside, frame_setData. key. Qed.

Lemma settled_firewall st p : settled st → settled (applyFirewall st p).
Proof. apply settled_aside, frame_setData. key. Qed.

Lemma settled_sniffer st a t : settled st → settled (applySniffer st a t).
Proof.
  unfold applySniffer. case_decide; [done|]. apply settled_aside, frame_setData. key.
Qed.

(** A change of hands and decks that keeps the table consistent. *)
Lemma settled_change ks st st' :
  settled st → frame ks st st' →
  "players" ∉ ks → "tokens" ∉ ks → "tokens_to_win" ∉ ks → "round" ∉ ks →
  "eliminated" ∉ ks → "phase" ∉ ks →
  conserved st' →
  (∀ p, p ∈ players st → length (hand st' p) ≤ 1) →
  (∀ p, p ∈ active st → deck st' ≠ [] → length (hand st' p) = 1) →
  (∀ p, p ∈ players st → p ∈ elim st → hand st' p = []) →
  settled st'.
Proof.
  intros [Hs _ Hcur Ha Hp _ _ _] F K1 K2 K3 K4 K5 K6 Hc Hh H1 He.
  assert (players st' = players st) as Ep by (unfold players; by rewrite (frame_getStringSlice F)).
  assert (elim st' = elim st) as Ee by (unfold elim; by rewrite (frame_getStringSlice F)).
  assert (active st' = active st) as Ea
    by (unfold active, activePlayers; by rewrite !(frame_getStringSlice F)).
  split; rewrite ?Ep, ?Ea, ?Ee, ?(frame_cur _ _ _ F); try done.
  - eapply seated_ext; [done| | | |exact Hs].
    + unfold to_win. by rewrite (frame_getInt F).
    + unfold round_no. by rewrite (frame_getInt F).
    + intros q. unfold token. by rewrite (frame_getTokens F).
  - unfold phase. by rewrite (frame_getString F).
Qed.

Lemma settled_swap st a t :
  settled st → a ∈ active st → (t = "" ∨ t ∈ active st) →
  (∀ q, q ∈ active st → length (hand st q) = 1) →
  settled (applySwap st a t).
Proof.
  intros Hset Ha Ht Hone. unfold applySwap. case_decide as Et; [done|].
  destruct Ht as [?|Ht]; [done|].
  pose proof Hset as [Hs Hc Hcur Hact Hp Hh H1 He].
  pose proof (proj1 (active_spec _ _) Ha) as [Hap Hae].
  pose proof (proj1 (active_spec _ _) Ht) as [Htp Hte].
  fold (hand st a) (hand st t). set (st' := setData _ _ _).
  assert (∀ q, hand st' q = if decide (q = t) then hand st a
    else if decide (q = a) then hand st t else hand st q) as Eh.
  { intros q. unfold st', hand. ra. case_decide as Hqt; subst.
    - by rewrite handOf_insert.
    - rewrite handOf_insert_ne by congruence. case_decide as Hqa; subst.
      + by rewrite handOf_insert.
      + by rewrite handOf_insert_ne by congruence. }
  eapply (settled_change ["hands"]); [exact Hset|apply frame_setData; key|key..| | | |].
  - intros c. rewrite <- (Hc c). unfold total, deck, pile, faceDown, faceUp, choices, phase, players.
    unfold st'. ra. fold (players st) st'.
    enough (sumf (λ p, occ c (hand st' p)) (players st) =
            sumf (λ p, occ c (hand st p)) (players st)) as ->; [done|].
    pose proof (sumf_update (λ p, occ c (hand st' p))
      (λ p, occ c (if decide (p = a) then hand st t else hand st p)) t (players st)
      (seated_nodup _ Hs) Htp ltac:(intros x _ Hx; cbn; rewrite Eh, (decide_False _ _ Hx); done)) as U1.
    pose proof (sumf_update (λ p, occ c (if decide (p = a) then hand st t else hand st p))
      (λ p, occ c (hand st p)) a (players st) (seated_nodup _ Hs) Hap
      ltac:(intros x _ Hx; cbn; rewrite (decide_False _ _ Hx); done)) as U2.
    cbn in U1, U2. rewrite Eh in U1. destruct (decide (t = t)); [|done].
    destruct (decide (a = a)); [|done]. destruct (decide (t = a)); subst; lia.
  - intros q Hq. rewrite Eh. repeat case_decide; apply Hh; done.
  - intros q Hq _. rewrite Eh. repeat case_decide; apply Hone; done.
  - intros q Hq Hqe. rewrite Eh. repeat case_decide; subst; try done. by apply He.
Qed.

Lemma reboot_discard_total st t d x :
  NoDup (players st) → t ∈ players st → hand st t = [d] →
  total x (setData "hands" (handsToAny (<[t := []]> (getHands (Data st)))) (appendDiscard st t d))
  = total x st.
Proof.
  intros Hnd Ht Hd. set (st' := setData _ _ _).
  assert (∀ q, hand st' q = if decide (q = t) then [] else hand st q) as Eh.
  { intros q. unfold st', hand. ra. case_decide; subst; [by rewrite handOf_insert|].
    by rewrite handOf_insert_ne by congruence. }
  assert (∀ q, pile st' q = if decide (q = t) then pile st t ++ [d] else pile st q) as Epi.
  { intros q. rewrite <- appendDiscard_pile. unfold st', pile. by ra. }
  pose proof (appendDiscard_frame st t d) as F.
  assert (players st' = players st) as Ep
    by (unfold st', players; ra; by rewrite (frame_getStringSlice F) by key).
  assert (faceUp st' = faceUp st) as Efu
    by (unfold st', faceUp; ra; by rewrite (frame_getStringSlice F) by key).
  pose proof (total_local x st st' t Hnd Ht Ep Efu) as Hl.
  enough (local x st' t = local x st t) as E.
  { rewrite E in Hl. enough (total x st' + local x st t = total x st + local x st t) by lia.
    apply Hl; intros q Hq; [rewrite Eh|rewrite Epi]; by rewrite decide_False. }
  unfold local. rewrite Eh, Epi, Hd. destruct (decide (t = t)) as [_|]; [|done].
  rewrite occ_app. unfold deck, faceDown, phase, choices, st'. ra.
  rewrite ?(frame_getStringSlice F), ?(frame_getString F) by key. rewrite !occ_nil. lia.
Qed.

(** The table after the target's card has been discarded, before the redraw. *)
Definition rebooted st t d : GameState :=
  setData "hands" (handsToAny (<[t := []]> (getHands (Data st)))) (appendDiscard st t d).

Definition reboot_keys : list string :=
  ["hands"; "discard_piles"; "discard_order"; "deck"; "set_aside_face_down"].

Lemma rebooted_frame st t d : frame ["hands"; "discard_piles"; "discard_order"] st (rebooted st t d).
Proof.
  unfold rebooted. eapply frame_trans; [|apply frame_setData; key].
  eapply frame_weaken; [|apply appendDiscard_frame]. unfold discard_keys. set_solver.
Qed.

Lemma rebooted_hand st t d q :
  hand (rebooted st t d) q = if decide (q = t) then [] else hand st q.
Proof.
  unfold rebooted, hand. ra. case_decide; subst; [by rewrite handOf_insert|].
  by rewrite handOf_insert_ne by congruence.
Qed.

(** Taking a card from the deck or the set-aside card into the empty hand. *)
Lemma rebooted_redraw st t d x st' :
  settled st → t ∈ active st → hand st t = [d] →
  (∀ q, q ∈ active st → length (hand st q) = 1) →
  frame ["hands"; "deck"; "set_aside_face_down"] (rebooted st t d) st' →
  (∀ q, hand st' q = if decide (q = t) then [x] else hand st q) →
  (∀ c, occ c (deck st') + occ c (faceDown st') + occ c [x] = occ c (deck st) + occ c (faceDown st)) →
  settled st'.
Proof.
  intros Hset Ht Hd Hone F Eh Hocc.
  pose proof Hset as [Hs Hc Hcur Hact Hp Hh H1 He].
  pose proof (proj1 (active_spec _ _) Ht) as [Htp Hte].
  pose proof (rebooted_frame st t d) as F0.
  assert (frame reboot_keys st st') as F'.
  { eapply frame_trans; (eapply frame_weaken; [|eassumption]); unfold reboot_keys; set_solver. }
  eapply (settled_change reboot_keys); [exact Hset|exact F'|key..| | | |].
  - intros c. rewrite <- (Hc c).
    rewrite <- (reboot_discard_total st t d c (seated_nodup _ Hs) Htp Hd). fold (rebooted st t d).
    assert (players (rebooted st t d) = players st) as Ep
      by (unfold players; by rewrite (frame_getStringSlice F0) by key).
    pose proof (total_local c (rebooted st t d) st' t) as Hl. rewrite Ep in Hl.
    specialize (Hl (seated_nodup _ Hs) Htp
      ltac:(unfold players; by rewrite (frame_getStringSlice F') by key)
      ltac:(unfold faceUp; by rewrite (frame_getStringSlice F) by key)
      ltac:(intros; rewrite Eh, rebooted_hand, !decide_False; done)
      ltac:(intros; unfold pile; by rewrite (frame_getDiscardPiles F) by key)).
    enough (local c st' t = local c (rebooted st t d) t) by lia.
    unfold local. rewrite Eh, rebooted_hand. destruct (decide (t = t)) as [_|]; [|done].
    assert (pile st' t = pile (rebooted st t d) t) as ->
      by (unfold pile; by rewrite (frame_getDiscardPiles F) by key).
    assert (phase st' = phase (rebooted st t d)) as ->
      by (unfold phase; by rewrite (frame_getString F) by key).
    assert (choices st' = choices (rebooted st t d)) as ->
      by (unfold choices; by rewrite (frame_getStringSlice F) by key).
    assert (deck (rebooted st t d) = deck st) as ->
      by (unfold deck; by rewrite (frame_getStringSlice F0) by key).
    assert (faceDown (rebooted st t d) = faceDown st) as ->
      by (unfold faceDown; by rewrite (frame_getString F0) by key).
    specialize (Hocc c). rewrite occ_nil. lia.
  - intros q Hq. rewrite Eh. case_decide; [done|by apply Hh].
  - intros q Hq _. rewrite Eh. case_decide; [done|by apply Hone].
  - intros q Hq Hqe. rewrite Eh. case_decide; [by subst|by apply He].
Qed.

Lemma applyReboot_eq st t d :
  t ≠ "" → hand st t = [d] →
  applyReboot st t =
    if decide (d = CardRoot) then eliminatePlayer (rebooted st t d) t
    else match deck st with
         | [] =>
             let s := getString (Data st) "set_aside_face_down" in
             if decide (s = "") then rebooted st t d
             else setData "hands" (handsToAny (<[t := [s]]> (<[t := []]> (getHands (Data st)))))
                    (setData "set_aside_face_down" (Str "") (rebooted st t d))
         | x :: dk =>
             setData "hands" (handsToAny (<[t := [x]]> (<[t := []]> (getHands (Data st)))))
               (setData "deck" (Strs dk) (rebooted st t d))
         end.
Proof.
  intros Ht Hd. unfold applyReboot. rewrite decide_False by done.
  unfold hand in Hd. rewrite Hd. fold (rebooted st t d).
  case_decide; [done|]. unfold deck.
  rewrite (frame_getStringSlice (rebooted_frame st t d)) by key.
  rewrite (frame_getString (rebooted_frame st t d)) by key. done.
Qed.

Lemma settled_reboot st t :
  settled st → 2 ≤ length (active st) → t ∈ active st →
  (∀ q, q ∈ active st → length (hand st q) = 1) →
  settled (applyReboot st t).
Proof.
  intros Hset H2 Ht Hone. pose proof Hset as [Hs Hc Hcur Hact Hp Hh H1 He].
  pose proof (proj1 (active_spec _ _) Ht) as [Htp Hte].
  assert (t ≠ "") as Htn by (intros ->; by apply (seated_named _ Hs)).
  pose proof (Hone t Ht) as Hl. destruct (hand st t) as [|d [|??]] eqn:Hd; cbn in Hl; try lia.
  rewrite (applyReboot_eq st t d Htn Hd).
  pose proof (rebooted_frame st t d) as F.
  assert (conserved (rebooted st t d)) as Hc'.
  { intros c. unfold rebooted. rewrite reboot_discard_total; [apply Hc|apply Hs|done|done]. }
  assert (players (rebooted st t d) = players st) as Ep
    by (unfold players; by rewrite (frame_getStringSlice F) by key).
  assert (elim (rebooted st t d) = elim st) as Ee
    by (unfold elim; by rewrite (frame_getStringSlice F) by key).
  assert (active (rebooted st t d) = active st) as Ea
    by (unfold active, activePlayers; by rewrite !(frame_getStringSlice F) by key).
  case_decide as Hroot.
  { apply eliminate_settles; rewrite ?Ep, ?Ea, ?Ee; try done.
    - eapply seated_ext; [done| | | |exact Hs].
      + unfold to_win. by rewrite (frame_getInt F) by key.
      + unfold round_no. by rewrite (frame_getInt F) by key.
      + intros q. unfold token. by rewrite (frame_getTokens F) by key.
    - unfold phase. by rewrite (frame_getString F) by key.
    - intros q Hq Hqt. rewrite rebooted_hand, decide_False by done. by apply Hh.
    - intros q Hq Hqt _. rewrite rebooted_hand, decide_False by done. by apply Hone.
    - intros q Hq Hqe. rewrite rebooted_hand. case_decide; [done|by apply He]. }
  assert (∀ st0 x q, hand (setData "hands"
      (handsToAny (<[t := [x]]> (<[t := []]> (getHands (Data st))))) st0) q =
      if decide (q = t) then [x] else hand st q) as Eh.
  { intros st0 x q. unfold hand. ra. case_decide; subst; [by rewrite handOf_insert|].
    by rewrite !handOf_insert_ne by congruence. }
  destruct (deck st) as [|x dk] eqn:Edk.
  - cbv zeta. case_decide as Hsa.
    + eapply (settled_change ["hands"; "discard_piles"; "discard_order"]);
        [exact Hset|exact F|key..|done| | |].
      * intros q Hq. rewrite rebooted_hand. case_decide; [cbn; lia|by apply Hh].
      * intros q Hq Hdk. exfalso. apply Hdk. unfold deck.
        by rewrite (frame_getStringSlice F) by key.
      * intros q Hq Hqe. rewrite rebooted_hand. case_decide; [done|by apply He].
    + eapply (rebooted_redraw st t d); [done|done|done|done| |intros q; apply Eh|].
      * eapply frame_trans; apply frame_setData; key.
      * intros c. unfold deck, faceDown. ra. fold (deck st).
        rewrite (frame_getStringSlice F) by key. fold (deck st). rewrite Edk.
        rewrite (decide_False _ _ Hsa), decide_True by done. rewrite occ_nil. lia.
  - eapply (rebooted_redraw st t d); [done|done|done|done| |intros q; apply Eh|].
    + eapply frame_trans; apply frame_setData; key.
    + intros c. unfold deck at 1, faceDown. ra. rewrite (frame_getString F) by key.
      rewrite Edk, (occ_cons c x dk), (occ_cons c x []), occ_nil. lia.
Qed.
End Effects.
