(* ===== verification/RootAccessCodec.v ===== *)
(** The Root Access accessors across the JSON round trip: a state that has been
    persisted and reloaded reads the same, and the operations only ever store
    values for which this is so. *)
From S2P Require Import Prelude Json Engine Randutil RootAccess RootAccessFacts RootAccessInv.
Import RootAccess.

(** ** Values that read the same after a round trip *)

Definition string_slot (v : any) : bool :=
  match v with Arr9 _ | Cards _ => false | _ => true end.

Definition slot_ok (v : any) : bool :=
  string_slot v &&
  match v with Map m => bool_decide (map_Forall (λ _ v, string_slot v = true) m) | _ => true end.

Definition typed (d : data) : Prop := map_Forall (λ _ v, slot_ok v = true) d.

Lemma slot_ok_map (m : data) : slot_ok (Map m) = true ↔ map_Forall (λ _ v, string_slot v = true) m.
Proof. cbn. by rewrite bool_decide_eq_true. Qed.

Lemma string_slot_rt v : string_slot (json_rt v) = true.
Proof. by destruct v. Qed.

Lemma slot_ok_rt v : slot_ok (json_rt v) = true.
Proof.
  destruct v; cbn; try done; apply bool_decide_eq_true; intros k v Hv;
    rewrite lookup_fmap in Hv; apply fmap_Some in Hv as (w & _ & ->); try done.
  apply string_slot_rt.
Qed.

Lemma typed_rt d : typed (json_rt <$> d).
Proof.
  intros k v Hv. rewrite lookup_fmap in Hv. apply fmap_Some in Hv as (w & _ & ->).
  apply slot_ok_rt.
Qed.

Lemma typed_copy d : typed d → typed (DeepCopyData d).
Proof. intros H. unfold DeepCopyData. case_match; [apply typed_rt|done]. Qed.

(** ** Accessors *)

Lemma stringItems_Str l : stringItems (Str <$> l) = l.
Proof. unfold stringItems. induction l as [|s l IH]; cbn; [done|]. by f_equal. Qed.

Lemma stringItems_rt l : stringItems (json_rt <$> l) = stringItems l.
Proof.
  unfold stringItems. induction l as [|v l IH]; cbn; [done|]. destruct v; cbn; rewrite ?IH; done.
Qed.

Lemma toStringSlice_rt v : string_slot v = true → toStringSlice (json_rt v) = toStringSlice v.
Proof.
  destruct v; cbn; try done; intros _; [apply stringItems_Str| |apply stringItems_rt].
  unfold stringItems. induction l as [|[a b] l IH]; [done|]. exact IH.
Qed.

Section Copy.
Context (d : data) (Ht : typed d).

Lemma copy_getString k : getString (DeepCopyData d) k = getString d k.
Proof.
  unfold DeepCopyData. case_match; [|done]. unfold getString. rewrite lookup_fmap.
  destruct (d !! k) as [v|]; cbn; [|done]. by destruct v.
Qed.

Lemma getStringSlice_alt (e : data) k : getStringSlice e k = default [] (toStringSlice <$> e !! k).
Proof. unfold getStringSlice. by destruct (e !! k) as [[]|]. Qed.

Lemma copy_getStringSlice k : getStringSlice (DeepCopyData d) k = getStringSlice d k.
Proof.
  unfold DeepCopyData. case_match; [|done]. rewrite !getStringSlice_alt, lookup_fmap.
  destruct (d !! k) as [v|] eqn:E; cbn; [|done]. apply toStringSlice_rt.
  specialize (Ht k v E). cbn in Ht. apply andb_true_iff in Ht as [? _]. done.
Qed.

Lemma copy_getInt k : (Z.abs (getInt d k) < 2 ^ 53)%Z → getInt (DeepCopyData d) k = getInt d k.
Proof.
  unfold DeepCopyData. case_match; [|done]. unfold getInt. rewrite lookup_fmap.
  destruct (d !! k) as [v|]; cbn; [|done]. destruct v; try done. apply int_float64_int.
Qed.

(** The map of hands or piles behind a key. *)
Definition handsAt (e : data) k : gmap string (list string) :=
  match e !! k with
  | Some (MapStrs v) => v
  | Some (Map v) => toStringSlice <$> v
  | _ => ∅
  end.

Lemma handOf_fmap_nil {A} (m : gmap string A) p :
  handOf ((λ _, []) <$> m) p = [].
Proof. unfold handOf. rewrite lookup_fmap. by destruct (m !! p). Qed.

Lemma copy_handsAt k p : handOf (handsAt (DeepCopyData d) k) p = handOf (handsAt d k) p.
Proof.
  unfold DeepCopyData. case_match; [|done]. unfold handsAt. rewrite lookup_fmap.
  destruct (d !! k) as [v|] eqn:E; cbn; [|done].
  destruct v as [| | | | | | | | | |m|m|m|m]; cbn; try done.
  - specialize (Ht k _ E). apply slot_ok_map in Ht.
    unfold handOf. rewrite !lookup_fmap. destruct (m !! p) as [v|] eqn:Ev; cbn; [|done].
    apply toStringSlice_rt. by apply (Ht p).
  - rewrite <- map_fmap_compose. rewrite (map_fmap_ext _ (λ _, []) m) by done.
    apply handOf_fmap_nil.
  - rewrite <- map_fmap_compose. rewrite (map_fmap_ext _ (λ _, []) m) by done.
    apply handOf_fmap_nil.
  - rewrite <- map_fmap_compose. unfold handOf. rewrite lookup_fmap.
    destruct (m !! p); cbn; [apply stringItems_Str|done].
Qed.

Lemma copy_token st p :
  Data st = d → (Z.abs (token st p) < 2 ^ 53)%Z →
  default 0%Z (getTokens (DeepCopyData d) !! p) = token st p.
Proof.
  intros Hd. unfold token. rewrite Hd. clear st Hd.
  unfold DeepCopyData. case_match; [|done]. unfold getTokens. rewrite lookup_fmap.
  destruct (d !! "tokens") as [v|]; cbn; [|done].
  destruct v as [| | | | | | | | | |m|m|m|m]; cbn; try done.
  - rewrite !lookup_omap, lookup_fmap. destruct (m !! p) as [v|]; cbn; [|done].
    destruct v; cbn; try done. intros. by apply int_float64_int.
  - intros _. rewrite lookup_omap, lookup_fmap. by destruct (m !! p).
  - intros Hb. rewrite lookup_omap, lookup_fmap. destruct (m !! p); cbn in *; [|done].
    by apply int_float64_int.
  - intros _. rewrite lookup_omap, lookup_fmap. by destruct (m !! p).
Qed.
End Copy.

(** ** The copied state *)

Definition copied (st : GameState) : GameState :=
  mkState (CurrentPlayerID st) (DeepCopyData (Data st)).

Lemma copied_hand st p : typed (Data st) → hand (copied st) p = hand st p.
Proof. intros H. apply (copy_handsAt (Data st) H "hands"). Qed.

Lemma copied_pile st p : typed (Data st) → pile (copied st) p = pile st p.
Proof. intros H. apply (copy_handsAt (Data st) H "discard_piles"). Qed.

Lemma copied_strings st k :
  typed (Data st) → getStringSlice (Data (copied st)) k = getStringSlice (Data st) k.
Proof. intros H. by apply copy_getStringSlice. Qed.

Lemma copied_total st c : typed (Data st) → total c (copied st) = total c st.
Proof.
  intros H. unfold total, deck, players, faceUp, choices, faceDown, phase.
  rewrite !copied_strings by done. cbn [copied Data]. rewrite !copy_getString.
  erewrite (sumf_ext _ (λ p, occ c (hand st p))) by (intros; by rewrite copied_hand).
  erewrite (sumf_ext (λ p, occ c (pile (copied st) p)) (λ p, occ c (pile st p)))
    by (intros; by rewrite copied_pile).
  done.
Qed.

Lemma copied_active st : typed (Data st) → active (copied st) = active st.
Proof. intros H. unfold active, activePlayers. by rewrite !copied_strings. Qed.

Lemma copied_seated st : typed (Data st) → seated st → seated (copied st).
Proof.
  intros H [H1 H2 H3 H4 H5 H6].
  pose proof (tokensToWin_bounds (Z.of_nat (length (players st)))) as Hb.
  assert (players (copied st) = players st) as Ep by (by apply copied_strings).
  assert (to_win (copied st) = to_win st) as Ew by (apply copy_getInt; fold (to_win st); lia).
  assert (∀ p, p ∈ players st → token (copied st) p = token st p) as Et.
  { intros p Hp. specialize (H5 p Hp). unfold token at 1. cbn [copied Data].
    rewrite (copy_token (Data st) st p); [done|done|]. lia. }
  assert (sumf (λ p, Z.to_nat (token st p)) (players st) ≤ 5 * 7) as Hsum.
  { etransitivity; [apply (sumf_le_const _ 7)|lia]. intros p Hp. specialize (H5 p Hp). lia. }
  assert (round_no (copied st) = round_no st) as Er by (apply copy_getInt; fold (round_no st); lia).
  split; rewrite ?Ep, ?Ew, ?Er; try done.
  - intros p Hp. rewrite Et by done. by apply H5.
  - rewrite (sumf_ext _ (λ p, Z.to_nat (token st p))); [done|]. intros p Hp. by rewrite Et.
Qed.

Lemma copied_live st : typed (Data st) → live st → live (copied st).
Proof.
  intros H [Hs Hc Hcur Ha Hph Ho He].
  assert (phase (copied st) = phase st) as Eph by apply copy_getString.
  assert (∀ p, hand (copied st) p = hand st p) as Eh by (intros; by apply copied_hand).
  split; rewrite ?copied_active by done; try done.
  - by apply copied_seated.
  - intros c. rewrite copied_total by done. apply Hc.
  - rewrite Eph, Eh. unfold choices. rewrite copied_strings by done. done.
  - intros p Hp Hne. rewrite Eh. by apply Ho.
  - intros p. unfold players, elim. rewrite !copied_strings by done. rewrite Eh. apply He.
Qed.
