(* ===== verification/RootAccessTyped.v ===== *)
(** Every Root Access operation keeps the stored values readable across a JSON
    round trip: the codec invariant [typed] is preserved by each of them. *)
From S2P Require Import Prelude Json Engine Randutil RootAccess RootAccessFacts RootAccessInv.
From S2P Require Import RootAccessMoves RootAccessCodec.
Import RootAccess.

Create HintDb typed discriminated.

Section Typed.
Implicit Types (st : GameState) (p c : string).

Lemma typed_setData st k v : slot_ok v = true → typed (Data st) → typed (Data (setData k v st)).
Proof. intros Hv H. by apply map_Forall_insert_2. Qed.

Lemma typed_delData st k : typed (Data st) → typed (Data (delData k st)).
Proof. apply map_Forall_delete. Qed.

Lemma typed_setCurrent st p : typed (Data st) → typed (Data (setCurrent p st)).
Proof. done. Qed.

Lemma slot_ok_hands h : slot_ok (handsToAny h) = true.
Proof.
  unfold handsToAny. apply slot_ok_map. intros k v Hv.
  rewrite lookup_fmap in Hv. by apply fmap_Some in Hv as (w & _ & ->).
Qed.

Lemma slot_ok_tokens t : slot_ok (tokensToAny t) = true.
Proof.
  unfold tokensToAny. apply slot_ok_map. intros k v Hv.
  rewrite lookup_fmap in Hv. by apply fmap_Some in Hv as (w & _ & ->).
Qed.

Lemma slot_ok_Str s : slot_ok (Str s) = true.
Proof. done. Qed.
Lemma slot_ok_Strs l : slot_ok (Strs l) = true.
Proof. done. Qed.
Lemma slot_ok_Int n : slot_ok (Int n) = true.
Proof. done. Qed.
Lemma slot_ok_MapInt m : slot_ok (MapInt m) = true.
Proof. done. Qed.
Lemma slot_ok_Slice l : slot_ok (Slice l) = true.
Proof. done. Qed.
Lemma slot_ok_Map_empty : slot_ok (Map ∅) = true.
Proof. apply slot_ok_map, map_Forall_empty. Qed.
Lemma slot_ok_order o : slot_ok (discardOrderToAny o) = true.
Proof. done. Qed.
Lemma slot_ok_piles h : slot_ok (discardPilesToAny h) = true.
Proof. apply slot_ok_hands. Qed.

#[local] Hint Resolve typed_setData typed_delData typed_setCurrent slot_ok_hands slot_ok_tokens
  slot_ok_Str slot_ok_Strs slot_ok_Int slot_ok_MapInt slot_ok_Slice slot_ok_Map_empty
  slot_ok_order slot_ok_piles : typed.

Ltac typed := solve [eauto 30 with typed].

Lemma typed_foldl {A} (f : GameState → A → GameState) l st :
  (∀ st a, typed (Data st) → typed (Data (f st a))) → typed (Data st) → typed (Data (foldl f st l)).
Proof. intros Hf. revert st. induction l as [|a l IH]; intros st H; cbn; auto. Qed.

Lemma typed_appendDiscard st p c : typed (Data st) → typed (Data (appendDiscard st p c)).
Proof. intros. unfold appendDiscard. typed. Qed.
#[local] Hint Resolve typed_appendDiscard : typed.

Lemma typed_removeFromHand st p c : typed (Data st) → typed (Data (removeFromHand st p c)).
Proof. intros. unfold removeFromHand. typed. Qed.
#[local] Hint Resolve typed_removeFromHand : typed.

Lemma typed_eliminatePlayer st p : typed (Data st) → typed (Data (eliminatePlayer st p)).
Proof.
  intros H. unfold eliminatePlayer.
  apply typed_foldl; [intros; case_decide; typed|].
  apply typed_setData; [typed|]. apply typed_foldl; [intros; typed|typed].
Qed.
#[local] Hint Resolve typed_eliminatePlayer : typed.

Lemma typed_drawCard st p st' c :
  drawCard st p = Ok (st', c) → typed (Data st) → typed (Data st').
Proof. unfold drawCard. case_match; [done|]. intros [= <- _] Ht. typed. Qed.

Lemma typed_popped st dk fu fd hs first :
  typed (Data st) → typed (Data (dealt st dk fu fd hs first)).
Proof. intros. unfold dealt. typed. Qed.

Section Rng.
Context `{PRNG}.

Lemma typed_dealRound st ps first st' :
  dealRound st ps first = Ok st' → typed (Data st) → typed (Data st').
Proof.
  unfold dealRound. intros Hd Ht.
  apply result_bind_ok in Hd as ([fd dk] & _ & Hd).
  apply result_bind_ok in Hd as ([fu dk'] & _ & Hd).
  apply result_bind_ok in Hd as ([hs dk''] & _ & Hd).
  injection Hd as <-.
  change (typed (Data match drawCard (dealt st dk'' fu fd hs first) first with
    | Ok (st', _) => st' | Err _ => dealt st dk'' fu fd hs first end)).
  pose proof (typed_popped st dk'' fu fd hs first Ht) as Hp.
  destruct (drawCard _ _) as [[st' c]|] eqn:E; [|done]. by eapply typed_drawCard.
Qed.

Lemma typed_resolveRound st st' :
  resolveRound st = Ok st' → typed (Data st) → typed (Data st').
Proof.
  unfold resolveRound. intros Hr Ht. cbv zeta in Hr.
  destruct (list_find _ _) as [[i w]|].
  - injection Hr as <-. typed.
  - apply result_bind_ok in Hr as (f & _ & Hd). eapply typed_dealRound; [exact Hd|]. typed.
Qed.

Lemma typed_advanceTurn st st' :
  advanceTurn st = Ok st' → typed (Data st) → typed (Data st').
Proof.
  unfold advanceTurn. intros Ha Ht. case_decide; [by eapply typed_resolveRound|].
  cbv zeta in Ha. case_decide; [|injection Ha as <-; typed].
  destruct (drawCard _ _) as [[st1 c]|] eqn:E.
  - injection Ha as <-. eapply typed_drawCard; [exact E|]. typed.
  - eapply typed_resolveRound; [exact Ha|]. typed.
Qed.

Lemma typed_applySniffer st a t : typed (Data st) → typed (Data (applySniffer st a t)).
Proof.
  intros Ht. unfold applySniffer. case_decide; [done|]. apply typed_setData; [|done].
  apply slot_ok_map. apply map_Forall_insert_2; [done|].
  destruct (Data st !! "private_reveals") as [v|] eqn:E; [|apply map_Forall_empty].
  specialize (Ht _ _ E). cbn in Ht.
  destruct v; try apply map_Forall_empty. by apply slot_ok_map.
Qed.

Lemma typed_applyReboot st t : typed (Data st) → typed (Data (applyReboot st t)).
Proof. intros Ht. unfold applyReboot. repeat case_match; try done; typed. Qed.

Lemma typed_applyStandardMove st m c st' :
  applyStandardMove st m c = Ok st' → typed (Data st) → typed (Data st').
Proof.
  unfold applyStandardMove. intros Ha Ht. fold (played st (Move_PlayerID m) c) in Ha.
  assert (typed (Data (played st (Move_PlayerID m) c))) as Hp by (unfold played; typed).
  set (st1 := played _ _ _) in *. cbv zeta in Ha.
  repeat (case_decide; [|try done]).
  all: try (eapply typed_advanceTurn; [exact Ha|]).
  all: try injection Ha as <-.
  all: unfold applyBackdoor, applyPing, applyBufferOverflow, applyFirewall, applyDebugger, applySwap.
  all: repeat first [apply typed_applySniffer | apply typed_applyReboot | case_match]; try done; typed.
Qed.

(** The codec invariant is preserved by [ApplyMove]. *)
Lemma typed_ApplyMove st m st' : ApplyMove st m = Ok st' → typed (Data st) → typed (Data st').
Proof.
  unfold ApplyMove. fold (copied st). intros Ha Ht.
  assert (typed (Data (copied st))) as Hc by by apply typed_copy.
  set (st1 := copied st) in *. clearbody st1. cbv zeta in Ha.
  case_decide; [eapply typed_advanceTurn; [exact Ha|typed]|].
  case_decide; [eapply typed_advanceTurn; [exact Ha|typed]|].
  by eapply typed_applyStandardMove.
Qed.

Lemma typed_Init seed ps st : Init seed ps = Ok st → typed (Data st).
Proof.
  unfold Init. case_match; [done|]. intros Hi. cbv zeta in Hi.
  apply result_bind_ok in Hi as (p0 & _ & Hi). eapply typed_dealRound; [exact Hi|].
  repeat (apply typed_setData; [done|]). apply map_Forall_empty.
Qed.

End Rng.
End Typed.
