(* ===== verification/RootAccessPlay.v ===== *)
(** What a validated Root Access move does from a live state: the inversion of
    [ValidateMove], the Debugger's two steps and the penalty, and the resulting
    [ApplyMove] step with the measure that it decreases. *)
From S2P Require Import Prelude Json Engine Randutil RootAccess RootAccessFacts RootAccessInv.
From S2P Require Import RootAccessMoves RootAccessCodec RootAccessTyped.
Import RootAccess.

Section Play.
Implicit Types (st : GameState) (p c : string) (m : Move).

Definition card_of m : string := getCardFromPayload (Payload m) "card".
Definition target_of m : string := getStringFromPayload (Payload m) "target_player_id".
Definition keep_of m : string := getCardFromPayload (Payload m) "keep".
Definition return_of m : list string := getCardSliceFromPayload (Payload m) "return".

(** ** Inversion of the validation *)

(** A player that the firewall and the elimination list leave open to [p]. *)
Definition targetable st p t : Prop := t ∈ active st ∧ t ∉ prot st ∧ t ≠ p.

Lemma validateTarget_ok st p t :
  validateTarget st p t false = Ok tt ↔ t = "" ∨ targetable st p t.
Proof.
  unfold validateTarget, targetable. rewrite active_spec. unfold players, elim, prot.
  destruct (decide (t = "")) as [->|Hn]; [naive_solver|].
  repeat case_decide; try case_bool_decide; cbn; naive_solver.
Qed.

(** What a validated standard move has established. *)
Record standard_ok st m : Prop := {
  so_player : Move_PlayerID m = CurrentPlayerID st;
  so_card : card_of m ∈ hand st (CurrentPlayerID st);
  so_key : CardEncryptedKey ∈ hand st (CurrentPlayerID st) →
    CardSwap ∈ hand st (CurrentPlayerID st) ∨ CardReboot ∈ hand st (CurrentPlayerID st) →
    card_of m = CardEncryptedKey;
  so_target : card_of m ∈ [CardPing; CardSniffer; CardBufferOverflow; CardSwap] →
    target_of m = "" ∨ targetable st (CurrentPlayerID st) (target_of m);
  so_reboot : card_of m = CardReboot →
    target_of m = "" ∨ target_of m = CurrentPlayerID st ∨
    targetable st (CurrentPlayerID st) (target_of m)
}.

Lemma validateStandardMove_ok st m :
  Move_PlayerID m = CurrentPlayerID st →
  validateStandardMove st m = Ok tt → standard_ok st m.
Proof.
  intros Hp. unfold validateStandardMove. fold (card_of m). cbv zeta.
  case_decide as Hc; [done|]. rewrite Hp.
  destruct (getHands (Data st) !! CurrentPlayerID st) as [[|h0 h]|] eqn:Eh; [done| |done].
  assert (hand st (CurrentPlayerID st) = h0 :: h) as Hh by (unfold hand, handOf; by rewrite Eh).
  unfold containsCard. case_bool_decide as Hin; [|done]. cbn [negb].
  set (forced := _ && _ && _). destruct forced eqn:Ef; [done|].
  fold (target_of m). intros Hv.
  assert (CardEncryptedKey ∈ h0 :: h → CardSwap ∈ h0 :: h ∨ CardReboot ∈ h0 :: h →
    card_of m = CardEncryptedKey) as Hkey.
  { intros H1 H2. destruct (decide (card_of m = CardEncryptedKey)) as [|Hne]; [done|]. exfalso.
    revert Ef. unfold forced. rewrite (bool_decide_eq_true_2 _ Hne), (bool_decide_eq_true_2 _ H1).
    destruct H2 as [H2|H2]; rewrite (bool_decide_eq_true_2 _ H2), ?orb_true_r; done. }
  split; rewrite ?Hh; try done.
  - rewrite !elem_of_cons, elem_of_nil. intros Hcard.
    apply validateTarget_ok. revert Hv. destruct (decide (card_of m = CardPing)).
    + intros [[] [Hv _]]%result_bind_ok. done.
    + rewrite decide_True by naive_solver. done.
  - intros Hr. revert Hv. rewrite Hr. rewrite decide_False by done.
    rewrite decide_False by naive_solver. rewrite decide_True by done.
    case_decide as Ht; [rewrite validateTarget_ok; tauto|]. intros _.
    destruct (decide (target_of m = "")); [by left|]. right; left.
    by destruct (decide (target_of m = CurrentPlayerID st)); [|naive_solver].
Qed.

(** What makes the game accept a move with a card of the hand. *)
Lemma ValidateMove_standard st m :
  Move_PlayerID m = CurrentPlayerID st → CurrentPlayerID st ∉ elim st → phase st = phasePlaying →
  card_of m ∉ [CardPenaltyLose; ""] → card_of m ∈ hand st (CurrentPlayerID st) →
  (CardEncryptedKey ∈ hand st (CurrentPlayerID st) →
    CardSwap ∈ hand st (CurrentPlayerID st) ∨ CardReboot ∈ hand st (CurrentPlayerID st) →
    card_of m = CardEncryptedKey) →
  (card_of m ∈ [CardPing; CardSniffer; CardBufferOverflow; CardSwap] →
    target_of m = "" ∨ targetable st (CurrentPlayerID st) (target_of m)) →
  (card_of m = CardReboot →
    target_of m = "" ∨ target_of m = CurrentPlayerID st ∨ targetable st (CurrentPlayerID st) (target_of m)) →
  (card_of m = CardPing → target_of m ≠ "" → getCardFromPayload (Payload m) "guess" ∈ allNonPingCards) →
  ValidateMove st m = Ok tt.
Proof.
  intros Hp He Hph Hc Hin Hkey Ht Hr Hg. rewrite not_elem_of_cons, not_elem_of_cons in Hc.
  destruct Hc as (Hc1 & Hc2 & _). unfold ValidateMove. fold (card_of m) (phase st) (elim st).
  rewrite Hph, Hp, !decide_False by (done || tauto). rewrite decide_True by done.
  unfold validateStandardMove. fold (card_of m) (target_of m). rewrite decide_False by done. cbv zeta.
  rewrite Hp. set (h := hand st (CurrentPlayerID st)) in *.
  assert (getHands (Data st) !! CurrentPlayerID st = Some h) as ->.
  { unfold h, hand, handOf in *. destruct (getHands (Data st) !! CurrentPlayerID st); [done|].
    by apply elem_of_nil in Hin. }
  destruct h as [|h0 h'] eqn:Eh; [by apply elem_of_nil in Hin|]. rewrite <- Eh in *.
  unfold containsCard at 1. rewrite (bool_decide_eq_true_2 _ Hin). cbn [negb].
  assert (bool_decide (card_of m ≠ CardEncryptedKey) && containsCard h CardEncryptedKey
    && (containsCard h CardSwap || containsCard h CardReboot) = false) as ->.
  { destruct (decide (card_of m = CardEncryptedKey)) as [E|E];
      [by rewrite bool_decide_eq_false_2 by (intros H; by apply H)|]. unfold containsCard.
    destruct (decide (CardEncryptedKey ∈ h)) as [Hk|Hk]; [|by rewrite (bool_decide_eq_false_2 _ Hk), andb_false_r].
    rewrite (bool_decide_eq_false_2 (CardSwap ∈ h)) by (intros Hs; apply E, Hkey; auto).
    rewrite (bool_decide_eq_false_2 (CardReboot ∈ h)) by (intros Hs; apply E, Hkey; auto). apply andb_false_r. }
  assert (Hvt : card_of m ∈ [CardPing; CardSniffer; CardBufferOverflow; CardSwap] →
    validateTarget st (CurrentPlayerID st) (target_of m) false = Ok tt) by (intros; by apply validateTarget_ok, Ht).
  destruct (decide (card_of m = CardPing)) as [E|]; [|destruct (decide (_ ∨ _)) as [E|]].
  - rewrite Hvt by (rewrite E; by left). cbn [mbind result_bind]. case_decide; [done|].
    specialize (Hg E H). rewrite decide_False.
    + unfold isValidGuess. by rewrite bool_decide_eq_true_2.
    + intros E'. rewrite E' in Hg. revert Hg. apply (bool_decide_unpack _). vm_compute. exact I.
  - apply Hvt. rewrite !elem_of_cons. tauto.
  - destruct (decide (card_of m = CardReboot)) as [E|]; [|done]. case_decide as Hd; [|done].
    apply validateTarget_ok. destruct (Hr E) as [?|[?|?]]; tauto.
Qed.

(** What a validated resolve move has established. *)
Record resolve_ok st m : Prop := {
  ro_player : Move_PlayerID m = CurrentPlayerID st;
  ro_choices : length (choices st) = 3;
  ro_return : length (return_of m) = 2;
  ro_keep : keep_of m ≠ "";
  ro_among : ∀ c, c ∈ keep_of m :: return_of m → c ∈ choices st
}.

Lemma validateDebuggerResolve_ok st m :
  Move_PlayerID m = CurrentPlayerID st →
  validateDebuggerResolve st m = Ok tt → resolve_ok st m.
Proof.
  intros Hp. unfold validateDebuggerResolve. cbv zeta.
  fold (keep_of m) (return_of m) (choices st).
  case_decide; [done|]. case_decide; [done|]. case_decide as Hr; [done|].
  case_decide as Hch; [done|]. destruct (list_find _ _) as [[]|] eqn:Ef; [done|]. intros _.
  apply list_find_None in Ef. rewrite Forall_forall in Ef.
  split; [done|lia|lia|done|]. intros c Hc. specialize (Ef c Hc).
  unfold containsString in Ef. case_bool_decide; [done|]. by destruct Ef.
Qed.

Lemma ValidateMove_ok st m :
  ValidateMove st m = Ok tt →
  card_of m = CardPenaltyLose ∨
  (card_of m ≠ CardPenaltyLose ∧ CurrentPlayerID st ∉ elim st ∧
   ((phase st = phaseDebuggerPending ∧ resolve_ok st m) ∨
    (phase st = phasePlaying ∧ standard_ok st m))).
Proof.
  unfold ValidateMove. fold (card_of m) (phase st) (elim st). cbv zeta.
  case_decide; [by left|]. case_decide as Hp; [done|].
  rewrite Hp. case_decide; [done|]. intros Hv. right. split_and!; [done|done|].
  case_decide; [left; split; [done|]; by apply validateDebuggerResolve_ok|].
  case_decide; [|done]. right. split; [done|]. by apply validateStandardMove_ok.
Qed.

(** ** The copied state reads the same *)

Lemma copied_settled_eq st : typed (Data st) →
  players (copied st) = players st ∧ elim (copied st) = elim st ∧ prot (copied st) = prot st ∧
  choices (copied st) = choices st ∧ deck (copied st) = deck st ∧ phase (copied st) = phase st ∧
  active (copied st) = active st.
Proof.
  intros H. unfold players, elim, prot, choices, deck, phase.
  rewrite !copied_strings by done. split_and!; try done; [apply copy_getString|by apply copied_active].
Qed.

(** ** The measure *)

(** Twice the cards to be drawn this round, counting those a Debugger holds. *)
Definition round_fuel st : Z :=
  if decide (phase st = phaseDebuggerPending)
  then 2 * (Z.of_nat (length (deck st)) + Z.of_nat (length (choices st)) - 1) - 1
  else 2 * Z.of_nat (length (deck st)).

Definition fuel st : Z := 44 * (36 - round_no st) + round_fuel st.

Lemma occ_submultiset l l' : (∀ c, occ c l ≤ occ c l') → length l ≤ length l'.
Proof.
  revert l'. induction l as [|x l IH]; intros l' H; [cbn; lia|].
  assert (x ∈ l') as Hx.
  { destruct (decide (x ∈ l')) as [|Hn]; [done|]. specialize (H x).
    rewrite (occ_not_elem x l' Hn), occ_cons, decide_True in H by done. lia. }
  apply elem_of_Permutation in Hx as (l'' & Hl). rewrite Hl. cbn.
  apply le_n_S, IH. intros c. specialize (H c). rewrite (occ_perm c _ _ Hl), !occ_cons in H. lia.
Qed.

Lemma conserved_deck st : conserved st → length (deck st) ≤ 21.
Proof.
  intros Hc. apply (occ_submultiset (deck st) deckComposition). intros c. rewrite <- (Hc c).
  unfold total. lia.
Qed.

Lemma conserved_pending st :
  conserved st → phase st = phaseDebuggerPending → length (deck st ++ choices st) ≤ 21.
Proof.
  intros Hc Hp. apply (occ_submultiset _ deckComposition). intros c. rewrite <- (Hc c).
  unfold total. rewrite Hp, decide_True by done. rewrite occ_app. lia.
Qed.

Lemma seated_round_le st : seated st → (round_no st ≤ 36)%Z.
Proof.
  intros Hs. pose proof (seated_round _ Hs) as Hr.
  pose proof (seated_to_win _ Hs) as Hw.
  pose proof (tokensToWin_bounds (Z.of_nat (length (players st)))).
  assert (sumf (λ p, Z.to_nat (token st p)) (players st) ≤ 5 * 7); [|lia].
  etransitivity; [apply (sumf_le_const _ 7)|pose proof (seated_len _ Hs); lia].
  intros p Hp. pose proof (seated_tokens _ Hs p Hp). lia.
Qed.

(** Every live state has fuel left. *)
Lemma live_fuel st : live st → (-1 ≤ round_fuel st ≤ 42)%Z ∧ (-1 ≤ fuel st)%Z.
Proof.
  intros Hl. pose proof (seated_round_le _ (live_seated _ Hl)).
  assert (-1 ≤ round_fuel st ≤ 42)%Z as Hr; [|unfold fuel; lia].
  unfold round_fuel. case_decide as Hp.
  - pose proof (conserved_pending st (live_cards _ Hl) Hp) as Hlen.
    rewrite length_app in Hlen.
    destruct (live_phase _ Hl) as [[E _]|(_ & _ & Hne)]; [by rewrite E in Hp|].
    destruct (choices st); [done|]. cbn [length] in *. lia.
  - pose proof (conserved_deck st (live_cards _ Hl)). lia.
Qed.

Lemma live_fuel_playing st : phase st = phasePlaying → round_fuel st = (2 * Z.of_nat (length (deck st)))%Z.
Proof. intros Hp. unfold round_fuel. by rewrite Hp. Qed.

(** Passing the turn uses fuel. *)
Lemma passed_fuel st st' n :
  passed st st' → (2 * Z.of_nat (length (deck st)) - 1 ≤ n)%Z →
  over st' ∨ live st' ∧ (fuel st' < 44 * (36 - round_no st) + n)%Z.
Proof.
  intros (_ & _ & [Ho|(Hl & Hp & Hr)]) Hn; [by left|right]. split; [done|].
  unfold fuel. destruct (live_fuel st' Hl) as [[_ Hf] _].
  destruct Hr as [[-> Hd]| ->]; [|lia]. rewrite live_fuel_playing by done. lia.
Qed.

(** ** The standard moves *)

(** The seats, the target and the round stay; the deck does not grow. *)
Record quiet st st' : Prop := {
  quiet_players : players st' = players st;
  quiet_to_win : to_win st' = to_win st;
  quiet_round : round_no st' = round_no st;
  quiet_deck : length (deck st') ≤ length (deck st)
}.

Lemma quiet_refl st : quiet st st.
Proof. done. Qed.

Lemma quiet_trans st1 st2 st3 : quiet st1 st2 → quiet st2 st3 → quiet st1 st3.
Proof. intros [] []. split; [congruence..|lia]. Qed.

Lemma quiet_frame ks st st' :
  frame ks st st' → "players" ∉ ks → "tokens_to_win" ∉ ks → "round" ∉ ks → "deck" ∉ ks →
  quiet st st'.
Proof.
  intros F H1 H2 H3 H4. unfold players, to_win, round_no, deck.
  split; unfold players, to_win, round_no, deck;
    by rewrite ?(frame_getStringSlice F), ?(frame_getInt F).
Qed.

Lemma quiet_eliminate st p : quiet st (eliminatePlayer st p).
Proof. eapply quiet_frame; [apply eliminatePlayer_frame|key..]. Qed.

Lemma quiet_played st p c : quiet st (played st p c).
Proof. eapply quiet_frame; [apply played_frame|key..]. Qed.

Lemma quiet_set st k v :
  k ∉ ["players"; "tokens_to_win"; "round"; "deck"] → quiet st (setData k v st).
Proof. intros Hk. eapply (quiet_frame [k]); [apply frame_setData; set_solver|set_solver..]. Qed.

Lemma quiet_reboot st t : quiet st (applyReboot st t).
Proof.
  unfold applyReboot. case_decide; [done|]. destruct (handOf _ t) as [|d l]; [done|].
  fold (rebooted st t d).
  assert (quiet st (rebooted st t d)) as Hq by (eapply quiet_frame; [apply rebooted_frame|key..]).
  case_decide; [eapply quiet_trans; [exact Hq|apply quiet_eliminate]|].
  destruct (getStringSlice _ _) as [|x dk] eqn:Ed; eapply quiet_trans; try exact Hq.
  - cbv zeta. case_decide; [done|]. eapply quiet_trans; apply quiet_set; key.
  - eapply quiet_trans; [|apply quiet_set; key].
    split; unfold players, to_win, round_no, deck; ra; try done. rewrite Ed. cbn. lia.
Qed.

#[local] Hint Resolve quiet_refl quiet_eliminate quiet_reboot : recess.

Section Rng.
Context `{PRNG}.

Lemma standard_settles st m :
  live st → phase st = phasePlaying → standard_ok st m →
  card_of m ≠ CardDebugger →
  ∃ st2, applyStandardMove st m (card_of m) = advanceTurn st2 ∧
         settled st2 ∧ quiet st st2.
Proof.
  intros Hl Hph [Hp Hc _ Ht Hrb] Hdbg.
  destruct (played_settled st (card_of m) Hl Hph Hc) as [Hset Hone].
  pose proof (proj1 (active_spec _ _) (live_cur _ Hl)) as [Hcp _].
  pose proof (card_in_deck st _ _ (live_cards _ Hl) Hcp Hc) as Hin.
  pose proof (quiet_played st (CurrentPlayerID st) (card_of m)) as Hq.
  destruct (played_obs st (CurrentPlayerID st) (card_of m))
    as (Ep & _ & _ & _ & _ & _ & _ & _ & _ & _ & _ & Ea).
  unfold applyStandardMove. rewrite Hp. fold (target_of m).
  fold (played st (CurrentPlayerID st) (card_of m)).
  set (cur := CurrentPlayerID st) in *. set (st1 := played _ _ _) in *.
  rewrite <- Ea in Hone. rewrite <- Ep in Hcp.
  assert (2 ≤ length (active st1)) as H2 by (rewrite Ea; apply Hl).
  assert (cur ∈ active st1) as Hca by (rewrite Ea; apply Hl).
  assert (card_of m ∈ [CardPing; CardSniffer; CardBufferOverflow; CardSwap] →
    target_of m = "" ∨ target_of m ∈ active st1 ∧ target_of m ∈ players st1) as Ht'.
  { intros Hm. destruct (Ht Hm) as [?|[Hta _]]; [by left|right].
    rewrite <- Ea in Hta. split; [done|]. by apply active_spec in Hta as [? _]. }
  destruct (decide (card_of m = CardRoot)) as [Eroot|Nroot].
  { exists (eliminatePlayer st1 cur). split_and!; [done|by apply settled_eliminate|].
    eapply quiet_trans; [exact Hq|apply quiet_eliminate]. }
  cbv zeta.
  case_decide as Eb. (* Backdoor *)
  { exists (applyBackdoor st1 cur). split_and!; [done|by apply settled_backdoor|].
    eapply quiet_trans; [exact Hq|apply quiet_set; key]. }
  case_decide as Eg. (* Ping *)
  { rewrite decide_False by (intros [_ E]; rewrite E in Eg; done).
    specialize (Ht' ltac:(rewrite Eg; set_solver)).
    eexists. split_and!; [done|apply settled_ping; naive_solver|].
    eapply quiet_trans; [exact Hq|]. unfold applyPing. repeat case_match; auto with recess. }
  case_decide as Es. (* Sniffer *)
  { eexists. split_and!; [done|by apply settled_sniffer|].
    eapply quiet_trans; [exact Hq|]. unfold applySniffer.
    case_decide; [done|apply quiet_set; key]. }
  case_decide as Eo. (* Buffer Overflow *)
  { rewrite decide_False by (intros [_ E]; rewrite E in Eo; done).
    specialize (Ht' ltac:(rewrite Eo; set_solver)).
    eexists. split_and!; [done|apply settled_overflow; naive_solver|].
    eapply quiet_trans; [exact Hq|]. unfold applyBufferOverflow.
    repeat case_match; auto with recess. }
  case_decide as Ef. (* Firewall *)
  { eexists. split_and!; [done|by apply settled_firewall|].
    eapply quiet_trans; [exact Hq|apply quiet_set; key]. }
  case_decide as Er. (* Reboot *)
  { eexists. split_and!; [done| |eapply quiet_trans; [exact Hq|apply quiet_reboot]].
    apply settled_reboot; [done|done| |done].
    specialize (Hrb Er). case_decide as E; [done|].
    destruct Hrb as [?|[->|[Hta _]]]; [naive_solver|done|by rewrite Ea]. }
  case_decide; [done|].
  case_decide as Ew. (* Swap *)
  { rewrite decide_False by (intros [_ E]; rewrite E in Ew; done).
    specialize (Ht' ltac:(rewrite Ew; set_solver)).
    eexists. split_and!; [done|apply settled_swap; naive_solver|].
    eapply quiet_trans; [exact Hq|]. unfold applySwap. case_decide; [done|apply quiet_set; key]. }
  case_decide as Ek; [by exists st1|].
  exfalso. revert Hin. unfold deckComposition.
  rewrite !elem_of_cons, elem_of_nil. naive_solver.
Qed.

(** ** The Debugger and the penalty *)

Lemma debugger_step st m :
  live st → phase st = phasePlaying → standard_ok st m → card_of m = CardDebugger →
  ∃ st', applyStandardMove st m (card_of m) = Ok st' ∧ live st' ∧
         players st' = players st ∧ to_win st' = to_win st ∧ (fuel st' < fuel st)%Z.
Proof.
  intros Hl Hph [Hp Hc _ _ _] Hdbg. rewrite Hdbg in *.
  destruct (played_settled st CardDebugger Hl Hph Hc) as [Hset Hone].
  destruct (played_obs st (CurrentPlayerID st) CardDebugger)
    as (Ep & Ew & Er & Ed & Ee & Eph & _ & Efu & Efd & _ & Et & Ea).
  exists (applyDebugger (played st (CurrentPlayerID st) CardDebugger) (CurrentPlayerID st)).
  split; [unfold applyStandardMove; by rewrite Hp|].
  pose proof (live_cur _ Hl) as Hca. pose proof (proj1 (active_spec _ _) Hca) as [Hcp Hce].
  set (cur := CurrentPlayerID st) in *. set (st1 := played _ _ _) in *.
  assert (∀ q, hand (applyDebugger st1 cur) q = if decide (q = cur) then [] else hand st1 q) as Eh.
  { intros q. unfold applyDebugger, hand. ra. case_decide; subst; [by rewrite handOf_insert|].
    by rewrite handOf_insert_ne by congruence. }
  assert (choices (applyDebugger st1 cur) = hand st1 cur ++ take 2 (deck st)) as Ech
    by (rewrite <- Ed; unfold applyDebugger, choices, hand, deck; by ra).
  assert (deck (applyDebugger st1 cur) = drop 2 (deck st)) as Edk
    by (rewrite <- Ed; unfold applyDebugger, deck; by ra).
  assert (phase (applyDebugger st1 cur) = phaseDebuggerPending) as Eph'
    by (unfold applyDebugger, phase; by ra).
  assert (players (applyDebugger st1 cur) = players st) as Ep'
    by (rewrite <- Ep; unfold applyDebugger, players; by ra).
  assert (to_win (applyDebugger st1 cur) = to_win st) as Ew'
    by (rewrite <- Ew; unfold applyDebugger, to_win; by ra).
  assert (round_no (applyDebugger st1 cur) = round_no st) as Er'
    by (rewrite <- Er; unfold applyDebugger, round_no; by ra).
  assert (elim (applyDebugger st1 cur) = elim st) as Ee'
    by (rewrite <- Ee; unfold applyDebugger, elim; by ra).
  assert (active (applyDebugger st1 cur) = active st) as Ea'.
  { rewrite <- Ea. unfold active, activePlayers, applyDebugger. by ra. }
  pose proof (Hone cur Hca) as Hl1.
  split_and!; [|done|done|].
  - split; rewrite ?Ea', ?Ee', ?Ep'; try apply Hl.
    + eapply seated_ext; [exact Ep'|exact Ew'|exact Er'| |apply Hl].
      intros q. rewrite <- Et. unfold applyDebugger, token. by ra.
    + intros c. rewrite <- (settled_cards _ Hset c).
      pose proof (total_local c st1 (applyDebugger st1 cur) cur) as Ht. rewrite Ep in Ht.
      specialize (Ht (seated_nodup _ (live_seated _ Hl)) Hcp ltac:(done)
        ltac:(unfold applyDebugger, faceUp; by ra)
        ltac:(intros q Hq; rewrite Eh, decide_False; done)
        ltac:(intros q Hq; unfold applyDebugger, pile; by ra)).
      enough (local c (applyDebugger st1 cur) cur = local c st1 cur) by lia.
      unfold local. rewrite Eh, Eph', Ech, Edk, (settled_phase _ Hset), Ed.
      rewrite (decide_True (P := cur = cur)), (decide_True (P := phaseDebuggerPending = _)) by done.
      rewrite decide_False by done. rewrite occ_app, occ_nil.
      rewrite <- (occ_take_drop c 2 (deck st)).
      assert (pile (applyDebugger st1 cur) cur = pile st1 cur) as ->
        by (unfold applyDebugger, pile; by ra).
      assert (faceDown (applyDebugger st1 cur) = faceDown st1) as ->
        by (unfold applyDebugger, faceDown; by ra). lia.
    + right. split_and!; [done|by rewrite Eh, decide_True by done|].
      rewrite Ech. intros E. apply (f_equal length) in E. rewrite length_app in E. cbn in E. lia.
    + intros q Hq Hqn. rewrite Eh, decide_False by done. by apply Hone.
    + intros q Hq Hqe. rewrite Eh. case_decide; [done|].
      apply (settled_elim _ Hset); [by rewrite Ep|by rewrite Ee].
  - unfold fuel, round_fuel. rewrite Er', Eph', Hph, Ech, Edk.
    rewrite decide_True, decide_False by done.
    rewrite length_app, length_drop, length_take, Hl1. lia.
Qed.

Lemma resolve_settles st m :
  live st → phase st = phaseDebuggerPending → resolve_ok st m →
  keep_of m :: return_of m ≡ₚ choices st →
  ∃ st2, applyDebuggerResolve st m = advanceTurn st2 ∧ settled st2 ∧
         players st2 = players st ∧ to_win st2 = to_win st ∧ round_no st2 = round_no st ∧
         length (deck st2) = length (deck st) + 2.
Proof.
  intros Hl Hph [Hp Hch Hret _ _] Hperm. unfold applyDebuggerResolve. rewrite Hp.
  fold (keep_of m) (return_of m). cbv zeta. eexists. split; [done|].
  pose proof (live_cur _ Hl) as Hca. pose proof (proj1 (active_spec _ _) Hca) as [Hcp Hce].
  set (cur := CurrentPlayerID st) in *. set (st2 := setData "phase" _ _).
  assert (∀ q, hand st2 q = if decide (q = cur) then [keep_of m] else hand st q) as Eh.
  { intros q. unfold st2, hand. ra. case_decide; subst; [by rewrite handOf_insert|].
    by rewrite handOf_insert_ne by congruence. }
  assert (deck st2 = deck st ++ return_of m) as Edk by (unfold st2, deck; by ra).
  assert (phase st2 = phasePlaying) as Eph by (unfold st2, phase; by ra).
  assert (players st2 = players st) as Ep by (unfold st2, players; by ra).
  assert (to_win st2 = to_win st) as Ew by (unfold st2, to_win; by ra).
  assert (round_no st2 = round_no st) as Er by (unfold st2, round_no; by ra).
  assert (elim st2 = elim st) as Ee by (unfold st2, elim; by ra).
  assert (active st2 = active st) as Ea by (unfold active, activePlayers, st2; by ra).
  split_and!; [|done|done|done|rewrite Edk, length_app, Hret; done].
  assert (∀ q, q ∈ active st → length (hand st2 q) = 1) as Hone.
  { intros q Hq. rewrite Eh. case_decide; [done|]. by apply Hl. }
  assert (∀ q, q ∈ players st → q ∈ elim st → hand st2 q = []) as Hel.
  { intros q Hq Hqe. rewrite Eh. case_decide; [by subst|]. by apply Hl. }
  split; rewrite ?Ep, ?Ea, ?Ee; try done.
  - eapply seated_ext; [exact Ep|exact Ew|exact Er| |apply Hl].
    intros q. unfold st2, token. by ra.
  - intros c. rewrite <- (live_cards _ Hl c).
    pose proof (total_local c st st2 cur (seated_nodup _ (live_seated _ Hl)) Hcp Ep
        ltac:(unfold st2, faceUp; by ra)
        ltac:(intros q Hq; rewrite Eh, decide_False; done)
        ltac:(intros q Hq; unfold st2, pile; by ra)) as Ht.
    enough (local c st2 cur = local c st cur) by lia.
    unfold local. rewrite Eh, Eph, Hph, Edk.
    rewrite (decide_True (P := cur = cur)), (decide_True (P := phaseDebuggerPending = _)) by done.
    rewrite decide_False by done. rewrite occ_app, <- (occ_perm c _ _ Hperm).
    rewrite (occ_cons c (keep_of m) (return_of m)), (occ_cons c (keep_of m) []), occ_nil.
    destruct (live_phase _ Hl) as [[E _]|(_ & E & _)]; [by rewrite E in Hph|].
    fold cur in E. rewrite E, occ_nil.
    assert (pile st2 cur = pile st cur) as -> by (unfold st2, pile; by ra).
    assert (faceDown st2 = faceDown st) as -> by (unfold st2, faceDown; by ra). lia.
  - pose proof (live_active _ Hl). lia.
  - intros q Hq. destruct (decide (q ∈ elim st)); [rewrite Hel by done; cbn; lia|].
    rewrite Hone; [lia|by apply active_spec].
  - intros q Hq _. by apply Hone.
Qed.

Lemma penalty_step st :
  live st → (phase st = phasePlaying ∨ length (active st) = 2) →
  ∃ st', applyPenaltyLose st (CurrentPlayerID st) = Ok st' ∧
         players st' = players st ∧ to_win st' = to_win st ∧
         (over st' ∨ live st' ∧ fuel st' < fuel st)%Z.
Proof.
  intros Hl Hcase. unfold applyPenaltyLose. set (cur := CurrentPlayerID st).
  pose proof (live_cur _ Hl) as Hca. pose proof (proj1 (active_spec _ _) Hca) as [Hcp Hce].
  pose proof (quiet_eliminate st cur) as [Qp Qw Qr Qd].
  assert (phase st = phasePlaying ∨ phase st = phaseDebuggerPending ∧ length (active st) = 2)
    as [Hph|[Hph H2]] by (destruct (live_phase _ Hl) as [[? _]|[? _]]; naive_solver).
  - assert (settled (eliminatePlayer st cur)) as Hset.
    { apply eliminate_settles; try apply Hl; try done.
      - intros q Hq Hqc. destruct (decide (q ∈ elim st)); [rewrite (live_elim _ Hl) by done; cbn; lia|].
        rewrite (live_others _ Hl); [lia|by apply active_spec|done].
      - intros q Hq Hqc _. by apply Hl. }
    destruct (advanceTurn_passed _ Hset) as (st' & Ha & Hpass). exists st'.
    split; [done|]. pose proof Hpass as (P1 & P2 & _). split_and!; [congruence..|].
    destruct (passed_fuel _ _ (round_fuel st) Hpass) as [|[Hlv Hf]]; [|by left|right].
    + rewrite live_fuel_playing by done. lia.
    + split; [done|]. unfold fuel at 2. rewrite Qr in Hf. done.
  - assert (length (active (eliminatePlayer st cur)) = 1) as H1.
    { rewrite eliminatePlayer_active.
      pose proof (active_NoDup st (seated_nodup _ (live_seated _ Hl))) as Hnd.
      pose proof (filter_ne_length cur (active st) Hnd).
      enough (length (filter (λ q, q ≠ cur) (active st)) < length (active st)) by lia.
      apply elem_of_Permutation in Hca as (l & Hperm). rewrite Hperm.
      rewrite filter_cons_False by (intros E; by apply E). cbn.
      pose proof (length_filter (λ q, q ≠ cur) l). lia. }
    destruct (resolveRound_passed (eliminatePlayer st cur)) as (st' & Hr & P1 & P2 & P3).
    + eapply seated_ext; [done|done|done| |apply Hl]. intros q. unfold token.
      by rewrite (frame_getTokens (eliminatePlayer_frame _ _)) by key.
    + intros c. rewrite eliminatePlayer_total; [apply Hl|apply Hl|done].
    + apply length_ne. lia.
    + exists st'. unfold advanceTurn. fold (active (eliminatePlayer st cur)).
      rewrite decide_True by lia. split; [done|]. split_and!; [congruence..|].
      destruct P3 as [|(Hlv & Hp' & Hrd)]; [by left|right]. split; [done|].
      destruct (live_fuel st' Hlv) as [[_ Hf] _]. destruct (live_fuel st Hl) as [[Hf' _] _].
      unfold fuel. rewrite Hrd, Qr. lia.
Qed.

(** ** One move *)

(** What [ValidateMove] leaves to the client: a Debugger resolution gives back the
    three cards it was shown, and a penalty does not interrupt a Debugger while
    three or more players are in. *)
Definition fair st m : Prop :=
  if decide (card_of m = CardPenaltyLose) then phase st = phasePlaying ∨ length (active st) = 2
  else phase st = phaseDebuggerPending → keep_of m :: return_of m ≡ₚ choices st.

Lemma copied_fuel st : typed (Data st) → live st → fuel (copied st) = fuel st.
Proof.
  intros Ht Hl. destruct (copied_settled_eq st Ht) as (_ & _ & _ & Ech & Ed & Eph & _).
  pose proof (seated_round_le _ (live_seated _ Hl)) as Hr.
  pose proof (seated_round _ (live_seated _ Hl)) as Hr'.
  unfold fuel, round_fuel. rewrite Ech, Ed, Eph.
  assert (round_no (copied st) = round_no st) as ->; [|done].
  apply copy_getInt. fold (round_no st). lia.
Qed.

Lemma copied_to_win st : typed (Data st) → live st → to_win (copied st) = to_win st.
Proof.
  intros Ht Hl. apply copy_getInt. fold (to_win st).
  rewrite (seated_to_win _ (live_seated _ Hl)).
  pose proof (tokensToWin_bounds (Z.of_nat (length (players st)))). lia.
Qed.

Lemma copied_standard_ok st m : typed (Data st) → standard_ok st m → standard_ok (copied st) m.
Proof.
  intros Ht [H1 H2 H3 H4 H5].
  destruct (copied_settled_eq st Ht) as (_ & _ & Epr & _ & _ & _ & Ea).
  split; rewrite ?copied_hand by done; unfold targetable; rewrite ?Epr, ?Ea; done.
Qed.

Lemma copied_resolve_ok st m : typed (Data st) → resolve_ok st m → resolve_ok (copied st) m.
Proof.
  intros Ht [H1 H2 H3 H4 H5].
  destruct (copied_settled_eq st Ht) as (_ & _ & _ & Ech & _). split; rewrite ?Ech; done.
Qed.

Lemma ApplyMove_step st m :
  typed (Data st) → live st → Move_PlayerID m = CurrentPlayerID st →
  ValidateMove st m = Ok tt → fair st m →
  ∃ st', ApplyMove st m = Ok st' ∧ typed (Data st') ∧
         players st' = players st ∧ to_win st' = to_win st ∧
         (over st' ∨ live st' ∧ fuel st' < fuel st)%Z.
Proof.
  intros Ht Hl Hm Hv Hf.
  enough (∃ st', ApplyMove st m = Ok st' ∧ players st' = players (copied st) ∧
    to_win st' = to_win (copied st) ∧ (over st' ∨ live st' ∧ fuel st' < fuel (copied st))%Z)
    as (st' & Ha & P1 & P2 & P3).
  { exists st'. split; [done|]. split; [by eapply typed_ApplyMove|].
    rewrite copied_to_win in P2 by done. rewrite copied_fuel in P3 by done.
    split_and!; [by rewrite P1, (proj1 (copied_settled_eq st Ht))|done|done]. }
  destruct (copied_settled_eq st Ht) as (_ & _ & _ & Ech & _ & Eph & Ea).
  pose proof (copied_live st Ht Hl) as Hlc.
  unfold ApplyMove. fold (copied st) (card_of m) (phase (copied st)). cbv zeta. rewrite Hm.
  change (CurrentPlayerID st) with (CurrentPlayerID (copied st)).
  unfold fair in Hf. rewrite <- Ech, <- Ea, <- Eph in Hf.
  case_decide as Hpen; [by apply penalty_step|].
  destruct (ValidateMove_ok st m Hv) as [?|(_ & _ & Hcase)]; [done|].
  rewrite <- Eph in Hcase.
  destruct Hcase as [[Hph Hok]|[Hph Hok]]; rewrite Hph.
  - rewrite decide_True by done.
    destruct (resolve_settles _ m Hlc Hph (copied_resolve_ok _ _ Ht Hok) (Hf Hph))
      as (st2 & -> & Hset & Q1 & Q2 & Q3 & Q4).
    destruct (advanceTurn_passed _ Hset) as (st' & Ha & Hpass). exists st'.
    pose proof Hpass as (P1 & P2 & _). split_and!; [done|congruence..|].
    destruct (passed_fuel _ _ (round_fuel (copied st)) Hpass) as [|[Hlv Hfu]]; [|by left|right].
    + unfold round_fuel. rewrite Hph, decide_True by done.
      rewrite Q4, (ro_choices _ _ (copied_resolve_ok _ _ Ht Hok)). lia.
    + split; [done|]. unfold fuel at 2. by rewrite <- Q3.
  - rewrite decide_False by done. pose proof (copied_standard_ok _ _ Ht Hok) as Hok'.
    destruct (decide (card_of m = CardDebugger)) as [Hd|Hd].
    { destruct (debugger_step _ m Hlc Hph Hok' Hd) as (st' & ? & ? & ? & ? & ?). eauto 10. }
    destruct (standard_settles _ m Hlc Hph Hok' Hd) as (st2 & -> & Hset & [Q1 Q2 Q3 Q4]).
    destruct (advanceTurn_passed _ Hset) as (st' & Ha & Hpass). exists st'.
    pose proof Hpass as (P1 & P2 & _). split_and!; [done|congruence..|].
    destruct (passed_fuel _ _ (round_fuel (copied st)) Hpass) as [|[Hlv Hfu]]; [|by left|right].
    + rewrite (live_fuel_playing (copied st) Hph). lia.
    + split; [done|]. unfold fuel at 2. by rewrite <- Q3.
Qed.
End Rng.
End Play.
