(* ===== verification/RootAccessGame.v ===== *)
(** Root Access games as sequences of moves: the initial state, the plays of a
    game with reloads from storage in between, the cards on the table as one
    list, the scoring of a round and the order of turns. *)
From S2P Require Import Prelude Json Engine Randutil RootAccess RootAccessFacts RootAccessInv.
From S2P Require Import RootAccessMoves RootAccessCodec RootAccessTyped RootAccessPlay.
Import RootAccess.

Section Game.
Implicit Types (st : GameState) (p c : string) (m : Move).

(** ** The initial state *)

Lemma zero_tokens (ids : list string) (t : gmap string Z) p :
  default 0%Z (t !! p) = 0%Z → default 0%Z (foldl (λ t id, <[id := 0%Z]> t) t ids !! p) = 0%Z.
Proof.
  revert t. induction ids as [|id ids IH]; intros t Ht; [done|]. cbn. apply IH.
  rewrite lookup_insert. by case_decide.
Qed.

(** The players a room hands to [Init]. *)
Definition good_players (ps : list Player) : Prop :=
  2 ≤ length ps ≤ 5 ∧ NoDup (Player_ID <$> ps) ∧ "" ∉ Player_ID <$> ps.

#[export] Instance good_players_dec ps : Decision (good_players ps).
Proof. apply _. Defined.

Section Rng.
Context `{PRNG}.

Lemma Init_live seed ps :
  good_players ps →
  ∃ st, Init seed ps = Ok st ∧ typed (Data st) ∧ live st ∧ phase st = phasePlaying ∧
        players st = Player_ID <$> ps ∧ round_no st = 1%Z ∧
        head (players st) = Some (CurrentPlayerID st).
Proof.
  intros ([Hl1 Hl2] & Hnd & Hne).
  unfold Init.
  replace (_ || _) with false by (symmetry; apply orb_false_iff; split; apply Nat.ltb_ge; lia).
  destruct (Player_ID <$> ps) as [|p0 ids] eqn:Eids.
  { apply (f_equal length) in Eids. rewrite length_fmap in Eids. cbn in Eids. lia. }
  cbv zeta. cbn [index lookup list_lookup mbind result_bind]. unfold index. cbn [lookup list_lookup].
  rewrite <- Eids in *. set (st0 := setData "tokens_to_win" _ _).
  assert (players st0 = Player_ID <$> ps) as Ep by (unfold st0, players; by ra).
  assert (round_no st0 = 1%Z) as Er by (unfold st0, round_no; by ra).
  assert (to_win st0 = tokensToWin (Z.of_nat (length ps))) as Ew by (unfold st0, to_win; by ra).
  assert (∀ p, token st0 p = 0%Z) as Et.
  { intros p. unfold st0, token. ra. by apply zero_tokens. }
  assert (seated st0) as Hs.
  { split; rewrite ?Ep, ?Er, ?Ew, ?length_fmap; try done.
    - intros p _. rewrite Et. pose proof (tokensToWin_bounds (Z.of_nat (length ps))). lia.
    - lia. }
  destruct (dealRound_live st0 p0 Hs) as (st & Hd & Hlv & Hph & Hpl & _ & Hrd & Hcur).
  { rewrite Ep, Eids. set_solver. }
  rewrite Ep in Hd. cbn [mbind result_bind]. exists st.
  assert (typed (Data st0)) as Ht0.
  { unfold st0. repeat (apply typed_setData; [done|]). apply map_Forall_empty. }
  split_and!; [exact Hd|by eapply typed_dealRound|done|done|congruence|congruence|].
  rewrite Hpl, Ep, Eids, Hcur. done.
Qed.

(** ** Plays *)

(** A play of a game: validated, fair moves of the current player, with the state
    written to storage and read back in between. *)
Inductive play : GameState → list Move → GameState → Prop :=
  | play_done st : play st [] st
  | play_move st m st1 ms st2 :
      (IsOver st).1 = false → Move_PlayerID m = CurrentPlayerID st →
      ValidateMove st m = Ok tt → fair st m → ApplyMove st m = Ok st1 →
      play st1 ms st2 → play st (m :: ms) st2
  | play_reload st ms st2 :
      (IsOver st).1 = false → json_ok (Map (Data st)) = true →
      play (reload st) ms st2 → play st ms st2.

Lemma reload_copied st : json_ok (Map (Data st)) = true → reload st = copied st.
Proof. intros Hj. unfold reload, copied, DeepCopyData. by rewrite Hj. Qed.

Lemma over_IsOver st :
  over st → ∃ w, w ∈ players st ∧ IsOver st = (true, mkResult ResultWin (Some w) "") ∧
                 (to_win st ≤ token st w)%Z.
Proof.
  intros (Hp & w & Hw & Hne & Hg & _ & Ht). exists w. unfold IsOver.
  fold (phase st). rewrite Hp, decide_False by (intros E; by apply E).
  rewrite Hg, decide_False by done. done.
Qed.

Lemma live_not_over st : live st → (IsOver st).1 = false.
Proof.
  intros Hl. unfold IsOver. fold (phase st).
  destruct (live_phase _ Hl) as [[-> _]|[-> _]]; by rewrite decide_True by done.
Qed.

Lemma play_over st ms st' : over st → play st ms st' → ms = [] ∧ st' = st.
Proof.
  intros Ho. destruct (over_IsOver st Ho) as (w & _ & E & _).
  destruct 1 as [| ? ? ? ? ? Hn|? ? ? Hn]; [done|by rewrite E in Hn..].
Qed.

Lemma play_invariant st ms st' :
  play st ms st' → typed (Data st) → live st →
  typed (Data st') ∧ players st' = players st ∧ to_win st' = to_win st ∧
  (over st' ∨ live st') ∧ (Z.of_nat (length ms) ≤ fuel st + 2)%Z.
Proof.
  induction 1 as [st|st m st1 ms st2 Hn Hm Hv Hf Ha Hplay IH|st ms st2 Hn Hj Hplay IH];
    intros Ht Hl.
  - destruct (live_fuel st Hl) as [_ ?]. split_and!; [done..|by right|cbn; lia].
  - destruct (ApplyMove_step st m Ht Hl Hm Hv Hf) as (st1' & Ha' & Ht1 & P1 & P2 & Hcase).
    rewrite Ha in Ha'. injection Ha' as <-. destruct (live_fuel st Hl) as [_ ?].
    destruct Hcase as [Ho|[Hl1 Hfu]].
    + destruct (play_over _ _ _ Ho Hplay) as [-> ->].
      split_and!; [done..|by left|cbn; lia].
    + destruct (IH Ht1 Hl1) as (Q1 & Q2 & Q3 & Q4 & Q5).
      split_and!; [done|congruence|congruence|done|cbn [length]; lia].
  - rewrite (reload_copied st Hj) in *.
    destruct (IH (typed_copy _ Ht) (copied_live st Ht Hl)) as (Q1 & Q2 & Q3 & Q4 & Q5).
    rewrite copied_fuel in Q5 by done. rewrite copied_to_win in Q3 by done.
    rewrite (proj1 (copied_settled_eq st Ht)) in Q2. done.
Qed.
End Rng.

(** ** The cards on the table *)

(** Every card in play: the deck, the hands and piles in seat order, the cards
    set aside and those an unresolved Debugger shows. *)
Definition table st : list string :=
  deck st ++ concat (hand st <$> players st) ++ concat (pile st <$> players st)
  ++ faceDown st ++ faceUp st ++ (if decide (phase st = phaseDebuggerPending) then choices st else []).

Lemma occ_concat {A} (f : A → list string) l c :
  occ c (concat (f <$> l)) = sumf (λ x, occ c (f x)) l.
Proof. induction l as [|x l IH]; [done|].
  rewrite fmap_cons, sumf_cons. cbn [concat]. by rewrite occ_app, IH. Qed.

Lemma occ_table st c : occ c (table st) = total c st.
Proof.
  unfold table, total. rewrite !occ_app, !occ_concat. case_decide; [lia|]. rewrite occ_nil. lia.
Qed.

Lemma occ_perm_inv l l' : (∀ c, occ c l = occ c l') → l ≡ₚ l'.
Proof.
  revert l'. induction l as [|x l IH]; intros l' Hocc.
  - destruct l' as [|y l']; [done|]. specialize (Hocc y).
    rewrite occ_nil, occ_cons, decide_True in Hocc by done. lia.
  - assert (x ∈ l') as Hx.
    { destruct (decide (x ∈ l')) as [|Hn]; [done|]. specialize (Hocc x).
      rewrite (occ_not_elem x l' Hn), occ_cons, decide_True in Hocc by done. lia. }
    apply elem_of_Permutation in Hx as (l'' & Hl). rewrite Hl. f_equiv. apply IH.
    intros c. specialize (Hocc c). rewrite (occ_perm c _ _ Hl), !occ_cons in Hocc. lia.
Qed.

(** ** Scoring *)

(** What a player shows at the end of a round: the card held, then the discards. *)
Definition score st p : Z * Z :=
  (match hand st p with [] => 0%Z | c :: _ => cardValue c end, discardTotal (pile st p)).

(** The strict lexicographic order of scores. *)
Definition outscored (a b : Z * Z) : Prop := (a.1 < b.1 ∨ a.1 = b.1 ∧ a.2 < b.2)%Z.

#[export] Instance outscored_dec a b : Decision (outscored a b).
Proof. unfold outscored. apply _. Defined.

Lemma outscored_trans x y z : outscored x y → outscored y z → outscored x z.
Proof. unfold outscored. lia. Qed.

Lemma not_outscored_trans x y z : ¬ outscored x y → outscored x z → outscored y z.
Proof. unfold outscored. lia. Qed.

Lemma highestHandWinner_fold st l :
  ∀ acc, let r := foldl (λ '(bp, bh, bd) p,
      if (bh <? (score st p).1)%Z || (((score st p).1 =? bh)%Z && (bd <? (score st p).2)%Z)
      then (p, (score st p).1, (score st p).2) else (bp, bh, bd)) acc l in
  (r = acc ∧ ∀ p, p ∈ l → ¬ outscored (acc.1.2, acc.2) (score st p)) ∨
  (∃ l1 l2, l = l1 ++ r.1.1 :: l2 ∧ (r.1.2, r.2) = score st r.1.1 ∧
     outscored (acc.1.2, acc.2) (score st r.1.1) ∧
     (∀ p, p ∈ l1 → outscored (score st p) (score st r.1.1)) ∧
     (∀ p, p ∈ l2 → ¬ outscored (score st r.1.1) (score st p))).
Proof.
  induction l as [|p l IH]; intros [[bp bh] bd]; cbn [foldl].
  { left. split; [done|set_solver]. }
  set (b := _ || _).
  assert (b = true ↔ outscored (bh, bd) (score st p)) as Hb.
  { unfold b, outscored. cbn. rewrite orb_true_iff, andb_true_iff, Z.ltb_lt, Z.eqb_eq, Z.ltb_lt. lia. }
  destruct b.
  - pose proof (proj1 Hb eq_refl) as Hlt. right.
    destruct (IH (p, (score st p).1, (score st p).2)) as [[E Hall]|(l1 & l2 & E & Es & Ho & H1 & H2)];
      cbn zeta in *.
    + rewrite E. exists [], l. cbn in *.
      split_and!; [done|symmetry; apply surjective_pairing|done|set_solver|exact Hall].
    + set (r := foldl _ _ _) in *. exists (p :: l1), l2.
      split_and!; [by rewrite E at 1|done|by eapply outscored_trans| |done].
      intros q [->|Hq]%elem_of_cons; [done|by apply H1].
  - assert (¬ outscored (bh, bd) (score st p)) as Hn by (intros Ho; by apply Hb in Ho).
    destruct (IH (bp, bh, bd)) as [[E Hall]|(l1 & l2 & E & Es & Ho & H1 & H2)]; cbn zeta in *.
    + left. rewrite E. split; [done|]. intros q [->|Hq]%elem_of_cons; [done|by apply Hall].
    + right. set (r := foldl _ _ _) in *. exists (p :: l1), l2.
      split_and!; [by rewrite E at 1|done|done| |done].
      intros q [->|Hq]%elem_of_cons; [|by apply H1]. eapply not_outscored_trans; [exact Hn|done].
Qed.

(** The winner by hand outscores those before it and is outscored by nobody. *)
Lemma highestHandWinner_best st l :
  l ≠ [] → (∀ p c, p ∈ l → c ∈ hand st p → (0 ≤ cardValue c)%Z) →
  ∃ l1 l2, l = l1 ++ highestHandWinner st l :: l2 ∧
    (∀ p, p ∈ l1 → outscored (score st p) (score st (highestHandWinner st l))) ∧
    (∀ p, p ∈ l2 → ¬ outscored (score st (highestHandWinner st l)) (score st p)).
Proof.
  intros Hl Hv.
  destruct (highestHandWinner_fold st l ("", (-1)%Z, (-1)%Z)) as [[_ Hn]|(l1 & l2 & E & _ & _ & H1 & H2)].
  - destruct l as [|p l]; [done|]. exfalso. apply (Hn p); [set_solver|].
    left. cbn. unfold score. cbn. destruct (hand st p) as [|c h] eqn:Eh; [lia|].
    assert (0 ≤ cardValue c)%Z; [|lia]. apply (Hv p); [set_solver|rewrite Eh; set_solver].
  - cbn zeta in *.
    assert (highestHandWinner st l = (foldl (λ '(bp, bh, bd) p,
      if (bh <? (score st p).1)%Z || (((score st p).1 =? bh)%Z && (bd <? (score st p).2)%Z)
      then (p, (score st p).1, (score st p).2) else (bp, bh, bd)) ("", (-1)%Z, (-1)%Z) l).1.1) as Eh.
    { unfold highestHandWinner. cbn zeta.
      match goal with |- context [foldl ?f ?a l] => set (r := foldl f a l) end.
      change (foldl _ _ l) with r. by destruct r as [[]]. }
    rewrite Eh. eauto.
Qed.

(** ** The order of turns *)

Lemma omap_total {A B} (f : A → option B) (g : A → B) (l : list A) :
  (∀ x, x ∈ l → f x = Some (g x)) → omap f l = g <$> l.
Proof.
  induction l as [|x l IH]; [done|]. intros Hf. cbn. rewrite Hf by set_solver.
  f_equal. apply IH. set_solver.
Qed.

(** The player [i] seats after the given one. *)
Definition seat_after st p (i : nat) : string :=
  default "" (players st !! ((indexOr0 (players st) p + i) mod length (players st))).

Lemma nextActivePlayer_order st p :
  active st ≠ [] →
  ∃ i, 1 ≤ i ≤ length (players st) ∧
    nextActivePlayer st p = seat_after st p i ∧ nextActivePlayer st p ∈ active st ∧
    ∀ j, 1 ≤ j < i → seat_after st p j ∉ active st.
Proof.
  intros Ha. unfold nextActivePlayer. fold (active st) (players st).
  destruct (active st) as [|a l] eqn:E; [done|]. rewrite <- E in *. clear Ha.
  assert (a ∈ active st) as Hin by (rewrite E; set_solver). clear E.
  set (n := length (players st)). set (idx := indexOr0 (players st) p).
  pose proof (proj1 (active_spec _ _) Hin) as [Hap _].
  assert (0 < n) as Hn by (unfold n; destruct (players st); [set_solver|cbn; lia]).
  assert (∀ i, players st !! ((idx + i) mod n) = Some (seat_after st p i)) as Hsome.
  { intros i. unfold seat_after. fold idx n.
    destruct (lookup_lt_is_Some_2 (players st) ((idx + i) mod n)) as [x ->]; [|done].
    apply Nat.mod_upper_bound. lia. }
  rewrite (omap_total _ (seat_after st p)) by (intros; apply Hsome).
  destruct (list_find _ _) as [[k c]|] eqn:Ef.
  - apply list_find_Some in Ef as (Hk & Hc & Hlt).
    rewrite list_lookup_fmap in Hk. apply fmap_Some in Hk as (i & Hi & ->).
    apply lookup_seq in Hi as [-> Hkn]. exists (1 + k). split; [lia|]. split_and!; [done|done|].
    intros j Hj Hact. apply (Hlt (j - 1) (seat_after st p j)); [|lia|done].
    rewrite list_lookup_fmap. rewrite lookup_seq_lt by lia. cbn. f_equal. f_equal. lia.
  - exfalso. apply list_find_None in Ef. rewrite Forall_forall in Ef.
    apply list_elem_of_lookup in Hap as [s Hs].
    pose proof (lookup_lt_Some _ _ _ Hs) as Hsn. fold n in Hsn.
    set (i := (s + n - (idx mod n)) mod n).
    assert ((idx + i) mod n = s) as Ei.
    { unfold i. rewrite Nat.Div0.add_mod_idemp_r.
      pose proof (Nat.mod_upper_bound idx n ltac:(lia)).
      rewrite (Nat.div_mod_eq idx n) at 1.
      replace (n * (idx / n) + idx mod n + (s + n - idx mod n)) with (s + (idx / n + 1) * n) by nia.
      rewrite Nat.Div0.mod_add. by apply Nat.mod_small. }
    assert (∃ j, 1 ≤ j ≤ n ∧ (idx + j) mod n = s) as (j & Hj & Ej).
    { pose proof (Nat.mod_upper_bound (s + n - (idx mod n)) n ltac:(lia)) as Hi. fold i in Hi.
      destruct (decide (i = 0)) as [E0|]; [|exists i; split; [lia|done]].
      exists n. split; [lia|]. rewrite <- Ei, E0.
      rewrite <- (Nat.Div0.mod_add (idx + 0) 1 n). f_equal. lia. }
    specialize (Hsome j). rewrite Ej, Hs in Hsome. injection Hsome as Hsome.
    apply (Ef (seat_after st p j)); [|by rewrite <- Hsome].
    apply list_elem_of_fmap. exists j. split; [done|]. apply elem_of_seq. lia.
Qed.

(** ** What a round's end changes *)

Definition deal_keys : list string :=
  ["deck"; "hands"; "set_aside_face_down"; "set_aside_visible"; "eliminated"; "protected";
   "backdoor_played_by"; "discard_piles"; "discard_order"; "phase"].

Lemma drawCard_keeps st p st' c k :
  drawCard st p = Ok (st', c) → k ≠ "deck" → k ≠ "hands" → Data st' !! k = Data st !! k.
Proof.
  unfold drawCard. case_match; [done|]. intros [= <- _] H1 H2. cbn.
  by rewrite !lookup_insert_ne by done.
Qed.

Lemma dealt_keeps st dk fu fd hs first k :
  k ∉ deal_keys → Data (dealt st dk fu fd hs first) !! k = Data st !! k.
Proof.
  unfold deal_keys. rewrite !not_elem_of_cons. intros Hk.
  unfold dealt. cbn. by rewrite !lookup_insert_ne by naive_solver.
Qed.

Section Deal.
Context `{PRNG}.

Lemma dealRound_keeps st ps first st' k :
  dealRound st ps first = Ok st' → k ∉ deal_keys → Data st' !! k = Data st !! k.
Proof.
  unfold dealRound. intros Hd Hk.
  apply result_bind_ok in Hd as ([fd dk] & _ & Hd).
  apply result_bind_ok in Hd as ([fu dk'] & _ & Hd).
  apply result_bind_ok in Hd as ([hs dk''] & _ & Hd).
  injection Hd as <-.
  rewrite <- (dealt_keeps st dk'' fu fd hs first k Hk). fold (dealt st dk'' fu fd hs first).
  destruct (drawCard _ _) as [[st' c]|] eqn:E; [|done].
  eapply drawCard_keeps; [exact E|..]; intros ->; apply Hk; unfold deal_keys; set_solver.
Qed.

(** The award as an arithmetic statement. *)
Lemma awarded_exact st p :
  seated st → p ∈ players st →
  default 0%Z (awarded st !! p) =
    (token st p + (if decide (round_winner st = p) then 1 else 0)
     + (if decide (backdoors st = [p]) then 1 else 0))%Z.
Proof.
  intros Hs Hp. pose proof (seated_tokens _ Hs p Hp) as Ht.
  pose proof (seated_to_win _ Hs) as Htw.
  pose proof (tokensToWin_bounds (Z.of_nat (length (players st)))) as Hb.
  assert (p ≠ "") as Hpn by (intros ->; by apply (seated_named _ Hs)).
  unfold awarded. cbv zeta. set (t1 := match backdoors st with [b] => _ | _ => _ end).
  assert (default 0%Z (t1 !! p) = token st p + (if decide (backdoors st = [p]) then 1 else 0))%Z as H1.
  { unfold t1. destruct (backdoors st) as [|b [|??]].
    - rewrite decide_False by done. unfold token. lia.
    - rewrite incToken_lookup. fold (token st b) (token st p).
      destruct (decide (b = p)) as [->|Hne].
      + rewrite decide_True by done. apply wrap64_id. lia.
      + rewrite decide_False by congruence. lia.
    - rewrite decide_False by done. unfold token. lia. }
  destruct (decide (round_winner st = "")) as [Hw|Hw].
  - rewrite H1, (decide_False (P := round_winner st = p)) by congruence. lia.
  - rewrite incToken_lookup. destruct (decide (round_winner st = p)) as [->|Hne].
    + rewrite H1. rewrite wrap64_id; case_decide; lia.
    + rewrite H1. lia.
Qed.

Lemma resolveRound_tokens st st' p :
  resolveRound st = Ok st' → token st' p = default 0%Z (awarded st !! p).
Proof.
  unfold resolveRound. fold (players st) (backdoors st) (active st) (round_winner st).
  cbv zeta. fold (awarded st). intros Hr.
  destruct (list_find _ _) as [[i w]|].
  - injection Hr as <-. unfold token. by ra.
  - apply result_bind_ok in Hr as (f & _ & Hd). unfold token, getTokens.
    rewrite (dealRound_keeps _ _ _ _ "tokens" Hd) by key.
    match goal with |- context [Data ?s !! "tokens"] => fold (getTokens (Data s)) end. by ra.
Qed.

(** Nobody has a token at the start. *)
Lemma Init_tokens seed ps st p : Init seed ps = Ok st → token st p = 0%Z.
Proof.
  unfold Init. case_match; [done|]. intros Hi. cbv zeta in Hi.
  apply result_bind_ok in Hi as (p0 & _ & Hd). unfold token, getTokens.
  rewrite (dealRound_keeps _ _ _ _ "tokens" Hd) by key.
  match goal with |- context [Data ?s !! "tokens"] => fold (getTokens (Data s)) end.
  ra. by apply zero_tokens.
Qed.
End Deal.
End Game.
