(* ===== verification/RootAccessView.v ===== *)
(** What a Root Access client or a restarted server sees of a state: the
    validation and the moves read a reloaded state as the original, and the
    filtered view of a player depends only on what that player may know. *)
From S2P Require Import Prelude Json Engine Randutil RootAccess RootAccessFacts RootAccessInv.
From S2P Require Import RootAccessMoves RootAccessCodec RootAccessTyped RootAccessPlay.
From S2P Require Import RootAccessGame.
Import RootAccess.

Section View.
Implicit Types (st : GameState) (p c : string) (m : Move).

(** ** Reloading *)

(** Validation reads a state only through its accessors. *)
Lemma ValidateMove_ext st st' m :
  CurrentPlayerID st' = CurrentPlayerID st → phase st' = phase st →
  (∀ k, getStringSlice (Data st') k = getStringSlice (Data st) k) →
  (∀ p, hand st' p = hand st p) →
  ValidateMove st' m = ValidateMove st m.
Proof.
  intros Hc Hp Hs Hh. unfold ValidateMove. fold (phase st) (phase st'). rewrite Hc, Hp.
  unfold validateDebuggerResolve, validateStandardMove, validateTarget. rewrite !Hs.
  pose proof (Hh (Move_PlayerID m)) as E. unfold hand, handOf in E.
  destruct (getHands (Data st') !! Move_PlayerID m) as [[|]|],
    (getHands (Data st) !! Move_PlayerID m) as [[|]|]; cbn in E; simplify_eq; done.
Qed.

Lemma ValidateMove_copied st m : typed (Data st) → ValidateMove (copied st) m = ValidateMove st m.
Proof.
  intros Ht. apply ValidateMove_ext; [done|apply copy_getString| |].
  - intros k. by apply copied_strings.
  - intros p. by apply copied_hand.
Qed.

Lemma reload_idem st : reload (reload st) = reload st.
Proof.
  unfold reload. cbn. f_equal. rewrite <- map_fmap_compose. apply map_fmap_ext.
  intros k v _. apply json_rt_idem.
Qed.

Lemma copied_reload st : json_ok (Map (Data st)) = true → copied (reload st) = copied st.
Proof.
  intros Hj. rewrite <- (reload_copied st Hj).
  transitivity (reload (reload st)); [|apply reload_idem].
  unfold copied, DeepCopyData. case_match; [done|]. rewrite reload_idem. by destruct st.
Qed.

(** ** Views *)

(** The entries of a state that no player's view withholds. *)
Definition withheld : list string := ["hands"; "debugger_choices"; "private_reveals"].

(** The private reveal of player [p], if there is a reveal map. *)
Definition reveals_of st : option (gmap string any) :=
  match Data st !! "private_reveals" with Some (Map m) => Some m | _ => None end.

(** Two states that player [p] has no business telling apart. *)
Record indistinguishable p st st' : Prop := {
  ind_cur : CurrentPlayerID st' = CurrentPlayerID st;
  ind_data : ∀ k, k ∉ withheld → Data st' !! k = Data st !! k;
  ind_hand : getHands (Data st') !! p = getHands (Data st) !! p;
  ind_seats : dom (getHands (Data st')) = dom (getHands (Data st));
  ind_choices : p = CurrentPlayerID st →
    Data st' !! "debugger_choices" = Data st !! "debugger_choices";
  ind_reveal :
    match reveals_of st, reveals_of st' with
    | Some r, Some r' => r' !! p = r !! p
    | None, None => Data st' !! "private_reveals" = Data st !! "private_reveals"
    | _, _ => False
    end
}.

Lemma map_imap_same_dom (p : string) (h h' : gmap string (list string)) :
  h' !! p = h !! p → dom h' = dom h →
  map_imap (λ id l, Some (if decide (id = p) then l else [])) h' =
  map_imap (λ id l, Some (if decide (id = p) then l else [])) h.
Proof.
  intros Hp Hd. apply map_eq. intros q. rewrite !map_lookup_imap.
  destruct (decide (q = p)) as [->|Hne]; [by rewrite Hp|].
  assert (is_Some (h' !! q) ↔ is_Some (h !! q)) as Hs by (by rewrite <- !elem_of_dom, Hd).
  destruct (h' !! q), (h !! q); cbn; rewrite ?decide_False by done; try done;
    destruct Hs as [H1 H2]; [by destruct (H1 ltac:(eauto))|by destruct (H2 ltac:(eauto))].
Qed.

Lemma withheld_cases k : k ∈ withheld ∨ k ∉ withheld.
Proof. destruct (decide (k ∈ withheld)); tauto. Qed.

Lemma FilterState_indistinguishable st st' p :
  p ≠ "" → indistinguishable p st st' → FilterState st' p = FilterState st p.
Proof.
  intros Hne [Hc Hd Hh Hs Hch Hr]. unfold FilterState.
  rewrite !(decide_False (P := p = "")) by done.
  rewrite (map_imap_same_dom p _ _ Hh Hs), Hc.
  set (hs := map_imap _ _).
  assert (∀ k, k ∉ ["debugger_choices"; "private_reveals"] →
    Data (setData "hands" (handsToAny hs) st') !! k =
    Data (setData "hands" (handsToAny hs) st) !! k) as Hd'.
  { intros k Hk. cbn. destruct (decide (k = "hands")) as [->|Hn]; [by rewrite !lookup_insert_eq|].
    rewrite !lookup_insert_ne by done. apply Hd. unfold withheld. set_solver. }
  set (v' := setData "hands" _ (mkState _ (Data st'))).
  set (v := setData "hands" _ (mkState _ (Data st))).
  set (f := λ v, if decide (p = "" ∨ p ≠ CurrentPlayerID st) then delData "debugger_choices" v else v).
  assert (∀ k, k ≠ "private_reveals" → Data (f v') !! k = Data (f v) !! k) as Hf.
  { intros k Hk. unfold f. case_decide as Hcur.
    - cbn. destruct (decide (k = "debugger_choices")) as [->|Hn]; [by rewrite !lookup_delete_eq|].
      rewrite !lookup_delete_ne by done. apply Hd'. set_solver.
    - assert (p = CurrentPlayerID st) as Hpc
        by (destruct (decide (p = CurrentPlayerID st)); [done|tauto]).
      destruct (decide (k = "debugger_choices")) as [->|Hn]; [|apply Hd'; set_solver].
      cbn. rewrite !lookup_insert_ne by done. by apply Hch. }
  assert (∀ x, setData "private_reveals" x (f v') = setData "private_reveals" x (f v)) as Hset.
  { intros x. unfold setData. f_equal.
    - unfold f. by case_decide.
    - apply map_eq. intros k. destruct (decide (k = "private_reveals")) as [->|Hn];
        [by rewrite !lookup_insert_eq|]. rewrite !lookup_insert_ne by done. by apply Hf. }
  assert (delData "private_reveals" (f v') = delData "private_reveals" (f v)) as Hdel.
  { unfold delData. f_equal.
    - unfold f. by case_decide.
    - apply map_eq. intros k. destruct (decide (k = "private_reveals")) as [->|Hn];
        [by rewrite !lookup_delete_eq|]. rewrite !lookup_delete_ne by done. by apply Hf. }
  fold (f v') (f v). unfold reveals_of in Hr.
  assert (Data st' !! "private_reveals" = Data st !! "private_reveals" → f v' = f v) as Hsame.
  { intros E. assert (CurrentPlayerID (f v') = CurrentPlayerID (f v)) as Ec
      by (unfold f; by case_decide).
    assert (Data (f v') = Data (f v)) as Ed; [|destruct (f v'), (f v); cbn in *; congruence].
    apply map_eq. intros k. destruct (decide (k = "private_reveals")) as [->|Hn]; [|by apply Hf].
    unfold f. case_decide; cbn; rewrite ?lookup_delete_ne by done;
      by rewrite !lookup_insert_ne by done. }
  destruct (Data st !! "private_reveals") as [[]|], (Data st' !! "private_reveals") as [[]|];
    cbn in Hr; try done; try (apply Hsame; congruence).
  rewrite Hr. case_match; [apply Hset|apply Hdel].
Qed.
End View.
