(* ===== verification/RootAccessSpec.v ===== *)
(** The properties of Root Access: the life of a game, the functional behaviour
    of a move, a turn and a round, what validation guarantees, and what clients
    and restarted servers see. *)
From S2P Require Import Prelude Json Engine Randutil RootAccess RootAccessFacts RootAccessInv.
From S2P Require Import RootAccessMoves RootAccessCodec RootAccessTyped RootAccessPlay.
From S2P Require Import RootAccessGame RootAccessView.
Import RootAccess.

(** ** A concrete table for the examples *)

(** A generator that always draws 0. *)
Definition zeroPRNG : PRNG.
Proof.
  refine {| rng := unit; NewSource _ := tt; Intn _ _ := (0%Z, tt) |}. cbn. lia.
Defined.

Definition ana_bob : list Player := [mkPlayer "ana" "Ana"; mkPlayer "bob" "Bob"].

Lemma ana_bob_good : good_players ana_bob.
Proof. apply (bool_decide_unpack _). vm_compute. exact I. Qed.

(** The state of a successful call. *)
Definition state_of (r : result gerror GameState) : GameState :=
  match r with Ok st => st | Err _ => mkState "" ∅ end.

Lemma state_of_ok r : is_ok r = true → r = Ok (state_of r).
Proof. by destruct r. Qed.

Definition opening : GameState := state_of (@Init zeroPRNG (Some 7%Z) ana_bob).

Lemma opening_init : @Init zeroPRNG (Some 7%Z) ana_bob = Ok opening.
Proof. apply state_of_ok. vm_compute. reflexivity. Qed.

Lemma opening_ok : typed (Data opening) ∧ live opening.
Proof.
  destruct (@Init_live zeroPRNG (Some 7%Z) ana_bob ana_bob_good) as (st & Hi & Ht & Hl & _).
  rewrite opening_init in Hi. apply Ok_inj in Hi. by subst st.
Qed.

Definition ana_pings : Move :=
  mkMove "ana" (<["card" := Str "ping"]> (<["target_player_id" := Str "bob"]>
    {["guess" := Str "root"]})) 0.

(** ** The life of a game *)

Section Life.
Context `{PRNG}.

(** C1: whatever the players do, as long as their moves validate, a Debugger returns the
    cards it was shown, and no penalty falls into a pending Debugger while three or more
    players are in the round, and however often the state is stored and
    reloaded, a game of Root Access stays well-formed: the seats never change,
    and either the game is over with a winner who sits at the table and holds
    the tokens needed, or the current player is in the round with the right
    number of cards and the 21 cards of the deck are all on the table, none
    duplicated or lost. *)
Theorem game_well_formed seed ps st0 ms st :
  good_players ps → Init seed ps = Ok st0 → play st0 ms st →
  players st = Player_ID <$> ps ∧
  ((∃ w, w ∈ players st ∧ IsOver st = (true, mkResult ResultWin (Some w) "") ∧
         (to_win st ≤ token st w)%Z) ∨
   (IsOver st).1 = false ∧ live st ∧ table st ≡ₚ deckComposition).
Proof.
  intros Hps Hi Hplay. destruct (Init_live seed ps Hps) as (st0' & Hi' & Ht & Hl & _ & Hp & _).
  rewrite Hi in Hi'. injection Hi' as <-.
  destruct (play_invariant st0 ms st Hplay Ht Hl) as (_ & P1 & _ & [Ho|Hl'] & _).
  - split; [congruence|]. left. by apply over_IsOver.
  - split; [congruence|]. right. split_and!; [by apply live_not_over|done|].
    apply occ_perm_inv. intros c. rewrite occ_table. apply Hl'.
Qed.

(** C2: a validated move of the current player is always executed: [ApplyMove]
    neither returns an error nor panics, and leaves a well-formed state with
    the same players and the same target. *)
Theorem ApplyMove_succeeds st m :
  typed (Data st) → live st → Move_PlayerID m = CurrentPlayerID st →
  ValidateMove st m = Ok tt → fair st m →
  ∃ st', ApplyMove st m = Ok st' ∧ typed (Data st') ∧ players st' = players st ∧
         to_win st' = to_win st ∧ (over st' ∨ live st').
Proof.
  intros Ht Hl Hm Hv Hf. destruct (ApplyMove_step st m Ht Hl Hm Hv Hf) as (st' & ? & ? & ? & ? & [|[]]);
    eauto 10.
Qed.

(** C3: a game ends: no play from the initial state has more than 1,584 moves. *)
Theorem game_terminates seed ps st0 ms st :
  good_players ps → Init seed ps = Ok st0 → play st0 ms st → length ms ≤ 1584.
Proof.
  intros Hps Hi Hplay. destruct (Init_live seed ps Hps) as (st0' & Hi' & Ht & Hl & _ & _ & Hr & _).
  rewrite Hi in Hi'. injection Hi' as <-.
  destruct (play_invariant st0 ms st Hplay Ht Hl) as (_ & _ & _ & _ & Hn).
  destruct (live_fuel st0 Hl) as [[_ Hf] _]. unfold fuel in Hn. rewrite Hr in Hn. lia.
Qed.

(** A move as the rules of the game ask for it, which is more than [ValidateMove] does: a card
    of the hand; an opponent for a card that needs one, unless no opponent can be targeted;
    and with a Ping a guess, even then. *)
Definition by_the_rules st m : Prop :=
  card_of m ∈ hand st (CurrentPlayerID st) ∧
  (card_of m ∈ [CardPing; CardSniffer; CardBufferOverflow; CardSwap] →
    targetable st (CurrentPlayerID st) (target_of m) ∨
    target_of m = "" ∧ ∀ p, ¬ targetable st (CurrentPlayerID st) p) ∧
  (card_of m = CardPing → getCardFromPayload (Payload m) "guess" ∈ allNonPingCards).

(** C4: there is no dead end while cards are played: the current player always has a move
    by the rules, other than the penalty, that validates. *)
Theorem move_available st :
  live st → phase st = phasePlaying →
  ∃ payload, let m := mkMove (CurrentPlayerID st) payload 0 in
    ValidateMove st m = Ok tt ∧ by_the_rules st m ∧ card_of m ≠ CardPenaltyLose ∧ fair st m.
Proof.
  intros Hl Hph. pose proof (proj1 (active_spec _ _) (live_cur _ Hl)) as [Hcp Hce].
  destruct (live_phase _ Hl) as [[_ H2]|[E _]]; [|by rewrite E in Hph].
  assert (∃ c, c ∈ hand st (CurrentPlayerID st) ∧ (CardEncryptedKey ∈ hand st (CurrentPlayerID st) →
    c = CardEncryptedKey)) as (c & Hc & Hk).
  { destruct (decide (CardEncryptedKey ∈ hand st (CurrentPlayerID st))); [eauto|].
    destruct (hand st (CurrentPlayerID st)) as [|c h]; [done|]. exists c. split; [set_solver|done]. }
  pose proof (card_in_deck st _ c (live_cards _ Hl) Hcp Hc) as Hd.
  assert (c ≠ CardPenaltyLose ∧ c ≠ "") as [Hnp Hne].
  { split; intros ->; revert Hd; by apply (bool_decide_unpack _). }
  assert (∃ t, targetable st (CurrentPlayerID st) t ∨ t = "" ∧ ∀ p, ¬ targetable st (CurrentPlayerID st) p) as (t & Ht).
  { destruct (filter (targetable st (CurrentPlayerID st)) (active st)) as [|t l] eqn:El.
    - exists "". right. split; [done|]. intros p Hp.
      assert (p ∈ filter (targetable st (CurrentPlayerID st)) (active st)) as Hin
        by (apply list_elem_of_filter; split; [done|apply Hp]). rewrite El in Hin. by apply elem_of_nil in Hin.
    - exists t. left. assert (t ∈ filter (targetable st (CurrentPlayerID st)) (active st)) as Hin by (rewrite El; left).
      by apply list_elem_of_filter in Hin as [? _]. }
  exists (<["guess" := Str CardRoot]> (<["target_player_id" := Str t]> {["card" := Str c]})).
  set (m := mkMove _ _ _). cbv zeta.
  assert (card_of m = c) as Em by (unfold card_of, getCardFromPayload; cbn; by rewrite !lookup_insert_ne, lookup_singleton_eq by done).
  assert (target_of m = t) as Et by (unfold target_of, getStringFromPayload; cbn; by rewrite lookup_insert_ne, lookup_insert_eq by done).
  assert (getCardFromPayload (Payload m) "guess" ∈ allNonPingCards) as Hg.
  { unfold getCardFromPayload. cbn. rewrite lookup_insert_eq. apply (bool_decide_unpack _). vm_compute. exact I. }
  assert (t = "" ∨ targetable st (CurrentPlayerID st) t) as Ht' by tauto. split_and!.
  - apply ValidateMove_standard; rewrite ?Em, ?Et; try done; [set_solver|auto|tauto].
  - unfold by_the_rules. by rewrite Em, Et.
  - by rewrite Em.
  - unfold fair. rewrite Em, decide_False by done. by rewrite Hph.
Qed.

(** C5: [Init] starts a game exactly for two to five players; it deals a
    well-formed first round in which the first seat moves first. *)
Theorem Init_spec seed ps :
  NoDup (Player_ID <$> ps) → "" ∉ Player_ID <$> ps →
  if decide (2 ≤ length ps ≤ 5) then
    ∃ st, Init seed ps = Ok st ∧ live st ∧ phase st = phasePlaying ∧ round_no st = 1%Z ∧
          players st = Player_ID <$> ps ∧ head (players st) = Some (CurrentPlayerID st) ∧
          (∀ p, token st p = 0%Z)
  else ∃ e, Init seed ps = Err e ∧ is_panic e = false.
Proof.
  intros Hnd Hne. case_decide as Hlen.
  - destruct (Init_live seed ps) as (st & Hi & _ & Hl & Hp & Hpl & Hr & Hh); [done|].
    exists st. split_and!; try done. intros p. by eapply Init_tokens.
  - unfold Init. replace (_ || _) with true; [eauto|]. symmetry. apply orb_true_iff.
    rewrite !Nat.ltb_lt. lia.
Qed.

End Life.

(** ** Turns and rounds *)

Section Rounds.
Context `{PRNG}.

(** While at least two players are in and the deck is not empty, the turn
    goes to the next seat still in the round, in seat order and wrapping around;
    that player draws the top card and loses their own protection, and nobody
    else's hand or protection changes. *)
Theorem advanceTurn_next st x dk :
  settled st → 2 ≤ length (active st) → deck st = x :: dk →
  ∃ st' i, advanceTurn st = Ok st' ∧ 1 ≤ i ≤ length (players st) ∧
    let next := CurrentPlayerID st' in
    next = seat_after st (CurrentPlayerID st) i ∧ next ∈ active st ∧
    (∀ j, 1 ≤ j < i → seat_after st (CurrentPlayerID st) j ∉ active st) ∧
    deck st' = dk ∧ hand st' next = hand st next ++ [x] ∧
    (∀ q, q ≠ next → hand st' q = hand st q) ∧
    (∀ q, q ∈ prot st' ↔ q ∈ prot st ∧ q ≠ next).
Proof.
  intros Hset Hlen Hdk.
  destruct (nextActivePlayer_order st (CurrentPlayerID st)) as (i & Hi & Hn & Ha & Hlt);
    [apply length_ne; lia|].
  rewrite advanceTurn_eq; [|lia|intros p Hp; apply (settled_hands _ Hset); by apply active_spec in Hp as [? _]].
  set (next := nextActivePlayer st (CurrentPlayerID st)) in *.
  destruct (turned_obs st) as (_ & _ & _ & Td & Th & _). fold next in Td, Th.
  rewrite (drawCard_some (turned st) next x dk) by (by rewrite Td).
  eexists _, i. split; [done|]. split; [done|]. cbv zeta.
  rewrite !Cur_setData. change (CurrentPlayerID (turned st)) with next.
  split_and!; [done|done|done|unfold deck; by ra| | |].
  - unfold hand at 1. ra. by rewrite Th.
  - intros q Hq. unfold hand at 1. ra. rewrite handOf_insert_ne by done. apply Th.
  - intros q. unfold prot at 1. ra. unfold turned. ra. fold next (prot st).
    rewrite list_elem_of_filter. tauto.
Qed.


End Rounds.

(** C8: with no single survivor the round goes to the highest card held, ties to
    the higher total of discards, and remaining ties to the earlier seat: the
    winner outscores every player before it and is outscored by none after it. *)
Theorem highestHandWinner_spec st l :
  conserved st → l ⊆ players st → l ≠ [] →
  ∃ l1 l2, l = l1 ++ highestHandWinner st l :: l2 ∧
    (∀ p, p ∈ l1 → outscored (score st p) (score st (highestHandWinner st l))) ∧
    (∀ p, p ∈ l2 → ¬ outscored (score st (highestHandWinner st l)) (score st p)).
Proof.
  intros Hc Hsub Hl. apply highestHandWinner_best; [done|].
  intros p c Hp Hin. apply cardValue_nonneg. eapply card_in_deck; [done| |done]. by apply Hsub.
Qed.

(** C7: what the targeted cards do. A Ping eliminates its target exactly when the
    guess names the card held; a Buffer Overflow eliminates exactly the holder
    of the lower card, nobody on a tie; a Swap exchanges the hands; a Sniffer
    records the target's card for the actor alone. *)
Theorem card_effects st a t :
  t ≠ "" → a ≠ t →
  (∀ g, elim (applyPing st t g) =
    if decide (head (hand st t) = Some g) then appendUnique (elim st) t else elim st) ∧
  (∀ x y hx hy, hand st a = x :: hx → hand st t = y :: hy →
    elim (applyBufferOverflow st a t) =
      if decide (cardValue x < cardValue y)%Z then appendUnique (elim st) a
      else if decide (cardValue y < cardValue x)%Z then appendUnique (elim st) t else elim st) ∧
  (hand (applySwap st a t) a = hand st t ∧ hand (applySwap st a t) t = hand st a ∧
   ∀ q, q ≠ a → q ≠ t → hand (applySwap st a t) q = hand st q) ∧
  (∀ c h, hand st t = c :: h →
    ∃ r, reveals_of (applySniffer st a t) = Some r ∧ r !! a = Some (Str c) ∧
         ∀ q, q ≠ a → r !! q = default ∅ (reveals_of st) !! q).
Proof.
  intros Ht Hat. split_and!.
  - intros g. unfold applyPing. rewrite decide_False by done. fold (hand st t).
    destruct (hand st t) as [|c h]; cbn; [by rewrite decide_False by done|].
    destruct (decide (c = g)) as [->|Hne].
    + rewrite decide_True by done. apply eliminatePlayer_elim.
    + by rewrite decide_False by congruence.
  - intros x y hx hy Hx Hy. unfold applyBufferOverflow. rewrite decide_False by done.
    fold (hand st a) (hand st t). rewrite Hx, Hy. cbv zeta.
    destruct (Z.ltb_spec (cardValue x) (cardValue y)).
    + rewrite decide_True by done. apply eliminatePlayer_elim.
    + rewrite decide_False by lia. destruct (Z.ltb_spec (cardValue y) (cardValue x)).
      * rewrite decide_True by done. apply eliminatePlayer_elim.
      * by rewrite decide_False by lia.
  - unfold applySwap, hand. rewrite decide_False by done. ra.
    rewrite handOf_insert_ne by done. apply handOf_insert.
  - unfold applySwap, hand. rewrite decide_False by done. by ra.
  - intros q Hqa Hqt. unfold applySwap, hand. rewrite decide_False by done. ra.
    by rewrite !handOf_insert_ne by done.
  - intros c h Hh. unfold applySniffer. rewrite decide_False by done. fold (hand st t).
    rewrite Hh. eexists. unfold reveals_of at 1. cbn. rewrite lookup_insert_eq.
    split; [done|]. rewrite lookup_insert_eq. split; [done|]. intros q Hq.
    rewrite lookup_insert_ne by done. f_equal. unfold reveals_of.
    by destruct (Data st !! "private_reveals") as [[]|].
Qed.

(** ** Validation *)

(** A standard move validates only for the player whose turn it is, who is
    still in the round and holds the card, and a target named by a card that
    takes one is another player still in the round and not protected by a
    Firewall; a Reboot may also name its own player. *)
Theorem ValidateMove_guards st m :
  ValidateMove st m = Ok tt → card_of m ≠ CardPenaltyLose → phase st = phasePlaying →
  Move_PlayerID m = CurrentPlayerID st ∧ CurrentPlayerID st ∉ elim st ∧
  card_of m ∈ hand st (CurrentPlayerID st) ∧
  (card_of m ∈ [CardPing; CardSniffer; CardBufferOverflow; CardSwap] → target_of m ≠ "" →
   targetable st (CurrentPlayerID st) (target_of m)) ∧
  (card_of m = CardReboot → target_of m ≠ "" → target_of m ≠ CurrentPlayerID st →
   targetable st (CurrentPlayerID st) (target_of m)).
Proof.
  intros Hv Hn Hp. destruct (ValidateMove_ok st m Hv) as [?|(_ & He & [[Hp' _]|[_ Hok]])];
    [done|by rewrite Hp in Hp'|].
  destruct Hok as [H1 H2 _ H4 H5]. split_and!; try done.
  - intros Hc Ht. by destruct (H4 Hc).
  - intros Hc Ht Hs. by destruct (H5 Hc) as [|[|]].
Qed.

(** C11: a player holding the Encrypted Key together with a Swap or a Reboot can
    play nothing but the Encrypted Key. *)
Theorem encrypted_key_forced st m :
  ValidateMove st m = Ok tt → card_of m ≠ CardPenaltyLose → phase st = phasePlaying →
  CardEncryptedKey ∈ hand st (CurrentPlayerID st) →
  CardSwap ∈ hand st (CurrentPlayerID st) ∨ CardReboot ∈ hand st (CurrentPlayerID st) →
  card_of m = CardEncryptedKey.
Proof.
  intros Hv Hn Hp. destruct (ValidateMove_ok st m Hv) as [?|(_ & _ & [[Hp' _]|[_ Hok]])];
    [done|by rewrite Hp in Hp'|]. apply Hok.
Qed.

(** ** Storage and views *)

(** C8: storing a state and loading it back changes nothing: every move has the
    same verdict and the same outcome, and the game is over or not as before. *)
Theorem reload_transparent `{PRNG} st m :
  typed (Data st) → json_ok (Map (Data st)) = true →
  ValidateMove (reload st) m = ValidateMove st m ∧
  ApplyMove (reload st) m = ApplyMove st m ∧
  IsOver (reload st) = IsOver st.
Proof.
  intros Ht Hj. split_and!.
  - rewrite (reload_copied st Hj). by apply ValidateMove_copied.
  - unfold ApplyMove. fold (copied (reload st)) (copied st). by rewrite (copied_reload st Hj).
  - rewrite (reload_copied st Hj). unfold IsOver. cbn [copied Data]. by rewrite !copy_getString.
Qed.

(** C9: the view sent to a player depends on nothing that player may not know:
    two states that agree on the public entries, the player's own hand and own
    reveal, and (only on that player's turn) the Debugger's choices, give the
    same view. *)
Theorem FilterState_noninterference st st' p :
  p ≠ "" → indistinguishable p st st' → FilterState st' p = FilterState st p.
Proof. apply FilterState_indistinguishable. Qed.

(** ** Instances *)

Definition after_ping : GameState := state_of (@ApplyMove zeroPRNG opening ana_pings).

Lemma opening_phase : phase opening = phasePlaying.
Proof. vm_compute. reflexivity. Qed.

Lemma ana_pings_valid : ValidateMove opening ana_pings = Ok tt.
Proof. vm_compute. reflexivity. Qed.

Lemma ana_pings_fair : fair opening ana_pings.
Proof.
  unfold fair. rewrite decide_False by done. rewrite opening_phase. done.
Qed.

Lemma ana_pings_play : @play zeroPRNG opening [ana_pings] after_ping.
Proof.
  eapply play_move.
  - vm_compute. reflexivity.
  - vm_compute. reflexivity.
  - apply ana_pings_valid.
  - apply ana_pings_fair.
  - apply state_of_ok. vm_compute. reflexivity.
  - apply play_done.
Qed.

Lemma game_well_formed_witness :
  players after_ping = ["ana"; "bob"] ∧
  ((∃ w, w ∈ players after_ping ∧ IsOver after_ping = (true, mkResult ResultWin (Some w) "") ∧
         (to_win after_ping ≤ token after_ping w)%Z) ∨
   (IsOver after_ping).1 = false ∧ live after_ping ∧ table after_ping ≡ₚ deckComposition).
Proof.
  exact (@game_well_formed zeroPRNG (Some 7%Z) ana_bob opening [ana_pings] after_ping
    ana_bob_good opening_init ana_pings_play).
Defined.

Lemma ApplyMove_succeeds_witness :
  ∃ st', @ApplyMove zeroPRNG opening ana_pings = Ok st' ∧ typed (Data st') ∧
         players st' = players opening ∧ to_win st' = to_win opening ∧ (over st' ∨ live st').
Proof.
  refine (@ApplyMove_succeeds zeroPRNG opening ana_pings (proj1 opening_ok) (proj2 opening_ok)
    _ ana_pings_valid ana_pings_fair).
  vm_compute. reflexivity.
Defined.

Lemma game_terminates_witness : length [ana_pings] ≤ 1584.
Proof.
  exact (@game_terminates zeroPRNG (Some 7%Z) ana_bob opening [ana_pings] after_ping
    ana_bob_good opening_init ana_pings_play).
Defined.

Lemma move_available_witness :
  ∃ payload, let m := mkMove (CurrentPlayerID opening) payload 0 in
    ValidateMove opening m = Ok tt ∧ by_the_rules opening m ∧ card_of m ≠ CardPenaltyLose ∧ fair opening m.
Proof. exact (move_available opening (proj2 opening_ok) opening_phase). Defined.

Lemma Init_spec_witness :
  if decide (2 ≤ length ana_bob ≤ 5) then
    ∃ st, @Init zeroPRNG None ana_bob = Ok st ∧ live st ∧ phase st = phasePlaying ∧
          round_no st = 1%Z ∧ players st = Player_ID <$> ana_bob ∧
          head (players st) = Some (CurrentPlayerID st) ∧ (∀ p, token st p = 0%Z)
  else ∃ e, @Init zeroPRNG None ana_bob = Err e ∧ is_panic e = false.
Proof.
  exact (@Init_spec zeroPRNG None ana_bob (proj1 (proj2 ana_bob_good)) (proj2 (proj2 ana_bob_good))).
Defined.

(** Ana has played a Ping and the turn is about to pass. *)
Definition ping_played : GameState := played opening (CurrentPlayerID opening) CardPing.

Lemma ping_played_settled : settled ping_played.
Proof.
  apply played_settled; [apply opening_ok|apply opening_phase|].
  apply (bool_decide_unpack _). vm_compute. exact I.
Qed.

Lemma advanceTurn_next_witness :
  ∃ st' i, @advanceTurn zeroPRNG ping_played = Ok st' ∧ 1 ≤ i ≤ length (players ping_played) ∧
    let next := CurrentPlayerID st' in
    next = seat_after ping_played (CurrentPlayerID ping_played) i ∧ next ∈ active ping_played ∧
    (∀ j, 1 ≤ j < i → seat_after ping_played (CurrentPlayerID ping_played) j ∉ active ping_played) ∧
    deck st' = drop 1 (deck ping_played) ∧ hand st' next = hand ping_played next ++ ["sniffer"] ∧
    (∀ q, q ≠ next → hand st' q = hand ping_played q) ∧
    (∀ q, q ∈ prot st' ↔ q ∈ prot ping_played ∧ q ≠ next).
Proof.
  refine (@advanceTurn_next zeroPRNG ping_played "sniffer" (drop 1 (deck ping_played))
    ping_played_settled _ _).
  - apply (bool_decide_unpack _). vm_compute. exact I.
  - vm_compute. reflexivity.
Defined.


Lemma highestHandWinner_spec_witness :
  ∃ l1 l2, players opening = l1 ++ highestHandWinner opening (players opening) :: l2 ∧
    (∀ p, p ∈ l1 → outscored (score opening p) (score opening (highestHandWinner opening (players opening)))) ∧
    (∀ p, p ∈ l2 → ¬ outscored (score opening (highestHandWinner opening (players opening))) (score opening p)).
Proof.
  refine (highestHandWinner_spec opening (players opening) (live_cards _ (proj2 opening_ok)) _ _).
  - done.
  - apply (bool_decide_unpack _). vm_compute. exact I.
Defined.

Lemma card_effects_witness :
  (∀ g, elim (applyPing opening "bob" g) =
    if decide (head (hand opening "bob") = Some g) then appendUnique (elim opening) "bob"
    else elim opening) ∧
  (∀ x y hx hy, hand opening "ana" = x :: hx → hand opening "bob" = y :: hy →
    elim (applyBufferOverflow opening "ana" "bob") =
      if decide (cardValue x < cardValue y)%Z then appendUnique (elim opening) "ana"
      else if decide (cardValue y < cardValue x)%Z then appendUnique (elim opening) "bob"
      else elim opening) ∧
  (hand (applySwap opening "ana" "bob") "ana" = hand opening "bob" ∧
   hand (applySwap opening "ana" "bob") "bob" = hand opening "ana" ∧
   ∀ q, q ≠ "ana" → q ≠ "bob" → hand (applySwap opening "ana" "bob") q = hand opening q) ∧
  (∀ c h, hand opening "bob" = c :: h →
    ∃ r, reveals_of (applySniffer opening "ana" "bob") = Some r ∧ r !! "ana" = Some (Str c) ∧
         ∀ q, q ≠ "ana" → r !! q = default ∅ (reveals_of opening) !! q).
Proof.
  refine (card_effects opening "ana" "bob" _ _); apply (bool_decide_unpack _); vm_compute; exact I.
Defined.

Lemma ValidateMove_guards_witness :
  Move_PlayerID ana_pings = CurrentPlayerID opening ∧
  CurrentPlayerID opening ∉ elim opening ∧
  card_of ana_pings ∈ hand opening (CurrentPlayerID opening) ∧
  (card_of ana_pings ∈ [CardPing; CardSniffer; CardBufferOverflow; CardSwap] →
   target_of ana_pings ≠ "" → targetable opening (CurrentPlayerID opening) (target_of ana_pings)) ∧
  (card_of ana_pings = CardReboot → target_of ana_pings ≠ "" →
   target_of ana_pings ≠ CurrentPlayerID opening →
   targetable opening (CurrentPlayerID opening) (target_of ana_pings)).
Proof.
  refine (ValidateMove_guards opening ana_pings ana_pings_valid _ opening_phase).
  apply (bool_decide_unpack _); vm_compute; exact I.
Defined.

(** Ana holds the Encrypted Key and a Swap. *)
Definition key_and_swap : GameState :=
  setData "hands" (MapStrs (<["ana" := [CardSwap; CardEncryptedKey]]> {["bob" := [CardPing]]})) opening.

Definition ana_plays_key : Move := mkMove "ana" {["card" := Str CardEncryptedKey]} 0.

Lemma encrypted_key_forced_witness : card_of ana_plays_key = CardEncryptedKey.
Proof.
  refine (encrypted_key_forced key_and_swap ana_plays_key _ _ _ _ _).
  - vm_compute. reflexivity.
  - apply (bool_decide_unpack _); vm_compute; exact I.
  - vm_compute. reflexivity.
  - apply (bool_decide_unpack _); vm_compute; exact I.
  - left. apply (bool_decide_unpack _); vm_compute; exact I.
Defined.

Lemma reload_transparent_witness :
  ValidateMove (reload opening) ana_pings = ValidateMove opening ana_pings ∧
  @ApplyMove zeroPRNG (reload opening) ana_pings = @ApplyMove zeroPRNG opening ana_pings ∧
  IsOver (reload opening) = IsOver opening.
Proof.
  refine (@reload_transparent zeroPRNG opening ana_pings (proj1 opening_ok) _).
  vm_compute. reflexivity.
Defined.

(** The same table with another card in Bob's hand. *)
Definition bob_has (c : string) : GameState :=
  setData "hands" (MapStrs (<["ana" := [CardPing; CardPing]]> {["bob" := [c]]})) opening.

Lemma bob_has_indistinguishable c c' : indistinguishable "ana" (bob_has c) (bob_has c').
Proof.
  unfold bob_has. generalize opening. intros st.
  split; cbn [CurrentPlayerID setData Data]; try reflexivity.
  - intros k Hk. rewrite !lookup_insert_ne; [done|..];
      intros <-; apply Hk; unfold withheld; set_solver.
  - unfold getHands. by rewrite !lookup_insert_eq.
  - unfold getHands. rewrite !lookup_insert_eq.
    by rewrite !dom_insert_L, !dom_singleton_L.
  - intros _. by rewrite !lookup_insert_ne by done.
  - unfold reveals_of. rewrite !Data_setData, !lookup_insert_ne by done.
    by destruct (Data st !! "private_reveals") as [[]|].
Qed.

Lemma FilterState_noninterference_witness :
  FilterState (bob_has CardRoot) "ana" = FilterState (bob_has CardPing) "ana".
Proof.
  refine (FilterState_noninterference (bob_has CardPing) (bob_has CardRoot) "ana" _
    (bob_has_indistinguishable _ _)).
  apply (bool_decide_unpack _); vm_compute; exact I.
Defined.
