(* ===== verification/RootAccessFindings.v ===== *)
(** Where Root Access does something other than it means to: a Debugger can
    multiply cards or leave its player without a legal move, cards go without a target, a penalty during a
    Debugger hands its choices to the next player, the penalty card validates
    for anybody, and the views show the deck. *)
From S2P Require Import Prelude Json Engine Randutil RootAccess RootAccessFacts RootAccessInv.
From S2P Require Import RootAccessMoves RootAccessCodec RootAccessTyped RootAccessPlay.
From S2P Require Import RootAccessGame RootAccessView.
Import RootAccess.

(** ** A Debugger on a short deck *)

(** With fewer than two cards left a Debugger shows fewer than three choices, and
    then every move except the penalty is rejected: the player is stuck until
    the turn times out. *)
Theorem debugger_stuck `{PRNG} st m :
  live st → phase st = phasePlaying → ValidateMove st m = Ok tt → card_of m = CardDebugger →
  length (deck st) < 2 →
  ∃ st', applyStandardMove st m (card_of m) = Ok st' ∧ live st' ∧
    CurrentPlayerID st' = CurrentPlayerID st ∧
    ∀ m', card_of m' ≠ CardPenaltyLose → ∃ e, ValidateMove st' m' = Err e.
Proof.
  intros Hl Hph Hv Hdbg Hdk.
  destruct (ValidateMove_ok st m Hv) as [E|(_ & _ & [[E _]|[_ Hok]])];
    [by rewrite Hdbg in E|by rewrite Hph in E|].
  destruct (debugger_step st m Hl Hph Hok Hdbg) as (st' & Ha & Hl' & _).
  pose proof Hok as [Hp Hc _ _ _]. exists st'. split; [done|]. split; [done|].
  destruct (played_settled st (card_of m) Hl Hph Hc) as [Hset Hone].
  rewrite Hdbg in *. unfold applyStandardMove in Ha. rewrite Hp in Ha.
  fold (played st (CurrentPlayerID st) CardDebugger) in Ha.
  set (st1 := played _ _ _) in *.
  assert (st' = applyDebugger st1 (CurrentPlayerID st)) as -> by (by apply Ok_inj in Ha).
  destruct (played_obs st (CurrentPlayerID st) CardDebugger)
    as (_ & _ & _ & Ed & _ & _ & _ & _ & _ & _ & _ & _). fold st1 in Ed.
  split; [exact (frame_cur _ _ _ (played_frame st (CurrentPlayerID st) CardDebugger))|].
  assert (length (choices (applyDebugger st1 (CurrentPlayerID st))) ≠ 3) as Hch.
  { assert (choices (applyDebugger st1 (CurrentPlayerID st)) =
      hand st1 (CurrentPlayerID st) ++ take 2 (deck st1)) as ->
      by (unfold applyDebugger, choices, hand, deck; by ra).
    rewrite length_app, Ed, length_take, Hone by apply Hl. lia. }
  assert (phase (applyDebugger st1 (CurrentPlayerID st)) = phaseDebuggerPending) as Hpd
    by (unfold applyDebugger, phase; by ra).
  intros m' Hm'. set (st' := applyDebugger _ _) in *.
  assert (∃ e, validateDebuggerResolve st' m' = Err e) as Hr.
  { unfold validateDebuggerResolve. fold (choices st'). cbv zeta.
    rewrite (decide_True (P := length (choices st') ≠ 3)) by done.
    repeat case_decide; by eauto. }
  unfold ValidateMove. fold (card_of m') (phase st'). rewrite Hpd, decide_False by done.
  rewrite (decide_True (P := phaseDebuggerPending = _)) by done. repeat case_decide; by eauto.
Qed.

(** ** A Debugger that multiplies cards *)

(** A generator that deals the first player a Debugger and leaves the rest of the
    deck in order. *)
Definition debuggerPRNG (players : nat) : PRNG.
Proof.
  refine {| rng := unit; NewSource _ := tt;
            Intn _ n := (if (n =? 17)%Z then (if decide (players = 2) then 6%Z else 4%Z)
                         else (n - 1)%Z, tt) |}.
  intros r n Hn. cbn. destruct (n =? 17)%Z eqn:E; [case_decide|]; lia.
Defined.

Definition table_of (n : nat) : list Player :=
  take n [mkPlayer "ana" "Ana"; mkPlayer "bob" "Bob"; mkPlayer "cyd" "Cyd"].

Definition state_or_empty (r : result gerror GameState) : GameState :=
  match r with Ok st => st | Err _ => mkState "" ∅ end.

Definition first_round (n : nat) : GameState :=
  state_or_empty (@Init (debuggerPRNG n) (Some 1%Z) (table_of n)).

Definition plays_debugger : Move := mkMove "ana" {["card" := Str CardDebugger]} 0.

Definition debugging (n : nat) : GameState :=
  state_or_empty (@ApplyMove (debuggerPRNG n) (first_round n) plays_debugger).

Definition keeps_and_returns_ping : Move :=
  mkMove "ana" (<["card" := Str "debugger_resolve"]> (<["keep" := Str CardPing]>
    {["return" := Strs [CardPing; CardPing]]})) 1.

Lemma is_ok_state r : is_ok r = true → r = Ok (state_or_empty r).
Proof. by destruct r. Qed.

Lemma debugging_live : typed (Data (debugging 2)) ∧ live (debugging 2).
Proof.
  assert (good_players (table_of 2)) as Hg by (apply (bool_decide_unpack _); vm_compute; exact I).
  destruct (@Init_live (debuggerPRNG 2) (Some 1%Z) _ Hg) as (st & Hi & Ht & Hl & _).
  assert (@Init (debuggerPRNG 2) (Some 1%Z) (table_of 2) = Ok (first_round 2)) as Hi'
    by (apply is_ok_state; vm_compute; reflexivity).
  rewrite Hi' in Hi. apply Ok_inj in Hi. subst st.
  assert (@ApplyMove (debuggerPRNG 2) (first_round 2) plays_debugger = Ok (debugging 2)) as Ha
    by (apply is_ok_state; vm_compute; reflexivity).
  destruct (@ApplyMove_step (debuggerPRNG 2) (first_round 2) plays_debugger Ht Hl)
    as (st' & Ha' & Ht' & _ & _ & Hcase).
  - vm_compute. reflexivity.
  - vm_compute. reflexivity.
  - unfold fair. rewrite decide_False by done.
    assert (phase (first_round 2) = phasePlaying) as -> by (vm_compute; reflexivity). done.
  - rewrite Ha in Ha'. apply Ok_inj in Ha'. subst st'. split; [done|].
    destruct Hcase as [(Hp & _)|[Hl' _]]; [|done]. exfalso. revert Hp.
    assert (phase (debugging 2) = phaseDebuggerPending) as -> by (vm_compute; reflexivity). done.
Qed.

(** [validateDebuggerResolve] checks that each returned card is among the choices,
    not that the three together are the choices: from a well-formed state a
    validated resolution can put cards into the game that do not exist. *)
Theorem debugger_multiplies_cards :
  ∃ st m st', typed (Data st) ∧ live st ∧ table st ≡ₚ deckComposition ∧
    Move_PlayerID m = CurrentPlayerID st ∧ ValidateMove st m = Ok tt ∧
    @ApplyMove (debuggerPRNG 2) st m = Ok st' ∧ ¬ table st' ≡ₚ deckComposition.
Proof.
  destruct debugging_live as [Ht Hl].
  exists (debugging 2), keeps_and_returns_ping,
    (state_or_empty (@ApplyMove (debuggerPRNG 2) (debugging 2) keeps_and_returns_ping)).
  split_and!; [done|done| |vm_compute; reflexivity|vm_compute; reflexivity| |].
  - apply occ_perm_inv. intros c. rewrite occ_table. apply Hl.
  - apply is_ok_state. vm_compute. reflexivity.
  - intros Hp. apply (occ_perm CardPing) in Hp. revert Hp. vm_compute. discriminate.
Qed.

(** ** A penalty during a Debugger *)

Definition ana_times_out : Move := mkMove "ana" (TimeoutMove "") 2.

(** With three players, a timeout in the middle of a Debugger passes the turn but
    not the phase: the next player has two cards in hand and must nevertheless
    resolve the choices that the eliminated player was shown. *)
Theorem penalty_leaves_debugger_pending :
  phase (first_round 3) = phasePlaying ∧ ValidateMove (first_round 3) plays_debugger = Ok tt ∧
  ∃ st', @ApplyMove (debuggerPRNG 3) (debugging 3) ana_times_out = Ok st' ∧
    CurrentPlayerID st' = "bob" ∧ elim st' = ["ana"] ∧
    length (hand st' "bob") = 2 ∧ phase st' = phaseDebuggerPending ∧ length (choices st') = 3 ∧
    ValidateMove st' (mkMove "bob" {["card" := Str (firstCard (hand st' "bob"))]} 3) =
      Err (GErr "waiting for debugger_resolve move" []).
Proof.
  split; [vm_compute; reflexivity|]. split; [vm_compute; reflexivity|].
  exists (state_or_empty (@ApplyMove (debuggerPRNG 3) (debugging 3) ana_times_out)).
  split_and!; [apply is_ok_state|..]; vm_compute; reflexivity.
Qed.

(** ** Moves without a target *)

(** A comment in [validateTarget] says that a card without a target is legal when no target is
    available, and a test that a Ping needs a guess even then. The code looks for neither. *)
Theorem targetless_always_validates st c :
  live st → phase st = phasePlaying → c ∈ hand st (CurrentPlayerID st) →
  CardEncryptedKey ∉ hand st (CurrentPlayerID st) →
  ValidateMove st (mkMove (CurrentPlayerID st) {["card" := Str c]} 0) = Ok tt.
Proof.
  intros Hl Hph Hc Hk. pose proof (proj1 (active_spec _ _) (live_cur _ Hl)) as [Hcp Hce].
  pose proof (card_in_deck st _ c (live_cards _ Hl) Hcp Hc) as Hd. set (m := mkMove _ _ _).
  assert (card_of m = c) as Em by done. assert (target_of m = "") as Et by done.
  apply ValidateMove_standard; rewrite ?Em, ?Et; try done; auto.
  intros Hx. rewrite !elem_of_cons, elem_of_nil in Hx.
  destruct Hx as [->|[->|[]]]; revert Hd; by apply (bool_decide_unpack _).
Qed.

(** At the start of a game of two, where the opponent can be targeted. *)
Lemma ping_at_nobody : live (first_round 2) ∧ targetable (first_round 2) "ana" "bob" ∧
  ValidateMove (first_round 2) (mkMove "ana" {["card" := Str CardPing]} 0) = Ok tt.
Proof.
  assert (good_players (table_of 2)) as Hg by (apply (bool_decide_unpack _); vm_compute; exact I).
  destruct (@Init_live (debuggerPRNG 2) (Some 1%Z) _ Hg) as (st & Hi & _ & Hl & _).
  assert (@Init (debuggerPRNG 2) (Some 1%Z) (table_of 2) = Ok (first_round 2)) as Hi'
    by (apply is_ok_state; vm_compute; reflexivity).
  rewrite Hi' in Hi. apply Ok_inj in Hi. subst st. split; [done|].
  split; [unfold targetable; apply (bool_decide_unpack _); vm_compute; exact I|vm_compute; reflexivity].
Qed.

(** ** The penalty card and the views *)

(** The penalty validates for every player in every phase, although it is
    documented as "never valid as a player-initiated move". *)
Theorem penalty_always_validates st m :
  card_of m = CardPenaltyLose → ValidateMove st m = Ok tt.
Proof. intros Hc. unfold ValidateMove. fold (card_of m). by rewrite Hc. Qed.

(** The deck in its order, the card set aside face down and the seed are part of
    every player's and every spectator's view. *)
Theorem FilterState_shows_deck st p k :
  k ∈ ["deck"; "set_aside_face_down"; "game_seed"] →
  Data (FilterState st p) !! k = Data st !! k.
Proof.
  intros Hk.
  assert (k ≠ "hands" ∧ k ≠ "debugger_choices" ∧ k ≠ "private_reveals") as (H1 & H2 & H3)
    by (rewrite !elem_of_cons, elem_of_nil in Hk; naive_solver).
  unfold FilterState. repeat case_match; cbn;
    rewrite ?lookup_delete_ne, ?lookup_insert_ne by done; try done.
  all: rewrite ?lookup_delete_ne, ?lookup_insert_ne by done; done.
Qed.
