(* ===== verification/TicTacToe.v ===== *)
(** Tic-tac-toe (services/game-server/games/tictactoe): the plugin, function by
    function, with the run-time panics of its slice indexing. *)
From S2P Require Import Prelude Json Engine.

Module TicTacToe.

(** ** The board (tictactoe.go) *)

Definition gameID : string := "tictactoe".

Definition winLines : list (nat * nat * nat) := [
  (0, 1, 2); (3, 4, 5); (6, 7, 8);
  (0, 3, 6); (1, 4, 7); (2, 5, 8);
  (0, 4, 8); (2, 4, 6)].

Definition emptyBoard : list string := replicate 9 "".

Definition Init (seed : option Z) (players : list Player) : result gerror GameState :=
  if decide (length players ≠ 2) then
    Err (GErr "tictactoe requires exactly 2 players, got %d" [])
  else
    p0 ← index players 0;
    p1 ← index players 1;
    Ok (mkState (Player_ID p0)
      (<["board" := Arr9 emptyBoard]>
       (<["marks" := MapStr (<[Player_ID p1 := "O"]> (<[Player_ID p0 := "X"]> ∅))]>
       (<["players" := Strs [Player_ID p0; Player_ID p1]]> ∅)))).

(** ** Helpers *)

Definition getCell (move : Move) : result gerror Z :=
  match Payload move !! "cell" with
  | None => Err (GErr "move payload must contain 'cell'" [])
  | Some (Float v) =>
      let cell := int_of_float64 v in
      if ((cell <? 0) || (8 <? cell))%Z then
        Err (GErr "cell must be between 0 and 8, got %d" [])
      else Ok cell
  | Some (Int v) =>
      if ((v <? 0) || (8 <? v))%Z then
        Err (GErr "cell must be between 0 and 8, got %d" [])
      else Ok v
  | Some _ => Err (GErr "cell must be a number, got %T" [])
  end.

(** The cells of a decoded board: [nil] counts as empty. *)
Fixpoint boardCells (v : list any) : result gerror (list string) :=
  match v with
  | [] => Ok []
  | Nil :: rest => cells ← boardCells rest; Ok ("" :: cells)
  | Str s :: rest => cells ← boardCells rest; Ok (s :: cells)
  | _ :: _ => Err (GErr "board cell %d must be a string" [])
  end.

Definition getBoard (state : GameState) : result gerror (list string) :=
  match Data state !! "board" with
  | None => Err (GErr "state missing 'board'" [])
  | Some (Arr9 v) => Ok v
  | Some (Slice v) =>
      if decide (length v ≠ 9) then Err (GErr "board must have 9 cells, got %d" [])
      else boardCells v
  | Some _ => Err (GErr "unexpected board type %T" [])
  end.

Definition is_string (v : any) : bool := match v with Str _ => true | _ => false end.

Definition getMarks (state : GameState) : result gerror (gmap string string) :=
  match Data state !! "marks" with
  | None => Err (GErr "state missing 'marks'" [])
  | Some (MapStr v) => Ok v
  | Some (Map v) =>
      if bool_decide (map_Forall (λ _ x, is_string x = true) v)
      then Ok (omap (λ x, match x with Str s => Some s | _ => None end) v)
      else Err (GErr "mark for player %s must be a string" [])
  | Some _ => Err (GErr "unexpected marks type %T" [])
  end.

Fixpoint playerStrings (v : list any) : result gerror (list string) :=
  match v with
  | [] => Ok []
  | Str s :: rest => ps ← playerStrings rest; Ok (s :: ps)
  | _ :: _ => Err (GErr "player %d must be a string" [])
  end.

Definition getPlayers (state : GameState) : result gerror (list string) :=
  match Data state !! "players" with
  | None => Err (GErr "state missing 'players'" [])
  | Some (Strs v) => Ok v
  | Some (Slice v) => playerStrings v
  | Some _ => Err (GErr "unexpected players type %T" [])
  end.

(** ** Moves *)

Definition ValidateMove (state : GameState) (move : Move) : result gerror unit :=
  if decide (Move_PlayerID move ≠ CurrentPlayerID state) then
    Err (GErr "it is not your turn" [])
  else match Payload move !! "timeout_action" with
  | Some _ => Ok tt
  | None =>
      cell ← getCell move;
      board ← getBoard state;
      c ← index board (Z.to_nat cell);
      if decide (c ≠ "") then Err (GErr "cell %d is already taken" []) else Ok tt
  end.

(** [nextPlayerID := players[0]], or [players[1]] when the mover is [players[0]]. *)
Definition otherPlayer (players : list string) (playerID : string) : result gerror string :=
  p0 ← index players 0;
  if decide (p0 = playerID) then index players 1 else Ok p0.

Definition applyTimeout (state : GameState) (playerID action : string) : result gerror GameState :=
  players ← getPlayers state;
  nextPlayerID ← otherPlayer players playerID;
  if decide (action = "lose_game") then Ok (setData "forfeit" (Str playerID) state)
  else Ok (setCurrent nextPlayerID state).

Definition placeMark (state : GameState) (move : Move) : result gerror GameState :=
  cell ← getCell move;
  board ← getBoard state;
  marks ← getMarks state;
  players ← getPlayers state;
  _ ← index board (Z.to_nat cell);
  let board := <[Z.to_nat cell := default "" (marks !! Move_PlayerID move)]> board in
  nextPlayerID ← otherPlayer players (Move_PlayerID move);
  Ok (mkState nextPlayerID
    (<["board" := Arr9 board]> (<["marks" := MapStr marks]> (<["players" := Strs players]> ∅)))).

Definition ApplyMove (state : GameState) (move : Move) : result gerror GameState :=
  let state := mkState (CurrentPlayerID state) (DeepCopyData (Data state)) in
  match Payload move !! "timeout_action" with
  | Some (Str action) => applyTimeout state (Move_PlayerID move) action
  | _ => placeMark state move
  end.

(** ** The end of the game *)

(** The mark that fills a line, if the line is filled by one. *)
Definition lineMark (board : list string) (line : nat * nat * nat) : option string :=
  let '(i, j, k) := line in
  a ← board !! i; b ← board !! j; c ← board !! k;
  if decide (a ≠ "" ∧ a = b ∧ b = c) then Some a else None.

(** The first player who owns the mark. *)
Definition markOwner (marks : gmap string string) (players : list string) (a : string) : option string :=
  snd <$> list_find (λ pid, default "" (marks !! pid) = a) players.

(** The loop over the win lines: the owner of the first line that has one. *)
Definition lineWinner (board : list string) (marks : gmap string string) (players : list string)
    : option string :=
  head (omap (λ line, a ← lineMark board line; markOwner marks players a) winLines).

Definition forfeitWinner (state : GameState) : result gerror (option string) :=
  match Data state !! "forfeit" with
  | Some (Str forfeit) =>
      players ← getPlayers state;
      Ok (snd <$> list_find (λ p, p ≠ forfeit) players)
  | _ => Ok None
  end.

Definition wins (p : string) : bool * Result := (true, mkResult ResultWin (Some p) "").

Definition IsOver (state : GameState) : bool * Result :=
  match forfeitWinner state with
  | Err _ => (false, zeroResult)
  | Ok (Some p) => wins p
  | Ok None =>
      match getBoard state, getMarks state, getPlayers state with
      | Ok board, Ok marks, Ok players =>
          match lineWinner board marks players with
          | Some p => wins p
          | None =>
              if decide ("" ∈ board) then (false, zeroResult)
              else (true, mkResult ResultDraw None "")
          end
      | _, _, _ => (false, zeroResult)
      end
  end.

Definition TimeoutMove (penalty : string) : data := {["timeout_action" := Str penalty]}.

(** lobby_settings.go *)
Definition LobbySettings : list LobbySetting := DefaultLobbySettings.

(** The plugin as the registry holds it; it does not implement [StateFilter]. *)
Definition game : Game :=
  mkGame gameID "Tic-tac-toe" 2 2 Init ValidateMove ApplyMove IsOver
    None (Some TimeoutMove) (Some LobbySettings).

End TicTacToe.
