(* ===== verification/TicTacToeSpec.v ===== *)
(** An abstract tic-tac-toe, the refinement of it by the plugin, and what follows
    for the games that are played: results, termination, transparency of storage
    and the one hole in the validation. *)
From S2P Require Import Prelude Json Engine TicTacToe.
Import TicTacToe.

(** ** The abstract game *)

(** A position: nine cells, the two players, who is to move and who forfeited. *)
Record position := mkPosition {
  cells : list string;
  x_player : string;
  o_player : string;
  to_move : string;
  forfeited : option string
}.

Inductive action := Place (i : nat) | LoseTurn | LoseGame.

Definition other (pos : position) (p : string) : string :=
  if decide (x_player pos = p) then o_player pos else x_player pos.

Definition mark_of (pos : position) (p : string) : string :=
  if decide (p = x_player pos) then "X" else "O".

(** The rules: a mark goes into an empty cell and the turn passes. *)
Definition act (pos : position) (a : action) : option position :=
  match a with
  | Place i =>
      if decide (cells pos !! i = Some "") then
        Some (mkPosition (<[i := mark_of pos (to_move pos)]> (cells pos))
          (x_player pos) (o_player pos) (other pos (to_move pos)) None)
      else None
  | LoseTurn =>
      Some (mkPosition (cells pos) (x_player pos) (o_player pos) (other pos (to_move pos))
        (forfeited pos))
  | LoseGame =>
      Some (mkPosition (cells pos) (x_player pos) (o_player pos) (to_move pos)
        (Some (to_move pos)))
  end.

(** Player [p] has three marks in a line. *)
Definition has_line (pos : position) (p : string) : Prop :=
  ∃ l, l ∈ winLines ∧ lineMark (cells pos) l = Some (mark_of pos p).

Definition full (pos : position) : Prop := "" ∉ cells pos.

(** Positions that a well-formed board can hold. *)
Record sane (pos : position) : Prop := {
  sane_length : length (cells pos) = 9;
  sane_marks : ∀ c, c ∈ cells pos → c = "" ∨ c = "X" ∨ c = "O";
  sane_players : x_player pos ≠ o_player pos;
  sane_turn : to_move pos = x_player pos ∨ to_move pos = o_player pos;
  sane_forfeit : ∀ f, forfeited pos = Some f → f = x_player pos ∨ f = o_player pos
}.

(** The state encodes the position. *)
Record represents (st : GameState) (pos : position) : Prop := {
  rep_board : getBoard st = Ok (cells pos);
  rep_marks : ∃ marks, getMarks st = Ok marks ∧
    marks !! x_player pos = Some "X" ∧ marks !! o_player pos = Some "O";
  rep_players : getPlayers st = Ok [x_player pos; o_player pos];
  rep_turn : CurrentPlayerID st = to_move pos;
  rep_forfeit : forfeited pos =
    match Data st !! "forfeit" with Some (Str f) => Some f | _ => None end;
  rep_sane : sane pos
}.

(** What a payload asks for: a cell, or the penalty of a timeout. *)
Definition decode (m : Move) : option action :=
  match Payload m !! "timeout_action" with
  | Some (Str s) => Some (if decide (s = "lose_game") then LoseGame else LoseTurn)
  | Some _ => None
  | None => match getCell m with Ok c => Some (Place (Z.to_nat c)) | Err _ => None end
  end.

(** ** Reading a state back *)

Lemma boardCells_Str l : boardCells (Str <$> l) = Ok l.
Proof. induction l as [|s l IH]; [done|]. cbn. by rewrite IH. Qed.

Lemma boardCells_rt v b : boardCells v = Ok b → boardCells (json_rt <$> v) = Ok b.
Proof.
  revert b. induction v as [|x v IH]; intros b Hb; [done|].
  destruct x; cbn in *; try done; apply result_bind_ok in Hb as (c & Hc & [= <-]);
    by rewrite (IH c Hc).
Qed.

Lemma playerStrings_Str l : playerStrings (Str <$> l) = Ok l.
Proof. induction l as [|s l IH]; [done|]. cbn. by rewrite IH. Qed.

Lemma playerStrings_rt v b : playerStrings v = Ok b → playerStrings (json_rt <$> v) = Ok b.
Proof.
  revert b. induction v as [|x v IH]; intros b Hb; [done|].
  destruct x; cbn in *; try done; apply result_bind_ok in Hb as (c & Hc & [= <-]);
    by rewrite (IH c Hc).
Qed.

Definition copy (st : GameState) : GameState :=
  mkState (CurrentPlayerID st) (DeepCopyData (Data st)).

Section Copy.
Context (st : GameState).

Lemma copy_lookup k :
  Data (copy st) !! k = Data st !! k ∨ Data (copy st) !! k = json_rt <$> Data st !! k.
Proof.
  unfold copy, DeepCopyData. cbn. case_match; [|by left]. right. by rewrite lookup_fmap.
Qed.

Lemma copy_getBoard b : getBoard st = Ok b → length b = 9 → getBoard (copy st) = Ok b.
Proof.
  unfold getBoard. intros Hb Hl. destruct (copy_lookup "board") as [->| ->]; [done|].
  destruct (Data st !! "board") as [[]|]; cbn in *; try done.
  - injection Hb as ->. rewrite decide_False by (rewrite length_fmap; lia). apply boardCells_Str.
  - rewrite length_fmap. case_decide; [done|]. by apply boardCells_rt.
Qed.

Lemma copy_getPlayers ps : getPlayers st = Ok ps → getPlayers (copy st) = Ok ps.
Proof.
  unfold getPlayers. intros Hp. destruct (copy_lookup "players") as [->| ->]; [done|].
  destruct (Data st !! "players") as [[]|]; cbn in *; try done.
  - injection Hp as ->. apply playerStrings_Str.
  - by apply playerStrings_rt.
Qed.

Lemma copy_getMarks m : getMarks st = Ok m → getMarks (copy st) = Ok m.
Proof.
  unfold getMarks. intros Hm. destruct (copy_lookup "marks") as [->| ->]; [done|].
  destruct (Data st !! "marks") as [[]|]; cbn in *; try done.
  - case_bool_decide as Hall; [|done]. injection Hm as <-.
    rewrite bool_decide_eq_true_2.
    + f_equal. apply map_eq. intros k. rewrite !lookup_omap, lookup_fmap.
      destruct (m0 !! k) as [v|] eqn:E; [|done]. specialize (Hall _ _ E). by destruct v.
    + intros k v Hk. rewrite lookup_fmap in Hk. apply fmap_Some in Hk as (w & Hw & ->).
      specialize (Hall _ _ Hw). by destruct w.
  - injection Hm as ->. rewrite bool_decide_eq_true_2.
    + f_equal. apply map_eq. intros k. rewrite lookup_omap, lookup_fmap. by destruct (m !! k).
    + intros k v Hk. rewrite lookup_fmap in Hk. by apply fmap_Some in Hk as (w & _ & ->).
Qed.

Lemma copy_forfeit :
  match Data (copy st) !! "forfeit" with Some (Str f) => Some f | _ => None end =
  match Data st !! "forfeit" with Some (Str f) => Some f | _ => None end.
Proof.
  destruct (copy_lookup "forfeit") as [->| ->]; [done|]. by destruct (Data st !! "forfeit") as [[]|].
Qed.

Lemma copy_represents pos : represents st pos → represents (copy st) pos.
Proof.
  intros [H1 (m & Hm & Hx & Ho) H3 H4 H5 H6]. split; try done.
  - by apply copy_getBoard, sane_length.
  - exists m. split; [by apply copy_getMarks|done].
  - by apply copy_getPlayers.
  - by rewrite copy_forfeit.
Qed.
End Copy.

(** ** The rules keep a position sane *)

Lemma act_sane pos a pos' : sane pos → act pos a = Some pos' → sane pos'.
Proof.
  intros [H1 H2 H3 H4 H5]. unfold act, other. destruct a as [i| |].
  - case_decide; [|done]. intros [= <-]. split; cbn; try done.
    + by rewrite length_insert.
    + intros c Hc. apply list_elem_of_lookup in Hc as [j Hj].
      rewrite list_lookup_insert in Hj. case_decide as E.
      * injection Hj as <-. unfold mark_of. case_decide; tauto.
      * apply H2. by eapply list_elem_of_lookup_2.
    + case_decide; tauto.
  - intros [= <-]. split; cbn; try done. case_decide; tauto.
  - intros [= <-]. split; cbn; try done. by intros f [= <-].
Qed.

Lemma mark_of_nonempty pos p : mark_of pos p ≠ "".
Proof. unfold mark_of. by case_decide. Qed.

(** ** Results *)

Lemma lineMark_spec b x y z a :
  lineMark b (x, y, z) = Some a ↔
  b !! x = Some a ∧ b !! y = Some a ∧ b !! z = Some a ∧ a ≠ "".
Proof.
  unfold lineMark. destruct (b !! x) as [c|] eqn:Ex; cbn; [|naive_solver].
  destruct (b !! y) as [d|] eqn:Ey; cbn; [|naive_solver].
  destruct (b !! z) as [e|] eqn:Ez; cbn; [|naive_solver].
  case_decide; naive_solver.
Qed.

Lemma lineMark_place i m b l a :
  lineMark (<[i := m]> b) l = Some a → a = m ∨ lineMark b l = Some a.
Proof.
  destruct l as [[x y] z]. rewrite !lineMark_spec, !list_lookup_insert.
  repeat case_decide; naive_solver.
Qed.

Lemma lineMark_cell b l a : lineMark b l = Some a → a ∈ b ∧ a ≠ "".
Proof.
  destruct l as [[x y] z]. rewrite lineMark_spec. intros (Hx & _ & _ & Ha).
  split; [by eapply list_elem_of_lookup_2|done].
Qed.

#[local] Arguments markOwner : simpl never.
#[local] Arguments lineMark : simpl never.

(** The loop over the win lines finds the owner of the first line. *)
Lemma lineWinner_some b marks pos :
  sane pos → marks !! x_player pos = Some "X" → marks !! o_player pos = Some "O" →
  cells pos = b →
  match lineWinner b marks [x_player pos; o_player pos] with
  | Some p => (p = x_player pos ∨ p = o_player pos) ∧ has_line pos p
  | None => ∀ p, ¬ has_line pos p
  end.
Proof.
  intros [H1 H2 H3 _ _] Hx Ho <-. unfold lineWinner, has_line.
  assert (∀ a, a = "X" ∨ a = "O" →
    markOwner marks [x_player pos; o_player pos] a =
    Some (if decide (a = "X") then x_player pos else o_player pos)) as Hown.
  { intros a Ha. unfold markOwner. cbn. rewrite Hx, Ho. cbn.
    destruct Ha as [->| ->]; cbn; done. }
  induction winLines as [|l lines IH]; cbn.
  { intros p (l & Hl & _). by apply elem_of_nil in Hl. }
  destruct (lineMark (cells pos) l) as [a|] eqn:E; cbn.
  - pose proof (lineMark_cell _ _ _ E) as [Hin Hne].
    assert (a = "X" ∨ a = "O") as Ha by (destruct (H2 a Hin) as [|[]]; tauto).
    rewrite (Hown a Ha). cbn. split; [case_decide; tauto|].
    exists l. split; [set_solver|]. rewrite E. unfold mark_of.
    destruct Ha as [->| ->].
    + by rewrite (decide_True (P := "X" = "X")), decide_True.
    + rewrite (decide_False (P := "O" = "X")) by done. by rewrite decide_False by congruence.
  - destruct (head (omap _ lines)) as [p|]; cbn in *.
    + destruct IH as [Hp (l' & Hl' & Hm)]. split; [done|]. exists l'. split; [set_solver|done].
    + intros p (l' & [->|Hl']%elem_of_cons & Hm); [congruence|]. apply (IH p). eauto.
Qed.

(** How a game ends, read off the position. *)
Definition outcome (pos : position) (r : bool * Result) : Prop :=
  match forfeited pos with
  | Some f => r = wins (other pos f)
  | None =>
      (∃ p, (p = x_player pos ∨ p = o_player pos) ∧ has_line pos p ∧ r = wins p) ∨
      (∀ p, ¬ has_line pos p) ∧
      r = if decide (full pos) then (true, mkResult ResultDraw None "") else (false, zeroResult)
  end.

Lemma IsOver_outcome st pos : represents st pos → outcome pos (IsOver st).
Proof.
  intros [Hb (marks & Hm & Hx & Ho) Hp _ Hf Hs]. unfold outcome, IsOver, forfeitWinner.
  rewrite Hf, Hp, Hb, Hm.
  assert (Hfree : match lineWinner (cells pos) marks [x_player pos; o_player pos] with
          | Some p => wins p
          | None => if decide ("" ∈ cells pos) then (false, zeroResult)
                    else (true, mkResult ResultDraw None "") end =
          match lineWinner (cells pos) marks [x_player pos; o_player pos] with
          | Some p => wins p
          | None => if decide (full pos) then (true, mkResult ResultDraw None "")
                    else (false, zeroResult) end).
  { destruct (lineWinner _ _ _); [done|]. unfold full. repeat case_decide; tauto. }
  pose proof (lineWinner_some (cells pos) marks pos Hs Hx Ho eq_refl) as Hlw.
  destruct (Data st !! "forfeit") as [[]|]; cbn;
    try (rewrite Hfree; destruct (lineWinner _ _ _); [left; naive_solver|right; done]).
  assert (s = x_player pos ∨ s = o_player pos) as Hs' by (by apply Hs).
  pose proof (sane_players _ Hs). unfold other.
  destruct (decide (x_player pos = s)) as [E|E].
  - rewrite (decide_False (P := x_player pos ≠ s)) by tauto. cbn.
    rewrite (decide_True (P := o_player pos ≠ s)) by congruence. done.
  - rewrite (decide_True (P := x_player pos ≠ s)) by done. done.
Qed.

(** ** The refinement *)

(** The payload of an ordinary client or of the timeout handler. *)
Definition proper (m : Move) : Prop :=
  match Payload m !! "timeout_action" with
  | None | Some (Str _) => True
  | Some _ => False
  end.

Lemma otherPlayer_eq pos p :
  otherPlayer [x_player pos; o_player pos] p = Ok (other pos p).
Proof. unfold otherPlayer, other. cbn. by case_decide. Qed.

Lemma getCell_range m c : getCell m = Ok c → (0 ≤ c ≤ 8)%Z.
Proof.
  unfold getCell. destruct (Payload m !! "cell") as [[]|]; try done;
    cbv zeta; destruct (_ || _) eqn:E; try done; intros [= <-]; lia.
Qed.

Lemma placed_represents st pos m c :
  represents st pos → Move_PlayerID m = to_move pos → getCell m = Ok c →
  ∃ st', placeMark st m = Ok st' ∧
    represents st' (mkPosition (<[Z.to_nat c := mark_of pos (to_move pos)]> (cells pos))
          (x_player pos) (o_player pos) (other pos (to_move pos)) None).
Proof.
  intros [Hb (marks & Hm & Hx & Ho) Hp Ht Hf Hs] Hpl Hc.
  pose proof (getCell_range _ _ Hc) as Hr.
  unfold placeMark. rewrite Hc, Hb, Hm, Hp. cbn [mbind result_bind].
  unfold index at 1. destruct (lookup_lt_is_Some_2 (cells pos) (Z.to_nat c)) as [v Hv].
  { rewrite (sane_length _ Hs). lia. }
  rewrite Hv. cbn [mbind result_bind]. rewrite otherPlayer_eq. cbn [mbind result_bind].
  assert (default "" (marks !! Move_PlayerID m) = mark_of pos (to_move pos)) as ->.
  { rewrite Hpl. unfold mark_of. destruct (sane_turn _ Hs) as [->| ->].
    - by rewrite Hx, decide_True.
    - rewrite Ho, decide_False; [done|]. intros E. by apply (sane_players _ Hs). }
  rewrite Hpl. eexists. split; [done|]. split; try done.
  - exists marks. done.
  - cbn. destruct Hs as [H1 H2 H3 H4 H5]. split; cbn; try done.
    + by rewrite length_insert.
    + intros x Hin. apply list_elem_of_lookup in Hin as [j Hj].
      rewrite list_lookup_insert in Hj. case_decide as E.
      * injection Hj as <-. unfold mark_of. case_decide; tauto.
      * apply H2. by eapply list_elem_of_lookup_2.
    + unfold other. case_decide; tauto.
Qed.

Lemma ApplyMove_refines st pos m :
  represents st pos → ValidateMove st m = Ok tt → proper m →
  ∃ a pos' st', decode m = Some a ∧ act pos a = Some pos' ∧
    ApplyMove st m = Ok st' ∧ represents st' pos'.
Proof.
  intros Hr Hv Hp. pose proof (copy_represents st pos Hr) as Hrc.
  unfold ValidateMove in Hv. case_decide as Hturn; [done|].
  assert (Move_PlayerID m = to_move pos) as Hpl.
  { pose proof (rep_turn _ _ Hr). congruence. }
  unfold proper in Hp. unfold decode, ApplyMove. fold (copy st).
  destruct (Payload m !! "timeout_action") as [[]|] eqn:Eta; try done.
  - (* a timeout *)
    unfold applyTimeout. rewrite (rep_players _ _ Hrc). cbn [mbind result_bind].
    rewrite otherPlayer_eq. cbn [mbind result_bind]. rewrite Hpl. case_decide as Es.
    + eexists _, _, _. split_and!; [done|done|done|].
      pose proof (act_sane pos LoseGame _ (rep_sane _ _ Hr) eq_refl) as Hs'.
      destruct Hrc as [Hb (mk & Hm & Hx & Ho) Hps Ht Hf Hs].
      split; try done; cbn.
      * unfold getBoard in *. cbn. by rewrite lookup_insert_ne.
      * exists mk. split; [|done]. unfold getMarks in *. cbn. by rewrite lookup_insert_ne.
      * unfold getPlayers in *. cbn. by rewrite lookup_insert_ne.
      * by rewrite lookup_insert_eq.
    + eexists _, _, _. split_and!; [done|done|done|].
      pose proof (act_sane pos LoseTurn _ (rep_sane _ _ Hr) eq_refl) as Hs'.
      destruct Hrc as [Hb (mk & Hm & Hx & Ho) Hps Ht Hf Hs].
      split; try done. exists mk. done.
  - (* a cell *)
    apply result_bind_ok in Hv as (c & Hc & Hv). rewrite Hc.
    apply result_bind_ok in Hv as (b & Hb & Hv). rewrite (rep_board _ _ Hr) in Hb.
    injection Hb as <-. apply result_bind_ok in Hv as (v & Hi & Hv).
    unfold index in Hi. destruct (cells pos !! Z.to_nat c) as [w|] eqn:Ew; [|done].
    injection Hi as ->. case_decide as Hemp; [done|].
    assert (v = "") as -> by congruence.
    destruct (placed_represents (copy st) pos m c Hrc Hpl Hc) as (st' & Ha & Hr').
    eexists _, _, st'. split_and!; [done| |done|exact Hr']. cbn. by rewrite Ew, decide_True.
Qed.

(** ** Games *)

(** The first position: an empty board, the first seat to move. *)
Definition start (x o : string) : position := mkPosition emptyBoard x o x None.

Lemma start_sane x o : x ≠ o → sane (start x o).
Proof.
  intros Hne. split; cbn; try done; [|by left].
  intros c. rewrite !elem_of_cons, elem_of_nil. tauto.
Qed.

Lemma start_represented seed p0 p1 :
  Player_ID p0 ≠ Player_ID p1 →
  ∃ st, Init seed [p0; p1] = Ok st ∧ represents st (start (Player_ID p0) (Player_ID p1)).
Proof.
  intros Hne. eexists. split; [reflexivity|]. split; try done; [|by apply start_sane].
  eexists. split; [reflexivity|]. cbn. rewrite lookup_insert_ne by done. by rewrite !lookup_insert_eq.
Qed.

(** A play: the actions of validated, proper moves made before the game is over. *)
Inductive plays : GameState → list action → GameState → Prop :=
  | plays_done st : plays st [] st
  | plays_move st m a st1 acts st2 :
      (IsOver st).1 = false → ValidateMove st m = Ok tt → proper m → decode m = Some a →
      ApplyMove st m = Ok st1 → plays st1 acts st2 → plays st (a :: acts) st2.

Definition is_place (a : action) : bool := match a with Place _ => true | _ => false end.

Definition placements (acts : list action) : nat := length (filter (λ a, is_place a = true) acts).

Definition empties (pos : position) : nat := occ "" (cells pos).

Lemma has_line_act pos a pos' p :
  (∀ q, ¬ has_line pos q) → act pos a = Some pos' → has_line pos' p →
  mark_of pos p = mark_of pos (to_move pos).
Proof.
  intros Hno Ha (l & Hl & Hm). destruct a as [i| |]; cbn in Ha.
  - case_decide; [|done]. injection Ha as <-. cbn in Hm.
    apply lineMark_place in Hm as [Hm|Hm]; [exact Hm|]. exfalso. apply (Hno p). by exists l.
  - injection Ha as <-. exfalso. apply (Hno p). by exists l.
  - injection Ha as <-. exfalso. apply (Hno p). by exists l.
Qed.

Lemma act_players pos a pos' :
  act pos a = Some pos' → x_player pos' = x_player pos ∧ o_player pos' = o_player pos.
Proof.
  destruct a; cbn; [case_decide; [|done]| |]; intros [= <-]; done.
Qed.

Lemma occ_insert l i m : l !! i = Some "" → m ≠ "" → occ "" l = S (occ "" (<[i := m]> l)).
Proof.
  revert i. induction l as [|c l IH]; intros [|i] Hi Hm; cbn in Hi; try done.
  - injection Hi as ->. change (<[0 := m]> ("" :: l)) with (m :: l).
    rewrite !occ_cons, decide_True, decide_False by done. lia.
  - change (<[S i := m]> (c :: l)) with (c :: <[i := m]> l).
    rewrite !occ_cons. rewrite (IH i) by done. lia.
Qed.

Lemma act_empties pos a pos' :
  act pos a = Some pos' → empties pos = (if is_place a then 1 else 0) + empties pos'.
Proof.
  unfold empties. destruct a as [i| |]; cbn.
  - case_decide as Hi; [|done]. intros [= <-]. cbn. apply occ_insert; [done|apply mark_of_nonempty].
  - by intros [= <-].
  - by intros [= <-].
Qed.

Lemma not_over_no_line st pos :
  represents st pos → (IsOver st).1 = false → ∀ p, ¬ has_line pos p.
Proof.
  intros Hr Hn. pose proof (IsOver_outcome st pos Hr) as Ho. unfold outcome in Ho.
  destruct (forfeited pos); [by rewrite Ho in Hn|].
  destruct Ho as [(p & _ & _ & E)|[Hno _]]; [by rewrite E in Hn|done].
Qed.

Lemma plays_sound st acts st' :
  plays st acts st' → ∀ pos, represents st pos →
  ¬ (has_line pos (x_player pos) ∧ has_line pos (o_player pos)) →
  ∃ pos', represents st' pos' ∧ x_player pos' = x_player pos ∧ o_player pos' = o_player pos ∧
    placements acts + empties pos' = empties pos ∧
    ¬ (has_line pos' (x_player pos') ∧ has_line pos' (o_player pos')).
Proof.
  induction 1 as [st|st m a st1 acts st2 Hn Hv Hp Hd Ha _ IH]; intros pos Hr Hone.
  - exists pos. done.
  - destruct (ApplyMove_refines st pos m Hr Hv Hp) as (a' & pos1 & st1' & Hd' & Hact & Ha' & Hr1).
    assert (a' = a) as -> by congruence. assert (st1' = st1) as -> by congruence.
    destruct (act_players _ _ _ Hact) as [Ex Eo].
    destruct (IH pos1 Hr1) as (pos' & Hr' & E1 & E2 & E3 & E4).
    { intros [Hx Ho]. pose proof (not_over_no_line st pos Hr Hn) as Hno.
      pose proof (has_line_act _ _ _ _ Hno Hact Hx) as Mx.
      pose proof (has_line_act _ _ _ _ Hno Hact Ho) as Mo. rewrite <- Mo in Mx.
      unfold mark_of in Mx. rewrite Ex, Eo in Mx. rewrite decide_True in Mx by done.
      rewrite decide_False in Mx; [done|]. intros E. by apply (sane_players _ (rep_sane _ _ Hr)). }
    exists pos'. split_and!; [done|congruence|congruence| |done].
    rewrite (act_empties _ _ _ Hact). unfold placements in *. rewrite filter_cons.
    destruct (is_place a); [rewrite decide_True by done|rewrite decide_False by done];
      cbn [length]; lia.
Qed.

(** ** Properties *)

(** C10: the plugin implements tic-tac-toe. On a state that encodes a position,
    a validated move that is [proper] (a timeout action, if it has one, is a text: so of
    an ordinary client or of the timeout handler) stands for
    an action of the rules; the rules allow it, and [ApplyMove] produces a state
    that encodes the position they lead to. *)
Theorem tictactoe_refinement st pos m :
  represents st pos → ValidateMove st m = Ok tt → proper m →
  ∃ a pos' st', decode m = Some a ∧ act pos a = Some pos' ∧
    ApplyMove st m = Ok st' ∧ represents st' pos'.
Proof. apply ApplyMove_refines. Qed.

(** A game between two different players starts on an empty board, and
    whatever happens afterwards the board stays well-formed, never two players
    have three in a row, and every placed mark has used up one of the nine cells,
    so that at most nine marks are ever placed. *)
Theorem tictactoe_game seed p0 p1 :
  Player_ID p0 ≠ Player_ID p1 →
  ∃ st0, Init seed [p0; p1] = Ok st0 ∧
    ∀ acts st, plays st0 acts st →
    ∃ pos, represents st pos ∧ x_player pos = Player_ID p0 ∧ o_player pos = Player_ID p1 ∧
      placements acts + empties pos = 9 ∧
      ¬ (has_line pos (x_player pos) ∧ has_line pos (o_player pos)).
Proof.
  intros Hne. destruct (start_represented seed p0 p1 Hne) as (st0 & Hi & Hr).
  exists st0. split; [done|]. intros acts st Hp.
  apply (plays_sound _ _ _ Hp (start (Player_ID p0) (Player_ID p1)) Hr).
  intros [(l & Hl & Hm) _]. apply lineMark_cell in Hm as [Hin Hm].
  cbn in Hin. rewrite !elem_of_cons, elem_of_nil in Hin. naive_solver.
Qed.

(** The result is the one the position calls for: the opponent of a player
    who forfeited wins, otherwise the player with three in a row, otherwise the
    game is drawn exactly when the board is full. *)
Theorem tictactoe_result st pos :
  represents st pos →
  match forfeited pos with
  | Some f => IsOver st = wins (other pos f)
  | None =>
      (∃ p, (p = x_player pos ∨ p = o_player pos) ∧ has_line pos p ∧ IsOver st = wins p) ∨
      (∀ p, ¬ has_line pos p) ∧
      IsOver st = if decide (full pos) then (true, mkResult ResultDraw None "")
                  else (false, zeroResult)
  end.
Proof. apply IsOver_outcome. Qed.

(** A move validates exactly when it is the player's turn and it either
    carries a timeout action or names an empty cell; and neither the validation
    nor the execution of any move whatsoever panics. *)
Theorem tictactoe_validation st pos m :
  represents st pos →
  (ValidateMove st m = Ok tt ↔
    Move_PlayerID m = to_move pos ∧
    (is_Some (Payload m !! "timeout_action") ∨
     ∃ c, getCell m = Ok c ∧ cells pos !! Z.to_nat c = Some "")) ∧
  (∀ e, ValidateMove st m = Err e → is_panic e = false) ∧
  (∀ e, ApplyMove st m = Err e → is_panic e = false).
Proof.
  intros Hr. pose proof (copy_represents st pos Hr) as Hrc.
  assert (∀ e, getCell m = Err e → is_panic e = false) as Hcell.
  { unfold getCell. intros e. destruct (Payload m !! "cell") as [[]|]; try (by intros [= <-]);
      cbv zeta; case_match; try done; by intros [= <-]. }
  assert (∀ c, getCell m = Ok c → ∃ v, cells pos !! Z.to_nat c = Some v) as Hin.
  { intros c Hc. apply lookup_lt_is_Some_2. rewrite (sane_length _ (rep_sane _ _ Hr)).
    pose proof (getCell_range m c Hc). lia. }
  split_and!.
  - unfold ValidateMove. rewrite (rep_turn _ _ Hr). case_decide as Ht; [naive_solver|].
    destruct (Payload m !! "timeout_action") eqn:E; [naive_solver|].
    rewrite (rep_board _ _ Hr). destruct (getCell m) as [c|e] eqn:Ec; cbn; [|naive_solver].
    destruct (Hin c eq_refl) as [v Hv]. unfold index. rewrite Hv. cbn.
    case_decide; naive_solver.
  - intros e. unfold ValidateMove. case_decide; [by intros [= <-]|].
    destruct (Payload m !! "timeout_action"); [done|].
    rewrite (rep_board _ _ Hr). destruct (getCell m) as [c|e'] eqn:Ec; cbn;
      [|intros [= <-]; by apply Hcell].
    destruct (Hin c eq_refl) as [v Hv]. unfold index. rewrite Hv. cbn.
    case_decide; [by intros [= <-]|done].
  - intros e. unfold ApplyMove. fold (copy st).
    assert (placeMark (copy st) m = Err e → is_panic e = false) as Hplace.
    { unfold placeMark. destruct (getCell m) as [c|e'] eqn:Ec; cbn; [|intros [= <-]; by apply Hcell].
      destruct (Hin c eq_refl) as [v Hv]. rewrite (rep_board _ _ Hrc). cbn.
      destruct (rep_marks _ _ Hrc) as (mk & -> & _). rewrite (rep_players _ _ Hrc). cbn [mbind result_bind].
      unfold index at 1. rewrite Hv. cbn [mbind result_bind]. by rewrite otherPlayer_eq. }
    destruct (Payload m !! "timeout_action") as [[]|]; try done.
    unfold applyTimeout. rewrite (rep_players _ _ Hrc). cbn [mbind result_bind].
    rewrite otherPlayer_eq. cbn. by case_decide.
Qed.

(** ** The hole in the validation *)

(** A payload whose [timeout_action] is not a string validates like a timeout and
    is then executed like an ordinary move, without the check that the cell is
    free: a player can overwrite the opponent's mark. *)
Definition overwriting_move : Move :=
  mkMove "o" (<["timeout_action" := Float (float64_of_int 1)]> {["cell" := Float (float64_of_int 4)]}) 0.

Definition x_in_the_middle : position :=
  mkPosition (<[4 := "X"]> emptyBoard) "x" "o" "o" None.

Definition x_in_the_middle_state : GameState :=
  mkState "o" (<["board" := Arr9 (<[4 := "X"]> emptyBoard)]>
    (<["marks" := MapStr (<["o" := "O"]> {["x" := "X"]})]> {["players" := Strs ["x"; "o"]]})).

Lemma x_in_the_middle_represented : represents x_in_the_middle_state x_in_the_middle.
Proof.
  split; try reflexivity.
  - eexists. split; [reflexivity|]. split; reflexivity.
  - split; cbn; try done; [|by right].
    intros c. rewrite !elem_of_cons, elem_of_nil. tauto.
Qed.

Theorem tictactoe_overwrite :
  represents x_in_the_middle_state x_in_the_middle ∧
  ValidateMove x_in_the_middle_state overwriting_move = Ok tt ∧
  ∃ st', ApplyMove x_in_the_middle_state overwriting_move = Ok st' ∧
    getBoard st' = Ok (<[4 := "O"]> emptyBoard).
Proof.
  split; [apply x_in_the_middle_represented|]. split; [vm_compute; reflexivity|].
  eexists. split; vm_compute; reflexivity.
Qed.

(** ** Instances *)

Definition o_takes_corner : Move := mkMove "o" {["cell" := Int 0]} 0.

Lemma tictactoe_refinement_witness :
  ∃ a pos' st', decode o_takes_corner = Some a ∧ act x_in_the_middle a = Some pos' ∧
    ApplyMove x_in_the_middle_state o_takes_corner = Ok st' ∧ represents st' pos'.
Proof.
  refine (tictactoe_refinement x_in_the_middle_state x_in_the_middle o_takes_corner
    x_in_the_middle_represented _ _).
  - vm_compute. reflexivity.
  - vm_compute. exact I.
Defined.

Lemma tictactoe_game_witness :
  ∃ st0, Init None [mkPlayer "x" "Xenia"; mkPlayer "o" "Otto"] = Ok st0 ∧
    ∀ acts st, plays st0 acts st →
    ∃ pos, represents st pos ∧ x_player pos = "x" ∧ o_player pos = "o" ∧
      placements acts + empties pos = 9 ∧
      ¬ (has_line pos (x_player pos) ∧ has_line pos (o_player pos)).
Proof.
  refine (tictactoe_game None (mkPlayer "x" "Xenia") (mkPlayer "o" "Otto") _).
  discriminate.
Defined.

Lemma tictactoe_result_witness :
  (∃ p, (p = "x" ∨ p = "o") ∧ has_line x_in_the_middle p ∧ IsOver x_in_the_middle_state = wins p) ∨
  (∀ p, ¬ has_line x_in_the_middle p) ∧
  IsOver x_in_the_middle_state =
    if decide (full x_in_the_middle) then (true, mkResult ResultDraw None "") else (false, zeroResult).
Proof.
  exact (tictactoe_result x_in_the_middle_state x_in_the_middle x_in_the_middle_represented).
Defined.

Lemma tictactoe_validation_witness :
  (ValidateMove x_in_the_middle_state o_takes_corner = Ok tt ↔
    Move_PlayerID o_takes_corner = "o" ∧
    (is_Some (Payload o_takes_corner !! "timeout_action") ∨
     ∃ c, getCell o_takes_corner = Ok c ∧ cells x_in_the_middle !! Z.to_nat c = Some "")) ∧
  (∀ e, ValidateMove x_in_the_middle_state o_takes_corner = Err e → is_panic e = false) ∧
  (∀ e, ApplyMove x_in_the_middle_state o_takes_corner = Err e → is_panic e = false).
Proof.
  exact (tictactoe_validation x_in_the_middle_state x_in_the_middle o_takes_corner
    x_in_the_middle_represented).
Defined.
