(* ===== verification/Backend.v ===== *)
(** What the services of the game server run on: UUIDs, Go errors, the database
    tables, and the monad in which the services execute: statements that may
    fail, transactions with rollback, the random source, delayed tasks and
    published messages. *)
From S2P Require Import Prelude Json Engine Randutil.

(** ** UUIDs (github.com/google/uuid) *)

Class UUID := {
  uuid : Type;
  uuid_eq_dec :: EqDecision uuid;
  uuid_countable :: Countable uuid;
  uuid_String : uuid → string;
  uuid_Parse : string → option uuid;
  uuid_Parse_String : ∀ u, uuid_Parse (uuid_String u) = Some u
}.

Lemma uuid_String_inj `{UUID} u v : uuid_String u = uuid_String v → u = v.
Proof. intros E. apply (f_equal uuid_Parse) in E. rewrite !uuid_Parse_String in E. congruence. Qed.

(** ** Errors *)

(** A sentinel made by [errors.New], an error wrapped with [%w] or with its text,
    an error of the database driver, or a run-time panic. *)
Inductive error : Type :=
  | Sentinel (text : string)
  | Wrap (context : string) (e : error)
  | Plain (text : string)
  | Driver (what : string)
  | Game_error (e : gerror)
  | Panic (what : string).

#[export] Instance gerror_eq_dec : EqDecision gerror.
Proof. solve_decision. Defined.

#[export] Instance error_eq_dec : EqDecision error.
Proof. unfold EqDecision, Decision. decide equality; apply decide_rel; apply _. Defined.

(** [errors.Is(e, target)] *)
Fixpoint errors_Is (e target : error) : bool :=
  bool_decide (e = target) || match e with Wrap _ e' => errors_Is e' target | _ => false end.

(** ** Tables (shared/db/migrations, internal/platform/store/store.go) *)

Definition RoomStatusWaiting : string := "waiting".
Definition RoomStatusInProgress : string := "in_progress".
Definition RoomStatusFinished : string := "finished".
Definition SessionModeCasual : string := "casual".
Definition SessionModeRanked : string := "ranked".
Definition PenaltyLoseTurn : string := "lose_turn".
Definition PenaltyLoseGame : string := "lose_game".
Definition EndedByNormal : string := "win".
Definition EndedByDraw : string := "draw".
Definition EndedByForfeit : string := "forfeit".
Definition EndedByTimeout : string := "timeout".
Definition EndedByReadyTimeout : string := "ready_timeout".
Definition OutcomeWin : string := "win".
Definition OutcomeLoss : string := "loss".
Definition OutcomeDraw : string := "draw".

(** The bytes of a JSON column, by the state they decode to; [None] when they do
    not decode to a game state. *)
Definition stateJSON : Type := option GameState.

(** [json.Marshal(state)] *)
Definition Marshal_state (st : GameState) : option stateJSON :=
  if json_ok (Map (Data st)) then Some (Some (reload st)) else None.

(** [json.Unmarshal(raw, &state)] *)
Definition Unmarshal_state (raw : stateJSON) : option GameState := raw.

(** The bytes of a payload: what they decode to; [None] when marshalling fails. *)
Definition Marshal_payload (p : data) : option data :=
  if json_ok (Map p) then Some (json_rt <$> p) else None.

Section Tables.
Context `{UUID}.

Record StorePlayer := mkStorePlayer {
  P_ID : uuid; P_Username : string; P_Role : string; P_AvatarURL : option string;
  P_IsBot : bool; P_BotProfile : option string; P_CreatedAt : Z; P_DeletedAt : option Z
}.

Record Room := mkRoom {
  R_ID : uuid; R_Code : string; R_GameID : string; R_OwnerID : uuid; R_Status : string;
  R_MaxPlayers : Z; R_TurnTimeoutSecs : option Z; R_CreatedAt : Z; R_UpdatedAt : Z;
  R_DeletedAt : option Z
}.

Record RoomPlayer := mkRoomPlayer {
  RP_RoomID : uuid; RP_PlayerID : uuid; RP_Seat : Z; RP_JoinedAt : Z
}.

Record GameSession := mkSession {
  GS_ID : uuid; GS_RoomID : uuid; GS_GameID : string; GS_Name : option string;
  GS_ReadyPlayers : list string; GS_State : stateJSON; GS_Mode : string;
  GS_MoveCount : Z; GS_SuspendCount : Z; GS_SuspendedAt : option Z;
  GS_SuspendedReason : option string; GS_TurnTimeoutSecs : option Z;
  GS_LastMoveAt : Z; GS_StartedAt : Z; GS_FinishedAt : option Z; GS_DeletedAt : option Z
}.

Record StoreMove := mkStoreMove {
  M_ID : uuid; M_SessionID : uuid; M_PlayerID : uuid; M_Payload : data;
  M_StateAfter : stateJSON; M_MoveNumber : Z; M_AppliedAt : Z
}.

Record GameConfig := mkGameConfig {
  C_GameID : string; C_DefaultTimeoutSecs : Z; C_MinTimeoutSecs : Z; C_MaxTimeoutSecs : Z;
  C_TimeoutPenalty : string
}.

Record GameResult := mkGameResult {
  G_ID : uuid; G_SessionID : uuid; G_GameID : string; G_WinnerID : option uuid;
  G_IsDraw : bool; G_EndedBy : string; G_DurationSecs : option Z; G_CreatedAt : Z
}.

Record GameResultPlayer := mkResultPlayer {
  GP_PlayerID : uuid; GP_Seat : Z; GP_Outcome : string
}.

Inductive vote_type := VotePause_ | VoteResume_.
#[export] Instance vote_type_eq_dec : EqDecision vote_type.
Proof. solve_decision. Defined.
#[export] Instance vote_type_countable : Countable vote_type.
Proof.
  refine (inj_countable' (λ v, match v with VotePause_ => true | VoteResume_ => false end)
    (λ b, if b then VotePause_ else VoteResume_) _). by intros [].
Defined.

(** The database. Rows are keyed by their primary keys. *)
Record DB := mkDB {
  players : gmap uuid StorePlayer;
  rooms : gmap uuid Room;
  room_players : gmap (uuid * uuid) (Z * Z);           (* (room, player) ↦ (seat, joined_at) *)
  room_settings : gmap (uuid * string) string;
  game_sessions : gmap uuid GameSession;
  moves : gmap (uuid * Z) StoreMove;                   (* UNIQUE (session_id, move_number) *)
  game_results : gmap uuid GameResult;
  game_result_players : gmap (uuid * uuid) (Z * string);
  rematch_votes : gmap (uuid * uuid) Z;
  session_pause_votes : gmap (uuid * uuid * vote_type) Z;
  game_configs : gmap string GameConfig
}.

(** What the outside observes besides the database: messages published on the
    [game.session.finished] stream and events pushed to websocket channels. *)
Record Finished := mkFinished {
  F_SessionID : uuid; F_RoomID : uuid; F_GameID : string; F_Mode : string; F_EndedBy : string;
  F_WinnerID : string; F_IsDraw : bool; F_DurationSecs : Z; F_MoveCount : Z;
  F_Players : list (string * Z * string)               (* player, seat, outcome *)
}.

End Tables.
Arguments mkDB {_}.

(** ** The database server and the world *)

(** The environment of a run: which statement fails, what the id columns default
    to, and the time at each statement. *)
Class Server `{UUID} := {
  fault : nat → bool;
  gen_uuid : nat → uuid;
  clock : nat → Z
}.

Section Monad.
Context `{U : UUID} `{E : Entropy} `{S : !Server}.

Record World := mkWorld {
  db : DB;
  stmts : nat;                       (* statements issued so far *)
  tx_time : option Z;                (* start of the open transaction, if any *)
  aborted : bool;                    (* a statement of the open transaction has failed *)
  random : entropy;
  tasks : gmap string Z;             (* delayed tasks: id ↦ due time *)
  published : list Finished
}.

Definition set_db (d : DB) (w : World) : World :=
  mkWorld d (stmts w) (tx_time w) (aborted w) (random w) (tasks w) (published w).
Definition tick (w : World) : World :=
  mkWorld (db w) (Datatypes.S (stmts w)) (tx_time w) (aborted w) (random w) (tasks w) (published w).
Definition fail_stmt (w : World) : World :=
  mkWorld (db w) (stmts w) (tx_time w) (bool_decide (is_Some (tx_time w))) (random w) (tasks w) (published w).
Definition set_tx (t : option Z) (w : World) : World :=
  mkWorld (db w) (stmts w) t false (random w) (tasks w) (published w).
Definition set_random (e : entropy) (w : World) : World :=
  mkWorld (db w) (stmts w) (tx_time w) (aborted w) e (tasks w) (published w).
Definition set_tasks (t : gmap string Z) (w : World) : World :=
  mkWorld (db w) (stmts w) (tx_time w) (aborted w) (random w) t (published w).
Definition set_published (p : list Finished) (w : World) : World :=
  mkWorld (db w) (stmts w) (tx_time w) (aborted w) (random w) (tasks w) p.

(** A Go call: it returns a value or an error and leaves a world behind. *)
Definition M (A : Type) : Type := World → result error A * World.

#[export] Instance M_ret : MRet M := λ A a w, (Ok a, w).
#[export] Instance M_bind : MBind M := λ A B f m w,
  match m w with
  | (Ok a, w') => f a w'
  | (Err e, w') => (Err e, w')
  end.

Definition throw {A} (e : error) : M A := λ w, (Err e, w).

(** [x, err := m] without the early return. *)
Definition try {A} (m : M A) : M (result error A) := λ w,
  let '(r, w') := m w in (Ok r, w').

(** [if err != nil { return fmt.Errorf("ctx: %w", err) }] *)
Definition wrap {A} (context : string) (m : M A) : M A := λ w,
  match m w with
  | (Ok a, w') => (Ok a, w')
  | (Err e, w') => (Err (Wrap context e), w')
  end.

(** [if err != nil { return sentinel }] *)
Definition orElse {A} (m : M A) (e : error) : M A := λ w,
  match m w with
  | (Ok a, w') => (Ok a, w')
  | (Err _, w') => (Err e, w')
  end.

Definition lift {A} (o : option A) (e : error) : M A :=
  match o with Some a => mret a | None => throw e end.

(** One SQL statement, given [NOW()], which is the start of the transaction inside
    one, and a fresh value for an id column. It fails when the server fails or the statement violates a
    constraint, and then the open transaction, if any, only accepts a rollback. *)
Definition exec {A} (f : Z → uuid → DB → option (A * DB)) : M A := λ w,
  let n := stmts w in
  let w := tick w in
  if aborted w then (Err (Driver "current transaction is aborted"), fail_stmt w)
  else if fault n then (Err (Driver "connection"), fail_stmt w)
  else match f (default (clock n) (tx_time w)) (gen_uuid n) (db w) with
       | Some (a, d) => (Ok a, set_db d w)
       | None => (Err (Driver "constraint"), fail_stmt w)
       end.

(** A statement that only reads. *)
Definition query {A} (f : Z → DB → A) : M A := exec (λ t _ d, Some (f t d, d)).

(** An update that cannot violate a constraint. *)
Definition update (f : Z → DB → DB) : M unit := exec (λ t _ d, Some (tt, f t d)).

(** [QueryRow(...).Scan(...)]: no row is an error of the driver, but not of the
    transaction. *)
Definition queryRow {A} (f : Z → DB → option A) : M A :=
  r ← query f; lift r (Driver "no rows in result set").

(** [WithTx]: begin, run, and commit or roll back. *)
Definition with_tx {A} (context : string) (fn : M A) : M A := λ w,
  let n := stmts w in
  let w := tick w in
  if fault n then (Err (Wrap context (Driver "begin")), w)
  else
    let '(r, w') := fn (set_tx (Some (clock n)) w) in
    match r with
    | Err e => (Err e, set_tx None (set_db (db w) w'))
    | Ok a =>
        let m := stmts w' in
        let w' := tick w' in
        if aborted w' || fault m
        then (Err (Driver "commit"), set_tx None (set_db (db w) w'))
        else (Ok a, set_tx None w')
    end.

(** [randutil.Intn(n)] *)
Definition rand_Intn (n : Z) : M Z := λ w,
  match crypto_Intn n (random w) with
  | (Ok v, e) => (Ok v, set_random e w)
  | (Err _, e) => (Err (Plain "randutil"), set_random e w)
  end.

Definition now : M Z := λ w, (Ok (clock (stmts w)), w).

(** Effects on the outside that the code does not wait for. *)
Definition schedule (id : string) (due : Z) : M unit := λ w, (Ok tt, set_tasks (<[id := due]> (tasks w)) w).
Definition unschedule (id : string) : M unit := λ w, (Ok tt, set_tasks (delete id (tasks w)) w).
Definition publish (m : Finished) : M unit := λ w, (Ok tt, set_published (published w ++ [m]) w).

(** [for _, x := range l { f(x) }], stopping at the first error. *)
Fixpoint mapM_ {A} (f : A → M unit) (l : list A) : M unit :=
  match l with [] => mret tt | x :: l => f x ;; mapM_ f l end.

Fixpoint mapM' {A B} (f : A → M B) (l : list A) : M (list B) :=
  match l with
  | [] => mret []
  | x :: l => y ← f x; ys ← mapM' f l; mret (y :: ys)
  end.

End Monad.
