(* ===== verification/Store.v ===== *)
(** The PostgreSQL store of the game server (internal/platform/store/pg*.go): one
    definition per method, its SQL written out over the tables with their
    primary keys, unique constraints, foreign keys and checks. Rows that SQL
    returns in no particular order come in the order of the key map. *)
From S2P Require Import Prelude Json Engine Randutil Backend.

Section Store.
Context `{U : UUID} `{E : Entropy} `{S : !Server}.

(** ** Players *)

Definition set_players (m : gmap uuid StorePlayer) (d : DB) : DB :=
  mkDB m (rooms d) (room_players d) (room_settings d) (game_sessions d) (moves d)
    (game_results d) (game_result_players d) (rematch_votes d) (session_pause_votes d)
    (game_configs d).
Definition set_rooms (m : gmap uuid Room) (d : DB) : DB :=
  mkDB (players d) m (room_players d) (room_settings d) (game_sessions d) (moves d)
    (game_results d) (game_result_players d) (rematch_votes d) (session_pause_votes d)
    (game_configs d).
Definition set_room_players (m : gmap (uuid * uuid) (Z * Z)) (d : DB) : DB :=
  mkDB (players d) (rooms d) m (room_settings d) (game_sessions d) (moves d)
    (game_results d) (game_result_players d) (rematch_votes d) (session_pause_votes d)
    (game_configs d).
Definition set_room_settings (m : gmap (uuid * string) string) (d : DB) : DB :=
  mkDB (players d) (rooms d) (room_players d) m (game_sessions d) (moves d)
    (game_results d) (game_result_players d) (rematch_votes d) (session_pause_votes d)
    (game_configs d).
Definition set_sessions (m : gmap uuid GameSession) (d : DB) : DB :=
  mkDB (players d) (rooms d) (room_players d) (room_settings d) m (moves d)
    (game_results d) (game_result_players d) (rematch_votes d) (session_pause_votes d)
    (game_configs d).
Definition set_moves (m : gmap (uuid * Z) StoreMove) (d : DB) : DB :=
  mkDB (players d) (rooms d) (room_players d) (room_settings d) (game_sessions d) m
    (game_results d) (game_result_players d) (rematch_votes d) (session_pause_votes d)
    (game_configs d).
Definition set_results (m : gmap uuid GameResult) (d : DB) : DB :=
  mkDB (players d) (rooms d) (room_players d) (room_settings d) (game_sessions d) (moves d)
    m (game_result_players d) (rematch_votes d) (session_pause_votes d) (game_configs d).
Definition set_result_players (m : gmap (uuid * uuid) (Z * string)) (d : DB) : DB :=
  mkDB (players d) (rooms d) (room_players d) (room_settings d) (game_sessions d) (moves d)
    (game_results d) m (rematch_votes d) (session_pause_votes d) (game_configs d).
Definition set_rematch_votes (m : gmap (uuid * uuid) Z) (d : DB) : DB :=
  mkDB (players d) (rooms d) (room_players d) (room_settings d) (game_sessions d) (moves d)
    (game_results d) (game_result_players d) m (session_pause_votes d) (game_configs d).
Definition set_pause_votes (m : gmap (uuid * uuid * vote_type) Z) (d : DB) : DB :=
  mkDB (players d) (rooms d) (room_players d) (room_settings d) (game_sessions d) (moves d)
    (game_results d) (game_result_players d) (rematch_votes d) m (game_configs d).

(** The rows of a table that satisfy a condition. *)
Definition rows {K V} `{Countable K} (P : K → V → bool) (m : gmap K V) : list (K * V) :=
  filter (λ kv, P kv.1 kv.2 = true) (map_to_list m).

Definition key_le {A} (key : A → Z) (x y : A) : Prop := (key x ≤ key y)%Z.
#[export] Instance key_le_dec {A} (key : A → Z) x y : Decision (key_le key x y).
Proof. unfold key_le. apply _. Defined.

(** [ORDER BY key], ascending. *)
Definition order_by {A} (key : A → Z) (l : list A) : list A :=
  merge_sort (key_le key) l.

Definition count {A} (l : list A) : Z := Z.of_nat (length l).

Definition is_none {A} (o : option A) : bool := match o with None => true | Some _ => false end.

Definition insert_player (username : string) (bot : bool) : M StorePlayer :=
  exec (λ t id d,
    if is_none (players d !! id)
       && match rows (λ _ p, bool_decide (P_Username p = username)) (players d) with
          | [] => true | _ => false end
       && (String.length username <=? 32)
    then let p := mkStorePlayer id username "player" None bot None t None in
         Some (p, set_players (<[id := p]> (players d)) d)
    else None).

Definition CreatePlayer (username : string) : M StorePlayer := insert_player username false.
Definition CreateBotPlayer (username : string) : M StorePlayer := insert_player username true.

Definition GetPlayer (id : uuid) : M StorePlayer :=
  queryRow (λ _ d, p ← players d !! id; guard (P_DeletedAt p = None);; Some p).

Definition GetPlayerByUsername (username : string) : M StorePlayer :=
  queryRow (λ _ d, snd <$> head (rows (λ _ p,
    bool_decide (P_Username p = username) && is_none (P_DeletedAt p)) (players d))).

(** The error is wrapped whether there is one or not. *)
Definition UpdatePlayerAvatar (id : uuid) (avatarURL : string) : M unit :=
  r ← try (update (λ _ d, set_players (alter (λ p,
    mkStorePlayer (P_ID p) (P_Username p) (P_Role p) (Some avatarURL) (P_IsBot p) (P_BotProfile p)
      (P_CreatedAt p) (P_DeletedAt p)) id (players d)) d));
  throw (match r with
         | Ok _ => Plain "UpdatePlayerAvatar: %!w(<nil>)"
         | Err e => Wrap "UpdatePlayerAvatar" e
         end).

Definition SoftDeletePlayer (id : uuid) : M unit :=
  wrap "SoftDeletePlayer" (update (λ t d, set_players (alter (λ p,
    mkStorePlayer (P_ID p) (P_Username p) (P_Role p) (P_AvatarURL p) (P_IsBot p) (P_BotProfile p)
      (P_CreatedAt p) (Some t)) id (players d)) d)).

(** ** Rooms *)

Definition room_set_status (s : string) (t : Z) (r : Room) : Room :=
  mkRoom (R_ID r) (R_Code r) (R_GameID r) (R_OwnerID r) s (R_MaxPlayers r) (R_TurnTimeoutSecs r)
    (R_CreatedAt r) t (R_DeletedAt r).

Definition UpdateRoomOwner (roomID newOwnerID : uuid) : M unit :=
  wrap "UpdateRoomOwner" (exec (λ t _ d,
    if is_none (players d !! newOwnerID) && negb (is_none (rooms d !! roomID)) then None
    else Some (tt, set_rooms (alter (λ r,
      mkRoom (R_ID r) (R_Code r) (R_GameID r) newOwnerID (R_Status r) (R_MaxPlayers r)
        (R_TurnTimeoutSecs r) (R_CreatedAt r) t (R_DeletedAt r)) roomID (rooms d)) d))).

Definition DeleteRoom (roomID : uuid) : M unit :=
  wrap "DeleteRoom: remove players" (update (λ _ d,
    set_room_players (filter (λ kv, kv.1.1 ≠ roomID) (room_players d)) d));;
  wrap "DeleteRoom: close room" (update (λ t d,
    set_rooms (alter (room_set_status RoomStatusFinished t) roomID (rooms d)) d)).

Record CreateRoomParams := mkCreateRoomParams {
  CR_Code : string; CR_GameID : string; CR_OwnerID : uuid; CR_MaxPlayers : Z;
  CR_TurnTimeoutSecs : option Z; CR_DefaultSettings : gmap string string
}.

Definition insert_setting (roomID : uuid) (kv : string * string) : M unit :=
  wrap "CreateRoom: insert setting" (exec (λ _ _ d,
    if is_none (room_settings d !! (roomID, kv.1)) && negb (is_none (rooms d !! roomID))
    then Some (tt, set_room_settings (<[(roomID, kv.1) := kv.2]> (room_settings d)) d)
    else None)).

Definition CreateRoom (params : CreateRoomParams) : M Room :=
  with_tx "CreateRoom: begin tx" (
    room ← wrap "CreateRoom: insert room" (exec (λ t id d,
      if is_none (rooms d !! id)
         && match rows (λ _ r, bool_decide (R_Code r = CR_Code params)) (rooms d) with
            | [] => true | _ => false end
         && negb (is_none (players d !! CR_OwnerID params))
      then let r := mkRoom id (CR_Code params) (CR_GameID params) (CR_OwnerID params)
                      RoomStatusWaiting (CR_MaxPlayers params) (CR_TurnTimeoutSecs params) t t None in
           Some (r, set_rooms (<[id := r]> (rooms d)) d)
      else None));
    mapM_ (insert_setting (R_ID room)) (map_to_list (CR_DefaultSettings params));;
    mret room).

Definition GetRoom (id : uuid) : M Room :=
  queryRow (λ _ d, r ← rooms d !! id; guard (R_DeletedAt r = None);; Some r).

Definition GetRoomByCode (code : string) : M Room :=
  queryRow (λ _ d, snd <$> head (rows (λ _ r,
    bool_decide (R_Code r = code) && is_none (R_DeletedAt r)) (rooms d))).

Definition UpdateRoomStatus (id : uuid) (status : string) : M unit :=
  wrap "UpdateRoomStatus" (exec (λ t _ d,
    if bool_decide (status ∈ [RoomStatusWaiting; RoomStatusInProgress; RoomStatusFinished])
       || is_none (rooms d !! id)
    then Some (tt, set_rooms (alter (room_set_status status t) id (rooms d)) d)
    else None)).

Definition waiting_rooms (d : DB) : list Room :=
  snd <$> rows (λ _ r, bool_decide (R_Status r = RoomStatusWaiting) && is_none (R_DeletedAt r)) (rooms d).

Definition ListWaitingRooms (limit offset : Z) : M (list Room) :=
  wrap "ListWaitingRooms" (exec (λ _ _ d,
    if ((limit <? 0) || (offset <? 0))%Z then None
    else Some (take (Z.to_nat limit) (drop (Z.to_nat offset)
           (order_by (λ r, (- R_CreatedAt r)%Z) (waiting_rooms d))), d))).

Definition CountWaitingRooms : M Z :=
  wrap "CountWaitingRooms" (query (λ _ d, count (waiting_rooms d))).

Definition SoftDeleteRoom (id : uuid) : M unit :=
  wrap "SoftDeleteRoom" (update (λ t d, set_rooms (alter (λ r,
    mkRoom (R_ID r) (R_Code r) (R_GameID r) (R_OwnerID r) (R_Status r) (R_MaxPlayers r)
      (R_TurnTimeoutSecs r) (R_CreatedAt r) t (Some t)) id (rooms d)) d)).

(** ** Room settings *)

Definition settings_of (d : DB) (roomID : uuid) : gmap string string :=
  list_to_map ((λ kv : uuid * string * string, (kv.1.2, kv.2)) <$>
    rows (λ k _, bool_decide (k.1 = roomID)) (room_settings d)).

Definition GetRoomSettings (roomID : uuid) : M (gmap string string) :=
  wrap "GetRoomSettings" (query (λ _ d, settings_of d roomID)).

Definition SetRoomSetting (roomID : uuid) (key value : string) : M unit :=
  wrap "SetRoomSetting" (exec (λ _ _ d,
    if is_none (rooms d !! roomID) then None
    else Some (tt, set_room_settings (<[(roomID, key) := value]> (room_settings d)) d))).

(** ** Room players *)

Definition AddPlayerToRoom (roomID playerID : uuid) (seat : Z) : M unit :=
  wrap "AddPlayerToRoom" (exec (λ t _ d,
    if is_none (room_players d !! (roomID, playerID))
       && negb (is_none (rooms d !! roomID)) && negb (is_none (players d !! playerID))
    then Some (tt, set_room_players (<[(roomID, playerID) := (seat, t)]> (room_players d)) d)
    else None)).

Definition RemovePlayerFromRoom (roomID playerID : uuid) : M unit :=
  wrap "RemovePlayerFromRoom" (update (λ _ d,
    set_room_players (delete (roomID, playerID) (room_players d)) d)).

Definition room_active (r : Room) : bool :=
  bool_decide (R_Status r ∈ [RoomStatusWaiting; RoomStatusInProgress]) && is_none (R_DeletedAt r).

(** Whether the player sits in a waiting or running room. *)
Definition player_busy (d : DB) (playerID : uuid) : bool :=
  existsb (λ kv : uuid * uuid * (Z * Z),
    bool_decide (kv.1.2 = playerID) &&
    match rooms d !! kv.1.1 with Some r => room_active r | None => false end)
    (map_to_list (room_players d)).

Definition IsPlayerInActiveRoom (playerID : uuid) : M bool :=
  wrap "IsPlayerInActiveRoom" (query (λ _ d, player_busy d playerID)).

Definition players_of (d : DB) (roomID : uuid) : list RoomPlayer :=
  order_by RP_Seat
    ((λ kv : uuid * uuid * (Z * Z), mkRoomPlayer kv.1.1 kv.1.2 kv.2.1 kv.2.2) <$>
     rows (λ k _, bool_decide (k.1 = roomID)) (room_players d)).

Definition ListRoomPlayers (roomID : uuid) : M (list RoomPlayer) :=
  wrap "ListRoomPlayers" (query (λ _ d, players_of d roomID)).

(** ** Game sessions *)

Definition SetSession (f : Z → GameSession → GameSession) (id : uuid) : M unit :=
  update (λ t d, set_sessions (alter (f t) id (game_sessions d)) d).

Definition CreateGameSession (roomID : uuid) (gameID : string) (initialState : stateJSON)
    (turnTimeoutSecs : option Z) (mode : string) : M GameSession :=
  exec (λ t id d,
    if is_none (game_sessions d !! id) && negb (is_none (rooms d !! roomID))
       && bool_decide (mode ∈ [SessionModeCasual; SessionModeRanked])
    then let s := mkSession id roomID gameID None [] initialState mode 0 0 None None
                    turnTimeoutSecs t t None None in
         Some (s, set_sessions (<[id := s]> (game_sessions d)) d)
    else None).

Definition GetGameSession (id : uuid) : M GameSession :=
  queryRow (λ _ d, s ← game_sessions d !! id; guard (GS_DeletedAt s = None);; Some s).

Definition GetGameResult (sessionID : uuid) : M GameResult :=
  queryRow (λ _ d, (λ kr : uuid * GameResult,
      let r := kr.2 in
      mkGameResult (G_ID r) (G_SessionID r) (G_GameID r) (G_WinnerID r) (G_IsDraw r) (G_EndedBy r)
        None (G_CreatedAt r)) <$>
    head (rows (λ _ r, bool_decide (G_SessionID r = sessionID)) (game_results d))).

(** A session that is neither finished nor deleted. *)
Definition session_open (s : GameSession) : bool :=
  is_none (GS_FinishedAt s) && is_none (GS_DeletedAt s).

Definition GetActiveSessionByRoom (roomID : uuid) : M GameSession :=
  queryRow (λ _ d, head (order_by (λ s, (- GS_StartedAt s)%Z) (snd <$>
    rows (λ _ s, bool_decide (GS_RoomID s = roomID) && session_open s) (game_sessions d)))).

Definition session_set_state (state : stateJSON) (s : GameSession) : GameSession :=
  mkSession (GS_ID s) (GS_RoomID s) (GS_GameID s) (GS_Name s) (GS_ReadyPlayers s) state (GS_Mode s)
    (GS_MoveCount s + 1) (GS_SuspendCount s) (GS_SuspendedAt s) (GS_SuspendedReason s)
    (GS_TurnTimeoutSecs s) (GS_LastMoveAt s) (GS_StartedAt s) (GS_FinishedAt s) (GS_DeletedAt s).

Definition session_suspension (at_ : option Z) (reason : option string) (n : Z) (s : GameSession)
    : GameSession :=
  mkSession (GS_ID s) (GS_RoomID s) (GS_GameID s) (GS_Name s) (GS_ReadyPlayers s) (GS_State s)
    (GS_Mode s) (GS_MoveCount s) n at_ reason (GS_TurnTimeoutSecs s) (GS_LastMoveAt s)
    (GS_StartedAt s) (GS_FinishedAt s) (GS_DeletedAt s).

Definition session_set_last_move (t : Z) (s : GameSession) : GameSession :=
  mkSession (GS_ID s) (GS_RoomID s) (GS_GameID s) (GS_Name s) (GS_ReadyPlayers s) (GS_State s)
    (GS_Mode s) (GS_MoveCount s) (GS_SuspendCount s) (GS_SuspendedAt s) (GS_SuspendedReason s)
    (GS_TurnTimeoutSecs s) t (GS_StartedAt s) (GS_FinishedAt s) (GS_DeletedAt s).

Definition session_set_finished (t : option Z) (s : GameSession) : GameSession :=
  mkSession (GS_ID s) (GS_RoomID s) (GS_GameID s) (GS_Name s) (GS_ReadyPlayers s) (GS_State s)
    (GS_Mode s) (GS_MoveCount s) (GS_SuspendCount s) (GS_SuspendedAt s) (GS_SuspendedReason s)
    (GS_TurnTimeoutSecs s) (GS_LastMoveAt s) (GS_StartedAt s) t (GS_DeletedAt s).

Definition session_set_deleted (t : Z) (s : GameSession) : GameSession :=
  mkSession (GS_ID s) (GS_RoomID s) (GS_GameID s) (GS_Name s) (GS_ReadyPlayers s) (GS_State s)
    (GS_Mode s) (GS_MoveCount s) (GS_SuspendCount s) (GS_SuspendedAt s) (GS_SuspendedReason s)
    (GS_TurnTimeoutSecs s) (GS_LastMoveAt s) (GS_StartedAt s) (GS_FinishedAt s) (Some t).

Definition session_set_ready (l : list string) (s : GameSession) : GameSession :=
  mkSession (GS_ID s) (GS_RoomID s) (GS_GameID s) (GS_Name s) l (GS_State s)
    (GS_Mode s) (GS_MoveCount s) (GS_SuspendCount s) (GS_SuspendedAt s) (GS_SuspendedReason s)
    (GS_TurnTimeoutSecs s) (GS_LastMoveAt s) (GS_StartedAt s) (GS_FinishedAt s) (GS_DeletedAt s).

Definition UpdateSessionState (id : uuid) (state : stateJSON) : M unit :=
  wrap "UpdateSessionState" (SetSession (λ _, session_set_state state) id).

Definition FinishSession (id : uuid) : M unit :=
  wrap "FinishSession" (SetSession (λ t, session_set_finished (Some t)) id).

Definition SuspendSession (id : uuid) (reason : string) : M unit :=
  wrap "SuspendSession"
    (SetSession (λ t s, session_suspension (Some t) (Some reason) (GS_SuspendCount s + 1) s) id).

(** 60% of the turn timeout, in microseconds, has already passed after a pause. *)
Definition ResumeSession (id : uuid) : M unit :=
  wrap "ResumeSession" (SetSession (λ t s,
    session_set_last_move (t - default 30%Z (GS_TurnTimeoutSecs s) * 600000)
      (session_suspension None None (GS_SuspendCount s) s)) id).

Definition ListActiveSessions (playerID : uuid) : M (list GameSession) :=
  wrap "ListActiveSessions" (query (λ _ d, order_by (λ s, (- GS_StartedAt s)%Z) (snd <$>
    rows (λ _ s, session_open s && negb (is_none (room_players d !! (GS_RoomID s, playerID))))
      (game_sessions d)))).

Definition SoftDeleteSession (id : uuid) : M unit :=
  wrap "SoftDeleteSession" (SetSession session_set_deleted id).

Definition GetGameConfig (gameID : string) : M GameConfig :=
  r ← try (queryRow (λ _ d, game_configs d !! gameID));
  mret (match r with
        | Ok c => c
        | Err _ => mkGameConfig gameID 60 30 600 PenaltyLoseTurn
        end).

Definition TouchLastMoveAt (sessionID : uuid) : M unit :=
  SetSession session_set_last_move sessionID.

Definition finished_sessions (d : DB) (roomID : uuid) : list GameSession :=
  snd <$> rows (λ _ s, bool_decide (GS_RoomID s = roomID) && negb (is_none (GS_FinishedAt s))
                       && is_none (GS_DeletedAt s)) (game_sessions d).

Definition CountFinishedSessions (roomID : uuid) : M Z :=
  wrap "CountFinishedSessions" (query (λ _ d, count (finished_sessions d roomID))).

Definition GetLastFinishedSession (roomID : uuid) : M GameSession :=
  queryRow (λ _ d,
    head (order_by (λ s, (- default 0 (GS_FinishedAt s))%Z) (finished_sessions d roomID))).

Definition ListSessionsNeedingTimer : M (list GameSession) :=
  wrap "ListSessionsNeedingTimer" (query (λ _ d, snd <$>
    rows (λ _ s, session_open s && is_none (GS_SuspendedAt s)
                 && match GS_TurnTimeoutSecs s with Some n => (0 <? n)%Z | None => false end)
      (game_sessions d))).

(** ** Moves *)

Record RecordMoveParams := mkRecordMoveParams {
  RM_SessionID : uuid; RM_PlayerID : uuid; RM_Payload : data; RM_StateAfter : stateJSON;
  RM_MoveNumber : Z
}.

Definition RecordMove (params : RecordMoveParams) : M StoreMove :=
  wrap "RecordMove" (exec (λ t id d,
    if is_none (moves d !! (RM_SessionID params, RM_MoveNumber params))
       && match rows (λ _ m, bool_decide (M_ID m = id)) (moves d) with [] => true | _ => false end
       && negb (is_none (game_sessions d !! RM_SessionID params))
       && negb (is_none (players d !! RM_PlayerID params))
    then let m := mkStoreMove id (RM_SessionID params) (RM_PlayerID params) (RM_Payload params)
                    (RM_StateAfter params) (RM_MoveNumber params) t in
         Some (m, set_moves (<[(RM_SessionID params, RM_MoveNumber params) := m]> (moves d)) d)
    else None)).

Definition ListSessionMoves (sessionID : uuid) (limit offset : Z) : M (list StoreMove) :=
  let limit := if ((limit <=? 0) || (200 <? limit))%Z then 50%Z else limit in
  wrap "ListSessionMoves" (exec (λ _ _ d,
    if (offset <? 0)%Z then None
    else Some (take (Z.to_nat limit) (drop (Z.to_nat offset)
           (order_by M_MoveNumber (snd <$>
             rows (λ k _, bool_decide (k.1 = sessionID)) (moves d)))), d))).

Definition GetMoveAt (sessionID : uuid) (moveNumber : Z) : M StoreMove :=
  wrap "GetMoveAt" (queryRow (λ _ d, moves d !! (sessionID, moveNumber))).

(** ** Results *)

Record CreateGameResultParams := mkResultParams {
  GR_SessionID : uuid; GR_GameID : string; GR_WinnerID : option uuid; GR_IsDraw : bool;
  GR_EndedBy : string; GR_Players : list GameResultPlayer
}.

(** [EXTRACT(EPOCH FROM d)::INT] of microseconds: rounded half away from zero. *)
Definition epoch_int (d : Z) : Z :=
  (Z.sgn d * ((2 * Z.abs d + 1000000) / 2000000))%Z.

Definition ended_by_allowed : list string :=
  [EndedByNormal; EndedByDraw; EndedByForfeit; "suspended"; EndedByTimeout; EndedByReadyTimeout].

Definition insert_result_player (resultID : uuid) (p : GameResultPlayer) : M unit :=
  wrap "CreateGameResult insert player outcome" (exec (λ _ _ d,
    if is_none (game_result_players d !! (resultID, GP_PlayerID p))
       && negb (is_none (game_results d !! resultID))
       && negb (is_none (players d !! GP_PlayerID p))
       && bool_decide (GP_Outcome p ∈ [OutcomeWin; OutcomeLoss; OutcomeDraw; "forfeit"])
    then Some (tt, set_result_players
           (<[(resultID, GP_PlayerID p) := (GP_Seat p, GP_Outcome p)]> (game_result_players d)) d)
    else None)).

Definition create_result (params : CreateGameResultParams) : M GameResult :=
  duration ← try (queryRow (λ t d,
    s ← game_sessions d !! GR_SessionID params; Some (epoch_int (t - GS_StartedAt s))));
  let durationSecs := match duration with Ok n => Some n | Err _ => None end in
  gr ← wrap "CreateGameResult insert result" (exec (λ t id d,
    if is_none (game_results d !! id)
       && negb (is_none (game_sessions d !! GR_SessionID params))
       && match GR_WinnerID params with Some w => negb (is_none (players d !! w)) | None => true end
       && bool_decide (GR_EndedBy params ∈ ended_by_allowed)
    then let r := mkGameResult id (GR_SessionID params) (GR_GameID params) (GR_WinnerID params)
                    (GR_IsDraw params) (GR_EndedBy params) durationSecs t in
         Some (r, set_results (<[id := r]> (game_results d)) d)
    else None));
  mapM_ (insert_result_player (G_ID gr)) (GR_Players params);;
  mret gr.

(** Inside a transaction it joins it, otherwise it runs in one of its own. *)
Definition CreateGameResult (params : CreateGameResultParams) : M GameResult := λ w,
  match tx_time w with
  | Some _ => create_result params w
  | None => with_tx "CreateGameResult begin tx" (create_result params) w
  end.

Definition UpdateGameResultEndedBy (sessionID : uuid) (endedBy : string) : M unit :=
  exec (λ _ _ d,
    let upd := (λ r, if decide (G_SessionID r = sessionID)
                then mkGameResult (G_ID r) (G_SessionID r) (G_GameID r) (G_WinnerID r) (G_IsDraw r)
                       endedBy (G_DurationSecs r) (G_CreatedAt r)
                else r) in
    if bool_decide (endedBy ∈ ended_by_allowed)
       || match rows (λ _ r, bool_decide (G_SessionID r = sessionID)) (game_results d) with
          | [] => true | _ => false end
    then Some (tt, set_results (upd <$> game_results d) d)
    else None).

Record PlayerStats := mkPlayerStats {
  PS_PlayerID : uuid; PS_TotalGames : Z; PS_Wins : Z; PS_Losses : Z; PS_Draws : Z; PS_Forfeits : Z
}.

Definition GetPlayerStats (playerID : uuid) : M PlayerStats :=
  wrap "GetPlayerStats" (query (λ _ d,
    let rs := rows (λ k _, bool_decide (k.2 = playerID)) (game_result_players d) in
    let n o := count (filter (λ kv : uuid * uuid * (Z * string), kv.2.2 = o) rs) in
    mkPlayerStats playerID (count rs) (n OutcomeWin) (n OutcomeLoss) (n OutcomeDraw) (n "forfeit"))).

Definition CountPlayerMatches (playerID : uuid) : M Z :=
  wrap "CountPlayerMatches" (query (λ _ d,
    count (rows (λ k _, bool_decide (k.2 = playerID)) (game_result_players d)))).

(** The results of a player, the latest first. *)
Definition player_results (d : DB) (playerID : uuid) : list (GameResult * string) :=
  order_by (λ e : GameResult * string, (- G_CreatedAt e.1)%Z)
    (omap (λ kv : uuid * uuid * (Z * string), r ← game_results d !! kv.1.1; Some (r, kv.2.2))
       (rows (λ k _, bool_decide (k.2 = playerID)) (game_result_players d))).

Definition page {A} (limit offset : Z) (l : list A) : list A :=
  take (Z.to_nat limit) (drop (Z.to_nat offset) l).

Definition ListPlayerHistory (playerID : uuid) (limit offset : Z) : M (list GameResult) :=
  wrap "ListPlayerHistory" (exec (λ _ _ d,
    if ((limit <? 0) || (offset <? 0))%Z then None
    else Some (page limit offset (player_results d playerID).*1, d))).

Record MatchHistoryEntry := mkMatchEntry {
  ME_ID : uuid; ME_SessionID : uuid; ME_GameID : string; ME_Outcome : string; ME_EndedBy : string;
  ME_DurationSecs : option Z; ME_CreatedAt : Z; OpponentID : option uuid;
  OpponentUsername : option string; OpponentIsBot : option bool; OpponentBotProfile : option string
}.

(** The other participant of a result with the lowest seat. *)
Definition opponent_of (d : DB) (resultID playerID : uuid) : option StorePlayer :=
  fst <$> head (order_by snd (omap (λ kv : uuid * uuid * (Z * string),
      p ← players d !! kv.1.2; Some (p, kv.2.1))
    (rows (λ k _, bool_decide (k.1 = resultID) && negb (bool_decide (k.2 = playerID)))
       (game_result_players d)))).

Definition match_entry (d : DB) (playerID : uuid) (e : GameResult * string) : MatchHistoryEntry :=
  let r := e.1 in
  let op := opponent_of d (G_ID r) playerID in
  mkMatchEntry (G_ID r) (G_SessionID r) (G_GameID r) e.2 (G_EndedBy r) (G_DurationSecs r)
    (G_CreatedAt r) (P_ID <$> op) (P_Username <$> op) (P_IsBot <$> op) (op ≫= P_BotProfile).

Definition ListPlayerMatches (playerID : uuid) (limit offset : Z) : M (list MatchHistoryEntry) :=
  wrap "ListPlayerMatches" (exec (λ _ _ d,
    if ((limit <? 0) || (offset <? 0))%Z then None
    else Some (page limit offset (match_entry d playerID <$> player_results d playerID), d))).

(** ** Rematch votes *)

Definition UpsertRematchVote (sessionID playerID : uuid) : M unit :=
  wrap "UpsertRematchVote" (exec (λ t _ d,
    match rematch_votes d !! (sessionID, playerID) with
    | Some _ => Some (tt, d)
    | None =>
        if is_none (game_sessions d !! sessionID) || is_none (players d !! playerID) then None
        else Some (tt, set_rematch_votes (<[(sessionID, playerID) := t]> (rematch_votes d)) d)
    end)).

Definition ListRematchVotes (sessionID : uuid) : M (list (uuid * uuid)) :=
  wrap "ListRematchVotes" (query (λ _ d,
    fst <$> rows (λ k _, bool_decide (k.1 = sessionID)) (rematch_votes d))).

Definition DeleteRematchVotes (sessionID : uuid) : M unit :=
  wrap "DeleteRematchVotes" (update (λ _ d,
    set_rematch_votes (filter (λ kv, kv.1.1 ≠ sessionID) (rematch_votes d)) d)).

(** ** Pause, resume and ready votes (pg_pause.go, pg_ready.go) *)

Definition votes_of (d : DB) (sessionID : uuid) (v : vote_type) : Z :=
  count (rows (λ k _, bool_decide (k.1.1 = sessionID) && bool_decide (k.2 = v))
           (session_pause_votes d)).

(** The participants of a room that are not bots. *)
Definition humans_of (d : DB) (roomID : uuid) : Z :=
  count (rows (λ k _, bool_decide (k.1 = roomID) &&
    match players d !! k.2 with Some p => negb (P_IsBot p) | None => false end) (room_players d)).

Definition session_humans (d : DB) (sessionID : uuid) : Z :=
  match game_sessions d !! sessionID with Some s => humans_of d (GS_RoomID s) | None => 0 end.

Definition allPlayersVoted (sessionID : uuid) (v : vote_type) : M bool :=
  wrap "allPlayersVoted" (query (λ _ d, (session_humans d sessionID <=? votes_of d sessionID v)%Z)).

Definition store_vote (context : string) (v : vote_type) (sessionID playerID : uuid) : M bool :=
  wrap context (exec (λ t _ d,
    match session_pause_votes d !! (sessionID, playerID, v) with
    | Some _ => Some (tt, d)
    | None =>
        if is_none (game_sessions d !! sessionID) || is_none (players d !! playerID) then None
        else Some (tt, set_pause_votes
               (<[(sessionID, playerID, v) := t]> (session_pause_votes d)) d)
    end));;
  allPlayersVoted sessionID v.

Definition Store_VotePause : uuid → uuid → M bool := store_vote "VotePause" VotePause_.
Definition Store_VoteResume : uuid → uuid → M bool := store_vote "VoteResume" VoteResume_.

Definition clear_votes (context : string) (v : vote_type) (sessionID : uuid) : M unit :=
  wrap context (update (λ _ d, set_pause_votes
    (filter (λ kv, ¬ (kv.1.1.1 = sessionID ∧ kv.1.2 = v)) (session_pause_votes d)) d)).

Definition ClearPauseVotes : uuid → M unit := clear_votes "ClearPauseVotes" VotePause_.
Definition ClearResumeVotes : uuid → M unit := clear_votes "ClearResumeVotes" VoteResume_.

Definition CountPauseVotes (sessionID : uuid) : M Z :=
  query (λ _ d, votes_of d sessionID VotePause_).
Definition CountResumeVotes (sessionID : uuid) : M Z :=
  query (λ _ d, votes_of d sessionID VoteResume_).

Definition ForceCloseSession (sessionID : uuid) : M unit :=
  n ← wrap "ForceCloseSession" (exec (λ t _ d,
    match game_sessions d !! sessionID with
    | Some s =>
        if is_none (GS_FinishedAt s)
        then Some (1%Z, set_sessions (<[sessionID :=
               session_set_finished (Some t) (session_suspension None None (GS_SuspendCount s) s)]>
               (game_sessions d)) d)
        else Some (0%Z, d)
    | None => Some (0%Z, d)
    end));
  if (n =? 0)%Z then throw (Plain "ForceCloseSession: session not found or already finished")
  else mret tt.

Definition Store_VoteReady (sessionID playerID : uuid) : M bool :=
  let playerStr := uuid_String playerID in
  wrap "VoteReady" (SetSession (λ _ s,
    if decide (playerStr ∈ GS_ReadyPlayers s) then s
    else session_set_ready (GS_ReadyPlayers s ++ [playerStr]) s) sessionID);;
  wrap "VoteReady: check all ready" (queryRow (λ _ d,
    s ← game_sessions d !! sessionID;
    Some (humans_of d (GS_RoomID s) <=? count (GS_ReadyPlayers s))%Z)).

Definition ClearReadyVotes (sessionID : uuid) : M unit :=
  wrap "ClearReadyVotes" (SetSession (λ _, session_set_ready []) sessionID).

(** ** Statistics and cleanup *)

Definition CountActiveRooms : M Z :=
  wrap "CountActiveRooms" (query (λ _ d, count (rows (λ _ r, room_active r) (rooms d)))).

Definition CountActiveSessions : M Z :=
  wrap "CountActiveSessions" (query (λ _ d, count (rows (λ _ s, session_open s) (game_sessions d)))).

Definition CountTotalPlayers : M Z :=
  wrap "CountTotalPlayers" (query (λ _ d,
    count (rows (λ _ p, is_none (P_DeletedAt p) && negb (P_IsBot p)) (players d)))).

(** [CURRENT_DATE], for a database in UTC. *)
Definition midnight (t : Z) : Z := (t / 86400000000 * 86400000000)%Z.

Definition CountSessionsToday : M Z :=
  wrap "CountSessionsToday" (query (λ t d, count (rows (λ _ s,
    (midnight t <=? GS_StartedAt s)%Z && is_none (GS_DeletedAt s)) (game_sessions d)))).

(** Waiting rooms without players that have not changed for [waitingMaxAge]. *)
Definition orphan (d : DB) (t waitingMaxAge : Z) (r : Room) : bool :=
  bool_decide (R_Status r = RoomStatusWaiting) && is_none (R_DeletedAt r)
  && (R_UpdatedAt r <? t - waitingMaxAge)%Z
  && match rows (λ k _, bool_decide (k.1 = R_ID r)) (room_players d) with [] => true | _ => false end.

Definition CleanupOrphanRooms (waitingMaxAge finishedMaxAge : Z) : M Z :=
  n1 ← wrap "CleanupOrphanRooms (waiting)" (exec (λ t _ d,
    let dead := rows (λ _ r, orphan d t waitingMaxAge r) (rooms d) in
    (* sessions reference rooms without ON DELETE CASCADE *)
    if existsb (λ kr : uuid * Room,
         match rows (λ _ s, bool_decide (GS_RoomID s = kr.1)) (game_sessions d) with
         | [] => false | _ => true end) dead
    then None
    else Some (count dead,
      set_room_settings (filter (λ kv, kv.1.1 ∉ dead.*1) (room_settings d))
        (set_rooms (filter (λ kr, kr.1 ∉ dead.*1) (rooms d)) d))));
  n2 ← wrap "CleanupOrphanRooms (finished)" (exec (λ t _ d,
    let old := rows (λ _ r, bool_decide (R_Status r = RoomStatusFinished) && is_none (R_DeletedAt r)
                 && (R_UpdatedAt r <? t - finishedMaxAge)%Z) (rooms d) in
    Some (count old, set_rooms ((λ r,
      if bool_decide (R_Status r = RoomStatusFinished) && is_none (R_DeletedAt r)
         && (R_UpdatedAt r <? t - finishedMaxAge)%Z
      then mkRoom (R_ID r) (R_Code r) (R_GameID r) (R_OwnerID r) (R_Status r) (R_MaxPlayers r)
             (R_TurnTimeoutSecs r) (R_CreatedAt r) (R_UpdatedAt r) (Some t)
      else r) <$> rooms d) d)));
  mret (n1 + n2)%Z.

End Store.
