(* ===== verification/BackendLogic.v ===== *)
(** A program logic for the service monad: weakest preconditions over what can be
    observed of a world, with one rule per construct, quantified over every
    pattern of failing statements, every clock and every generated id. *)
From S2P Require Import Prelude Json Engine Randutil Backend.

Section Logic.
Context `{U : UUID} `{E : Entropy} `{S : !Server}.

(** ** Observations *)

Record Obs := mkObs {
  o_db : DB;
  o_tasks : gmap string Z;
  o_pub : list Finished;
  o_tx : bool;
  o_ab : bool
}.

Definition obs (w : World) : Obs :=
  mkObs (db w) (tasks w) (published w) (bool_decide (is_Some (tx_time w))) (aborted w).

Definition o_set_db (d : DB) (o : Obs) : Obs := mkObs d (o_tasks o) (o_pub o) (o_tx o) (o_ab o).
Definition o_fail (o : Obs) : Obs := mkObs (o_db o) (o_tasks o) (o_pub o) (o_tx o) (o_tx o).
Definition o_begin (o : Obs) : Obs := mkObs (o_db o) (o_tasks o) (o_pub o) true false.
Definition o_end (d : DB) (o : Obs) : Obs := mkObs d (o_tasks o) (o_pub o) false false.
Definition o_set_tasks (t : gmap string Z) (o : Obs) : Obs :=
  mkObs (o_db o) t (o_pub o) (o_tx o) (o_ab o).
Definition o_set_pub (p : list Finished) (o : Obs) : Obs :=
  mkObs (o_db o) (o_tasks o) p (o_tx o) (o_ab o).

(** ** Weakest preconditions *)

Definition wp {A} (m : M A) (Φ : result error A → Obs → Prop) (o : Obs) : Prop :=
  ∀ w, obs w = o → Φ (m w).1 (obs (m w).2).

Implicit Types (o : Obs).

Lemma wp_conseq {A} (m : M A) (Φ Ψ : result error A → Obs → Prop) o :
  wp m Ψ o → (∀ r o', Ψ r o' → Φ r o') → wp m Φ o.
Proof. intros H Hi w Hw. apply Hi, H, Hw. Qed.

Lemma wp_and {A} (m : M A) (Φ Ψ : result error A → Obs → Prop) o :
  wp m Φ o → wp m Ψ o → wp m (λ r o', Φ r o' ∧ Ψ r o') o.
Proof. intros H1 H2 w Hw. split; [by apply H1|by apply H2]. Qed.

Lemma wp_ret {A} (a : A) Φ o : Φ (Ok a) o → wp (mret a) Φ o.
Proof. intros H w <-. exact H. Qed.

Lemma wp_throw {A} e (Φ : result error A → Obs → Prop) o : Φ (Err e) o → wp (throw e) Φ o.
Proof. intros H w <-. exact H. Qed.

Lemma wp_bind {A B} (m : M A) (f : A → M B) Φ o :
  wp m (λ r o', match r with Ok a => wp (f a) Φ o' | Err e => Φ (Err e) o' end) o →
  wp (m ≫= f) Φ o.
Proof.
  intros H w Hw. specialize (H w Hw). unfold mbind, M_bind.
  destruct (m w) as [[a|e] w']; cbn in *; [by apply H|done].
Qed.

Lemma wp_wrap {A} c (m : M A) Φ o :
  wp m (λ r o', Φ (match r with Ok a => Ok a | Err e => Err (Wrap c e) end) o') o →
  wp (wrap c m) Φ o.
Proof. intros H w Hw. specialize (H w Hw). unfold wrap. by destruct (m w) as [[a|e] w']. Qed.

Lemma wp_orElse {A} (m : M A) e Φ o :
  wp m (λ r o', Φ (match r with Ok a => Ok a | Err _ => Err e end) o') o →
  wp (orElse m e) Φ o.
Proof. intros H w Hw. specialize (H w Hw). unfold orElse. by destruct (m w) as [[a|e'] w']. Qed.

Lemma wp_try {A} (m : M A) Φ o : wp m (λ r o', Φ (Ok r) o') o → wp (try m) Φ o.
Proof. intros H w Hw. specialize (H w Hw). unfold try. by destruct (m w) as [r w']. Qed.

Lemma wp_lift {A} (x : option A) e Φ o :
  match x with Some a => Φ (Ok a) o | None => Φ (Err e) o end → wp (lift x e) Φ o.
Proof. destruct x; [apply wp_ret|apply wp_throw]. Qed.

Lemma wp_exec {A} (f : Z → uuid → DB → option (A * DB)) Φ o :
  (∀ e, Φ (Err e) (o_fail o)) →
  (o_ab o = false → ∀ t id a d, f t id (o_db o) = Some (a, d) → Φ (Ok a) (o_set_db d o)) →
  wp (exec f) Φ o.
Proof.
  intros He Hok w <-. unfold exec. cbn [tick aborted].
  destruct (aborted w) eqn:Ea; [apply (He (Driver _))|].
  destruct (fault (stmts w)); [apply (He (Driver _))|].
  change (tx_time (tick w)) with (tx_time w). change (db (tick w)) with (db w).
  destruct (f _ _ (db w)) as [[a d]|] eqn:Ef; [|apply (He (Driver _))].
  cbn. specialize (Hok Ea _ _ _ _ Ef). unfold o_set_db in Hok. cbn in Hok. done.
Qed.

Lemma wp_query {A} (f : Z → DB → A) Φ o :
  (∀ e, Φ (Err e) (o_fail o)) →
  (o_ab o = false → ∀ t, Φ (Ok (f t (o_db o))) o) →
  wp (query f) Φ o.
Proof.
  intros He Hok. apply wp_exec; [done|]. intros Ha t id a d [= <- <-].
  destruct o. by apply Hok.
Qed.

Lemma wp_update (f : Z → DB → DB) Φ o :
  (∀ e, Φ (Err e) (o_fail o)) →
  (o_ab o = false → ∀ t, Φ (Ok tt) (o_set_db (f t (o_db o)) o)) →
  wp (update f) Φ o.
Proof. intros He Hok. apply wp_exec; [done|]. intros Ha t id a d [= <- <-]. by apply Hok. Qed.

Lemma wp_queryRow {A} (f : Z → DB → option A) Φ o :
  (∀ e, Φ (Err e) (o_fail o)) →
  (o_ab o = false → ∀ t,
     match f t (o_db o) with Some a => Φ (Ok a) o
     | None => Φ (Err (Driver "no rows in result set")) o end) →
  wp (queryRow f) Φ o.
Proof.
  intros He Hok. apply wp_bind, wp_query; [done|]. intros Ha t. apply wp_lift.
  specialize (Hok Ha t). by destruct (f t (o_db o)).
Qed.

Lemma wp_with_tx {A} c (fn : M A) Φ o :
  (∀ e, Φ (Err e) o) → o_tx o = false → o_ab o = false →
  wp fn (λ r o', match r with
    | Err e => Φ (Err e) (o_end (o_db o) o')
    | Ok a => (∀ e, Φ (Err e) (o_end (o_db o) o')) ∧
              (o_ab o' = false → Φ (Ok a) (o_end (o_db o') o'))
    end) (o_begin o) →
  wp (with_tx c fn) Φ o.
Proof.
  intros He Htx Hab Hfn w <-. unfold with_tx.
  destruct (fault (stmts w)); [apply (He (Wrap _ _))|].
  assert (obs (set_tx (Some (clock (stmts w))) (tick w)) = o_begin (obs w)) as Ho by done.
  specialize (Hfn _ Ho). destruct (fn _) as [[a|e] w']; cbn [fst snd] in *; [|exact Hfn].
  destruct Hfn as [Hr Hc]. cbn [tick aborted]. destruct (aborted w') eqn:Ea; cbn [orb].
  - apply (Hr (Driver _)).
  - destruct (fault (stmts w')); [apply (Hr (Driver _))|]. by apply Hc.
Qed.

Lemma wp_rand n Φ o :
  (∀ e, Φ (Err e) o) → (∀ v, (0 ≤ v < n)%Z → Φ (Ok v) o) → wp (rand_Intn n) Φ o.
Proof.
  intros He Hok w <-. unfold rand_Intn.
  destruct (crypto_Intn n (random w)) as [[v|x] e'] eqn:Ec; [|apply He].
  apply (Hok v). by eapply crypto_Intn_range.
Qed.

Lemma wp_now Φ o : (∀ t, Φ (Ok t) o) → wp now Φ o.
Proof. intros H w <-. apply H. Qed.

Lemma wp_schedule id due Φ o :
  Φ (Ok tt) (o_set_tasks (<[id := due]> (o_tasks o)) o) → wp (schedule id due) Φ o.
Proof. intros H w <-. exact H. Qed.

Lemma wp_unschedule id Φ o :
  Φ (Ok tt) (o_set_tasks (delete id (o_tasks o)) o) → wp (unschedule id) Φ o.
Proof. intros H w <-. exact H. Qed.

Lemma wp_publish m Φ o : Φ (Ok tt) (o_set_pub (o_pub o ++ [m]) o) → wp (publish m) Φ o.
Proof. intros H w <-. exact H. Qed.

(** Loops, by an invariant of the remaining list. *)
Lemma wp_mapM_ {A} (f : A → M unit) (I : list A → Obs → Prop) Φ l o :
  I l o →
  (∀ x l' o, I (x :: l') o →
     wp (f x) (λ r o', match r with Ok _ => I l' o' | Err e => Φ (Err e) o' end) o) →
  (∀ o, I [] o → Φ (Ok tt) o) →
  wp (mapM_ f l) Φ o.
Proof.
  intros HI Hstep Hend. revert o HI. induction l as [|x l IH]; intros o HI.
  - apply wp_ret. by apply Hend.
  - cbn [mapM_]. apply wp_bind. eapply wp_conseq; [by apply Hstep|].
    intros [u|e] o' Ho; [by apply IH|done].
Qed.

Lemma wp_mapM' {A B} (f : A → M B) (I : list A → list B → Obs → Prop) Φ l o :
  I l [] o →
  (∀ x l' ys o, I (x :: l') ys o →
     wp (f x) (λ r o', match r with Ok y => I l' (ys ++ [y]) o' | Err e => Φ (Err e) o' end) o) →
  (∀ ys o, I [] ys o → Φ (Ok ys) o) →
  wp (mapM' f l) Φ o.
Proof.
  intros HI Hstep Hend.
  enough (∀ l ys o, I l ys o →
    wp (mapM' f l) (λ r o', match r with Ok zs => Φ (Ok (ys ++ zs)) o' | Err e => Φ (Err e) o' end) o)
    as Hgen.
  { eapply wp_conseq; [apply (Hgen l [] o HI)|]. by intros [zs|e] o'. }
  clear HI l o. induction l as [|x l IH]; intros ys o HI.
  - apply wp_ret. rewrite app_nil_r. by apply Hend.
  - cbn [mapM']. apply wp_bind. eapply wp_conseq; [by apply Hstep|].
    intros [y|e] o' Ho; [|done]. apply wp_bind. eapply wp_conseq; [by apply IH|].
    intros [zs|e] o'' Ho'; [|done]. apply wp_ret. by rewrite <- app_assoc in Ho'.
Qed.

(** ** Calls that only read *)

(** A call that leaves every observation alone, outside a transaction. *)
Definition reads {A} (m : M A) : Prop := ∀ o, o_tx o = false → o_ab o = false → wp m (λ _ o', o' = o) o.

Lemma o_fail_idle o : o_tx o = false → o_ab o = false → o_fail o = o.
Proof. destruct o; cbn. by intros -> ->. Qed.

Lemma reads_query {A} (f : Z → DB → A) : reads (query f).
Proof. intros o Ht Ha. apply wp_query; [intros _; by apply o_fail_idle|done]. Qed.

Lemma reads_queryRow {A} (f : Z → DB → option A) : reads (queryRow f).
Proof.
  intros o Ht Ha. apply wp_queryRow; [intros _; by apply o_fail_idle|]. intros _ t.
  by destruct (f t (o_db o)).
Qed.

Lemma reads_ret {A} (a : A) : reads (mret a).
Proof. intros o _ _. by apply wp_ret. Qed.

Lemma reads_throw {A} e : reads (A := A) (throw e).
Proof. intros o _ _. by apply wp_throw. Qed.

Lemma reads_lift {A} (x : option A) e : reads (lift x e).
Proof. intros o _ _. apply wp_lift. by destruct x. Qed.

Lemma reads_bind {A B} (m : M A) (f : A → M B) : reads m → (∀ a, reads (f a)) → reads (m ≫= f).
Proof.
  intros Hm Hf o Ht Ha. apply wp_bind. eapply wp_conseq; [by apply Hm|].
  intros [a|e] o' ->; [by apply Hf|done].
Qed.

Lemma reads_wrap {A} c (m : M A) : reads m → reads (wrap c m).
Proof. intros Hm o Ht Ha. apply wp_wrap. by apply Hm. Qed.

Lemma reads_orElse {A} e (m : M A) : reads m → reads (orElse m e).
Proof. intros Hm o Ht Ha. apply wp_orElse. by apply Hm. Qed.

Lemma reads_try {A} (m : M A) : reads m → reads (try m).
Proof. intros Hm o Ht Ha. apply wp_try. by apply Hm. Qed.

Lemma reads_rand n : reads (rand_Intn n).
Proof. intros o _ _. by apply wp_rand. Qed.

Lemma reads_now : reads now.
Proof. intros o _ _. by apply wp_now. Qed.

Lemma reads_mapM' {A B} (f : A → M B) l : (∀ x, reads (f x)) → reads (mapM' f l).
Proof.
  intros Hf. induction l as [|x l IH]; [apply reads_ret|].
  apply reads_bind; [apply Hf|]. intros y. apply reads_bind; [done|]. intros ys. apply reads_ret.
Qed.

(** A read in front of a computation: only its value matters. *)
Lemma wp_reads {A B} (m : M A) (f : A → M B) Φ o :
  reads m → o_tx o = false → o_ab o = false →
  (∀ e, Φ (Err e) o) → (∀ a, wp (f a) Φ o) → wp (m ≫= f) Φ o.
Proof.
  intros Hm Ht Ha He Hf. apply wp_bind. eapply wp_conseq; [by apply Hm|].
  intros [a|e] o' ->; [apply Hf|apply He].
Qed.

(** ** Adequacy *)

(** The observations of a run that starts outside a transaction. *)
Definition idle (o : Obs) : Prop := o_tx o = false ∧ o_ab o = false.

Lemma wp_run {A} (m : M A) Φ w r w' :
  wp m Φ (obs w) → m w = (r, w') → Φ r (obs w').
Proof. intros H E'. specialize (H w eq_refl). by rewrite E' in H. Qed.

(** ** The database alone *)

(** A weakest precondition that only follows the database: enough for invariants,
    and with simpler rules. *)
Definition wpd {A} (m : M A) (Φ : result error A → DB → Prop) (d : DB) : Prop :=
  ∀ w, db w = d → Φ (m w).1 (db (m w).2).

Lemma wpd_conseq {A} (m : M A) (Φ Ψ : result error A → DB → Prop) d :
  wpd m Ψ d → (∀ r d', Ψ r d' → Φ r d') → wpd m Φ d.
Proof. intros H Hi w Hw. apply Hi, H, Hw. Qed.

Lemma wpd_ret {A} (a : A) (Φ : result error A → DB → Prop) d : Φ (Ok a) d → wpd (mret a) Φ d.
Proof. intros H w <-. exact H. Qed.

Lemma wpd_throw {A} e (Φ : result error A → DB → Prop) d : Φ (Err e) d → wpd (throw e) Φ d.
Proof. intros H w <-. exact H. Qed.

Lemma wpd_bind {A B} (m : M A) (f : A → M B) Φ d :
  wpd m (λ r d', match r with Ok a => wpd (f a) Φ d' | Err e => Φ (Err e) d' end) d →
  wpd (m ≫= f) Φ d.
Proof.
  intros H w Hw. specialize (H w Hw). unfold mbind, M_bind.
  destruct (m w) as [[a|e] w']; cbn in *; [by apply H|done].
Qed.

Lemma wpd_wrap {A} c (m : M A) Φ d :
  wpd m (λ r d', Φ (match r with Ok a => Ok a | Err e => Err (Wrap c e) end) d') d →
  wpd (wrap c m) Φ d.
Proof. intros H w Hw. specialize (H w Hw). unfold wrap. by destruct (m w) as [[a|e] w']. Qed.

Lemma wpd_orElse {A} (m : M A) e Φ d :
  wpd m (λ r d', Φ (match r with Ok a => Ok a | Err _ => Err e end) d') d →
  wpd (orElse m e) Φ d.
Proof. intros H w Hw. specialize (H w Hw). unfold orElse. by destruct (m w) as [[a|e'] w']. Qed.

Lemma wpd_try {A} (m : M A) Φ d : wpd m (λ r d', Φ (Ok r) d') d → wpd (try m) Φ d.
Proof. intros H w Hw. specialize (H w Hw). unfold try. by destruct (m w) as [r w']. Qed.

Lemma wpd_lift {A} (x : option A) e Φ d :
  match x with Some a => Φ (Ok a) d | None => Φ (Err e) d end → wpd (lift x e) Φ d.
Proof. destruct x; [apply wpd_ret|apply wpd_throw]. Qed.

Lemma wpd_exec {A} (f : Z → uuid → DB → option (A * DB)) Φ d :
  (∀ e, Φ (Err e) d) → (∀ t id a d', f t id d = Some (a, d') → Φ (Ok a) d') →
  wpd (exec f) Φ d.
Proof.
  intros He Hok w <-. unfold exec. cbn [tick aborted].
  destruct (aborted w); [apply (He (Driver _))|].
  destruct (fault (stmts w)); [apply (He (Driver _))|].
  change (tx_time (tick w)) with (tx_time w). change (db (tick w)) with (db w).
  destruct (f _ _ (db w)) as [[a d]|] eqn:Ef; [|apply (He (Driver _))].
  cbn. by eapply Hok.
Qed.

Lemma wpd_query {A} (f : Z → DB → A) Φ d :
  (∀ e, Φ (Err e) d) → (∀ t, Φ (Ok (f t d)) d) → wpd (query f) Φ d.
Proof. intros He Hok. apply wpd_exec; [done|]. intros t id a d' [= <- <-]. apply Hok. Qed.

Lemma wpd_update (f : Z → DB → DB) Φ d :
  (∀ e, Φ (Err e) d) → (∀ t, Φ (Ok tt) (f t d)) → wpd (update f) Φ d.
Proof. intros He Hok. apply wpd_exec; [done|]. intros t id a d' [= <- <-]. apply Hok. Qed.

Lemma wpd_queryRow {A} (f : Z → DB → option A) Φ d :
  (∀ e, Φ (Err e) d) → (∀ t a, f t d = Some a → Φ (Ok a) d) → wpd (queryRow f) Φ d.
Proof.
  intros He Hok. apply wpd_bind, wpd_query; [done|]. intros t. apply wpd_lift.
  destruct (f t d) eqn:Ef; [by eapply Hok|done].
Qed.

Lemma wpd_with_tx {A} c (fn : M A) Φ d :
  (∀ e, Φ (Err e) d) →
  wpd fn (λ r d', match r with Err _ => True | Ok a => Φ (Ok a) d' end) d →
  wpd (with_tx c fn) Φ d.
Proof.
  intros He Hfn w <-. unfold with_tx.
  destruct (fault (stmts w)); [apply (He (Wrap _ _))|].
  specialize (Hfn (set_tx (Some (clock (stmts w))) (tick w)) eq_refl).
  destruct (fn _) as [[a|e] w']; cbn [fst snd] in *; [|apply He].
  cbn [tick aborted]. destruct (aborted w' || fault (stmts w')); [apply (He (Driver _))|done].
Qed.

Lemma wpd_rand n Φ d : (∀ e, Φ (Err e) d) → (∀ v, Φ (Ok v) d) → wpd (rand_Intn n) Φ d.
Proof.
  intros He Hok w <-. unfold rand_Intn.
  destruct (crypto_Intn n (random w)) as [[v|x] e']; [apply Hok|apply He].
Qed.

Lemma wpd_now Φ d : (∀ t, Φ (Ok t) d) → wpd now Φ d.
Proof. intros H w <-. apply H. Qed.

Lemma wpd_schedule id due (Φ : result error unit → DB → Prop) d : Φ (Ok tt) d → wpd (schedule id due) Φ d.
Proof. intros H w <-. exact H. Qed.

Lemma wpd_unschedule id (Φ : result error unit → DB → Prop) d : Φ (Ok tt) d → wpd (unschedule id) Φ d.
Proof. intros H w <-. exact H. Qed.

Lemma wpd_publish m (Φ : result error unit → DB → Prop) d : Φ (Ok tt) d → wpd (publish m) Φ d.
Proof. intros H w <-. exact H. Qed.

(** A call that keeps a property of the database, whatever it returns. *)
Definition keeps (I : DB → Prop) {A} (m : M A) : Prop := ∀ d, I d → wpd m (λ _ d', I d') d.

Lemma keeps_ret I {A} (a : A) : keeps I (mret a).
Proof. intros d Hd. by apply wpd_ret. Qed.
Lemma keeps_throw I {A} e : keeps I (throw (A := A) e).
Proof. intros d Hd. by apply wpd_throw. Qed.
Lemma keeps_lift I {A} (x : option A) e : keeps I (lift x e).
Proof. intros d H. apply wpd_lift. by destruct x. Qed.
Lemma keeps_bind I {A B} (m : M A) (f : A → M B) : keeps I m → (∀ a, keeps I (f a)) → keeps I (m ≫= f).
Proof.
  intros Hm Hf d H. apply wpd_bind. eapply wpd_conseq; [by apply Hm|].
  intros [a|e] d' Hd'; [by apply Hf|done].
Qed.
Lemma keeps_wrap I {A} c (m : M A) : keeps I m → keeps I (wrap c m).
Proof. intros H d Hd. by apply wpd_wrap, H. Qed.
Lemma keeps_orElse I {A} e (m : M A) : keeps I m → keeps I (orElse m e).
Proof. intros H d Hd. by apply wpd_orElse, H. Qed.
Lemma keeps_try I {A} (m : M A) : keeps I m → keeps I (try m).
Proof. intros H d Hd. by apply wpd_try, H. Qed.
Lemma keeps_query I {A} (f : Z → DB → A) : keeps I (query f).
Proof. intros d Hd. by apply wpd_query. Qed.
Lemma keeps_queryRow I {A} (f : Z → DB → option A) : keeps I (queryRow f).
Proof. intros d Hd. by apply wpd_queryRow. Qed.
Lemma keeps_update (I : DB → Prop) f : (∀ t d, I d → I (f t d)) → keeps I (update f).
Proof. intros H d Hd. apply wpd_update; auto. Qed.
Lemma keeps_exec (I : DB → Prop) {A} (f : Z → uuid → DB → option (A * DB)) :
  (∀ t id d a d', I d → f t id d = Some (a, d') → I d') → keeps I (exec f).
Proof. intros H d Hd. apply wpd_exec; eauto. Qed.
Lemma keeps_with_tx I {A} c (m : M A) : keeps I m → keeps I (with_tx c m).
Proof.
  intros H d Hd. apply wpd_with_tx; [done|]. eapply wpd_conseq; [by apply H|]. by intros [|].
Qed.
Lemma keeps_rand I n : keeps I (rand_Intn n).
Proof. intros d Hd. by apply wpd_rand. Qed.
Lemma keeps_now I : keeps I now.
Proof. intros d Hd. by apply wpd_now. Qed.
Lemma keeps_schedule I id due : keeps I (schedule id due).
Proof. intros d Hd. by apply wpd_schedule. Qed.
Lemma keeps_unschedule I id : keeps I (unschedule id).
Proof. intros d Hd. by apply wpd_unschedule. Qed.
Lemma keeps_publish I m : keeps I (publish m).
Proof. intros d Hd. by apply wpd_publish. Qed.
Lemma keeps_mapM_ I {A} (f : A → M unit) l : (∀ x, keeps I (f x)) → keeps I (mapM_ f l).
Proof.
  intros H. induction l as [|x l IH]; [apply keeps_ret|]. apply keeps_bind; [apply H|done].
Qed.
Lemma keeps_mapM' I {A B} (f : A → M B) l : (∀ x, keeps I (f x)) → keeps I (mapM' f l).
Proof.
  intros H. induction l as [|x l IH]; [apply keeps_ret|]. apply keeps_bind; [apply H|].
  intros y. apply keeps_bind; [done|]. intros ys. apply keeps_ret.
Qed.

(** A kept property in front of a computation. *)
Lemma wpd_keeps {A B} I (m : M A) (f : A → M B) (Φ : result error B → DB → Prop) d :
  keeps I m → I d → (∀ e d', I d' → Φ (Err e) d') → (∀ a d', I d' → wpd (f a) Φ d') →
  wpd (m ≫= f) Φ d.
Proof.
  intros Hm Hd He Hf. apply wpd_bind. eapply wpd_conseq; [by apply Hm|].
  intros [a|e] d' Hd'; [by apply Hf|by apply He].
Qed.

End Logic.

#[export] Hint Resolve reads_query reads_queryRow reads_ret reads_throw reads_lift reads_bind
  reads_wrap reads_orElse reads_try reads_rand reads_now reads_mapM' : recess.

#[export] Hint Resolve keeps_ret keeps_throw keeps_lift keeps_bind keeps_wrap keeps_orElse keeps_try
  keeps_query keeps_queryRow keeps_with_tx keeps_rand keeps_now keeps_schedule keeps_unschedule
  keeps_publish keeps_mapM_ keeps_mapM' : recess.

(** One step of [keep]: the rule of the outermost construct. *)
Ltac keep_step :=
  first
    [ solve [eauto 2 with recess]
    | apply keeps_wrap | apply keeps_orElse | apply keeps_try | apply keeps_with_tx
    | apply keeps_bind; [|intros ?]
    | apply keeps_mapM_; intros ? | apply keeps_mapM'; intros ?
    | match goal with
      | |- keeps _ (if ?b then _ else _) => destruct b
      | |- keeps _ (match ?x with _ => _ end) => destruct x
      end ].
Ltac keep := repeat keep_step.
