(* ===== verification/Lobby.v ===== *)
(** The lobby (internal/domain/lobby/lobby.go): rooms, seats, settings and the
    start of a game, over the store. Strings are ASCII, on which [strings.ToUpper]
    is letter by letter. *)
From S2P Require Import Prelude Json Engine Randutil Backend Store.
From Stdlib Require Import Ascii.

Module Lobby.

Definition ErrRoomNotFound : error := Sentinel "room not found".
Definition ErrRoomFull : error := Sentinel "room is full".
Definition ErrRoomNotWaiting : error := Sentinel "room is not in waiting state".
Definition ErrNotEnoughPlayer : error := Sentinel "not enough players to start".
Definition ErrNotOwner : error := Sentinel "only the room owner can start the game".
Definition ErrAlreadyInRoom : error := Sentinel "player is already in the room".
Definition ErrPlayerBusy : error := Sentinel "player is already in an active room or game".
Definition ErrGameNotFound : error := Sentinel "game not found".
Definition ErrUnknownSetting : error := Sentinel "unknown setting key".
Definition ErrInvalidSettingVal : error := Sentinel "invalid setting value".

(** ** The standard library *)

Definition digit (c : ascii) : option Z :=
  let n := Z.of_nat (nat_of_ascii c) in
  if ((48 <=? n) && (n <=? 57))%Z then Some (n - 48)%Z else None.

Fixpoint digits (acc : Z) (s : string) : option Z :=
  match s with
  | EmptyString => Some acc
  | String c s' => d ← digit c; digits (10 * acc + d)%Z s'
  end.

(** [strconv.Atoi]: an optional sign and at least one digit, in the range of int. *)
Definition Atoi (s : string) : option Z :=
  let parse (sign : Z) (s : string) :=
    match s with
    | EmptyString => None
    | _ => n ← digits 0 s;
           let v := (sign * n)%Z in
           if ((- 2 ^ 63 <=? v) && (v <? 2 ^ 63))%Z then Some v else None
    end in
  match s with
  | String "-" s' => parse (-1)%Z s'
  | String "+" s' => parse 1%Z s'
  | _ => parse 1%Z s
  end.

Definition upper (c : ascii) : ascii :=
  let n := nat_of_ascii c in
  if (97 <=? n) && (n <=? 122) then ascii_of_nat (n - 32) else c.

(** [strings.ToUpper] *)
Fixpoint ToUpper (s : string) : string :=
  match s with EmptyString => EmptyString | String c s' => String (upper c) (ToUpper s') end.

(** ** Settings *)

(** The setting with the same key is replaced, otherwise the setting is appended. *)
Fixpoint upsertSetting (settings : list LobbySetting) (s : LobbySetting) : list LobbySetting :=
  match settings with
  | [] => [s]
  | existing :: rest =>
      if decide (Key existing = Key s) then s :: rest else existing :: upsertSetting rest s
  end.

Definition lobbySettingsForGame (game : Game) : list LobbySetting :=
  match LobbySettings game with
  | Some own => foldl upsertSetting DefaultLobbySettings own
  | None => DefaultLobbySettings
  end.

Definition buildDefaultSettings (game : Game) : gmap string string :=
  foldl (λ m s, <[Key s := Default s]> m) ∅ (lobbySettingsForGame game).

Definition invalid (text : string) : error := Wrap text ErrInvalidSettingVal.

(** The body of the loop for the descriptor with the right key; [None] when the
    type is neither select nor int and the loop goes on. *)
Definition checkSetting (s : LobbySetting) (key value : string) (game : Game) : option (result error unit) :=
  if decide (Type_ s = SettingTypeSelect) then
    Some (if existsb (λ opt, bool_decide (Value opt = value)) (Options s) then Ok tt
          else Err (invalid "must be one of"))
  else if decide (Type_ s = SettingTypeInt) then
    Some (match Atoi value with
    | None => Err (invalid "must be an integer")
    | Some n =>
        if match Min s with Some lo => (n <? lo)%Z | None => false end then Err (invalid "must be >=")
        else if match Max s with Some hi => (hi <? n)%Z | None => false end then Err (invalid "must be <=")
        else if decide (key = "first_mover_seat") then
          if (MaxPlayers game - 1 <? n)%Z then Err (invalid "must be <= for this game") else Ok tt
        else Ok tt
    end)
  else None.

Definition validateSetting (key value : string) (game : Game) : result error unit :=
  match head (omap (λ s, if decide (Key s = key) then checkSetting s key value game else None)
                (lobbySettingsForGame game)) with
  | Some r => r
  | None => Err (Wrap key ErrUnknownSetting)
  end.

(** ** Seats *)

(** [players[j]], which panics out of range. *)
Definition player_at (ps : list Player) (j : Z) : result error Player :=
  match (if (j <? 0)%Z then None else ps !! Z.to_nat j) with
  | Some p => Ok p
  | None => Err (Panic "index out of range")
  end.

(** The players rotated so that the one at [firstSeat] comes first. *)
Definition rotatePlayers (ps : list Player) (firstSeat : Z) : result error (list Player) :=
  if decide (firstSeat = 0%Z ∨ ps = []) then Ok ps
  else
    mapM (λ i, player_at ps (Z.rem (firstSeat + Z.of_nat i) (Z.of_nat (length ps))))
      (seq 0 (length ps)).

Definition clamp (val min max : Z) : Z :=
  if (val <? min)%Z then min else if (max <? val)%Z then max else val.

Section Service.
Context `{U : UUID} `{E : Entropy} `{S : !Server} (reg : registry).

Record RoomViewPlayer := mkViewPlayer { VP_Player : StorePlayer; VP_Seat : Z; VP_JoinedAt : Z }.

Record RoomView := mkRoomView {
  V_Room : Room; V_Players : list RoomViewPlayer; V_Settings : gmap string string;
  V_ActiveSessionID : string
}.

Definition of_result {A} (r : result error A) : M A :=
  match r with Ok a => mret a | Err e => throw e end.

Definition registry_Get (id : string) : M Game :=
  match Get id reg with Ok g => mret g | Err e => throw (Game_error e) end.

(** ** Room codes *)

Definition roomCodeChars : list ascii := String.list_ascii_of_string "ABCDEFGHJKLMNPQRSTUVWXYZ23456789".
Definition roomCodeLen : nat := 6.

Definition generateRoomCode : M string :=
  cs ← mapM' (λ _,
    n ← wrap "generateRoomCode" (rand_Intn (Z.of_nat (length roomCodeChars)));
    lift (roomCodeChars !! Z.to_nat n) (Panic "index out of range")) (seq 0 roomCodeLen);
  mret (String.string_of_list_ascii cs).

(** ** Views *)

Definition getRoomView (room : Room) : M RoomView :=
  roomPlayers ← wrap "getRoomView: list players" (ListRoomPlayers (R_ID room));
  ps ← mapM' (λ rp,
    p ← wrap "getRoomView: get player" (GetPlayer (RP_PlayerID rp));
    mret (mkViewPlayer p (RP_Seat rp) (RP_JoinedAt rp))) roomPlayers;
  settings ← wrap "getRoomView: get settings" (GetRoomSettings (R_ID room));
  if decide (R_Status room = "in_progress") then
    session ← try (GetActiveSessionByRoom (R_ID room));
    mret (mkRoomView room ps settings
      (match session with Ok s => uuid_String (GS_ID s) | Err _ => "" end))
  else mret (mkRoomView room ps settings "").

Definition Lobby_GetRoom (roomID : uuid) : M RoomView :=
  room ← orElse (GetRoom roomID) ErrRoomNotFound;
  getRoomView room.

(** The join code of a private room is removed. *)
Definition redact (v : RoomView) : RoomView :=
  if decide (default "" (V_Settings v !! "room_visibility") = "private") then
    let r := V_Room v in
    mkRoomView (mkRoom (R_ID r) "" (R_GameID r) (R_OwnerID r) (R_Status r) (R_MaxPlayers r)
      (R_TurnTimeoutSecs r) (R_CreatedAt r) (R_UpdatedAt r) (R_DeletedAt r))
      (V_Players v) (V_Settings v) (V_ActiveSessionID v)
  else v.

Definition Lobby_ListWaitingRooms (limit offset : Z) : M (list RoomView * Z) :=
  total ← wrap "ListWaitingRooms count" CountWaitingRooms;
  rooms ← wrap "ListWaitingRooms" (ListWaitingRooms limit offset);
  views ← mapM' (λ r, v ← getRoomView r; mret (redact v)) rooms;
  mret (views, total).

(** ** Rooms *)

Definition Lobby_CreateRoom (gameID : string) (ownerID : uuid) (turnTimeoutSecs : option Z)
    : M RoomView :=
  busy ← wrap "CreateRoom: check busy" (IsPlayerInActiveRoom ownerID);
  if (busy : bool) then throw ErrPlayerBusy
  else
    game ← orElse (registry_Get gameID) ErrGameNotFound;
    code ← wrap "CreateRoom: generate code" generateRoomCode;
    room ← wrap "CreateRoom" (CreateRoom (mkCreateRoomParams code gameID ownerID (MaxPlayers game)
      turnTimeoutSecs (buildDefaultSettings game)));
    wrap "CreateRoom: add owner" (AddPlayerToRoom (R_ID room) ownerID 0);;
    getRoomView room.

Definition JoinRoom (code : string) (playerID : uuid) : M RoomView :=
  room ← orElse (GetRoomByCode (ToUpper code)) ErrRoomNotFound;
  if decide (R_Status room ≠ RoomStatusWaiting) then throw ErrRoomNotWaiting
  else
    busy ← wrap "JoinRoom: check busy" (IsPlayerInActiveRoom playerID);
    if (busy : bool) then throw ErrPlayerBusy
    else
      ps ← wrap "JoinRoom: list players" (ListRoomPlayers (R_ID room));
      if (R_MaxPlayers room <=? count ps)%Z then throw ErrRoomFull
      else if existsb (λ p, bool_decide (RP_PlayerID p = playerID)) ps then throw ErrAlreadyInRoom
      else
        let seat := count ps in
        wrap "JoinRoom: add player" (AddPlayerToRoom (R_ID room) playerID seat);;
        getRoomView room.

Record LeaveResult := mkLeaveResult { NewOwnerID : option uuid; RoomClosed : bool }.

Definition LeaveRoom (roomID playerID : uuid) : M LeaveResult :=
  room ← orElse (GetRoom roomID) ErrRoomNotFound;
  if decide (R_Status room ≠ RoomStatusWaiting) then throw ErrRoomNotWaiting
  else
    wrap "LeaveRoom: remove player" (RemovePlayerFromRoom roomID playerID);;
    remaining ← wrap "LeaveRoom: list remaining" (ListRoomPlayers roomID);
    match remaining with
    | [] =>
        wrap "LeaveRoom: delete room" (DeleteRoom roomID);;
        mret (mkLeaveResult None true)
    | newOwner :: _ =>
        if decide (R_OwnerID room = playerID) then
          wrap "LeaveRoom: transfer ownership" (UpdateRoomOwner roomID (RP_PlayerID newOwner));;
          mret (mkLeaveResult (Some (RP_PlayerID newOwner)) false)
        else mret (mkLeaveResult None false)
    end.

Definition UpdateRoomSetting (roomID requesterID : uuid) (key value : string) : M unit :=
  room ← orElse (GetRoom roomID) ErrRoomNotFound;
  if decide (R_Status room ≠ RoomStatusWaiting) then throw ErrRoomNotWaiting
  else if decide (R_OwnerID room ≠ requesterID) then throw ErrNotOwner
  else
    game ← orElse (registry_Get (R_GameID room)) ErrGameNotFound;
    of_result (validateSetting key value game);;
    SetRoomSetting roomID key value.

(** ** The first mover *)

Definition resolveFirstMover (policy fixedSeatStr : string) (ps : list Player) : M Z :=
  if decide (policy = "fixed") then
    mret (match Atoi fixedSeatStr with
          | Some seat =>
              if ((seat <? 0) || (Z.of_nat (length ps) <=? seat))%Z then 0%Z else seat
          | None => 0%Z
          end)
  else if decide (policy = "game_default") then mret 0%Z
  else rand_Intn (Z.of_nat (length ps)).

Definition resolveRematchFirstMover (policy fixedSeatStr : string) (ps : list Player)
    (roomPlayers : list RoomPlayer) (lastResult : GameResult) : M Z :=
  if decide (policy = "winner_first" ∨ policy = "loser_first") then
    match G_WinnerID lastResult with
    | None => rand_Intn (Z.of_nat (length ps))
    | Some winner =>
        match list_find (λ rp, (policy = "winner_first" ∧ RP_PlayerID rp = winner) ∨
                               (policy = "loser_first" ∧ RP_PlayerID rp ≠ winner)) roomPlayers with
        | Some (_, rp) => mret (RP_Seat rp)
        | None => rand_Intn (Z.of_nat (length ps))
        end
    end
  else if decide (policy = "winner_chooses" ∨ policy = "loser_chooses") then
    rand_Intn (Z.of_nat (length ps))
  else resolveFirstMover policy fixedSeatStr ps.

(** ** Starting a game *)

Definition resolveTimeout (room : Room) : M Z :=
  cfg ← GetGameConfig (R_GameID room);
  mret (match R_TurnTimeoutSecs room with
        | Some t => clamp t (C_MinTimeoutSecs cfg) (C_MaxTimeoutSecs cfg)
        | None => C_DefaultTimeoutSecs cfg
        end).

(** [enginePlayers[rp.Seat] = p], which panics out of range. *)
Definition set_at (l : list Player) (i : Z) (p : Player) : M (list Player) :=
  if ((i <? 0) || (Z.of_nat (length l) <=? i))%Z then throw (Panic "index out of range")
  else mret (<[Z.to_nat i := p]> l).

(** The engine's players by seat; a seat nobody has is the zero player. *)
Fixpoint seatPlayers (roomPlayers : list RoomPlayer) (acc : list Player) : M (list Player) :=
  match roomPlayers with
  | [] => mret acc
  | rp :: rest =>
      p ← wrap "StartGame: get player" (GetPlayer (RP_PlayerID rp));
      acc ← set_at acc (RP_Seat rp) (mkPlayer (uuid_String (P_ID p)) (P_Username p));
      seatPlayers rest acc
  end.

(** [game.Init(players)], with the seed drawn from the cryptographic source. *)
Definition run_Init (game : Game) (ps : list Player) : M GameState :=
  seed ← try (rand_Intn (2 ^ 31));
  match Init game (match seed with Ok s => Some s | Err _ => None end) ps with
  | Ok st => mret st
  | Err e => throw (Game_error e)
  end.

Definition firstSeatOf (roomID : uuid) (settings : gmap string string)
    (ps : list Player) (roomPlayers : list RoomPlayer) : M Z :=
  finishedCount ← wrap "StartGame: count finished sessions" (CountFinishedSessions roomID);
  if (0 <? finishedCount)%Z then
    lastSession ← wrap "StartGame: get last session" (GetLastFinishedSession roomID);
    lastResult ← wrap "StartGame: get last result" (GetGameResult (GS_ID lastSession));
    wrap "StartGame: resolve rematch first mover" (resolveRematchFirstMover
      (default "" (settings !! "rematch_first_mover_policy"))
      (default "" (settings !! "first_mover_seat")) ps roomPlayers lastResult)
  else
    wrap "StartGame: resolve first mover" (resolveFirstMover
      (default "" (settings !! "first_mover_policy"))
      (default "" (settings !! "first_mover_seat")) ps).

Definition StartGame (roomID requesterID : uuid) (mode : string) : M GameSession :=
  room ← orElse (GetRoom roomID) ErrRoomNotFound;
  if decide (R_Status room ≠ RoomStatusWaiting) then throw ErrRoomNotWaiting
  else if decide (R_OwnerID room ≠ requesterID) then throw ErrNotOwner
  else
    roomPlayers ← wrap "StartGame: list players" (ListRoomPlayers roomID);
    game ← orElse (registry_Get (R_GameID room)) ErrGameNotFound;
    if (count roomPlayers <? MinPlayers game)%Z then throw ErrNotEnoughPlayer
    else
      settings ← wrap "StartGame: get settings" (GetRoomSettings roomID);
      effectiveTimeout ← wrap "StartGame: resolve timeout" (resolveTimeout room);
      enginePlayers ← seatPlayers roomPlayers (replicate (length roomPlayers) (mkPlayer "" ""));
      firstSeat ← firstSeatOf roomID settings enginePlayers roomPlayers;
      enginePlayers ← of_result (rotatePlayers enginePlayers firstSeat);
      initialState ← wrap "StartGame: init game" (run_Init game enginePlayers);
      stateJSON ← lift (Marshal_state initialState) (Plain "StartGame: marshal state");
      session ← wrap "StartGame: create session"
        (CreateGameSession roomID (R_GameID room) stateJSON (Some effectiveTimeout) mode);
      wrap "StartGame: update room status" (UpdateRoomStatus roomID RoomStatusInProgress);;
      mret session.

End Service.
End Lobby.
