(* ===== verification/Runtime.v ===== *)
(** The session runtime (internal/domain/runtime): moves, surrender, replay,
    rematch, pause, resume and ready votes, turn and ready timeouts, over the
    store. The service is wired as cmd/server/main.go does: with a timer, a
    producer and a hub. The event log and the logger, which nothing here reads
    back, are left out; a broadcast is the list of messages it sends. *)
From S2P Require Import Prelude Json Engine Randutil Backend Store Lobby.

Module Runtime.

Definition ErrSessionNotFound : error := Sentinel "session not found".
Definition ErrGameNotFound : error := Sentinel "game not found".
Definition ErrNotYourTurn : error := Sentinel "it is not your turn".
Definition ErrGameOver : error := Sentinel "game is already over".
Definition ErrInvalidMove : error := Sentinel "invalid move".
Definition ErrSuspended : error := Sentinel "game is suspended".
Definition ErrNotParticipant : error := Sentinel "player is not a participant in this session".
Definition ErrNotFinished : error := Sentinel "game is not finished yet".
Definition ErrRematchNotAllowedRanked : error := Sentinel "rematch not allowed in ranked matches".
Definition ErrAlreadyPaused : error := Sentinel "session is already paused".
Definition ErrNotSuspended : error := Sentinel "session is not paused".

Section Service.
Context `{U : UUID} `{E : Entropy} `{S : !Server} (reg : registry).

(** The registered bots ([botRegistry]). *)
Definition RegisterBot (id : uuid) (bots : list uuid) : list uuid := id :: bots.
Definition UnregisterBot (id : uuid) (bots : list uuid) : list uuid := filter (λ b, b ≠ id) bots.

Variable bots : list uuid.

(** A call of the game; a panic is not an error the caller wraps. *)
Definition game_call {A} (e : gerror → error) (r : Prelude.result gerror A) : M A :=
  match r with
  | Ok a => mret a
  | Err (GPanic what) => throw (Panic what)
  | Err (GErr f args) => throw (e (GErr f args))
  end.

Definition registry_Get (id : string) (e : error) : M Game :=
  match Get id reg with Ok g => mret g | Err _ => throw e end.

Definition is_some {A} (o : option A) : bool := negb (is_none o).

(** ** Timers (asynq_timer.go) *)

Definition second : Z := 1000000.

Definition turnTaskID (sessionID : uuid) : string := "timer:session:" +:+ uuid_String sessionID.
Definition readyTaskID (sessionID : uuid) : string := "timer:ready:" +:+ uuid_String sessionID.

(** The pending task with the id is replaced. *)
Definition enqueue (taskID : string) (delay : Z) : M unit :=
  unschedule taskID;; t ← now; schedule taskID (t + delay)%Z.

Definition ScheduleIn (sessionID : uuid) (delay : Z) : M unit := enqueue (turnTaskID sessionID) delay.

Definition Schedule (session : GameSession) : M unit :=
  match GS_TurnTimeoutSecs session with
  | Some n => if (n <=? 0)%Z then mret tt else ScheduleIn (GS_ID session) (n * second)
  | None => mret tt
  end.

Definition Cancel (sessionID : uuid) : M unit := unschedule (turnTaskID sessionID).
Definition ScheduleReady (sessionID : uuid) (timeout : Z) : M unit :=
  enqueue (readyTaskID sessionID) timeout.
Definition CancelReady (sessionID : uuid) : M unit := unschedule (readyTaskID sessionID).

(** ** Bots (runtime_bot.go) *)

Definition isBot (playerID : uuid) : M bool :=
  if decide (playerID ∈ bots) then mret true
  else
    p ← try (GetPlayer playerID);
    mret (match p with Ok p => P_IsBot p | Err _ => false end).

(** The bot whose goroutine is started, if any. *)
Definition MaybeFireBot (currentPlayerID : uuid) : option uuid :=
  if decide (currentPlayerID ∈ bots) then Some currentPlayerID else None.

(** ** Results *)

Definition buildGameResultParams (session : GameSession) (result : Result) (ps : list RoomPlayer)
    : CreateGameResultParams :=
  let winnerID :=
    if decide (Status result = ResultWin) then w ← WinnerID result; uuid_Parse w else None in
  let endedBy := if decide (Status result = ResultWin) then EndedByNormal else EndedByDraw in
  mkResultParams (GS_ID session) (GS_GameID session) winnerID
    (bool_decide (Status result = ResultDraw)) endedBy
    ((λ p, mkResultPlayer (RP_PlayerID p) (RP_Seat p)
       (if decide (Status result = ResultDraw) then OutcomeDraw
        else if decide (winnerID = Some (RP_PlayerID p)) then OutcomeWin
        else OutcomeLoss)) <$> ps).

Definition outcomeFor (playerID : uuid) (result : GameResult) : string :=
  if G_IsDraw result then "draw"
  else if decide (G_EndedBy result = EndedByForfeit) then
    if decide (G_WinnerID result = Some playerID) then "win" else "forfeit"
  else if decide (G_WinnerID result = Some playerID) then "win" else "loss".

Definition winnerIDStr (id : option uuid) : string := from_option uuid_String "" id.
Definition durationSecs (d : option Z) : Z := default 0%Z d.

(** The message without its id and time; [None] is the zero [GameResult]. *)
Definition finished_event (session : GameSession) (ps : list RoomPlayer) (result : option GameResult)
    : Finished :=
  let outcome p := match result with Some r => outcomeFor p r | None => "loss" end in
  mkFinished (GS_ID session) (GS_RoomID session) (GS_GameID session) (GS_Mode session)
    (from_option G_EndedBy "" result) (winnerIDStr (r ← result; G_WinnerID r))
    (from_option G_IsDraw false result) (durationSecs (r ← result; G_DurationSecs r))
    (GS_MoveCount session)
    ((λ p, (uuid_String (RP_PlayerID p), RP_Seat p, outcome (RP_PlayerID p))) <$> ps).

Definition publishGameFinished (session : GameSession) (ps : list RoomPlayer)
    (result : option GameResult) : M unit :=
  publish (finished_event session ps result).

(** ** Moves *)

Record MoveResult := mkMoveResult {
  MR_Session : GameSession; MR_State : GameState; MR_IsOver : bool; MR_Result : option Result
}.

Definition setEndedBy (s : string) (r : Result) : Result := mkResult (Status r) (WinnerID r) s.

(** [game.IsOver] with the [ended_by] the runtime fills in. *)
Definition over_result (game : Game) (st : GameState) : bool * Result :=
  let '(over, result) := IsOver game st in
  if over then
    (true, setEndedBy (if decide (Status result = ResultDraw) then EndedByDraw else EndedByNormal) result)
  else (false, result).

(** The statements of the transaction of [ApplyMove]. *)
Definition persistMove (sessionID : uuid) (session : GameSession) (playerID : uuid)
    (payloadJSON : data) (stateJSON : stateJSON) (over : bool) (result : Result)
    : M (option GameResult) :=
  wrap "record move" (RecordMove
    (mkRecordMoveParams sessionID playerID payloadJSON stateJSON (GS_MoveCount session + 1)));;
  wrap "update state" (UpdateSessionState sessionID stateJSON);;
  wrap "touch last_move_at" (TouchLastMoveAt sessionID);;
  if over then
    wrap "finish session" (FinishSession sessionID);;
    try (UpdateRoomStatus (GS_RoomID session) RoomStatusFinished);;
    ps ← wrap "list room players" (ListRoomPlayers (GS_RoomID session));
    gr ← wrap "create game result" (CreateGameResult (buildGameResultParams session result ps));
    mret (Some gr)
  else mret None.

Definition players_or_none (r : Prelude.result error (list RoomPlayer)) : list RoomPlayer :=
  match r with Ok ps => ps | Err _ => [] end.

Definition ApplyMove (sessionID playerID : uuid) (payload : data) : M MoveResult :=
  session ← orElse (GetGameSession sessionID) ErrSessionNotFound;
  if is_some (GS_FinishedAt session) then throw ErrGameOver
  else if is_some (GS_SuspendedAt session) then throw ErrSuspended
  else
    game ← registry_Get (GS_GameID session) ErrGameNotFound;
    state ← lift (Unmarshal_state (GS_State session)) (Plain "ApplyMove: deserialize state");
    timestamp ← now;
    let move := mkMove (uuid_String playerID) payload timestamp in
    if decide (Move_PlayerID move ≠ CurrentPlayerID state) then throw ErrNotYourTurn
    else
      game_call (λ e, Wrap "invalid move" ErrInvalidMove) (ValidateMove game state move);;
      newState ← game_call (λ e, Wrap "ApplyMove: apply" (Game_error e))
                   (Engine.ApplyMove game state move);
      payloadJSON ← lift (Marshal_payload payload) (Plain "ApplyMove: marshal payload");
      stateJSON ← lift (Marshal_state newState) (Plain "ApplyMove: marshal state");
      let '(over, result) := over_result game newState in
      gameResult ← wrap "ApplyMove" (with_tx "WithTx begin"
        (persistMove sessionID session playerID payloadJSON stateJSON over result));
      session ← wrap "ApplyMove: reload session" (GetGameSession sessionID);
      if (over : bool) then
        Cancel sessionID;;
        ps ← try (ListRoomPlayers (GS_RoomID session));
        publishGameFinished session (players_or_none ps) gameResult;;
        mret (mkMoveResult session newState true (Some result))
      else
        Schedule session;;
        mret (mkMoveResult session newState false None).

(** ** Views *)

Definition filter_with (game : Game) (st : GameState) (viewer : string) : GameState :=
  match FilterState game with Some f => f st viewer | None => st end.

Definition Svc_FilterState (gameID : string) (st : GameState) (playerID : uuid) : GameState :=
  match Get gameID reg with Ok g => filter_with g st (uuid_String playerID) | Err _ => st end.

(** A message: to one player's channel, to the spectators of a room, or to
    everybody in it. *)
Inductive delivery (A : Type) : Type :=
  | ToPlayer (player : uuid) (payload : A)
  | ToSpectators (room : uuid) (payload : A)
  | ToRoom (room : uuid) (payload : A).

Definition set_MR_State (st : GameState) (r : MoveResult) : MoveResult :=
  mkMoveResult (MR_Session r) st (MR_IsOver r) (MR_Result r).

(** The payloads of a broadcast; all messages carry the same event type. *)
Definition BroadcastMove (result : MoveResult) (ps : list RoomPlayer) : list (delivery MoveResult) :=
  let room := GS_RoomID (MR_Session result) in
  match Get (GS_GameID (MR_Session result)) reg with
  | Ok game =>
      match FilterState game with
      | Some f =>
          let view v := set_MR_State (f (MR_State result) v) result in
          ((λ p, ToPlayer _ (RP_PlayerID p) (view (uuid_String (RP_PlayerID p)))) <$> ps)
            ++ [ToSpectators _ room (view "")]
      | None => [ToRoom _ room result]
      end
  | Err _ => [ToRoom _ room result]
  end.

Definition set_GS_State (st : stateJSON) (s : GameSession) : GameSession :=
  mkSession (GS_ID s) (GS_RoomID s) (GS_GameID s) (GS_Name s) (GS_ReadyPlayers s) st (GS_Mode s)
    (GS_MoveCount s) (GS_SuspendCount s) (GS_SuspendedAt s) (GS_SuspendedReason s)
    (GS_TurnTimeoutSecs s) (GS_LastMoveAt s) (GS_StartedAt s) (GS_FinishedAt s) (GS_DeletedAt s).

Definition BroadcastSessionStarted (session : GameSession) : M (list (delivery GameSession)) :=
  let room := GS_RoomID session in
  ps ← try (ListRoomPlayers room);
  mret (match ps, Get (GS_GameID session) reg, Unmarshal_state (GS_State session) with
  | Ok ps, Ok game, Some state =>
      match FilterState game with
      | Some f =>
          let project v := match Marshal_state (f state v) with
            | Some raw => set_GS_State raw session | None => session end in
          ((λ p, ToPlayer _ (RP_PlayerID p) (project (uuid_String (RP_PlayerID p)))) <$> ps)
            ++ [ToSpectators _ room (project "")]
      | None => [ToRoom _ room session]
      end
  | _, _, _ => [ToRoom _ room session]
  end).

Definition GetSessionAndState (sessionID : uuid) : M (GameSession * GameState * option GameResult) :=
  session ← orElse (GetGameSession sessionID) ErrSessionNotFound;
  state ← lift (Unmarshal_state (GS_State session)) (Plain "GetSessionAndState");
  if is_some (GS_FinishedAt session) then
    r ← try (GetGameResult sessionID);
    mret (session, state, match r with Ok r => Some r | Err _ => None end)
  else mret (session, state, None).

(** ** Replay *)

(** The loop over the recorded moves. *)
Fixpoint replay (game : Game) (moveNumber : Z) (ms : list StoreMove) (state : GameState)
    : Prelude.result gerror GameState :=
  match ms with
  | [] => Ok state
  | m :: ms =>
      if (moveNumber <? M_MoveNumber m)%Z then Ok state
      else
        state ← Engine.ApplyMove game state (mkMove (uuid_String (M_PlayerID m)) (M_Payload m) 0);
        replay game moveNumber ms state
  end.

Definition GetStateAt (sessionID : uuid) (moveNumber : Z) : M GameState :=
  session ← wrap "GetStateAt" (GetGameSession sessionID);
  eng ← registry_Get (GS_GameID session) (Plain "GetStateAt: game not found");
  roomPlayers ← wrap "GetStateAt: list room players" (ListRoomPlayers (GS_RoomID session));
  let ps := (λ rp, mkPlayer (uuid_String (RP_PlayerID rp)) "") <$> roomPlayers in
  state ← wrap "GetStateAt: init" (Lobby.run_Init eng ps);
  ms ← wrap "GetStateAt: list moves" (ListSessionMoves sessionID 200 0);
  game_call (λ e, Wrap "GetStateAt: apply move" (Game_error e)) (replay eng moveNumber ms state).

(** ** Surrender *)

Definition callerFound (playerID : uuid) (ps : list RoomPlayer) : bool :=
  existsb (λ p, bool_decide (RP_PlayerID p = playerID)) ps.

(** The last other player of the room. *)
Definition opponent (playerID : uuid) (ps : list RoomPlayer) : option uuid :=
  last (filter (λ q, q ≠ playerID) (RP_PlayerID <$> ps)).

Definition forfeitParams (session : GameSession) (opponentID : option uuid) (ps : list RoomPlayer)
    : CreateGameResultParams :=
  mkResultParams (GS_ID session) (GS_GameID session) opponentID false EndedByForfeit
    ((λ p, mkResultPlayer (RP_PlayerID p) (RP_Seat p)
       (if decide (opponentID = Some (RP_PlayerID p)) then OutcomeWin else OutcomeLoss)) <$> ps).

Definition Surrender (sessionID playerID : uuid) : M MoveResult :=
  session ← orElse (GetGameSession sessionID) ErrSessionNotFound;
  if is_some (GS_FinishedAt session) then throw ErrGameOver
  else
    ps ← wrap "Surrender: list players" (ListRoomPlayers (GS_RoomID session));
    if negb (callerFound playerID ps) then throw ErrNotParticipant
    else
      let opponentID := opponent playerID ps in
      Cancel sessionID;;
      wrap "Surrender: finish session" (FinishSession sessionID);;
      t ← now;
      let session := session_set_finished (Some t) session in
      try (UpdateRoomStatus (GS_RoomID session) RoomStatusFinished);;
      gr ← try (CreateGameResult (forfeitParams session opponentID ps));
      publishGameFinished session ps (match gr with Ok r => Some r | Err _ => None end);;
      state ← lift (Unmarshal_state (GS_State session)) (Plain "Surrender: deserialize state");
      mret (mkMoveResult session state true
        (Some (mkResult ResultWin (uuid_String <$> opponentID) EndedByForfeit))).

(** ** Loading a state (development only) *)

Definition LoadState (sessionID : uuid) (rawState : stateJSON) : M MoveResult :=
  session ← orElse (GetGameSession sessionID) ErrSessionNotFound;
  if is_some (GS_FinishedAt session) then throw ErrGameOver
  else
    state ← lift (Unmarshal_state rawState) (Plain "LoadState: parse state");
    Cancel sessionID;;
    wrap "LoadState: persist state" (UpdateSessionState sessionID rawState);;
    let session := set_GS_State rawState session in
    Schedule session;;
    mret (mkMoveResult session state false None).

(** ** Rematch *)

(** [for _, p := range players { if svc.isBot(p) { f(p) } }] with errors ignored. *)
Definition forBots (f : uuid → M unit) (ps : list RoomPlayer) : M unit :=
  mapM_ (λ p,
    b ← isBot (RP_PlayerID p);
    if (b : bool) then try (f (RP_PlayerID p));; mret tt else mret tt) ps.

Record RematchResult := mkRematch {
  RR_Votes : list (uuid * uuid); RR_Total : Z; RR_RoomID : uuid; RR_AllVoted : bool; RR_Mode : string
}.

Definition VoteRematch (sessionID playerID : uuid) : M RematchResult :=
  session ← orElse (GetGameSession sessionID) ErrSessionNotFound;
  if is_none (GS_FinishedAt session) then throw ErrNotFinished
  else if decide (GS_Mode session = SessionModeRanked) then throw ErrRematchNotAllowedRanked
  else
    ps ← wrap "VoteRematch: list players" (ListRoomPlayers (GS_RoomID session));
    if negb (callerFound playerID ps) then throw ErrNotParticipant
    else
      wrap "VoteRematch: upsert vote" (UpsertRematchVote sessionID playerID);;
      forBots (UpsertRematchVote sessionID) ps;;
      votes ← wrap "VoteRematch: list votes" (ListRematchVotes sessionID);
      if (count votes <? count ps)%Z then
        mret (mkRematch votes (count ps) (GS_RoomID session) false (GS_Mode session))
      else
        wrap "VoteRematch: delete votes" (DeleteRematchVotes sessionID);;
        Cancel sessionID;;
        wrap "VoteRematch: reset room status" (UpdateRoomStatus (GS_RoomID session) RoomStatusWaiting);;
        mret (mkRematch votes (count ps) (GS_RoomID session) true (GS_Mode session)).

(** ** Pause and resume (runtime_pause.go) *)

Record PauseVoteResult := mkPauseVote { PV_Votes : Z; PV_Required : Z; PV_AllVoted : bool }.

(** The number of participants that are not bots, asked one by one. *)
Fixpoint humanCount (ps : list RoomPlayer) : M Z :=
  match ps with
  | [] => mret 0%Z
  | p :: ps =>
      b ← isBot (RP_PlayerID p);
      n ← humanCount ps;
      mret (if (b : bool) then n else n + 1)%Z
  end.

(** 40% of the turn timeout, in whole seconds. *)
Definition resumePenalty (n : Z) : Z := (2 * n / 5)%Z.

Definition VotePause (sessionID playerID : uuid) : M PauseVoteResult :=
  session ← orElse (GetGameSession sessionID) ErrSessionNotFound;
  if is_some (GS_FinishedAt session) then throw ErrGameOver
  else if is_some (GS_SuspendedAt session) then throw ErrAlreadyPaused
  else
    ps ← wrap "VotePause: list players" (ListRoomPlayers (GS_RoomID session));
    humans ← humanCount ps;
    if negb (callerFound playerID ps) then throw ErrNotParticipant
    else
      allVoted ← wrap "VotePause: store vote" (Store_VotePause sessionID playerID);
      (if (allVoted : bool) then
         Cancel sessionID;;
         wrap "VotePause: suspend session" (SuspendSession sessionID "pause_vote");;
         wrap "VotePause: clear votes" (ClearPauseVotes sessionID)
       else mret tt);;
      voteCount ← wrap "VotePause: count votes" (CountPauseVotes sessionID);
      mret (mkPauseVote voteCount humans allVoted).

(** The turn timer after a pause. *)
Definition scheduleResumed (sessionID : uuid) : M unit :=
  resumed ← try (GetGameSession sessionID);
  match resumed with
  | Ok s =>
      match GS_TurnTimeoutSecs s with
      | Some n => if (0 <? n)%Z then ScheduleIn (GS_ID s) (resumePenalty n * second) else mret tt
      | None => mret tt
      end
  | Err _ => mret tt
  end.

Definition VoteResume (sessionID playerID : uuid) : M PauseVoteResult :=
  session ← orElse (GetGameSession sessionID) ErrSessionNotFound;
  if is_some (GS_FinishedAt session) then throw ErrGameOver
  else if is_none (GS_SuspendedAt session) then throw ErrNotSuspended
  else
    ps ← wrap "VoteResume: list players" (ListRoomPlayers (GS_RoomID session));
    humans ← humanCount ps;
    if negb (callerFound playerID ps) then throw ErrNotParticipant
    else
      allVoted ← wrap "VoteResume: store vote" (Store_VoteResume sessionID playerID);
      (if (allVoted : bool) then
         wrap "VoteResume: resume session" (ResumeSession sessionID);;
         wrap "VoteResume: clear votes" (ClearResumeVotes sessionID);;
         scheduleResumed sessionID
       else mret tt);;
      voteCount ← wrap "VoteResume: count votes" (CountResumeVotes sessionID);
      mret (mkPauseVote voteCount humans allVoted).

(** ** The ready handshake (ready.go, runtime.go) *)

Record ReadyVoteResult := mkReadyVote {
  RV_ReadyPlayers : list string; RV_Required : Z; RV_AllReady : bool
}.

(** The bots among the participants confirm; whether a confirmation found everybody
    ready is accumulated and errors are ignored. *)
Fixpoint confirmBots (sessionID : uuid) (ps : list RoomPlayer) (allReady : bool) : M bool :=
  match ps with
  | [] => mret allReady
  | p :: ps =>
      b ← isBot (RP_PlayerID p);
      if (b : bool) then
        ready ← try (Store_VoteReady sessionID (RP_PlayerID p));
        confirmBots sessionID ps (match ready with Ok true => true | _ => allReady end)
      else confirmBots sessionID ps allReady
  end.

Definition VoteReady (sessionID playerID : uuid) : M ReadyVoteResult :=
  session ← orElse (GetGameSession sessionID) ErrSessionNotFound;
  if is_some (GS_FinishedAt session) then throw ErrGameOver
  else
    ps ← wrap "VoteReady: list players" (ListRoomPlayers (GS_RoomID session));
    if negb (callerFound playerID ps) then throw ErrNotParticipant
    else
      allReady ← wrap "VoteReady: store vote" (Store_VoteReady sessionID playerID);
      allReady ← confirmBots sessionID ps allReady;
      session ← wrap "VoteReady: reload" (GetGameSession sessionID);
      mret (mkReadyVote (GS_ReadyPlayers session) (count ps) allReady).

(** The bot that moves first, if any, is the value. *)
Definition OnAllReady (session : GameSession) : M (option uuid) :=
  CancelReady (GS_ID session);;
  Schedule session;;
  try (ClearReadyVotes (GS_ID session));;
  mret (state ← Unmarshal_state (GS_State session);
        currentID ← uuid_Parse (CurrentPlayerID state);
        MaybeFireBot currentID).

(** The bots confirm; whether somebody else is left. *)
Fixpoint startBots (sessionID : uuid) (ps : list RoomPlayer) (hasHuman : bool) : M bool :=
  match ps with
  | [] => mret hasHuman
  | p :: ps =>
      b ← isBot (RP_PlayerID p);
      if (b : bool) then
        try (Store_VoteReady sessionID (RP_PlayerID p));; startBots sessionID ps hasHuman
      else startBots sessionID ps true
  end.

(** [None] while humans have to confirm; otherwise what [OnAllReady] says. *)
Definition StartSession (session : GameSession) (readyTimeout : Z) : M (option (option uuid)) :=
  ps ← try (ListRoomPlayers (GS_RoomID session));
  hasHuman ← match ps with Ok ps => startBots (GS_ID session) ps false | Err _ => mret true end;
  if (hasHuman : bool) then ScheduleReady (GS_ID session) readyTimeout;; mret None
  else b ← OnAllReady session; mret (Some b).

(** ** Timeouts (asynq_handlers.go) *)

(** The move is broadcast as a timeout. *)
Definition timeoutResult (r : MoveResult) : MoveResult :=
  mkMoveResult (MR_Session r) (MR_State r) (MR_IsOver r)
    (if MR_IsOver r then setEndedBy EndedByTimeout <$> MR_Result r else MR_Result r).

(** What is broadcast and the bot that is woken; errors are logged. *)
Definition applyEngineTimeout (session : GameSession) (timedOutPlayer : string) (payload : data)
    : M (list (delivery MoveResult) * option uuid) :=
  match uuid_Parse timedOutPlayer with
  | None => mret ([], None)
  | Some playerUUID =>
      result ← try (ApplyMove (GS_ID session) playerUUID payload);
      match result with
      | Err (Panic what) => throw (Panic what)
      | Err _ => mret ([], None)
      | Ok result =>
          ps ← try (ListRoomPlayers (GS_RoomID session));
          let sent := BroadcastMove (timeoutResult result) (players_or_none ps) in
          if MR_IsOver result then
            try (UpdateGameResultEndedBy (GS_ID session) EndedByTimeout);;
            mret (sent, None)
          else
            updated ← try (GetGameSession (GS_ID session));
            match updated with Ok s => Schedule s | Err _ => mret tt end;;
            mret (sent, nextUUID ← uuid_Parse (CurrentPlayerID (MR_State result)); MaybeFireBot nextUUID)
      end
  end.

Definition onTimeout (sessionID : uuid) : M (list (delivery MoveResult) * option uuid) :=
  session ← try (GetGameSession sessionID);
  match session with
  | Err _ => mret ([], None)
  | Ok session =>
      if is_some (GS_FinishedAt session) || is_some (GS_SuspendedAt session) then mret ([], None)
      else
        cfg ← GetGameConfig (GS_GameID session);
        match Unmarshal_state (GS_State session), Get (GS_GameID session) reg with
        | Some state, Ok game =>
            match TimeoutMove game with
            | Some f => applyEngineTimeout session (CurrentPlayerID state) (f (C_TimeoutPenalty cfg))
            | None => mret ([], None)
            end
        | _, _ => mret ([], None)
        end
  end.

Definition absent (session : GameSession) (p : RoomPlayer) : bool :=
  bool_decide (uuid_String (RP_PlayerID p) ∉ GS_ReadyPlayers session).

Definition readyTimeoutParams (sessionID : uuid) (session : GameSession) (ps : list RoomPlayer)
    : CreateGameResultParams :=
  let isDraw := forallb (absent session) ps in
  let winnerID :=
    if isDraw then None else last (RP_PlayerID <$> filter (λ p, absent session p = false) ps) in
  mkResultParams sessionID (GS_GameID session) winnerID isDraw EndedByReadyTimeout
    ((λ p, mkResultPlayer (RP_PlayerID p) (RP_Seat p)
       (if isDraw then OutcomeDraw
        else if absent session p then OutcomeLoss else OutcomeWin)) <$> ps).

Definition onReadyTimeout (sessionID : uuid) : M unit :=
  session ← try (GetGameSession sessionID);
  match session with
  | Err _ => mret tt
  | Ok session =>
      if is_some (GS_FinishedAt session) || is_some (GS_SuspendedAt session) then mret tt
      else
        ps ← try (ListRoomPlayers (GS_RoomID session));
        match ps with
        | Err _ => mret tt
        | Ok ps =>
            if negb (existsb (absent session) ps) then mret tt
            else
              r ← try (FinishSession sessionID);
              match r with
              | Err _ => mret tt
              | Ok _ =>
                  try (UpdateRoomStatus (GS_RoomID session) RoomStatusFinished);;
                  try (CreateGameResult (readyTimeoutParams sessionID session ps));;
                  mret tt
              end
        end
  end.

(** The sessions whose turn is over already are the value: [onTimeout] runs for
    each of them in a goroutine. *)
Definition ReschedulePending : M (list uuid) :=
  sessions ← try ListSessionsNeedingTimer;
  match sessions with
  | Err _ => mret []
  | Ok sessions =>
      immediate ← mapM' (λ s,
        match GS_TurnTimeoutSecs s with
        | Some n =>
            if (n <=? 0)%Z then mret None
            else
              t ← now;
              if (GS_LastMoveAt s + n * second - t <=? 0)%Z then mret (Some (GS_ID s))
              else Schedule s;; mret None
        | None => mret None
        end) sessions;
      mret (omap id immediate)
  end.

End Service.
End Runtime.
