(* ===== verification/Grpc.v ===== *)
(** The gRPC interface of the game server (internal/platform/grpc): what the match, rating
    and websocket services ask of rooms and sessions. *)
From S2P Require Import Prelude Json Engine Randutil Backend Store Lobby Runtime.

Module Grpc.

(** What ends a call early, through its callers: a run-time panic. *)
Fixpoint panics (e : error) : bool :=
  match e with
  | Panic _ => true
  | Game_error g => is_panic g
  | Wrap _ e => panics e
  | _ => false
  end.

Section Grpc.
Context `{U : UUID} `{E : Entropy} `{S : !Server} (reg : registry).

Inductive code : Type := InvalidArgument | NotFound | Internal.

(** An answer, or a status. *)
Abbreviation rpc A := (M (result (code * string) A)).

Definition fail {A} (c : code) (msg : string) : rpc A := mret (Err (c, msg)).

(** [x, err := m] followed by a check. *)
Definition checked {A B} (m : M A) (c : code) (msg : string) (k : A → rpc B) : rpc B :=
  r ← try m;
  match r with
  | Ok a => k a
  | Err e => if panics e then throw e else fail c msg
  end.

Definition parse_id {A} (raw msg : string) (k : uuid → rpc A) : rpc A :=
  match uuid_Parse raw with Some u => k u | None => fail InvalidArgument msg end.

(** ** LobbyService (lobby_handler.go) *)

Record CreateRankedRoomResponse := mkRankedRoom { RoomId : string; RoomCode : string }.

Definition CreateRankedRoom (PlayerAId PlayerBId GameId : string) : rpc CreateRankedRoomResponse :=
  if decide (PlayerAId = "" ∨ PlayerBId = "" ∨ GameId = "") then
    fail InvalidArgument "player_a_id, player_b_id, and game_id are required"
  else
    parse_id PlayerAId "invalid player_a_id" (λ playerA,
    parse_id PlayerBId "invalid player_b_id" (λ playerB,
    checked (Lobby.Lobby_CreateRoom reg GameId playerA None) Internal "create room" (λ roomView,
    let room := Lobby.V_Room roomView in
    checked (AddPlayerToRoom (R_ID room) playerB 1) Internal "add player b to room" (λ _,
    checked (SetRoomSetting (R_ID room) "session_mode" SessionModeRanked) Internal "set session_mode" (λ _,
    mret (Ok (mkRankedRoom (uuid_String (R_ID room)) (R_Code room)))))))).

(** ** GameService (game_handler.go) *)

(** The session, and what [Runtime.StartSession] says about the bots. *)
Definition StartSession (bots : list uuid) (timeout : Z) (RoomId Mode : string)
    : rpc (string * option (option uuid)) :=
  if decide (RoomId = "") then fail InvalidArgument "room_id is required"
  else
    parse_id RoomId "invalid room_id" (λ roomID,
    checked (GetRoom roomID) NotFound "room not found" (λ room,
    let mode := if decide (Mode = "ranked") then SessionModeRanked else SessionModeCasual in
    checked (Lobby.StartGame reg roomID (R_OwnerID room) mode) Internal "start game" (λ session,
    checked (Runtime.StartSession bots session timeout) Internal "start session" (λ started,
    mret (Ok (uuid_String (GS_ID session), started)))))).

Record IsParticipantResponse := mkParticipant { IsParticipant_ : bool; SpectatorsAllowed : bool }.

Definition IsParticipant (RoomId PlayerId : string) : rpc IsParticipantResponse :=
  if decide (RoomId = "" ∨ PlayerId = "") then fail InvalidArgument "room_id and player_id are required"
  else
    parse_id RoomId "invalid room_id" (λ roomID,
    parse_id PlayerId "invalid player_id" (λ playerID,
    checked (ListRoomPlayers roomID) Internal "list room players" (λ ps,
    checked (GetRoomSettings roomID) Internal "get room settings" (λ settings,
    mret (Ok (mkParticipant (Runtime.callerFound playerID ps)
      (bool_decide (default "" (settings !! "allow_spectators") = "yes")))))))).

Record LoggedMove := mkLoggedMove {
  MoveNumber : Z; PlayerId : string; LM_Payload : data; AppliedAt : Z
}.

(** [int32(n)] *)
Definition int32 (n : Z) : Z := ((n + 2 ^ 31) mod 2 ^ 32 - 2 ^ 31)%Z.

Definition GetMoveLog (SessionId : string) : rpc (string * string * list LoggedMove) :=
  if decide (SessionId = "") then fail InvalidArgument "session_id is required"
  else
    parse_id SessionId "invalid session_id" (λ sessionID,
    checked (GetGameSession sessionID) NotFound "session not found" (λ session,
    checked (ListSessionMoves sessionID 200 0) Internal "list moves" (λ ms,
    mret (Ok (uuid_String sessionID, GS_GameID session,
      (λ m, mkLoggedMove (int32 (M_MoveNumber m)) (uuid_String (M_PlayerID m)) (M_Payload m) (M_AppliedAt m))
        <$> ms))))).

Definition GetRoomPlayers (RoomId : string) : rpc (list string) :=
  if decide (RoomId = "") then fail InvalidArgument "room_id is required"
  else
    parse_id RoomId "invalid room_id" (λ roomID,
    checked (ListRoomPlayers roomID) Internal "list room players" (λ ps,
    mret (Ok ((λ p, uuid_String (RP_PlayerID p)) <$> ps)))).

End Grpc.
End Grpc.
