(* ===== verification/Atomicity.v ===== *)
(** The transaction of a move, statement by statement: what a committed move
    leaves in the tables, whatever failures it ran into. *)
From S2P Require Import Prelude Json Engine Randutil Backend Store BackendLogic Lobby Runtime.

Section Atomicity.
Context `{U : UUID} `{E : Entropy} `{S : !Server} (reg : registry).

(** The outcome rows of a result. *)
Definition insert_outcomes (result : uuid) (ps : list GameResultPlayer)
    (m : gmap (uuid * uuid) (Z * string)) : gmap (uuid * uuid) (Z * string) :=
  foldl (λ m p, <[(result, GP_PlayerID p) := (GP_Seat p, GP_Outcome p)]> m) m ps.

Definition is_result_of (params : CreateGameResultParams) (gr : GameResult) : Prop :=
  G_SessionID gr = GR_SessionID params ∧ G_GameID gr = GR_GameID params ∧
  G_WinnerID gr = GR_WinnerID params ∧ G_IsDraw gr = GR_IsDraw params ∧
  G_EndedBy gr = GR_EndedBy params.

(** The rows of a move: the move itself and the session after it. *)
Definition with_move (k : uuid) (s : GameSession) (m : StoreMove) (f : GameSession → GameSession)
    (d : DB) : DB :=
  set_sessions (alter f k (game_sessions d))
    (set_moves (<[(k, (GS_MoveCount s + 1)%Z) := m]> (moves d)) d).

(** The rows of a game that has ended. *)
Definition with_end (room : uuid) (t : Z) (gr : GameResult) (ps : list GameResultPlayer) (d : DB) : DB :=
  set_result_players (insert_outcomes (G_ID gr) ps (game_result_players d))
    (set_results (<[G_ID gr := gr]> (game_results d))
      (set_rooms (alter (room_set_status RoomStatusFinished t) room (rooms d)) d)).

(** What a committed move changes, and nothing else. *)
Definition committed (d : DB) (k : uuid) (s : GameSession) (pid : uuid) (payload : data)
    (g : Game) (st' : GameState) (gr : option GameResult) (d' : DB) : Prop :=
  let '(over, result) := Runtime.over_result g st' in
  moves d !! (k, (GS_MoveCount s + 1)%Z) = None ∧
  ∃ m t1 t2, M_SessionID m = k ∧ M_PlayerID m = pid ∧ M_Payload m = json_rt <$> payload ∧
    M_StateAfter m = Some (reload st') ∧ M_MoveNumber m = (GS_MoveCount s + 1)%Z ∧
    if over then
      let params := Runtime.buildGameResultParams s result (players_of d (GS_RoomID s)) in
      ∃ r, gr = Some r ∧ is_result_of params r ∧ game_results d !! G_ID r = None ∧
        ∃ t3, d' = with_end (GS_RoomID s) t3 r (GR_Players params)
          (with_move k s m (λ s, session_set_finished (Some t2)
             (session_set_last_move t1 (session_set_state (Some (reload st')) s))) d)
    else
      gr = None ∧
      d' = with_move k s m (λ s, session_set_last_move t1 (session_set_state (Some (reload st')) s)) d.

(** ** The result *)

Definition same_outside (o o' : Obs) : Prop := o_tasks o' = o_tasks o ∧ o_pub o' = o_pub o.

Lemma same_outside_refl o : same_outside o o.
Proof. done. Qed.
Lemma same_outside_fail o o' : same_outside o o' → same_outside o (o_fail o').
Proof. done. Qed.
Lemma same_outside_db d o o' : same_outside o o' → same_outside o (o_set_db d o').
Proof. done. Qed.

Lemma wp_create_result params o Φ :
  o_ab o = false →
  (∀ e o', same_outside o o' → Φ (Err e) o') →
  (∀ gr o', same_outside o o' → is_result_of params gr → game_results (o_db o) !! G_ID gr = None →
     o_db o' = set_result_players (insert_outcomes (G_ID gr) (GR_Players params) (game_result_players (o_db o)))
       (set_results (<[G_ID gr := gr]> (game_results (o_db o))) (o_db o)) →
     Φ (Ok gr) o') →
  wp (create_result params) Φ o.
Proof.
  intros Hab He Hok. unfold create_result.
  assert (∀ dur o1, same_outside o o1 → o_db o1 = o_db o →
    wp (gr ← wrap "CreateGameResult insert result" (exec (λ t id d,
      if is_none (game_results d !! id)
         && negb (is_none (game_sessions d !! GR_SessionID params))
         && match GR_WinnerID params with Some w => negb (is_none (players d !! w)) | None => true end
         && bool_decide (GR_EndedBy params ∈ ended_by_allowed)
      then let r := mkGameResult id (GR_SessionID params) (GR_GameID params) (GR_WinnerID params)
                      (GR_IsDraw params) (GR_EndedBy params) dur t in
           Some (r, set_results (<[id := r]> (game_results d)) d)
      else None));
    mapM_ (insert_result_player (G_ID gr)) (GR_Players params);; mret gr) Φ o1) as Hrest.
  { intros dur o1 S1 D1. apply wp_bind, wp_wrap, wp_exec; [intros e; by apply He|].
    intros Ha t id gr d Hf. rewrite D1 in Hf. destruct (game_results (o_db o) !! id) eqn:Hid; cbn in Hf; [done|].
    destruct (negb _ && _ && _) in Hf; [|done]. injection Hf as Hgr <-.
    apply wp_bind. eapply (wp_mapM_ _ (λ l o2, ∃ l0, l0 ++ l = GR_Players params ∧ same_outside o o2 ∧
      o_db o2 = set_result_players (insert_outcomes (G_ID gr) l0 (game_result_players (o_db o)))
        (set_results (<[G_ID gr := gr]> (game_results (o_db o))) (o_db o)))).
    - exists []. split_and!; [done|by apply same_outside_db|]. cbn. rewrite Hgr.
      replace (G_ID gr) with id by by subst gr. by destruct (o_db o).
    - intros p l' o2 (l0&Hl&S2&D2). apply wp_wrap, wp_exec; [intros e; by apply He|].
      intros _ t' id' a d' Hf'. destruct (_ && _ && _ && _) in Hf'; [|done]. injection Hf' as _ <-.
      exists (l0 ++ [p]). split_and!; [by rewrite <- app_assoc|by apply same_outside_db|].
      cbn. rewrite D2. unfold insert_outcomes. by rewrite foldl_app.
    - intros o2 (l0&Hl&S2&D2). rewrite app_nil_r in Hl. subst l0. apply wp_ret, Hok; try done.
      + by subst gr.
      + by replace (G_ID gr) with id by by subst gr. }
  apply wp_bind, wp_try, wp_queryRow.
  - intros e. by apply Hrest.
  - intros _ t. destruct (_ ≫= _); by apply Hrest.
Qed.

Lemma wp_CreateGameResult_tx params o Φ :
  o_tx o = true → wp (create_result params) Φ o → wp (CreateGameResult params) Φ o.
Proof.
  intros Ht H w Hw. unfold CreateGameResult. specialize (H w Hw). destruct (tx_time w) eqn:Etx; [done|].
  exfalso. rewrite <- Hw in Ht. cbn in Ht. by rewrite Etx in Ht.
Qed.

(** ** The statements of a move *)

Lemma wp_persistMove k s pid payload g st' o :
  let '(over, result) := Runtime.over_result g st' in
  o_tx o = true → o_ab o = false →
  wp (Runtime.persistMove k s pid (json_rt <$> payload) (Some (reload st')) over result)
    (λ r o', same_outside o o' ∧ ∀ gr, r = Ok gr → o_ab o' = false →
       committed (o_db o) k s pid payload g st' gr (o_db o')) o.
Proof.
  unfold committed. destruct (Runtime.over_result g st') as [over result]. intros Ht Ha.
  unfold Runtime.persistMove.
  apply wp_bind, wp_wrap, wp_wrap, wp_exec; [by intros|]. intros _ t id m d1 Hm.
  cbn [RM_SessionID RM_MoveNumber] in Hm.
  destruct (moves (o_db o) !! (k, (GS_MoveCount s + 1)%Z)) eqn:Hmv; cbn in Hm; [done|].
  destruct (_ && _ && _) in Hm; [|done]. injection Hm as Hm <-.
  apply wp_bind, wp_wrap, wp_wrap, wp_update; [by intros|]. intros _ t2.
  apply wp_bind, wp_wrap, wp_update; [by intros|]. intros _ t3. rewrite Hm.
  destruct over.
  - apply wp_bind, wp_wrap, wp_wrap, wp_update; [by intros|]. intros _ t4.
    apply wp_bind, wp_try, wp_wrap, wp_exec.
    { intros e. apply wp_bind, wp_wrap, wp_wrap, wp_query; [by intros|]. cbn. by rewrite Ht. }
    intros _ t5 id' a d2 Hd2. destruct (_ || _) in Hd2; [|done]. injection Hd2 as _ <-.
    apply wp_bind, wp_wrap, wp_wrap, wp_query; [by intros|]. intros _ t6.
    apply wp_bind, wp_wrap, wp_CreateGameResult_tx; [done|]. apply wp_create_result; [done|by intros|].
    intros gr o' S' Hp Hn Hd'. apply wp_ret. split; [exact S'|]. intros ? [= <-] _. split; [done|].
    exists m, t3, t4. subst m. split_and!; try done. exists gr. split_and!; try apply Hp; [done|exact Hn|].
    exists t5. rewrite Hd'. cbn [o_db o_set_db]. unfold with_end, with_move.
    cbn [game_sessions set_sessions set_moves set_rooms rooms moves players room_players
      room_settings game_results game_result_players rematch_votes session_pause_votes game_configs].
    rewrite <- !alter_compose. reflexivity.
  - apply wp_ret. split; [done|]. intros ? [= <-] _. split; [done|]. exists m, t3, t3. subst m.
    split_and!; try done. unfold with_move. cbn. by rewrite <- alter_compose.
Qed.

End Atomicity.
