(* ===== verification/Consistency.v ===== *)
(** What the tables of the game server keep true between requests: keys, games
    that are logs of legal moves, results of finished sessions only, and no more
    people in a room than it has seats; with one lemma per way the services change a table. *)
From S2P Require Import Prelude Json Engine Randutil Backend Store BackendLogic Lobby Runtime.

(** ** Counting rows *)

Section Rows.
Context {K V : Type} `{Countable K} (P : K → V → bool).

Lemma rows_perm (l1 l2 : list (K * V)) : l1 ≡ₚ l2 →
  length (filter (λ kv, P kv.1 kv.2 = true) l1) = length (filter (λ kv, P kv.1 kv.2 = true) l2).
Proof. intros Hp. by rewrite Hp. Qed.

Lemma rows_insert (m : gmap K V) k v : m !! k = None →
  length (rows P (<[k := v]> m)) = (if P k v then 1 else 0) + length (rows P m).
Proof.
  intros Hk. unfold rows. rewrite (rows_perm _ _ (map_to_list_insert m k v Hk)).
  rewrite filter_cons. cbn. destruct (P k v); cbn; done.
Qed.

Lemma rows_delete (m : gmap K V) k v : m !! k = Some v →
  length (rows P m) = (if P k v then 1 else 0) + length (rows P (delete k m)).
Proof.
  intros Hk. rewrite <- (insert_delete_id m k v Hk) at 1. apply rows_insert, lookup_delete_eq.
Qed.

Lemma rows_delete_le (m : gmap K V) k : length (rows P (delete k m)) ≤ length (rows P m).
Proof.
  destruct (m !! k) as [v|] eqn:Hk; [rewrite (rows_delete m k v Hk); lia|].
  by rewrite delete_id.
Qed.

Lemma elem_of_rows (m : gmap K V) k v : (k, v) ∈ rows P m ↔ m !! k = Some v ∧ P k v = true.
Proof. unfold rows. rewrite list_elem_of_filter, elem_of_map_to_list. cbn. tauto. Qed.

Lemma rows_nil (m : gmap K V) : (∀ k v, m !! k = Some v → P k v = false) → rows P m = [].
Proof.
  intros Hm. destruct (rows P m) as [|[k v] l] eqn:Er; [done|]. exfalso.
  assert ((k, v) ∈ rows P m) as He by (rewrite Er; set_solver).
  apply elem_of_rows in He as [Hk Hp]. by rewrite (Hm _ _ Hk) in Hp.
Qed.

Lemma rows_NoDup (m : gmap K V) : NoDup (rows P m).
Proof. apply NoDup_filter, NoDup_map_to_list. Qed.

Lemma rows_filter_le (Q : K * V → Prop) `{!∀ x, Decision (Q x)} (m : gmap K V) :
  length (rows P (filter Q m)) ≤ length (rows P m).
Proof.
  induction m as [|k v m Hk Hf IH] using map_first_key_ind; [done|].
  rewrite rows_insert by done. destruct (decide (Q (k, v))).
  - rewrite map_filter_insert_True by done.
    rewrite rows_insert by (rewrite map_lookup_filter, Hk; done). lia.
  - rewrite map_filter_insert_False by done. rewrite delete_id by done. lia.
Qed.

End Rows.

(** Rows that are also rows of another selection. *)
Lemma rows_le {K V} `{Countable K} (P Q : K → V → bool) (m m' : gmap K V) :
  (∀ k v, m !! k = Some v → P k v = true → m' !! k = Some v ∧ Q k v = true) →
  length (rows P m) ≤ length (rows Q m').
Proof.
  intros Hle. apply submseteq_length, NoDup_submseteq; [apply rows_NoDup|].
  intros [k v]. rewrite !elem_of_rows. intros [Hk Hp]. by apply Hle.
Qed.

Section Consistency.
Context `{U : UUID} `{E : Entropy} `{S : !Server} (reg : registry).

(** ** Logged games *)

(** The moves [ms] lead from the dealt state [st0] to the state [st]. Each is a
    validated move of the player to move, executed on the state decoded from the
    database, recorded with the state after it, and made while the game was on. *)
Inductive log (g : Game) (st0 : GameState) : list StoreMove → GameState → Prop :=
  | log_nil : log g st0 [] st0
  | log_move ms st m payload ts st' :
      log g st0 ms st →
      ms = [] ∨ (IsOver g st).1 = false →
      CurrentPlayerID st = uuid_String (M_PlayerID m) →
      ValidateMove g (reload st) (mkMove (uuid_String (M_PlayerID m)) payload ts) = Ok tt →
      Engine.ApplyMove g (reload st) (mkMove (uuid_String (M_PlayerID m)) payload ts) = Ok st' →
      M_Payload m = json_rt <$> payload →
      M_StateAfter m = Some (reload st') →
      log g st0 (ms ++ [m]) st'.

(** The moves of a session are numbered from one without gaps and are a log of
    its game, from a state dealt by [Init] to the stored state; a session that is
    not finished holds a game that is not over. *)
Definition session_history (d : DB) (s : GameSession) : Prop :=
  ∃ g seed ps st0 ms st,
    Get (GS_GameID s) reg = Ok g ∧
    Init g seed ps = Ok st0 ∧
    GS_MoveCount s = Z.of_nat (length ms) ∧
    (∀ n, moves d !! (GS_ID s, n) = if decide (1 ≤ n)%Z then ms !! Z.to_nat (n - 1) else None) ∧
    log g st0 ms st ∧
    GS_State s = Some (reload st) ∧
    (GS_FinishedAt s = None → ms = [] ∨ (IsOver g st).1 = false).

Definition seats_taken (d : DB) (room : uuid) : nat :=
  length (rows (λ k _, bool_decide (k.1 = room)) (room_players d)).

(** The people in a room: its players that are not bots. *)
Definition is_bot (d : DB) (q : uuid) : bool :=
  match players d !! q with Some x => P_IsBot x | None => false end.
Definition people (d : DB) (room : uuid) : nat :=
  length (rows (λ k _, bool_decide (k.1 = room) && negb (is_bot d k.2)) (room_players d)).

Lemma people_seats d room : people d room ≤ seats_taken d room.
Proof. apply rows_le. intros k v Hk. rewrite andb_true_iff. by intros [? _]. Qed.

Record consistent (d : DB) : Prop := {
  session_key : ∀ k s, game_sessions d !! k = Some s → GS_ID s = k;
  room_key : ∀ k r, rooms d !! k = Some r → R_ID r = k;
  member_room : ∀ k p x, room_players d !! (k, p) = Some x → is_Some (rooms d !! k);
  move_session : ∀ k n m, moves d !! (k, n) = Some m → is_Some (game_sessions d !! k);
  history : ∀ k s, game_sessions d !! k = Some s → session_history d s;
  result_session : ∀ k r, game_results d !! k = Some r →
    ∃ s, game_sessions d !! G_SessionID r = Some s ∧ is_Some (GS_FinishedAt s);
  result_unique : ∀ k1 k2 r1 r2, game_results d !! k1 = Some r1 → game_results d !! k2 = Some r2 →
    G_SessionID r1 = G_SessionID r2 → k1 = k2;
  capacity : ∀ k r, rooms d !! k = Some r → (Z.of_nat (people d k) ≤ R_MaxPlayers r)%Z
}.

(** ** How a database may change *)

(** What no request changes about a session. *)
Definition later (s s' : GameSession) : Prop :=
  GS_RoomID s' = GS_RoomID s ∧ GS_GameID s' = GS_GameID s ∧ GS_Mode s' = GS_Mode s ∧
  GS_StartedAt s' = GS_StartedAt s ∧ (GS_MoveCount s ≤ GS_MoveCount s')%Z ∧
  (∀ t, GS_FinishedAt s = Some t → GS_FinishedAt s' = Some t ∧ GS_State s' = GS_State s ∧
     GS_MoveCount s' = GS_MoveCount s).

Record evolves (d d' : DB) : Prop := {
  ev_session : ∀ k s, game_sessions d !! k = Some s →
    ∃ s', game_sessions d' !! k = Some s' ∧ later s s';
  ev_moves : moves d ⊆ moves d'
}.

#[export] Instance later_preorder : PreOrder later.
Proof.
  split; [by intros s; repeat split; auto with lia|].
  intros s1 s2 s3 (?&?&?&?&?&F1) (?&?&?&?&?&F2). unfold later. split_and!; [congruence..|lia|].
  intros t Ht. destruct (F1 t Ht) as (Ht'&?&?). destruct (F2 t Ht') as (?&?&?). split_and!; congruence.
Qed.

#[export] Instance evolves_preorder : PreOrder evolves.
Proof.
  split.
  - intros d. split; [|done]. intros k s Hk. by exists s.
  - intros d1 d2 d3 [H1 M1] [H2 M2]. split; [|by etrans].
    intros k s (s2&Hs2&L1)%H1. destruct (H2 _ _ Hs2) as (s3&Hs3&L2). exists s3. split; [done|by etrans].
Qed.

(** The step a request takes from [d]. *)
Definition sound (d d' : DB) : Prop := consistent d' ∧ evolves d d'.

Lemma sound_refl d : consistent d → sound d d.
Proof. by split. Qed.

Lemma sound_trans d1 d2 d3 : sound d1 d2 → sound d2 d3 → sound d1 d3.
Proof. intros [_ E1] [C E2]. split; [done|by etrans]. Qed.

(** Tables nothing above mentions, and players as long as bots stay bots. *)
Lemma sound_same d d' :
  consistent d → rooms d' = rooms d → room_players d' = room_players d →
  game_sessions d' = game_sessions d → moves d' = moves d → game_results d' = game_results d →
  (∀ q, is_bot d q = true → is_bot d' q = true) →
  sound d d'.
Proof.
  intros [] Hr Hp Hs Hm Hg Hb. split; [split|split].
  all: unfold session_history in *; rewrite ?Hr, ?Hp, ?Hs, ?Hm, ?Hg; try done.
  - intros k r Hk. transitivity (Z.of_nat (people d k)); [|auto]. apply inj_le. unfold people. rewrite Hp.
    apply rows_le. intros [k' q] v Hv. cbn. rewrite !andb_true_iff, !negb_true_iff. intros [? Hq].
    split_and!; try done. destruct (is_bot d q) eqn:Hd; [|done]. by rewrite (Hb _ Hd) in Hq.
  - intros k s Hk. by exists s.
Qed.

(** A change of a session that keeps its game. *)
Definition keeps_game (f : GameSession → GameSession) (s : GameSession) : Prop :=
  GS_ID (f s) = GS_ID s ∧ GS_RoomID (f s) = GS_RoomID s ∧ GS_GameID (f s) = GS_GameID s ∧
  GS_Mode (f s) = GS_Mode s ∧ GS_StartedAt (f s) = GS_StartedAt s ∧
  GS_State (f s) = GS_State s ∧ GS_MoveCount (f s) = GS_MoveCount s ∧
  (∀ t, GS_FinishedAt s = Some t → GS_FinishedAt (f s) = Some t).

Lemma keeps_game_history d d' f s :
  keeps_game f s → moves d' = moves d → session_history d s → session_history d' (f s).
Proof.
  intros (Hi&_&Hg&_&_&Hst&Hc&Hf) Hm (g&seed&ps&st0&ms&st&H1&H2&H3&H4&H5&H6&H7).
  exists g, seed, ps, st0, ms, st. rewrite Hi, Hg, Hst, Hc, Hm. split_and!; try done.
  intros HN. apply H7. destruct (GS_FinishedAt s) as [t|]; [|done]. by rewrite (Hf t) in HN.
Qed.

Lemma sound_session d f k :
  consistent d → (∀ s, game_sessions d !! k = Some s → keeps_game f s) →
  sound d (set_sessions (alter f k (game_sessions d)) d).
Proof.
  intros C Hf. assert (∀ k' s', alter f k (game_sessions d) !! k' = Some s' →
    ∃ s, game_sessions d !! k' = Some s ∧ ((k' = k ∧ s' = f s) ∨ s' = s)) as Hinv.
  { intros k' s'. destruct (decide (k = k')) as [<-|Hne].
    - rewrite lookup_alter_eq. intros (s&->&Hs)%fmap_Some. eauto.
    - rewrite lookup_alter_ne by done. eauto. }
  assert (∀ k' s, game_sessions d !! k' = Some s → ∃ s', alter f k (game_sessions d) !! k' = Some s' ∧
    later s s') as Hfwd.
  { intros k' s Hs. destruct (decide (k = k')) as [<-|Hne].
    - exists (f s). rewrite lookup_alter_eq, Hs. split; [done|].
      destruct (Hf _ Hs) as (?&?&?&?&?&?&?&?). repeat split; eauto; lia.
    - exists s. by rewrite lookup_alter_ne. }
  split; [split|split]; cbn.
  - intros k' s' (s&Hs&[[-> ->]| ->])%Hinv; [|by eapply (session_key _ C)].
    destruct (Hf _ Hs) as (->&_). by eapply (session_key _ C).
  - apply C.
  - apply C.
  - intros k' n m Hm. destruct (move_session _ C _ _ _ Hm) as [s Hs].
    destruct (Hfwd _ _ Hs) as (s'&->&_). eauto.
  - intros k' s' (s&Hs&[[-> ->]| ->])%Hinv.
    + eapply keeps_game_history; [by apply Hf|done|]. exact (history _ C _ _ Hs).
    + by eapply (history _ C).
  - intros k' r Hr. destruct (result_session _ C _ _ Hr) as (s&Hs&[t Ht]).
    destruct (Hfwd _ _ Hs) as (s'&Hs'&_&_&_&_&_&HF). exists s'. split; [done|]. eexists. by apply HF.
  - apply C.
  - apply C.
  - exact Hfwd.
  - done.
Qed.

(** The moves of a session after one more is recorded. *)
Lemma numbered (t : gmap (uuid * Z) StoreMove) k (ms : list StoreMove) m n :
  (∀ n, t !! (k, n) = if decide (1 ≤ n)%Z then ms !! Z.to_nat (n - 1) else None) →
  <[(k, (Z.of_nat (length ms) + 1)%Z) := m]> t !! (k, n) =
    if decide (1 ≤ n)%Z then (ms ++ [m]) !! Z.to_nat (n - 1) else None.
Proof.
  intros Hms. destruct (decide (n = Z.of_nat (length ms) + 1)%Z) as [->|Hn].
  - rewrite lookup_insert_eq, decide_True by lia. rewrite lookup_app_r by lia.
    by replace (Z.to_nat _ - length ms) with 0 by lia.
  - rewrite lookup_insert_ne by congruence. rewrite Hms. case_decide; [|done].
    destruct (decide (Z.to_nat (n - 1) < length ms)) as [Hl|Hl]; [by rewrite lookup_app_l|].
    rewrite !lookup_ge_None_2; [done|rewrite length_app; cbn; lia|lia].
Qed.

(** A new session of a dealt game. *)
Lemma sound_session_insert d s g seed ps st0 :
  consistent d → game_sessions d !! GS_ID s = None →
  Get (GS_GameID s) reg = Ok g → Init g seed ps = Ok st0 → GS_MoveCount s = 0%Z →
  GS_State s = Some (reload st0) →
  sound d (set_sessions (<[GS_ID s := s]> (game_sessions d)) d).
Proof.
  intros C Hn Hg HI Hc Hst. split; [split|split]; cbn; try apply C.
  - intros k s'. rewrite lookup_insert_Some. intros [[<- <-]|[_ Hs]]; [done|by eapply (session_key _ C)].
  - intros k n m Hm. apply lookup_insert_is_Some'. right. by eapply (move_session _ C).
  - intros k s'. rewrite lookup_insert_Some. intros [[<- <-]|[_ Hs]]; [|by eapply (history _ C)].
    exists g, seed, ps, st0, [], st0. split_and!; try done; [|constructor|by left].
    intros n. cbn. transitivity (@None StoreMove); [|by case_decide].
    destruct (moves d !! _) eqn:Em; [|done].
    apply (move_session _ C) in Em as [? Em]. congruence.
  - intros k r Hr. destruct (result_session _ C _ _ Hr) as (s'&Hs'&?). exists s'.
    rewrite lookup_insert_ne; [done|]. intros Heq. rewrite Heq in Hn. congruence.
  - intros k s' Hs'. exists s'. rewrite lookup_insert_ne; [done|]. congruence.
  - done.
Qed.

(** A recorded move with the state after it; a game that is over then is finished. *)
Lemma sound_move d k s g st payload ts st' m f :
  consistent d → game_sessions d !! k = Some s → GS_FinishedAt s = None →
  Get (GS_GameID s) reg = Ok g → GS_State s = Some st →
  CurrentPlayerID st = uuid_String (M_PlayerID m) →
  ValidateMove g st (mkMove (uuid_String (M_PlayerID m)) payload ts) = Ok tt →
  Engine.ApplyMove g st (mkMove (uuid_String (M_PlayerID m)) payload ts) = Ok st' →
  M_Payload m = json_rt <$> payload → M_StateAfter m = Some (reload st') →
  moves d !! (k, (GS_MoveCount s + 1)%Z) = None →
  GS_ID (f s) = GS_ID s → GS_RoomID (f s) = GS_RoomID s → GS_GameID (f s) = GS_GameID s →
  GS_Mode (f s) = GS_Mode s → GS_StartedAt (f s) = GS_StartedAt s →
  GS_State (f s) = Some (reload st') → GS_MoveCount (f s) = (GS_MoveCount s + 1)%Z →
  (GS_FinishedAt (f s) = None → (IsOver g st').1 = false) →
  sound d (set_sessions (alter f k (game_sessions d))
             (set_moves (<[(k, (GS_MoveCount s + 1)%Z) := m]> (moves d)) d)).
Proof.
  intros C Hs Hf Hg Hst Hcur Hv Ha Hp Hafter Hfresh F1 F2 F3 F4 F5 F6 F7 F8.
  pose proof (session_key _ C _ _ Hs) as Hkey.
  assert (alter f k (game_sessions d) = <[k := f s]> (game_sessions d)) as Halt.
  { apply map_eq. intros k'. destruct (decide (k = k')) as [<-|Hne].
    - by rewrite lookup_alter_eq, lookup_insert_eq, Hs.
    - by rewrite lookup_alter_ne, lookup_insert_ne. }
  split; [split|split]; cbn; rewrite ?Halt; try apply C.
  - intros k' s'. rewrite lookup_insert_Some. intros [[<- <-]|[_ Hs']]; [congruence|by eapply (session_key _ C)].
  - intros k' n m'. rewrite lookup_insert_Some. intros [[[= <- <-] _]|[_ Hm]].
    + by rewrite lookup_insert_eq.
    + apply lookup_insert_is_Some'. right. by eapply (move_session _ C).
  - intros k' s'. rewrite lookup_insert_Some. intros [[<- <-]|[Hne Hs']].
    + destruct (history _ C _ _ Hs) as (g'&seed&ps&st0&ms&st1&Hg'&HI&Hc&Hms&Hlog&Hst1&Hov).
      replace g' with g in * by congruence. rewrite Hst in Hst1. injection Hst1 as ->.
      exists g, seed, ps, st0, (ms ++ [m]), st'.
      rewrite F1, F3, F6, F7. split_and!; try done.
      * rewrite length_app, Hc. cbn. lia.
      * intros n. cbn. rewrite Hkey, Hc. rewrite Hkey in Hms. by apply numbered.
      * econstructor; eauto.
      * auto.
    + destruct (history _ C _ _ Hs') as (g'&seed&ps&st0&ms&st1&?&?&?&Hms&?&?&?).
      exists g', seed, ps, st0, ms, st1. split_and!; try done.
      intros n. cbn. rewrite lookup_insert_ne; [done|].
      rewrite (session_key _ C _ _ Hs'). congruence.
  - intros k' r Hr. destruct (result_session _ C _ _ Hr) as (s'&Hs'&?). exists s'.
    rewrite lookup_insert_ne; [done|]. intros ->. rewrite Hs in Hs'. injection Hs' as <-.
    rewrite Hf in *. by destruct (is_Some_None (A := Z)).
  - intros k' s'. destruct (decide (k = k')) as [<-|Hne]; intros Hs'.
    + replace s' with s by congruence. exists (f s). rewrite lookup_insert_eq. split; [done|].
      repeat split; try done; try lia; congruence.
    + exists s'. by rewrite lookup_insert_ne.
  - by apply insert_subseteq.
Qed.

(** A result of a session that has just been finished. *)
Lemma sound_result d r s :
  consistent d → game_sessions d !! G_SessionID r = Some s → is_Some (GS_FinishedAt s) →
  game_results d !! G_ID r = None →
  (∀ k r', game_results d !! k = Some r' → G_SessionID r' ≠ G_SessionID r) →
  sound d (set_results (<[G_ID r := r]> (game_results d)) d).
Proof.
  intros C Hs Hf Hn Hno. split; [split|split]; cbn; try apply C.
  - intros k r'. rewrite lookup_insert_Some. intros [[<- <-]|[_ Hr]]; [by exists s|by eapply (result_session _ C)].
  - intros k1 k2 r1 r2. rewrite !lookup_insert_Some.
    intros [[<- <-]|[_ H1]] [[<- <-]|[_ H2]] He; try done.
    + by destruct (Hno _ _ H2).
    + by destruct (Hno _ _ H1).
    + by eapply (result_unique _ C).
  - intros k s' Hk. by exists s'.
  - done.
Qed.

Lemma sound_result_map d f :
  consistent d → (∀ r, G_SessionID (f r) = G_SessionID r) →
  sound d (set_results (f <$> game_results d) d).
Proof.
  intros C Hf. split; [split|split]; cbn; try apply C.
  - intros k r. rewrite lookup_fmap. intros (r'&Hr&->)%fmap_Some. rewrite Hf. by eapply (result_session _ C).
  - intros k1 k2 r1 r2. rewrite !lookup_fmap. intros (x1&H1&->)%fmap_Some (x2&H2&->)%fmap_Some.
    rewrite !Hf. by eapply (result_unique _ C).
  - intros k s' Hk. by exists s'.
  - done.
Qed.

(** Rooms. *)
Lemma sound_room d f k :
  consistent d → (∀ r, R_ID (f r) = R_ID r ∧ R_MaxPlayers (f r) = R_MaxPlayers r) →
  sound d (set_rooms (alter f k (rooms d)) d).
Proof.
  intros C Hf. split; [split|split]; cbn; try apply C.
  - intros k' r. destruct (decide (k = k')) as [<-|Hne].
    + rewrite lookup_alter_eq. intros (r'&Hr&->)%fmap_Some. destruct (Hf r') as [-> _]. by eapply (room_key _ C).
    + rewrite lookup_alter_ne by done. apply C.
  - intros k' p x Hx. apply lookup_alter_is_Some. by eapply (member_room _ C).
  - intros k' r. change (people _ k') with (people d k'). destruct (decide (k = k')) as [<-|Hne].
    + rewrite lookup_alter_eq. intros (r'&Hr&->)%fmap_Some. destruct (Hf r') as [_ ->].
      by apply (capacity _ C).
    + rewrite lookup_alter_ne by done. apply (capacity _ C).
  - intros k' s' Hk. by exists s'.
  - done.
Qed.

Lemma sound_room_map d f :
  consistent d → (∀ r, R_ID (f r) = R_ID r ∧ R_MaxPlayers (f r) = R_MaxPlayers r) →
  sound d (set_rooms (f <$> rooms d) d).
Proof.
  intros C Hf. split; [split|split]; cbn; try apply C.
  - intros k r. rewrite lookup_fmap. intros (r'&Hr&->)%fmap_Some. destruct (Hf r') as [-> _].
    by eapply (room_key _ C).
  - intros k p x Hx. rewrite lookup_fmap, fmap_is_Some. by eapply (member_room _ C).
  - intros k r. change (people _ k) with (people d k). rewrite lookup_fmap. intros (r'&Hr&->)%fmap_Some.
    destruct (Hf r') as [_ ->]. by apply (capacity _ C).
  - intros k' s' Hk. by exists s'.
  - done.
Qed.

Lemma no_members d k : consistent d → rooms d !! k = None → seats_taken d k = 0.
Proof.
  intros C Hk. unfold seats_taken. rewrite rows_nil; [done|].
  intros [k' p] x Hx. cbn. apply bool_decide_eq_false. intros ->.
  destruct (member_room _ C _ _ _ Hx) as [r Hr]. congruence.
Qed.

Lemma sound_room_insert d r :
  consistent d → rooms d !! R_ID r = None → (0 ≤ R_MaxPlayers r)%Z →
  sound d (set_rooms (<[R_ID r := r]> (rooms d)) d).
Proof.
  intros C Hn Hmax. split; [split|split]; cbn; try apply C.
  - intros k r'. rewrite lookup_insert_Some. intros [[<- <-]|[_ Hs]]; [done|by eapply (room_key _ C)].
  - intros k p x Hx. apply lookup_insert_is_Some'. right. by eapply (member_room _ C).
  - intros k r'. change (people _ k) with (people d k). rewrite lookup_insert_Some.
    intros [[<- <-]|[_ Hr]]; [|by apply (capacity _ C)].
    pose proof (no_members d (R_ID r) C Hn). pose proof (people_seats d (R_ID r)). lia.
  - intros k' s' Hk. by exists s'.
  - done.
Qed.

Lemma sound_room_filter d (P : uuid * Room → Prop) `{!∀ x, Decision (P x)} :
  consistent d →
  (∀ k r, rooms d !! k = Some r → ¬ P (k, r) → seats_taken d k = 0) →
  sound d (set_rooms (filter P (rooms d)) d).
Proof.
  intros C HP. split; [split|split]; cbn; try apply C.
  - intros k r [Hr _]%map_lookup_filter_Some. by eapply (room_key _ C).
  - intros k p x Hx. destruct (member_room _ C _ _ _ Hx) as [r Hr]. exists r.
    apply map_lookup_filter_Some. split; [done|]. apply dec_stable. intros HnP.
    specialize (HP _ _ Hr HnP). unfold seats_taken in HP.
    rewrite (rows_delete _ _ _ _ Hx) in HP. cbn in HP. by rewrite bool_decide_eq_true_2 in HP.
  - intros k r [Hr _]%map_lookup_filter_Some. by apply (capacity _ C).
  - intros k' s' Hk. by exists s'.
  - done.
Qed.

(** Members: somebody for whom there is room, or a bot. *)
Lemma sound_member d k p x r :
  consistent d → rooms d !! k = Some r → room_players d !! (k, p) = None →
  (Z.of_nat (people d k) < R_MaxPlayers r)%Z ∨ is_bot d p = true →
  sound d (set_room_players (<[(k, p) := x]> (room_players d)) d).
Proof.
  intros C Hr Hn Hfree. split; [split|split]; cbn; try apply C.
  - intros k' p' x'. rewrite lookup_insert_Some. intros [[[= <- <-] _]|[_ Hx]]; [done|by eapply (member_room _ C)].
  - intros k' r' Hr'. pose proof (capacity _ C _ _ Hr') as Hc. unfold people in *. cbn.
    rewrite rows_insert by done. cbn. change (is_bot (set_room_players _ d)) with (is_bot d).
    case_bool_decide as Hk; cbn; [|lia]. destruct (is_bot d p); cbn; [lia|].
    subst k'. rewrite Hr in Hr'. injection Hr' as <-. destruct Hfree; [lia|done].
  - intros k' s' Hk. by exists s'.
  - done.
Qed.

Lemma sound_members_sub d m :
  consistent d → m ⊆ room_players d → sound d (set_room_players m d).
Proof.
  intros C Hm. split; [split|split]; cbn; try apply C.
  - intros k p x Hx. eapply (member_room _ C). by eapply lookup_weaken.
  - intros k r Hr. pose proof (capacity _ C _ _ Hr) as Hc.
    etrans; [|exact Hc]. apply inj_le, rows_le. cbn. intros k' v Hv Hp. split; [by eapply lookup_weaken|done].
  - intros k' s' Hk. by exists s'.
  - done.
Qed.

End Consistency.
