(* ===== verification/Requests.v ===== *)
(** The service as a state machine: requests that are served one after another (the
    server answers them concurrently: see the races of RuntimeSpec.v), under
    any failures of the database, and the proof that each of them takes a sound
    step from a consistent database. *)
From S2P Require Import Prelude Json Engine Randutil Backend Store BackendLogic Lobby Runtime.
From S2P Require Import Grpc Consistency.

Section Requests.
Context `{U : UUID} `{E : Entropy} `{S : !Server} (reg : registry).

(** ** Requests *)

(** The calls the API handlers, the gRPC handlers, the timer worker and the reaper make.
    [Runtime.LoadState], which is for development only, is not among them. *)
Inductive request : Type :=
  | Req_CreatePlayer (username : string)
  | Req_CreateBotPlayer (username : string)
  | Req_UpdatePlayerAvatar (id : uuid) (url : string)
  | Req_SoftDeletePlayer (id : uuid)
  | Req_CreateRoom (gameID : string) (owner : uuid) (timeout : option Z)
  | Req_JoinRoom (code : string) (player : uuid)
  | Req_LeaveRoom (room player : uuid)
  | Req_UpdateRoomSetting (room requester : uuid) (key value : string)
  | Req_ListWaitingRooms (limit offset : Z)
  | Req_AddBot (room : uuid) (username : string)
  | Req_RemoveBot (room bot : uuid)
  | Req_CreateRankedRoom (playerA playerB gameID : string)
  | Req_StartGame (room requester : uuid) (mode : string)
  | Req_StartSession (session : GameSession) (readyTimeout : Z)
  | Req_OnAllReady (session : GameSession)
  | Req_VoteReady (session player : uuid)
  | Req_ApplyMove (session player : uuid) (payload : data)
  | Req_Surrender (session player : uuid)
  | Req_VoteRematch (session player : uuid)
  | Req_VotePause (session player : uuid)
  | Req_VoteResume (session player : uuid)
  | Req_ForceCloseSession (session : uuid)
  | Req_GetSessionAndState (session : uuid)
  | Req_GetStateAt (session : uuid) (moveNumber : Z)
  | Req_TurnTimeout (session : uuid)
  | Req_ReadyTimeout (session : uuid)
  | Req_ReschedulePending
  | Req_CleanupOrphanRooms (waitingMaxAge finishedMaxAge : Z).

Definition done_ {A} (m : M A) : M unit := m;; mret tt.

(** What adding a bot does: [Api.handleAddBot] does not ask whether a seat is free. *)
Definition AddBot (room : uuid) (username : string) : M unit :=
  bot ← CreateBotPlayer username;
  ps ← ListRoomPlayers room;
  AddPlayerToRoom room (P_ID bot) (count ps).

Definition serve (bots : list uuid) (r : request) : M unit :=
  match r with
  | Req_CreatePlayer n => done_ (CreatePlayer n)
  | Req_CreateBotPlayer n => done_ (CreateBotPlayer n)
  | Req_UpdatePlayerAvatar i u => UpdatePlayerAvatar i u
  | Req_SoftDeletePlayer i => SoftDeletePlayer i
  | Req_CreateRoom g o t => done_ (Lobby.Lobby_CreateRoom reg g o t)
  | Req_JoinRoom c p => done_ (Lobby.JoinRoom c p)
  | Req_LeaveRoom r p => done_ (Lobby.LeaveRoom r p)
  | Req_UpdateRoomSetting r p k v => Lobby.UpdateRoomSetting reg r p k v
  | Req_ListWaitingRooms l o => done_ (Lobby.Lobby_ListWaitingRooms l o)
  | Req_AddBot r n => AddBot r n
  | Req_RemoveBot r b => RemovePlayerFromRoom r b
  | Req_CreateRankedRoom a b g => done_ (Grpc.CreateRankedRoom reg a b g)
  | Req_StartGame r p m => done_ (Lobby.StartGame reg r p m)
  | Req_StartSession s t => done_ (Runtime.StartSession bots s t)
  | Req_OnAllReady s => done_ (Runtime.OnAllReady bots s)
  | Req_VoteReady s p => done_ (Runtime.VoteReady bots s p)
  | Req_ApplyMove s p x => done_ (Runtime.ApplyMove reg s p x)
  | Req_Surrender s p => done_ (Runtime.Surrender s p)
  | Req_VoteRematch s p => done_ (Runtime.VoteRematch bots s p)
  | Req_VotePause s p => done_ (Runtime.VotePause bots s p)
  | Req_VoteResume s p => done_ (Runtime.VoteResume bots s p)
  | Req_ForceCloseSession s => ForceCloseSession s
  | Req_GetSessionAndState s => done_ (Runtime.GetSessionAndState s)
  | Req_GetStateAt s n => done_ (Runtime.GetStateAt reg s n)
  | Req_TurnTimeout s => done_ (Runtime.onTimeout reg bots s)
  | Req_ReadyTimeout s => Runtime.onReadyTimeout s
  | Req_ReschedulePending => done_ Runtime.ReschedulePending
  | Req_CleanupOrphanRooms a b => done_ (CleanupOrphanRooms a b)
  end.

(** The databases a deployment can reach from one database to another by requests that
    are served one after another. A request
    starts outside a transaction, at any time, with any timers and messages
    pending; which of its statements fail is up to the server. *)
Inductive reaches : DB → DB → Prop :=
  | reaches_refl d : reaches d d
  | reaches_step d w bots r :
      reaches d (db w) → tx_time w = None → aborted w = false →
      reaches d (db (serve bots r w).2).

(** An installation: only the game configurations are filled in. *)
Definition empty_DB (configs : gmap string GameConfig) : DB :=
  mkDB ∅ ∅ ∅ ∅ ∅ ∅ ∅ ∅ ∅ ∅ configs.

Definition reachable (d : DB) : Prop := ∃ configs, reaches (empty_DB configs) d.

(** ** Soundness of the statements *)

Abbreviation consistent := (consistent reg).
Abbreviation sound := (sound reg).

Lemma empty_consistent configs : consistent (empty_DB configs).
Proof. split; cbn; intros; simplify_map_eq. Qed.

Lemma keeps_sound d0 {A} (m : M A) :
  (∀ d, consistent d → wpd m (λ _ d', sound d d') d) → keeps (sound d0) m.
Proof.
  intros H d Hd. eapply wpd_conseq; [apply H, Hd|]. intros r d' Hd'. by eapply sound_trans.
Qed.

Lemma keeps_sound_exec d0 {A} (f : Z → uuid → DB → option (A * DB)) :
  (∀ t id d a d', consistent d → f t id d = Some (a, d') → sound d d') →
  keeps (sound d0) (exec f).
Proof.
  intros H. apply keeps_sound. intros d C. apply wpd_exec; [intros _; by apply sound_refl|eauto].
Qed.

Lemma keeps_sound_update d0 f : (∀ t d, consistent d → sound d (f t d)) → keeps (sound d0) (update f).
Proof. intros H. apply keeps_sound_exec. intros t id d a d' C [= <- <-]. auto. Qed.

(** Bots stay bots. *)
Lemma bots_insert d id x q : players d !! id = None → is_bot d q = true →
  is_bot (set_players (<[id := x]> (players d)) d) q = true.
Proof.
  unfold is_bot. cbn. intros Hid Hq. rewrite lookup_insert_ne; [done|]. intros ->. by rewrite Hid in Hq.
Qed.

Lemma bots_alter d id f q : (∀ x, P_IsBot (f x) = P_IsBot x) → is_bot d q = true →
  is_bot (set_players (alter f id (players d)) d) q = true.
Proof.
  unfold is_bot. cbn. intros Hf Hq. destruct (decide (id = q)) as [<-|Hne].
  - rewrite lookup_alter_eq. destruct (players d !! id); [|done]. cbn. by rewrite Hf.
  - by rewrite lookup_alter_ne.
Qed.

(** Statements on tables that [consistent] does not mention, and reads. *)
Ltac other :=
  intros; first [apply keeps_sound_exec | apply keeps_sound_update];
  intros; repeat case_match; simplify_eq; by first [apply sound_refl | apply sound_same; eauto using bots_insert, bots_alter].

Ltac game := intros; unfold keeps_game; split_and!; try done.

Lemma sound_ClearReadyVotes d0 s : keeps (sound d0) (ClearReadyVotes s).
Proof. apply keeps_wrap, keeps_sound_update. intros t d C. apply sound_session; [done|game]. Qed.

Lemma sound_insert_player d0 n b : keeps (sound d0) (insert_player n b).
Proof.
  apply keeps_sound_exec. intros t id d a d' C. destruct (players d !! id) eqn:Hid; cbn; [done|].
  case_match; [|done]. intros [= <- <-]. apply sound_same; try done. intros q. by apply bots_insert.
Qed.

Lemma sound_UpdatePlayerAvatar d0 i u : keeps (sound d0) (UpdatePlayerAvatar i u).
Proof.
  unfold UpdatePlayerAvatar. apply keeps_bind; [apply keeps_try; other|]. intros [|]; keep.
Qed.

Lemma sound_SoftDeletePlayer d0 i : keeps (sound d0) (SoftDeletePlayer i).
Proof. unfold SoftDeletePlayer. apply keeps_wrap. other. Qed.

Lemma sound_insert_setting d0 r kv : keeps (sound d0) (insert_setting r kv).
Proof. unfold insert_setting. apply keeps_wrap. other. Qed.

Lemma sound_SetRoomSetting d0 r k v : keeps (sound d0) (SetRoomSetting r k v).
Proof. unfold SetRoomSetting. apply keeps_wrap. other. Qed.

Lemma sound_UpsertRematchVote d0 s p : keeps (sound d0) (UpsertRematchVote s p).
Proof. unfold UpsertRematchVote. apply keeps_wrap. other. Qed.

Lemma sound_DeleteRematchVotes d0 s : keeps (sound d0) (DeleteRematchVotes s).
Proof. unfold DeleteRematchVotes. apply keeps_wrap. other. Qed.

Lemma sound_store_vote d0 c v s p : keeps (sound d0) (store_vote c v s p).
Proof.
  unfold store_vote, allPlayersVoted. apply keeps_bind; [apply keeps_wrap; other|intros; keep].
Qed.

Lemma sound_clear_votes d0 c v s : keeps (sound d0) (clear_votes c v s).
Proof. unfold clear_votes. apply keeps_wrap. other. Qed.

Lemma sound_insert_result_player d0 k p : keeps (sound d0) (insert_result_player k p).
Proof. unfold insert_result_player. apply keeps_wrap. other. Qed.

(** Sessions. *)
Lemma sound_SetSession d0 f k : (∀ t s, keeps_game (f t) s) → keeps (sound d0) (SetSession f k).
Proof. intros H. apply keeps_sound_update. intros t d C. by apply sound_session. Qed.

Lemma sound_TouchLastMoveAt d0 s : keeps (sound d0) (TouchLastMoveAt s).
Proof. apply sound_SetSession. game. Qed.

Lemma sound_SuspendSession d0 s r : keeps (sound d0) (SuspendSession s r).
Proof. apply keeps_wrap, sound_SetSession. game. Qed.

Lemma sound_ResumeSession d0 s : keeps (sound d0) (ResumeSession s).
Proof. apply keeps_wrap, sound_SetSession. game. Qed.

Lemma sound_Store_VoteReady d0 s p : keeps (sound d0) (Store_VoteReady s p).
Proof.
  unfold Store_VoteReady. apply keeps_bind; [|intros; keep].
  apply keeps_wrap, sound_SetSession. intros t r. unfold keeps_game. case_decide; split_and!; try done.
Qed.

Lemma insert_alter {V} (m : gmap uuid V) k v f : m !! k = Some v → <[k := f v]> m = alter f k m.
Proof.
  intros Hk. apply map_eq. intros k'. destruct (decide (k = k')) as [<-|Hne].
  - by rewrite lookup_insert_eq, lookup_alter_eq, Hk.
  - by rewrite lookup_insert_ne, lookup_alter_ne.
Qed.

Lemma sound_ForceCloseSession d0 s : keeps (sound d0) (ForceCloseSession s).
Proof.
  unfold ForceCloseSession. apply keeps_bind; [|intros; keep].
  apply keeps_wrap, keeps_sound_exec. intros t id d a d' C.
  destruct (game_sessions d !! s) as [x|] eqn:Hx; [|intros [= <- <-]; by apply sound_refl].
  destruct (GS_FinishedAt x) eqn:Hf; intros [= <- <-]; [by apply sound_refl|].
  rewrite (insert_alter _ s x (λ x, session_set_finished (Some t)
    (session_suspension None None (GS_SuspendCount x) x))) by done.
  apply sound_session; [done|]. intros x' Hx'. assert (x' = x) as -> by congruence.
  game. by rewrite Hf.
Qed.

(** Rooms. *)
Lemma sound_UpdateRoomStatus d0 r s : keeps (sound d0) (UpdateRoomStatus r s).
Proof.
  apply keeps_wrap, keeps_sound_exec. intros t id d a d' C.
  case_match; intros [= <- <-]. by apply sound_room.
Qed.

Lemma sound_UpdateRoomOwner d0 r o : keeps (sound d0) (UpdateRoomOwner r o).
Proof.
  apply keeps_wrap, keeps_sound_exec. intros t id d a d' C.
  case_match; intros [= <- <-]. by apply sound_room.
Qed.

Lemma sound_RemovePlayerFromRoom d0 r p : keeps (sound d0) (RemovePlayerFromRoom r p).
Proof.
  apply keeps_wrap, keeps_sound_update. intros t d C. apply sound_members_sub; [done|apply delete_subseteq].
Qed.

Lemma sound_DeleteRoom d0 r : keeps (sound d0) (DeleteRoom r).
Proof.
  unfold DeleteRoom. apply keeps_bind; [|intros _]; apply keeps_wrap, keeps_sound_update; intros t d C.
  - apply sound_members_sub; [done|apply map_filter_subseteq].
  - by apply sound_room.
Qed.

Lemma orphan_no_members d t age r : orphan d t age r = true → seats_taken d (R_ID r) = 0.
Proof.
  unfold orphan, seats_taken. rewrite !andb_true_iff. intros [_ H].
  by destruct (rows _ (room_players d)).
Qed.

Lemma sound_CleanupOrphanRooms d0 a b : keeps (sound d0) (CleanupOrphanRooms a b).
Proof.
  unfold CleanupOrphanRooms. apply keeps_bind; [|intros n1; apply keeps_bind; [|intros; keep]];
    apply keeps_wrap, keeps_sound_exec; intros t id d x d' C.
  - case_match; [done|]. intros [= <- <-].
    assert (sound d (set_rooms (filter (λ kr, kr.1 ∉ (rows (λ _ r, orphan d t a r) (rooms d)).*1)
      (rooms d)) d)) as Hs.
    { apply sound_room_filter; [done|]. intros k r Hr Hin.
      apply dec_stable in Hin. apply list_elem_of_fmap in Hin as ([k' r']&Hk&Hin).
      cbn in Hk. subst k'. apply elem_of_rows in Hin as [Hr' Ho]. rewrite <- (room_key _ _ C _ _ Hr').
      by eapply orphan_no_members. }
    eapply sound_trans; [exact Hs|]. apply sound_same; try done. apply Hs.
  - intros [= <- <-]. apply sound_room_map; [done|]. intros r. by case_match.
Qed.

End Requests.

#[export] Hint Resolve sound_ClearReadyVotes sound_insert_player sound_UpdatePlayerAvatar
  sound_SoftDeletePlayer sound_insert_setting sound_SetRoomSetting sound_UpsertRematchVote
  sound_DeleteRematchVotes sound_store_vote sound_clear_votes sound_insert_result_player
  sound_TouchLastMoveAt sound_SuspendSession sound_ResumeSession sound_Store_VoteReady
  sound_ForceCloseSession sound_UpdateRoomStatus sound_UpdateRoomOwner
  sound_RemovePlayerFromRoom sound_DeleteRoom sound_CleanupOrphanRooms : recess.
