(* ===== verification/Demo.v ===== *)
(** A concrete deployment on which the properties of the services are tried: UUIDs
    are strings, ids are numbered, one second passes per statement, nothing fails. *)
From stdpp Require Import pretty.
From S2P Require Import Prelude Json Engine Randutil Backend Store BackendLogic Lobby Runtime.
From S2P Require Import Consistency Requests.
From S2P Require TicTacToe.

Module Demo.

Definition UUID_string : UUID.
Proof. refine (Build_UUID string _ _ id Some _). done. Defined.
#[export] Existing Instance UUID_string.

Definition counter_Entropy : Entropy.
Proof.
  refine (Build_Entropy Z (λ e n, (Some (e mod n)%Z, (e + 1)%Z)) _).
  intros e n v Hn [= <-]. by apply Z.mod_pos_bound.
Defined.
#[export] Existing Instance counter_Entropy.

Definition id_of (n : nat) : string := "id-" +:+ pretty (N.of_nat n).

Definition reliable : Server :=
  Build_Server _ (λ _, false) id_of (λ n, (Z.of_nat n * 1000000)%Z).
#[export] Existing Instance reliable.

Definition reg : registry := {["tictactoe" := TicTacToe.TicTacToe.game]}.

Lemma reg_players id g : reg !! id = Some g → (2 ≤ MaxPlayers g)%Z.
Proof. unfold reg. rewrite lookup_singleton_Some. by intros [_ <-]. Qed.

Definition start : World := mkWorld (empty_DB ∅) 0 None false 0%Z ∅ [].

Definition step (w : World) (r : request) : World := (serve reg [] r w).2.
Definition run_from (w : World) (rs : list request) : World := foldl step w rs.
Definition run : list request → World := run_from start.

(** Every request starts outside a transaction. *)
Fixpoint steady (w : World) (rs : list request) : bool :=
  match rs with
  | [] => true
  | r :: rs => is_none (tx_time w) && negb (aborted w) && steady (step w r) rs
  end.

Lemma run_reaches d w rs : steady w rs = true → reaches reg d (db w) → reaches reg d (db (run_from w rs)).
Proof.
  revert w. induction rs as [|r rs IH]; intros w Hs Hr; [done|].
  cbn in *. rewrite !andb_true_iff in Hs. destruct Hs as [[Ht Ha] Hs].
  apply IH; [done|]. apply reaches_step; [done|by destruct (tx_time w)|by destruct (aborted w)].
Qed.

Lemma run_reachable rs : steady start rs = true → reachable reg (db (run rs)).
Proof. intros Hs. exists ∅. apply run_reaches; [done|constructor]. Qed.

(** Two players open a room, and a game of Tic-tac-toe is played to its end. *)
Definition alice : uuid := "id-0".
Definition bob : uuid := "id-1".
Definition room : uuid := "id-4".
Definition session : uuid := "id-30".

Definition opening : list request := [
  Req_CreatePlayer "alice"; Req_CreatePlayer "bob"; Req_CreateRoom "tictactoe" alice None;
  Req_JoinRoom "abcdef" bob; Req_StartGame room alice "casual"].

Definition cell (n : Z) : data := {["cell" := Int n]}.
Definition place (p : uuid) (n : Z) : request := Req_ApplyMove session p (cell n).

Definition playing : list request := opening ++ [place alice 0; place bob 3; place alice 1; place bob 4].
Definition finished : list request := playing ++ [place alice 2].

Abbreviation the_session w := (game_sessions (db w) !! session).

Lemma is_some_true {A} (o : option A) : Runtime.is_some o = true → is_Some o.
Proof. destruct o; [eauto|done]. Qed.
End Demo.
