(* ===== verification/Serving.v ===== *)
(** Every request takes a sound step: the reads and the guarded writes of the
    services, one lemma per operation, and their composition in [serve]. *)
From S2P Require Import Prelude Json Engine Randutil Backend Store BackendLogic Lobby Runtime.
From S2P Require Import Grpc Consistency Requests.

Section Serving.
Context `{U : UUID} `{E : Entropy} `{S : !Server} (reg : registry).
Hypothesis reg_players : ∀ id g, reg !! id = Some g → (2 ≤ MaxPlayers g)%Z.

Abbreviation consistent := (consistent reg).
Abbreviation sound := (sound reg).

(** ** Reads *)

Lemma wpd_GetGameSession id Φ d :
  (∀ e, Φ (Err e) d) → (∀ s, game_sessions d !! id = Some s → Φ (Ok s) d) →
  wpd (GetGameSession id) Φ d.
Proof.
  intros He Hok. apply wpd_queryRow; [done|]. intros _ s. cbn.
  destruct (game_sessions d !! id) as [s'|] eqn:Hs; [|done]. cbn.
  destruct (guard _); [|done]. intros [= ->]. auto.
Qed.

Lemma wpd_ListRoomPlayers room Φ d :
  (∀ e, Φ (Err e) d) → Φ (Ok (players_of d room)) d → wpd (ListRoomPlayers room) Φ d.
Proof. intros He Hok. apply wpd_wrap, wpd_query; auto. Qed.

Lemma wpd_GetRoom id Φ d :
  (∀ e, Φ (Err e) d) → (∀ r, rooms d !! id = Some r → Φ (Ok r) d) → wpd (GetRoom id) Φ d.
Proof.
  intros He Hok. apply wpd_queryRow; [done|]. intros _ r. cbn.
  destruct (rooms d !! id) as [r'|] eqn:Hr; [|done]. cbn.
  destruct (guard _); [|done]. intros [= ->]. auto.
Qed.

Lemma wpd_GetRoomByCode code Φ d :
  (∀ e, Φ (Err e) d) → (∀ k r, rooms d !! k = Some r → Φ (Ok r) d) → wpd (GetRoomByCode code) Φ d.
Proof.
  intros He Hok. apply wpd_queryRow; [done|]. intros _ r Hr.
  apply fmap_Some in Hr as ([k r']&Hr&->). cbn.
  apply (Hok k). apply head_Some_elem_of, elem_of_rows in Hr. tauto.
Qed.

Lemma count_players d room : count (players_of d room) = Z.of_nat (seats_taken d room).
Proof.
  unfold count, players_of, order_by, seats_taken. by rewrite merge_sort_Permutation, length_fmap.
Qed.

(** ** The lobby *)

Lemma keeps_getRoomView I r : keeps I (Lobby.getRoomView r).
Proof. unfold Lobby.getRoomView, ListRoomPlayers, GetPlayer, GetRoomSettings, GetActiveSessionByRoom. keep. Qed.

Lemma keeps_generateRoomCode I : keeps I Lobby.generateRoomCode.
Proof. unfold Lobby.generateRoomCode. keep. Qed.

Lemma keeps_registry_Get I id : keeps I (Lobby.registry_Get reg id).
Proof. unfold Lobby.registry_Get. keep. Qed.

Lemma wpd_registry_Get id Φ d :
  (∀ e, Φ (Err e) d) → (∀ g, reg !! id = Some g → Φ (Ok g) d) → wpd (Lobby.registry_Get reg id) Φ d.
Proof.
  intros He Hok. unfold Lobby.registry_Get, Get. destruct (reg !! id) eqn:Hg.
  - apply wpd_ret. eauto.
  - apply wpd_throw. auto.
Qed.

Lemma wpd_AddPlayerToRoom room player seat Φ d r :
  consistent d → rooms d !! room = Some r →
  (Z.of_nat (people d room) < R_MaxPlayers r)%Z ∨ is_bot d player = true →
  (∀ e, Φ (Err e) d) →
  (∀ d', sound d d' → rooms d' = rooms d → seats_taken d' room = 1 + seats_taken d room → Φ (Ok tt) d') →
  wpd (AddPlayerToRoom room player seat) Φ d.
Proof.
  intros C Hr Hfree He Hok. apply wpd_wrap, wpd_exec; [auto|]. intros t id a d'.
  destruct (room_players d !! (room, player)) eqn:Hp; cbn; [done|].
  case_match; [|done]. intros [= <- <-]. apply Hok; [by eapply sound_member|done|].
  unfold seats_taken. cbn. rewrite rows_insert by done. cbn. by rewrite bool_decide_eq_true_2.
Qed.

(** The room that [CreateRoom] inserts. *)
Lemma wpd_CreateRoom params Φ d :
  consistent d → (0 ≤ CR_MaxPlayers params)%Z →
  (∀ e, Φ (Err e) d) →
  (∀ r d', sound d d' → rooms d' !! R_ID r = Some r → seats_taken d' (R_ID r) = 0 →
     R_MaxPlayers r = CR_MaxPlayers params → Φ (Ok r) d') →
  wpd (CreateRoom params) Φ d.
Proof.
  intros C Hmax He Hok. apply wpd_with_tx; [done|].
  apply wpd_bind, wpd_wrap, wpd_exec; [done|]. intros t id r d'.
  destruct (rooms d !! id) eqn:Hid; cbn; [done|]. case_match; [|done]. intros [= Hr <-].
  set (d' := set_rooms _ d).
  assert (R_ID r = id ∧ R_MaxPlayers r = CR_MaxPlayers params) as [Hrid Hrmax] by by subst r.
  assert (sound d d') as Hs.
  { subst d'. rewrite Hr, <- Hrid. apply sound_room_insert; [done|congruence|lia]. }
  set (I := λ d'', sound d d'' ∧ rooms d'' = rooms d' ∧ room_players d'' = room_players d).
  assert (∀ kv, keeps I (insert_setting (R_ID r) kv)) as Hk.
  { intros kv d1 (S1&R1&P1). apply wpd_wrap, wpd_exec; [by intros ?; unfold I; cbv beta; split_and!|].
    intros t' id' a d2 He'. destruct (is_none _ && _); [|done]. injection He' as _ <-. unfold I. cbv beta. split_and!; try done.
    eapply sound_trans; [exact S1|]. apply sound_same; try done. apply S1. }
  apply wpd_bind. eapply wpd_conseq; [apply (keeps_mapM_ I); [exact Hk|by unfold I; cbv beta; split_and!]|].
  intros [[]|e] d'' (S2&R2&P2); [|done]. apply wpd_ret. apply Hok; [done|..|done].
  - rewrite R2. subst d'. cbn. rewrite Hr, Hrid. by rewrite lookup_insert_eq.
  - unfold seats_taken. rewrite P2. apply (no_members reg); [done|congruence].
Qed.

Lemma wpd_getRoomView r Φ d :
  (∀ e, Φ (Err e) d) → (∀ v, Lobby.V_Room v = r → Φ (Ok v) d) → wpd (Lobby.getRoomView r) Φ d.
Proof.
  intros He Hok. set (I := λ d', d' = d). assert (∀ (e : error) d', I d' → Φ (Err e) d') as HI by by intros ? ? ->.
  unfold Lobby.getRoomView.
  apply (wpd_keeps I); [unfold ListRoomPlayers; keep|done|done|]. intros ps ? ->.
  apply (wpd_keeps I); [unfold GetPlayer; keep|done|done|]. intros views ? ->.
  apply (wpd_keeps I); [unfold GetRoomSettings; keep|done|done|]. intros settings ? ->.
  case_decide; [|by apply wpd_ret, Hok].
  apply (wpd_keeps I); [unfold GetActiveSessionByRoom; keep|done|done|]. intros session ? ->.
  by apply wpd_ret, Hok.
Qed.

(** A new room has one seat taken, and one more for somebody else. *)
Lemma wpd_Lobby_CreateRoom g o t Φ d :
  consistent d → (∀ e d', sound d d' → Φ (Err e) d') →
  (∀ v r d', sound d d' → rooms d' !! R_ID (Lobby.V_Room v) = Some r →
     seats_taken d' (R_ID (Lobby.V_Room v)) = 1 → (2 ≤ R_MaxPlayers r)%Z → Φ (Ok v) d') →
  wpd (Lobby.Lobby_CreateRoom reg g o t) Φ d.
Proof.
  intros C He Hok. unfold Lobby.Lobby_CreateRoom.
  assert (sound d d) as Hd by by apply sound_refl. assert (∀ e, Φ (Err e) d) as He0 by auto.
  apply wpd_bind, wpd_wrap, wpd_wrap, wpd_query; [done|]. intros _.
  destruct (player_busy d o); [by apply wpd_throw|].
  apply wpd_bind, wpd_orElse, wpd_registry_Get; [done|]. intros game Hg.
  apply (wpd_keeps (λ d', d' = d)); [apply keeps_wrap, keeps_generateRoomCode|done|by intros ? ? ->|].
  intros code ? ->. apply wpd_bind, wpd_wrap. specialize (reg_players _ _ Hg).
  apply wpd_CreateRoom; cbn; [done|lia|done|].
  intros r d' Hs Hr H0 Hm. apply wpd_bind, wpd_wrap. pose proof (people_seats d' (R_ID r)).
  eapply wpd_AddPlayerToRoom; [apply Hs|done|left; lia|intros; by apply He|].
  intros d'' Hs' Hrooms Hseats. assert (sound d d'') by by eapply sound_trans.
  apply wpd_getRoomView; [auto|]. intros v <-. apply (Hok v (Lobby.V_Room v)); [done|by rewrite Hrooms|lia|lia].
Qed.

Lemma sound_Lobby_CreateRoom d0 g o t : keeps (sound d0) (Lobby.Lobby_CreateRoom reg g o t).
Proof. apply keeps_sound. intros d C. by apply wpd_Lobby_CreateRoom. Qed.

Lemma sound_CreateRankedRoom d0 a b g : keeps (sound d0) (Grpc.CreateRankedRoom reg a b g).
Proof.
  apply keeps_sound. intros d C. unfold Grpc.CreateRankedRoom, Grpc.fail, Grpc.parse_id.
  assert (sound d d) as Hd by by apply sound_refl.
  case_decide; [by apply wpd_ret|].
  destruct (uuid_Parse a) as [p|]; [|by apply wpd_ret]. destruct (uuid_Parse b) as [q|]; [|by apply wpd_ret].
  unfold Grpc.checked at 1. apply wpd_bind, wpd_try, wpd_Lobby_CreateRoom; [done| |].
  { intros e d' Hs. destruct (Grpc.panics e); [by apply wpd_throw|by apply wpd_ret]. }
  intros v r d' Hs Hr Hone Hmax. unfold Grpc.checked at 1. pose proof (people_seats d' (R_ID (Lobby.V_Room v))).
  apply wpd_bind, wpd_try. eapply wpd_AddPlayerToRoom; [apply Hs|done|left; lia| |].
  { intros e. destruct (Grpc.panics e); [by apply wpd_throw|by apply wpd_ret]. }
  intros d'' Hs' _ _. unfold Grpc.checked.
  apply (keeps_bind (sound d)); [keep|intros []; keep|by eapply sound_trans].
Qed.

(** A bot needs no free seat. *)
Lemma sound_AddBot d0 r n : keeps (sound d0) (AddBot r n).
Proof.
  apply keeps_sound. intros d C. unfold AddBot. apply wpd_bind.
  apply (wpd_conseq _ _ (λ res d', sound d d' ∧ ∀ b, res = Ok b → is_bot d' (P_ID b) = true)).
  - apply wpd_exec; [by split; [apply sound_refl|]|]. intros t id b d'.
    destruct (players d !! id) eqn:Hid; cbn; [done|]. case_match; [|done]. intros [= Hb <-]. split.
    + apply sound_same; try done. intros q. by apply bots_insert.
    + intros ? [= <-]. subst b. unfold is_bot. cbn. by rewrite lookup_insert_eq.
  - intros [b|e] d' [Hs Hb]; [|done]. specialize (Hb b eq_refl).
    apply wpd_bind, wpd_ListRoomPlayers; [done|].
    apply wpd_wrap, wpd_exec; [done|]. intros t id a d''.
    destruct (room_players d' !! (r, P_ID b)) eqn:Hp; cbn; [done|].
    destruct (rooms d' !! r) as [x|] eqn:Hr; cbn; [|done]. case_match; [|done]. intros [= <- <-].
    eapply sound_trans; [exact Hs|]. eapply sound_member; [apply Hs|done|done|by right].
Qed.

Lemma sound_JoinRoom d0 c p : keeps (sound d0) (Lobby.JoinRoom c p).
Proof.
  apply keeps_sound. intros d C. unfold Lobby.JoinRoom.
  assert (sound d d) as Hd by by apply sound_refl.
  apply wpd_bind, wpd_orElse, wpd_GetRoomByCode; [done|]. intros k r Hr.
  rewrite <- (room_key _ _ C _ _ Hr) in Hr.
  case_decide; [by apply wpd_throw|].
  apply wpd_bind, wpd_wrap, wpd_wrap, wpd_query; [done|]. intros _.
  destruct (player_busy d p); [by apply wpd_throw|].
  apply wpd_bind, wpd_wrap, wpd_ListRoomPlayers; [done|].
  destruct (Z.leb_spec (R_MaxPlayers r) (count (players_of d (R_ID r)))) as [|Hfree]; [by apply wpd_throw|].
  destruct (existsb _ _); [by apply wpd_throw|].
  apply wpd_bind, wpd_wrap. rewrite count_players in Hfree.
  pose proof (people_seats d (R_ID r)).
  eapply wpd_AddPlayerToRoom; [done|done|left; lia|done|]. intros d' Hs _ _. by apply keeps_getRoomView.
Qed.

Lemma sound_LeaveRoom d0 r p : keeps (sound d0) (Lobby.LeaveRoom r p).
Proof. unfold Lobby.LeaveRoom, GetRoom, ListRoomPlayers. keep. Qed.

Lemma sound_UpdateRoomSetting d0 r p k v : keeps (sound d0) (Lobby.UpdateRoomSetting reg r p k v).
Proof. unfold Lobby.UpdateRoomSetting, GetRoom, Lobby.registry_Get, Lobby.of_result. keep. Qed.

Lemma sound_Lobby_ListWaitingRooms d0 l o : keeps (sound d0) (Lobby.Lobby_ListWaitingRooms l o).
Proof.
  unfold Lobby.Lobby_ListWaitingRooms, CountWaitingRooms, ListWaitingRooms.
  pose proof keeps_getRoomView. keep.
  apply keeps_sound_exec. intros t id d x d' C. case_match; [done|]. intros [= <- <-]. by apply sound_refl.
Qed.

(** The reads of [StartGame] before the game is dealt. *)
Lemma keeps_seatPlayers I ps acc : keeps I (Lobby.seatPlayers ps acc).
Proof.
  revert acc. induction ps as [|p ps IH]; intros acc; cbn [Lobby.seatPlayers]; [keep|].
  unfold GetPlayer, Lobby.set_at. keep.
Qed.

Lemma keeps_resolveFirstMover I a b ps : keeps I (Lobby.resolveFirstMover a b ps).
Proof. unfold Lobby.resolveFirstMover. keep. Qed.

Lemma keeps_firstSeatOf I r s ps rps : keeps I (Lobby.firstSeatOf r s ps rps).
Proof.
  unfold Lobby.firstSeatOf, CountFinishedSessions, GetLastFinishedSession, GetGameResult,
    Lobby.resolveRematchFirstMover.
  pose proof keeps_resolveFirstMover. keep.
Qed.

Lemma wpd_run_Init g ps Φ d :
  (∀ e, Φ (Err e) d) → (∀ seed st, Init g seed ps = Ok st → Φ (Ok st) d) →
  wpd (Lobby.run_Init g ps) Φ d.
Proof.
  intros He Hok. unfold Lobby.run_Init.
  apply wpd_bind, wpd_try, wpd_rand.
  - intros e. destruct (Init g None ps) eqn:Hi; [apply wpd_ret; eauto|by apply wpd_throw].
  - intros v. destruct (Init g (Some v) ps) eqn:Hi; [apply wpd_ret; eauto|by apply wpd_throw].
Qed.

Lemma Marshal_state_Some st raw : Marshal_state st = Some raw → raw = Some (reload st).
Proof. unfold Marshal_state. case_match; congruence. Qed.

Lemma Marshal_payload_Some p raw : Marshal_payload p = Some raw → raw = json_rt <$> p.
Proof. unfold Marshal_payload. case_match; congruence. Qed.

Lemma Get_Some id g : Get id reg = Ok g ↔ reg !! id = Some g.
Proof. unfold Get. split; [case_match; congruence|by intros ->]. Qed.

Lemma sound_StartGame d0 r p m : keeps (sound d0) (Lobby.StartGame reg r p m).
Proof.
  apply keeps_sound. intros d C. unfold Lobby.StartGame.
  assert (sound d d) as Hd by by apply sound_refl.
  apply wpd_bind, wpd_orElse, wpd_GetRoom; [done|]. intros room Hr.
  case_decide; [by apply wpd_throw|]. case_decide; [by apply wpd_throw|].
  apply wpd_bind, wpd_wrap, wpd_ListRoomPlayers; [done|].
  apply wpd_bind, wpd_orElse, wpd_registry_Get; [done|]. intros game Hg.
  case_match; [by apply wpd_throw|].
  set (I := λ d', d' = d).
  assert (∀ (e : error) d', I d' → sound d d') as HI by by intros _ ? ->.
  apply (wpd_keeps I); [unfold GetRoomSettings; keep|done|done|]. intros settings ? ->.
  apply (wpd_keeps I); [unfold Lobby.resolveTimeout, GetGameConfig; keep|done|done|]. intros timeout ? ->.
  apply (wpd_keeps I); [apply keeps_seatPlayers|done|done|]. intros ps ? ->.
  apply (wpd_keeps I); [apply keeps_firstSeatOf|done|done|]. intros seat ? ->.
  apply (wpd_keeps I); [unfold Lobby.of_result; keep|done|done|]. intros ps' ? ->.
  apply wpd_bind, wpd_wrap, wpd_run_Init; [done|]. intros seed st Hst.
  apply wpd_bind, wpd_lift. destruct (Marshal_state st) as [raw|] eqn:Hm; [|done].
  apply Marshal_state_Some in Hm as ->.
  apply wpd_bind, wpd_wrap, wpd_exec; [done|]. intros t id s d' Hf.
  destruct (game_sessions d !! id) eqn:Hid; cbn in Hf; [done|].
  destruct (negb _ && _) in Hf; [|done]. injection Hf as Hs <-.
  assert (sound d (set_sessions (<[GS_ID s := s]> (game_sessions d)) d)) as Hsound.
  { subst s. eapply sound_session_insert; try done. by apply Get_Some. }
  rewrite <- Hs in Hsound at 1. cbn in Hsound. rewrite <- Hs in Hsound. rewrite <- Hs.
  apply (keeps_bind (sound d)); [keep|intros; keep|done].
Qed.

(** ** The runtime *)

Lemma keeps_isBot I bots p : keeps I (Runtime.isBot bots p).
Proof. unfold Runtime.isBot, GetPlayer. keep. Qed.

Lemma keeps_humanCount I bots ps : keeps I (Runtime.humanCount bots ps).
Proof.
  induction ps as [|p ps IH]; cbn [Runtime.humanCount]; [keep|]. pose proof keeps_isBot. keep.
Qed.

Lemma keeps_Schedule I s : keeps I (Runtime.Schedule s).
Proof. unfold Runtime.Schedule, Runtime.ScheduleIn, Runtime.enqueue. keep. Qed.

Lemma keeps_Cancel I s : keeps I (Runtime.Cancel s).
Proof. apply keeps_unschedule. Qed.

Lemma keeps_game_call I {A} e (r : result gerror A) : keeps I (Runtime.game_call e r).
Proof. unfold Runtime.game_call. keep. Qed.

(** Finishing a running session: it has no result yet. *)
Lemma no_result d k s : consistent d → game_sessions d !! k = Some s → GS_FinishedAt s = None →
  ∀ j r, game_results d !! j = Some r → G_SessionID r ≠ k.
Proof.
  intros C Hs Hf j r Hr <-. destruct (result_session _ _ C _ _ Hr) as (s'&Hs'&[t Ht]). congruence.
Qed.

Lemma wpd_FinishSession k s Φ d :
  consistent d → game_sessions d !! k = Some s → GS_FinishedAt s = None →
  (∀ e, Φ (Err e) d) →
  (∀ t d', sound d d' → game_sessions d' !! k = Some (session_set_finished (Some t) s) →
     game_results d' = game_results d → Φ (Ok tt) d') →
  wpd (FinishSession k) Φ d.
Proof.
  intros C Hs Hf He Hok. apply wpd_wrap, wpd_update; [auto|]. intros t. eapply (Hok t).
  - apply sound_session; [done|]. intros s' Hs'. assert (s' = s) as -> by congruence.
    unfold keeps_game. split_and!; try done. by rewrite Hf.
  - cbn. by rewrite lookup_alter_eq, Hs.
  - done.
Qed.

(** Statements that touch neither sessions nor results. *)
Definition unmoved (d d' : DB) : Prop :=
  sound d d' ∧ game_sessions d' = game_sessions d ∧ game_results d' = game_results d.

Lemma unmoved_refl d : consistent d → unmoved d d.
Proof. intros C. unfold unmoved. split_and!; [by apply sound_refl|done..]. Qed.

Lemma unmoved_UpdateRoomStatus d0 r s : keeps (unmoved d0) (UpdateRoomStatus r s).
Proof.
  intros d (S1&Q1&Q2). apply wpd_wrap, wpd_exec; [done|]. intros t id a d' H.
  destruct (_ || _); [|done]. injection H as _ <-. unfold unmoved. split_and!; try done.
  eapply sound_trans; [exact S1|]. apply sound_room; [apply S1|done].
Qed.

Lemma wpd_create_result params s Φ d :
  consistent d → game_sessions d !! GR_SessionID params = Some s → is_Some (GS_FinishedAt s) →
  (∀ k r, game_results d !! k = Some r → G_SessionID r ≠ GR_SessionID params) →
  (∀ r d', sound d d' → Φ r d') → wpd (create_result params) Φ d.
Proof.
  intros C Hs Hf Hno HΦ. assert (sound d d) as Hd by by apply sound_refl.
  apply (wpd_keeps (λ d', d' = d)); [keep|done|by intros ? ? ->; apply HΦ|]. intros dur ? ->.
  apply wpd_bind, wpd_wrap, wpd_exec; [by intros; apply HΦ|]. intros t id r d' H.
  destruct (game_results d !! id) eqn:Hid; cbn in H; [done|].
  destruct (negb _ && _ && _) in H; [|done]. injection H as Hr <-.
  assert (sound d (set_results (<[G_ID r := r]> (game_results d)) d)) as Hsound.
  { subst r. by eapply sound_result. }
  rewrite <- Hr in Hsound at 1. cbn in Hsound. rewrite <- Hr in Hsound. rewrite <- Hr.
  eapply wpd_conseq; [apply (keeps_bind (sound d)); [keep|intros; keep|done]|].
  intros r' d'. apply HΦ.
Qed.

Lemma wpd_CreateGameResult params s Φ d :
  consistent d → game_sessions d !! GR_SessionID params = Some s → is_Some (GS_FinishedAt s) →
  (∀ k r, game_results d !! k = Some r → G_SessionID r ≠ GR_SessionID params) →
  (∀ r d', sound d d' → Φ r d') → wpd (CreateGameResult params) Φ d.
Proof.
  intros C Hs Hf Hno HΦ w Hw. unfold CreateGameResult. destruct (tx_time w).
  - revert w Hw. by eapply wpd_create_result.
  - revert w Hw. apply wpd_with_tx; [intros; by apply HΦ, sound_refl|].
    eapply wpd_create_result; try done. intros [|] d' Hd'; auto.
Qed.

(** Finish, update the room, record the result. *)
Lemma sound_persist_end d k s room params Φ :
  consistent d → game_sessions d !! k = Some s → is_Some (GS_FinishedAt s) →
  (∀ j r, game_results d !! j = Some r → G_SessionID r ≠ k) →
  (∀ ps, GR_SessionID (params ps) = k) →
  (∀ r d', sound d d' → Φ r d') →
  wpd (try (UpdateRoomStatus room RoomStatusFinished);;
       ps ← wrap "list room players" (ListRoomPlayers room);
       gr ← wrap "create game result" (CreateGameResult (params ps));
       mret (Some gr)) Φ d.
Proof.
  intros C Hs Hf Hno Hp HΦ.
  apply (wpd_keeps (unmoved d)); [apply keeps_try, unmoved_UpdateRoomStatus|by apply unmoved_refl|by intros ? ? [? _]; apply HΦ|].
  intros _ d' (S1&Q1&Q2). apply wpd_bind, wpd_wrap, wpd_ListRoomPlayers; [intros; by apply HΦ|].
  apply wpd_bind, wpd_wrap. eapply wpd_CreateGameResult.
  - apply S1.
  - by rewrite Hp, Q1.
  - done.
  - intros j r. rewrite Hp, Q2. apply Hno.
  - intros [gr|e] d'' S2; [apply wpd_ret|]; apply HΦ; by eapply sound_trans.
Qed.

Lemma wpd_persistMove k s g st pid payload ts st' over res Φ d :
  consistent d → game_sessions d !! k = Some s → GS_FinishedAt s = None →
  Get (GS_GameID s) reg = Ok g → GS_State s = Some st →
  uuid_String pid = CurrentPlayerID st →
  ValidateMove g st (mkMove (uuid_String pid) payload ts) = Ok tt →
  Engine.ApplyMove g st (mkMove (uuid_String pid) payload ts) = Ok st' →
  over = (IsOver g st').1 →
  (∀ r d', match r with Ok _ => sound d d' | Err _ => True end → Φ r d') →
  wpd (Runtime.persistMove k s pid (json_rt <$> payload) (Some (reload st')) over res) Φ d.
Proof.
  intros C Hs Hf Hg Hst Hcur Hv Ha Hover HΦ. unfold Runtime.persistMove.
  apply wpd_bind, wpd_wrap, wpd_wrap, wpd_exec; [intros; by apply HΦ|]. intros t id m d1 Hm.
  cbn [RM_SessionID RM_MoveNumber] in Hm.
  destruct (moves d !! (k, (GS_MoveCount s + 1)%Z)) eqn:Hmv; cbn in Hm; [done|].
  destruct (_ && _ && _) in Hm; [|done]. injection Hm as Hm <-.
  apply wpd_bind, wpd_wrap, wpd_wrap, wpd_update; [intros; by apply HΦ|]. intros t2.
  apply wpd_bind, wpd_wrap, wpd_update; [intros; by apply HΦ|]. intros t3.
  rewrite Hm.
  assert (∀ f, GS_FinishedAt (f s) = None ∨ is_Some (GS_FinishedAt (f s)) →
    GS_ID (f s) = GS_ID s → GS_RoomID (f s) = GS_RoomID s → GS_GameID (f s) = GS_GameID s →
    GS_Mode (f s) = GS_Mode s → GS_StartedAt (f s) = GS_StartedAt s →
    GS_State (f s) = Some (reload st') → GS_MoveCount (f s) = (GS_MoveCount s + 1)%Z →
    (GS_FinishedAt (f s) = None → over = false) →
    sound d (set_sessions (alter f k (game_sessions d))
             (set_moves (<[(k, (GS_MoveCount s + 1)%Z) := m]> (moves d)) d))) as Hmove.
  { intros f _ ? ? ? ? ? ? ? Hov. eapply (sound_move reg d k s g st payload ts st' m); subst m; try done.
    by rewrite <- Hover. }
  destruct over.
  - apply wpd_bind, wpd_wrap, wpd_wrap, wpd_update; [intros; by apply HΦ|]. intros t4.
    cbn [game_sessions set_sessions set_moves]. rewrite <- !alter_compose.
    specialize (Hmove (session_set_finished (Some t4) ∘ (session_set_last_move t3 ∘
      session_set_state (Some (reload st'))))).
    set (d4 := set_sessions _ _).
    assert (sound d d4) as S4 by (apply Hmove; try done; cbn; eauto).
    eapply (sound_persist_end d4 k _ (GS_RoomID s)); [apply S4| | | | |].
    + subst d4. cbn. by rewrite lookup_alter_eq, Hs.
    + done.
    + by eapply (no_result d).
    + intros ps. cbn. by eapply (session_key _ _ C).
    + intros [gr|e] d' S5; apply HΦ; [|done]. by eapply sound_trans.
  - apply wpd_ret, HΦ. cbn [game_sessions set_sessions set_moves]. rewrite <- alter_compose.
    apply Hmove; try done. by left.
Qed.

Lemma sound_ApplyMove d0 k pid payload : keeps (sound d0) (Runtime.ApplyMove reg k pid payload).
Proof.
  apply keeps_sound. intros d C. unfold Runtime.ApplyMove.
  assert (sound d d) as Hd by by apply sound_refl.
  apply wpd_bind, wpd_orElse, wpd_GetGameSession; [done|]. intros s Hs.
  unfold Runtime.is_some. destruct (GS_FinishedAt s) eqn:Hf; cbn; [by apply wpd_throw|].
  destruct (GS_SuspendedAt s); cbn; [by apply wpd_throw|].
  apply wpd_bind. unfold Runtime.registry_Get. destruct (Get (GS_GameID s) reg) as [g|] eqn:Hg; [|by apply wpd_throw].
  apply wpd_ret, wpd_bind, wpd_lift. unfold Unmarshal_state. destruct (GS_State s) as [st|] eqn:Hst; [|done].
  apply wpd_bind, wpd_now. intros ts. case_decide as Hcur; [by apply wpd_throw|].
  cbn in Hcur. apply wpd_bind. unfold Runtime.game_call.
  destruct (ValidateMove g st _) as [[]|[]] eqn:Hv; [apply wpd_ret|by apply wpd_throw..].
  apply wpd_bind. destruct (Engine.ApplyMove g st _) as [st'|[]] eqn:Ha; [apply wpd_ret|by apply wpd_throw..].
  apply wpd_bind, wpd_lift. destruct (Marshal_payload payload) eqn:Hp; [|done].
  apply Marshal_payload_Some in Hp as ->.
  apply wpd_bind, wpd_lift. destruct (Marshal_state st') eqn:Hm; [|done]. apply Marshal_state_Some in Hm as ->.
  destruct (Runtime.over_result g st') as [over res] eqn:Hover.
  apply wpd_bind, wpd_wrap, wpd_with_tx; [done|]. eapply wpd_persistMove; try done.
  { unfold Runtime.over_result in Hover. destruct (IsOver g st') as [[] ?]; by injection Hover. }
  intros [gr|e] d' S1; [|done].
  pose proof (keeps_Schedule (sound d)). apply (keeps_bind (sound d)); [|intros|done].
  { apply keeps_wrap, keeps_queryRow. }
  unfold Runtime.Cancel, Runtime.publishGameFinished, ListRoomPlayers. keep.
Qed.

Lemma wrap_bind {A B} c (m : M A) (f : A → M B) Φ d :
  wpd (m ≫= f) Φ d → (∀ r d', Φ r d' → ∀ e, r = Err e → Φ (Err (Wrap c e)) d') →
  wpd (wrap c m ≫= f) Φ d.
Proof.
  intros H Hc w Hw. specialize (H w Hw). unfold mbind, M_bind, wrap in *.
  destruct (m w) as [[a|e] w']; [done|]. by eapply Hc.
Qed.

Lemma sound_Surrender d0 k p : keeps (sound d0) (Runtime.Surrender k p).
Proof.
  apply keeps_sound. intros d C. unfold Runtime.Surrender.
  assert (sound d d) as Hd by by apply sound_refl.
  apply wpd_bind, wpd_orElse, wpd_GetGameSession; [done|]. intros s Hs.
  unfold Runtime.is_some. destruct (GS_FinishedAt s) eqn:Hf; cbn [is_none negb]; [by apply wpd_throw|].
  apply wpd_bind, wpd_wrap, wpd_ListRoomPlayers; [done|].
  destruct (negb _); [by apply wpd_throw|].
  apply wpd_bind, wpd_unschedule. apply wrap_bind; [|done].
  apply wpd_bind. eapply wpd_FinishSession; [done|done|done|done|]. intros t d1 S1 Hs1 Hr1.
  apply wpd_bind, wpd_now. intros t'. apply wpd_bind, wpd_try.
  eapply wpd_conseq; [apply (unmoved_UpdateRoomStatus d1), unmoved_refl, S1|].
  intros a d2 (S2&Q1&Q2). apply wpd_bind, wpd_try. eapply wpd_CreateGameResult.
  - apply S2.
  - cbn. by rewrite (session_key _ _ C _ _ Hs), Q1.
  - done.
  - intros j r. cbn. rewrite Q2, Hr1, (session_key _ _ C _ _ Hs). by eapply no_result.
  - intros b d3 S3. apply (keeps_bind (sound d)); [apply keeps_publish|intros; keep|].
    eapply sound_trans; [exact S1|]. by eapply sound_trans.
Qed.

Lemma sound_onReadyTimeout d0 k : keeps (sound d0) (Runtime.onReadyTimeout k).
Proof.
  apply keeps_sound. intros d C. unfold Runtime.onReadyTimeout.
  assert (sound d d) as Hd by by apply sound_refl.
  apply wpd_bind, wpd_try, wpd_GetGameSession; [intros e; by apply wpd_ret|]. intros s Hs.
  unfold Runtime.is_some. destruct (GS_FinishedAt s) eqn:Hf; cbn [is_none negb orb]; [by apply wpd_ret|].
  destruct (negb _); [by apply wpd_ret|].
  apply wpd_bind, wpd_try, wpd_ListRoomPlayers; [intros e; by apply wpd_ret|].
  destruct (negb _); [by apply wpd_ret|].
  apply wpd_bind, wpd_try. eapply wpd_FinishSession; [done|done|done|intros; by apply wpd_ret|].
  intros t d1 S1 Hs1 Hr1. apply wpd_bind, wpd_try.
  eapply wpd_conseq; [apply (unmoved_UpdateRoomStatus d1), unmoved_refl, S1|].
  intros a d2 (S2&Q1&Q2). apply wpd_bind, wpd_try. eapply wpd_CreateGameResult.
  - apply S2.
  - cbn. by rewrite Q1.
  - done.
  - intros j r. cbn. rewrite Q2, Hr1. by eapply no_result.
  - intros b d3 S3. apply wpd_ret. eapply sound_trans; [exact S1|]. by eapply sound_trans.
Qed.

Lemma sound_VoteRematch d0 bots k p : keeps (sound d0) (Runtime.VoteRematch bots k p).
Proof.
  unfold Runtime.VoteRematch, Runtime.forBots, Runtime.Cancel, GetGameSession, ListRoomPlayers,
    ListRematchVotes.
  pose proof keeps_isBot. keep.
Qed.

Lemma sound_scheduleResumed d0 k : keeps (sound d0) (Runtime.scheduleResumed k).
Proof.
  unfold Runtime.scheduleResumed, Runtime.ScheduleIn, Runtime.enqueue, GetGameSession. keep.
Qed.

Lemma sound_VotePause d0 bots k p : keeps (sound d0) (Runtime.VotePause bots k p).
Proof.
  unfold Runtime.VotePause, Runtime.Cancel, GetGameSession, ListRoomPlayers, Store_VotePause,
    ClearPauseVotes, CountPauseVotes.
  pose proof keeps_humanCount. keep.
Qed.

Lemma sound_VoteResume d0 bots k p : keeps (sound d0) (Runtime.VoteResume bots k p).
Proof.
  unfold Runtime.VoteResume, GetGameSession, ListRoomPlayers, Store_VoteResume,
    ClearResumeVotes, CountResumeVotes.
  pose proof keeps_humanCount. pose proof sound_scheduleResumed. keep.
Qed.

Lemma sound_confirmBots d0 bots k ps b : keeps (sound d0) (Runtime.confirmBots bots k ps b).
Proof.
  revert b. induction ps as [|p ps IH]; intros b; cbn [Runtime.confirmBots]; [keep|].
  pose proof keeps_isBot. keep.
Qed.

Lemma sound_VoteReady d0 bots k p : keeps (sound d0) (Runtime.VoteReady bots k p).
Proof.
  unfold Runtime.VoteReady, GetGameSession, ListRoomPlayers. pose proof sound_confirmBots. keep.
Qed.

Lemma sound_OnAllReady d0 bots s : keeps (sound d0) (Runtime.OnAllReady bots s).
Proof. unfold Runtime.OnAllReady, Runtime.CancelReady. pose proof keeps_Schedule. keep. Qed.

Lemma sound_startBots d0 bots k ps b : keeps (sound d0) (Runtime.startBots bots k ps b).
Proof.
  revert b. induction ps as [|p ps IH]; intros b; cbn [Runtime.startBots]; [keep|].
  pose proof keeps_isBot. keep.
Qed.

Lemma sound_StartSession d0 bots s t : keeps (sound d0) (Runtime.StartSession bots s t).
Proof.
  unfold Runtime.StartSession, Runtime.ScheduleReady, Runtime.enqueue, ListRoomPlayers.
  pose proof sound_startBots. pose proof sound_OnAllReady. keep.
Qed.

Lemma sound_UpdateGameResultEndedBy d0 k e : keeps (sound d0) (UpdateGameResultEndedBy k e).
Proof.
  apply keeps_sound_exec. intros t id d a d' C. destruct (_ || _); [|done]. intros H.
  injection H as _ <-. apply sound_result_map; [done|]. intros r. by case_decide.
Qed.

Lemma sound_applyEngineTimeout d0 bots s p x : keeps (sound d0) (Runtime.applyEngineTimeout reg bots s p x).
Proof.
  unfold Runtime.applyEngineTimeout, ListRoomPlayers, GetGameSession.
  pose proof keeps_Schedule. pose proof sound_ApplyMove. pose proof sound_UpdateGameResultEndedBy. keep.
Qed.

Lemma sound_onTimeout d0 bots k : keeps (sound d0) (Runtime.onTimeout reg bots k).
Proof.
  unfold Runtime.onTimeout, GetGameSession, GetGameConfig. pose proof sound_applyEngineTimeout. keep.
Qed.

Lemma sound_ReschedulePending d0 : keeps (sound d0) Runtime.ReschedulePending.
Proof. unfold Runtime.ReschedulePending, ListSessionsNeedingTimer. pose proof keeps_Schedule. keep. Qed.

Lemma sound_GetStateAt d0 k n : keeps (sound d0) (Runtime.GetStateAt reg k n).
Proof.
  unfold Runtime.GetStateAt, Runtime.registry_Get, Lobby.run_Init, GetGameSession, ListRoomPlayers,
    ListSessionMoves.
  pose proof (@keeps_game_call). keep.
  apply keeps_sound_exec. intros t id d y d' C. destruct (_ <? _)%Z; [done|]. intros [= <- <-].
  by apply sound_refl.
Qed.

(** ** All requests *)

Lemma serve_sound bots r : ∀ d0, keeps (sound d0) (serve reg bots r).
Proof.
  intros d0. destruct r; cbn [serve]; unfold done_;
    try (apply keeps_bind; [|intros; apply keeps_ret]); try solve [eauto 2 with recess].
  - apply sound_Lobby_CreateRoom.
  - apply sound_JoinRoom.
  - apply sound_LeaveRoom.
  - apply sound_UpdateRoomSetting.
  - apply sound_Lobby_ListWaitingRooms.
  - apply sound_AddBot.
  - apply sound_CreateRankedRoom.
  - apply sound_StartGame.
  - apply sound_StartSession.
  - apply sound_OnAllReady.
  - apply sound_VoteReady.
  - apply sound_ApplyMove.
  - apply sound_Surrender.
  - apply sound_VoteRematch.
  - apply sound_VotePause.
  - apply sound_VoteResume.
  - unfold Runtime.GetSessionAndState, GetGameSession, GetGameResult. keep.
  - apply sound_GetStateAt.
  - apply sound_onTimeout.
  - apply sound_onReadyTimeout.
  - apply sound_ReschedulePending.
Qed.

Lemma reaches_sound d d' : consistent d → reaches reg d d' → sound d d'.
Proof.
  intros C. induction 1 as [d|d w bots r Hr IH]; [by apply sound_refl|].
  eapply sound_trans; [by apply IH|]. destruct (IH C) as [Cw _].
  apply (serve_sound bots r (db w) (db w)); [by apply sound_refl|done].
Qed.

Lemma reachable_consistent d : reachable reg d → consistent d.
Proof. intros [configs H]. eapply (reaches_sound _ _ (empty_consistent reg configs) H). Qed.

End Serving.
