(* ===== verification/RuntimeSpec.v ===== *)
(** The properties of the session runtime: moves are atomic and legal, results are
    recorded once and only for finished sessions, finished games do not change, as long as
    requests are served one after another; and what becomes of it when they overtake
    each other. *)
From S2P Require Import Prelude Json Engine Randutil Backend Store BackendLogic Lobby Runtime.
From S2P Require Import Atomicity Consistency Requests Serving Demo.

Section Spec.
Context `{U : UUID} `{E : Entropy} `{S : !Server} (reg : registry).

(** ** Moves *)

(** The runtime accepts the move: the session is running, the player is to move,
    and the game validates and executes the move. *)
Record accepted (d : DB) (k pid : uuid) (payload : data) (s : GameSession) (g : Game)
    (st st' : GameState) (ts : Z) : Prop := {
  acc_session : game_sessions d !! k = Some s;
  acc_running : GS_FinishedAt s = None ∧ GS_SuspendedAt s = None;
  acc_game : Get (GS_GameID s) reg = Ok g;
  acc_state : GS_State s = Some st;
  acc_turn : uuid_String pid = CurrentPlayerID st;
  acc_valid : ValidateMove g st (mkMove (uuid_String pid) payload ts) = Ok tt;
  acc_apply : Engine.ApplyMove g st (mkMove (uuid_String pid) payload ts) = Ok st'
}.

(** The timers after a move that leaves the game running. *)
Definition rescheduled (s : GameSession) (t t' : gmap string Z) : Prop :=
  match GS_TurnTimeoutSecs s with
  | Some n => if (n <=? 0)%Z then t' = t
              else ∃ now, t' = <[Runtime.turnTaskID (GS_ID s) := (now + n * Runtime.second)%Z]>
                                 (delete (Runtime.turnTaskID (GS_ID s)) t)
  | None => t' = t
  end.

(** What an accepted move answers and announces. *)
Definition announced (d' : DB) (k : uuid) (g : Game) (st' : GameState) (gr : option GameResult)
    (o : gmap string Z * list Finished) (r : Prelude.result error Runtime.MoveResult)
    (o' : gmap string Z * list Finished) : Prop :=
  match r with
  | Err _ => o' = o
  | Ok mr =>
      let '(over, result) := Runtime.over_result g st' in
      game_sessions d' !! k = Some (Runtime.MR_Session mr) ∧
      Runtime.MR_State mr = st' ∧ Runtime.MR_IsOver mr = over ∧
      if over then
        Runtime.MR_Result mr = Some result ∧
        o'.1 = delete (Runtime.turnTaskID k) o.1 ∧
        ∃ ps, (ps = players_of d' (GS_RoomID (Runtime.MR_Session mr)) ∨ ps = []) ∧
          o'.2 = o.2 ++ [Runtime.finished_event (Runtime.MR_Session mr) ps gr]
      else rescheduled (Runtime.MR_Session mr) o.1 o'.1 ∧ o'.2 = o.2
  end.

Lemma wp_GetGameSession_idle id (Φ : Prelude.result error GameSession → Obs → Prop) o :
  idle o → (∀ e, Φ (Err e) o) → (∀ s, game_sessions (o_db o) !! id = Some s → Φ (Ok s) o) →
  wp (GetGameSession id) Φ o.
Proof.
  intros [Ht Ha] He Hok. apply wp_queryRow.
  - intros e. rewrite o_fail_idle by done. apply He.
  - intros _ _. destruct (game_sessions (o_db o) !! id) as [s|] eqn:Hs; cbn; [|apply He].
    destruct (guard _); [by apply Hok|apply He].
Qed.

Lemma idle_end d o : idle (o_end d o).
Proof. done. Qed.

Lemma wp_Schedule s (Φ : Prelude.result error unit → Obs → Prop) o :
  (∀ t, rescheduled s (o_tasks o) t → Φ (Ok tt) (o_set_tasks t o)) →
  wp (Runtime.Schedule s) Φ o.
Proof.
  intros H. unfold Runtime.Schedule, rescheduled in *. destruct (GS_TurnTimeoutSecs s) as [n|].
  - destruct (n <=? 0)%Z; [apply wp_ret; specialize (H _ eq_refl); by destruct o|].
    apply wp_bind, wp_unschedule, wp_bind, wp_now. intros t. apply wp_schedule.
    cbn. apply (H _). eauto.
  - apply wp_ret. specialize (H _ eq_refl). by destruct o.
Qed.

Lemma over_result_fst g st : (Runtime.over_result g st).1 = (IsOver g st).1.
Proof. unfold Runtime.over_result. by destruct (IsOver g st) as [[] ?]. Qed.

Definition outside (o : Obs) : gmap string Z * list Finished := (o_tasks o, o_pub o).

Lemma wp_ApplyMove k pid payload o : idle o →
  wp (Runtime.ApplyMove reg k pid payload) (λ r o', idle o' ∧
    ((∃ e, r = Err e) ∧ o_db o' = o_db o ∧ outside o' = outside o ∨
     ∃ s g st st' ts gr, accepted (o_db o) k pid payload s g st st' ts ∧
       committed (o_db o) k s pid payload g st' gr (o_db o') ∧
       announced (o_db o') k g st' gr (outside o) r (outside o'))) o.
Proof.
  intros Hi. match goal with |- wp _ ?P _ => set (Φ := P) end.
  assert (∀ e, Φ (Err e) o) as He by (intros e; unfold Φ; cbv beta; split; [done|left; eauto]).
  unfold Runtime.ApplyMove.
  apply wp_bind, wp_orElse, wp_GetGameSession_idle; [done|done|]. intros s Hs.
  unfold Runtime.is_some. destruct (GS_FinishedAt s) eqn:Hf; cbn [is_none negb]; [by apply wp_throw|].
  destruct (GS_SuspendedAt s) eqn:Hsu; cbn [is_none negb]; [by apply wp_throw|].
  apply wp_bind. unfold Runtime.registry_Get. destruct (Get (GS_GameID s) reg) as [g|] eqn:Hg; [|by apply wp_throw].
  apply wp_ret, wp_bind, wp_lift. unfold Unmarshal_state. destruct (GS_State s) as [st|] eqn:Hst; [|done].
  apply wp_bind, wp_now. intros ts. case_decide as Hcur; [by apply wp_throw|]. cbn in Hcur.
  apply wp_bind. unfold Runtime.game_call.
  destruct (ValidateMove g st _) as [[]|[]] eqn:Hv; [apply wp_ret|by apply wp_throw..].
  apply wp_bind. destruct (Engine.ApplyMove g st _) as [st'|[]] eqn:Ha; [apply wp_ret|by apply wp_throw..].
  apply wp_bind, wp_lift. destruct (Marshal_payload payload) eqn:Hp; [|done].
  apply Marshal_payload_Some in Hp as ->.
  apply wp_bind, wp_lift. destruct (Marshal_state st') eqn:Hm; [|done]. apply Marshal_state_Some in Hm as ->.
  assert (accepted (o_db o) k pid payload s g st st' ts) as Hacc by done.
  pose proof (wp_persistMove k s pid payload g st' (o_begin o)) as Hpm.
  destruct (Runtime.over_result g st') as [over res] eqn:Hor. specialize (Hpm eq_refl eq_refl).
  apply wp_bind, wp_wrap, wp_with_tx; [done|apply Hi|apply Hi|].
  assert (∀ o', o_tasks o' = o_tasks o → o_pub o' = o_pub o → outside (o_end (o_db o) o') = outside o) as Hout
    by (intros o' H1 H2; unfold outside; cbn; congruence).
  eapply wp_conseq; [exact Hpm|]. intros [gr|e] o1 [[S1 S2] Hc]; [|unfold Φ; cbv beta; split; [done|left; split_and!; [eauto|done|by apply Hout]]].
  split; [intros e; unfold Φ; cbv beta; split; [done|left; split_and!; [eauto|done|by apply Hout]]|]. intros Hab. specialize (Hc gr eq_refl Hab).
  assert (∀ e, Φ (Err e) (o_end (o_db o1) o1)) as He1.
  { intros e. unfold Φ; cbv beta. split; [done|]. right. exists s, g, st, st', ts, gr. split_and!; [done|done|].
    cbn. unfold outside. cbn. cbn in S1, S2. congruence. }
  apply wp_bind, wp_wrap, wp_GetGameSession_idle; [done|done|]. intros s1 Hs1.
  destruct over.
  - apply wp_bind, wp_unschedule, wp_bind, wp_try.
    assert (∀ r', (∃ ps, players_of (o_db o1) (GS_RoomID s1) = ps ∧ r' = Ok ps) ∨ (∃ e, r' = Err e) →
      wp (Runtime.publishGameFinished s1 (Runtime.players_or_none r') gr;;
          mret (Runtime.mkMoveResult s1 st' true (Some res))) Φ
        (o_set_tasks (delete (Runtime.turnTaskID k) (o_tasks o1)) (o_end (o_db o1) o1))) as Hend.
    { intros r' Hr'. apply wp_bind, wp_publish, wp_ret. unfold Φ; cbv beta. split; [done|]. right.
      exists s, g, st, st', ts, gr. split_and!; [done|done|]. unfold announced. cbv beta. rewrite Hor.
      cbn in S1, S2 |- *. split_and!; try done; [congruence|].
      exists (Runtime.players_or_none r'). rewrite S2. split; [|done].
      destruct Hr' as [(ps&<-&->)|[e ->]]; cbn; auto. }
    apply wp_wrap, wp_query.
    + intros e. rewrite o_fail_idle by done. apply Hend. eauto.
    + intros _ t. apply Hend. eauto.
  - apply wp_bind, wp_Schedule. intros t Ht. apply wp_ret. unfold Φ; cbv beta. split; [done|]. right.
    exists s, g, st, st', ts, gr. split_and!; [done|done|]. unfold announced. cbv beta. rewrite Hor.
    cbn in S1, S2, Ht |- *. split_and!; try done. by rewrite <- S1.
Qed.


(** ** What a deployment keeps true *)

Context (reg_players : ∀ id g, reg !! id = Some g → (2 ≤ MaxPlayers g)%Z).

(** C12 Every stored game is legal: after any requests, failing anywhere, the moves of
    a session are numbered from one without gaps, each was validated and executed
    by the game for the player to move on the state stored before it, none was
    made after the game was over, they lead from a state dealt by [Init] to the
    stored state, and a session that is not finished holds a running game. *)
Theorem stored_games_legal d k s :
  reachable reg d → game_sessions d !! k = Some s → session_history reg d s.
Proof. intros Hd. apply history. by apply reachable_consistent. Qed.

(** C13 After any requests served one after another, failing anywhere, every recorded result belongs to a
    finished session, and no session has two results. *)
Theorem results_sound d :
  reachable reg d →
  (∀ k r, game_results d !! k = Some r →
     ∃ s, game_sessions d !! G_SessionID r = Some s ∧ is_Some (GS_FinishedAt s)) ∧
  (∀ k1 k2 r1 r2, game_results d !! k1 = Some r1 → game_results d !! k2 = Some r2 →
     G_SessionID r1 = G_SessionID r2 → k1 = k2).
Proof.
  intros Hd%reachable_consistent; [|done]. split; [by eapply result_session|by eapply (result_unique reg)].
Qed.

(** C14 A finished session is final for the requests that come after its end: served one
    after another, failing anywhere, they change neither its state, its number of
    moves, the time it ended, nor any of its moves. *)
Theorem finished_frozen d d' k s t :
  reachable reg d → reaches reg d d' → game_sessions d !! k = Some s → GS_FinishedAt s = Some t →
  ∃ s', game_sessions d' !! k = Some s' ∧ GS_FinishedAt s' = Some t ∧ GS_State s' = GS_State s ∧
    GS_MoveCount s' = GS_MoveCount s ∧ ∀ n, moves d' !! (k, n) = moves d !! (k, n).
Proof.
  intros Hd%reachable_consistent Hr Hs Hf; [|done].
  destruct (reaches_sound reg reg_players d d' Hd Hr) as [C' [Ev Mv]].
  destruct (Ev _ _ Hs) as (s'&Hs'&_&_&_&_&_&HF). destruct (HF t Hf) as (Hf'&Hst&Hc).
  exists s'. split_and!; try done. intros n.
  destruct (history _ _ Hd _ _ Hs) as (g1&?&?&?&ms&?&_&_&Hc1&Hm1&_).
  destruct (history _ _ C' _ _ Hs') as (g2&?&?&?&ms'&?&_&_&Hc2&Hm2&_).
  rewrite (session_key _ _ Hd _ _ Hs) in Hm1. rewrite (session_key _ _ C' _ _ Hs') in Hm2.
  destruct (moves d !! (k, n)) as [m|] eqn:Hm; [by eapply lookup_weaken|].
  rewrite Hm2. rewrite Hm1 in Hm. case_decide; [|done].
  apply lookup_ge_None_1 in Hm. apply lookup_ge_None_2. lia.
Qed.

Lemma count_people d k :
  count (filter (λ p, is_bot d (RP_PlayerID p) = false) (players_of d k)) = Z.of_nat (people d k).
Proof.
  unfold count, players_of, order_by, people, rows. rewrite merge_sort_Permutation. f_equal.
  induction (map_to_list (room_players d)) as [|[[r q] x] l IH]; [done|].
  rewrite !filter_cons. cbn. case_bool_decide; csimpl; [|done]. rewrite ?fmap_cons, filter_cons. csimpl.
  destruct (is_bot d q); cbn; repeat case_decide; try done. cbn. f_equal. exact IH.
Qed.

(** C15 When requests are served one after another, failing anywhere, no room ever holds
    more people than its capacity. The bots, which its owner adds
    without anybody asking for a free seat, are not counted. *)
Theorem room_capacity d k r :
  reachable reg d → rooms d !! k = Some r →
  (count (filter (λ p, is_bot d (RP_PlayerID p) = false) (players_of d k)) ≤ R_MaxPlayers r)%Z.
Proof.
  intros Hd%reachable_consistent Hr; [|done]. rewrite count_people. by apply (capacity reg).
Qed.

End Spec.

(** ** Results *)

Section Results.
Context `{U : UUID} `{E : Entropy} `{S : !Server}.

(** C19 The outcome of every player that is published after a move is the one that is
    stored; after a surrender the winner agrees, and everybody else is stored with
    a loss and published with a forfeit. *)
Theorem outcomes_agree s result ps gr o :
  o ∈ GR_Players (Runtime.buildGameResultParams s result ps) →
  is_result_of (Runtime.buildGameResultParams s result ps) gr →
  Runtime.outcomeFor (GP_PlayerID o) gr = GP_Outcome o.
Proof.
  unfold is_result_of, Runtime.buildGameResultParams, Runtime.outcomeFor. cbn.
  intros (p&->&Hp)%list_elem_of_fmap (_&_&Hw&Hd&He). cbn in *. rewrite Hd, He, Hw.
  repeat case_decide; repeat case_bool_decide; try done; congruence.
Qed.

Lemma forfeit_outcomes s opp ps gr o :
  o ∈ GR_Players (Runtime.forfeitParams s opp ps) → is_result_of (Runtime.forfeitParams s opp ps) gr →
  if decide (opp = Some (GP_PlayerID o))
  then GP_Outcome o = OutcomeWin ∧ Runtime.outcomeFor (GP_PlayerID o) gr = "win"
  else GP_Outcome o = OutcomeLoss ∧ Runtime.outcomeFor (GP_PlayerID o) gr = "forfeit".
Proof.
  unfold is_result_of, Runtime.forfeitParams, Runtime.outcomeFor. cbn.
  intros (p&->&Hp)%list_elem_of_fmap (_&_&Hw&Hd&He). cbn in *. rewrite Hd, He, Hw.
  repeat case_decide; try done; congruence.
Qed.

(** ** Pausing *)

(** The votes of a session once player [p] has voted. *)
Definition with_vote (k p : uuid) (v : vote_type) (t : Z) (d : DB) : DB :=
  match session_pause_votes d !! (k, p, v) with
  | Some _ => d
  | None => set_pause_votes (<[(k, p, v) := t]> (session_pause_votes d)) d
  end.

Lemma with_vote_other k p v t d :
  game_sessions (with_vote k p v t d) = game_sessions d ∧ players (with_vote k p v t d) = players d ∧
  room_players (with_vote k p v t d) = room_players d.
Proof. unfold with_vote. by case_match. Qed.

Lemma wp_store_vote c v k p (Φ : Prelude.result error bool → Obs → Prop) o :
  idle o → (∀ e o', Φ (Err e) o') →
  (∀ t, let d := with_vote k p v t (o_db o) in
     Φ (Ok (session_humans d k <=? votes_of d k v)%Z) (o_set_db d o)) →
  wp (store_vote c v k p) Φ o.
Proof.
  intros Hi He Hok. unfold store_vote, allPlayersVoted. apply wp_bind, wp_wrap, wp_exec; [done|].
  intros _ t id a d Hf.
  assert (d = with_vote k p v t (o_db o)) as ->.
  { unfold with_vote. destruct (session_pause_votes (o_db o) !! (k, p, v)); [by injection Hf|].
    destruct (is_none _ || is_none _); [done|by injection Hf]. }
  apply wp_wrap, wp_query; [done|]. intros _ t'. apply (Hok t).
Qed.

(** What a vote to pause does when it succeeds. *)
Definition paused (k p : uuid) (o : Obs) (pv : Runtime.PauseVoteResult) (o' : Obs) : Prop :=
  ∃ s t, game_sessions (o_db o) !! k = Some s ∧ GS_FinishedAt s = None ∧ GS_SuspendedAt s = None ∧
    Runtime.callerFound p (players_of (o_db o) (GS_RoomID s)) = true ∧
    let d := with_vote k p VotePause_ t (o_db o) in
    Runtime.PV_AllVoted pv = (session_humans (o_db o) k <=? votes_of d k VotePause_)%Z ∧
    if Runtime.PV_AllVoted pv then
      (∃ t', game_sessions (o_db o') !! k =
               Some (session_suspension (Some t') (Some "pause_vote") (GS_SuspendCount s + 1) s)) ∧
      votes_of (o_db o') k VotePause_ = 0%Z ∧ Runtime.PV_Votes pv = 0%Z ∧
      o_tasks o' = delete (Runtime.turnTaskID k) (o_tasks o)
    else o_db o' = d ∧ Runtime.PV_Votes pv = votes_of d k VotePause_ ∧ o_tasks o' = o_tasks o.

Lemma votes_cleared d k v :
  votes_of (set_pause_votes (filter (λ kv, ¬ (kv.1.1.1 = k ∧ kv.1.2 = v)) (session_pause_votes d)) d) k v
    = 0%Z.
Proof.
  unfold votes_of. rewrite rows_nil; [done|]. intros [[k' p'] v'] x. cbn.
  rewrite map_lookup_filter_Some. cbn. intros [_ Hn]. apply andb_false_iff.
  destruct (decide (k' = k)) as [->|]; [right|left]; apply bool_decide_eq_false; naive_solver.
Qed.

Lemma session_humans_vote k p v t d : session_humans (with_vote k p v t d) k = session_humans d k.
Proof.
  unfold session_humans, humans_of. destruct (with_vote_other k p v t d) as (->&->&->). done.
Qed.

Lemma reads_isBot bots p : reads (Runtime.isBot bots p).
Proof. unfold Runtime.isBot, GetPlayer. case_decide; eauto with recess. Qed.

Lemma reads_humanCount bots ps : reads (Runtime.humanCount bots ps).
Proof.
  induction ps as [|p ps IH]; cbn [Runtime.humanCount]; [apply reads_ret|].
  apply reads_bind; [apply reads_isBot|]. intros b. apply reads_bind; [done|]. intros. apply reads_ret.
Qed.

Lemma wp_VotePause bots k p o : idle o →
  wp (Runtime.VotePause bots k p) (λ r o', match r with Ok pv => paused k p o pv o' | Err _ => True end) o.
Proof.
  intros Hi. unfold Runtime.VotePause.
  apply wp_bind, wp_orElse, wp_GetGameSession_idle; [done|done|]. intros s Hs.
  unfold Runtime.is_some. destruct (GS_FinishedAt s) eqn:Hf; cbn [is_none negb]; [by apply wp_throw|].
  destruct (GS_SuspendedAt s) eqn:Hsu; cbn [is_none negb]; [by apply wp_throw|].
  apply wp_bind, wp_wrap, wp_wrap, wp_query; [done|]. intros _ _.
  apply wp_reads; [apply reads_humanCount|apply Hi|apply Hi|done|]. intros humans.
  destruct (Runtime.callerFound p _) eqn:Hc; cbn [negb]; [|by apply wp_throw].
  apply wp_bind, wp_wrap, wp_store_vote; [done|done|]. intros t. cbv zeta.
  rewrite session_humans_vote. set (d := with_vote _ _ _ _ _).
  destruct (_ <=? _)%Z eqn:Hall; apply wp_bind.
  - apply wp_bind, wp_unschedule, wp_bind, wp_wrap, wp_wrap, wp_update; [done|]. intros _ t1.
    apply wp_wrap, wp_wrap, wp_update; [done|]. intros _ t2.
    apply wp_bind, wp_wrap, wp_query; [done|]. intros _ t3. apply wp_ret.
    exists s, t. do 4 (split; [done|]). cbv zeta. fold d. split; [by rewrite Hall|]. cbn [Runtime.PV_AllVoted].
    split_and!; [|apply votes_cleared|apply votes_cleared|done].
    exists t1. cbn. destruct (with_vote_other k p VotePause_ t (o_db o)) as (Eq&_&_). fold d in Eq.
    by rewrite Eq, lookup_alter_eq, Hs.
  - apply wp_ret, wp_bind, wp_wrap, wp_query; [done|]. intros _ t3. apply wp_ret.
    exists s, t. do 4 (split; [done|]). cbv zeta. fold d. split; [by rewrite Hall|]. done.
Qed.

(** C16 Pausing needs consensus: a successful vote comes from a participant of a
    running session that is not paused; the vote is recorded, and the session is
    suspended, its turn timer cancelled and the votes cleared exactly when the
    voters number at least the human participants; otherwise nothing else changes. *)
Theorem VotePause_consensus bots k p w pv w' :
  tx_time w = None → aborted w = false →
  Runtime.VotePause bots k p w = (Ok pv, w') → paused k p (obs w) pv (obs w').
Proof.
  intros Ht Ha Hr. assert (idle (obs w)) as Hi by (split; cbn; [by rewrite Ht|done]).
  exact (wp_run _ _ _ _ _ (wp_VotePause bots k p _ Hi) Hr).
Qed.

End Results.

(** ** Witnesses *)

Import Demo.

Lemma playing_session : Runtime.is_some (the_session (run playing)) = true.
Proof. vm_compute. reflexivity. Qed.

Lemma finished_session :
  match the_session (run finished) with Some s => Runtime.is_some (GS_FinishedAt s) | None => false end = true.
Proof. vm_compute. reflexivity. Qed.

Lemma steady_playing : steady start playing = true.
Proof. vm_compute. reflexivity. Qed.

Lemma steady_finished : steady start finished = true.
Proof. vm_compute. reflexivity. Qed.


Lemma stored_games_legal_witness :
  ∃ s, the_session (run finished) = Some s ∧ session_history reg (db (run finished)) s.
Proof.
  destruct (the_session (run finished)) as [s|] eqn:Hs.
  - exists s. split; [reflexivity|].
    apply (stored_games_legal reg reg_players _ session); [apply run_reachable, steady_finished|exact Hs].
  - exfalso. pose proof finished_session as H. rewrite Hs in H. discriminate H.
Defined.

Lemma results_sound_witness :
  (∀ k r, game_results (db (run finished)) !! k = Some r →
     ∃ s, game_sessions (db (run finished)) !! G_SessionID r = Some s ∧ is_Some (GS_FinishedAt s)) ∧
  size (game_results (db (run finished))) = 1.
Proof.
  split.
  - apply (results_sound reg reg_players). apply run_reachable, steady_finished.
  - vm_compute. reflexivity.
Defined.

(** More moves and votes on the finished game. *)
Definition afterwards : list request := [place bob 5; Req_VotePause session alice].

Lemma finished_frozen_witness :
  let w := run finished in let w' := run_from w afterwards in
  ∃ s t s', the_session w = Some s ∧ GS_FinishedAt s = Some t ∧ the_session w' = Some s' ∧
    GS_FinishedAt s' = Some t ∧ GS_State s' = GS_State s.
Proof.
  intros w w'. destruct (the_session w) as [s|] eqn:Hs.
  2: { exfalso. pose proof finished_session as H. fold w in H. rewrite Hs in H. discriminate H. }
  destruct (GS_FinishedAt s) as [t|] eqn:Ht.
  2: { exfalso. pose proof finished_session as H. fold w in H. rewrite Hs, Ht in H. discriminate H. }
  destruct (finished_frozen reg reg_players (db w) (db w') session s t) as (s'&H1&H2&H3&_).
  - apply run_reachable, steady_finished.
  - apply run_reaches; [vm_compute; reflexivity|constructor].
  - exact Hs.
  - exact Ht.
  - exists s, t, s'. split_and!; [reflexivity|exact Ht|exact H1|exact H2|exact H3].
Defined.

Lemma room_capacity_witness :
  ∃ r, rooms (db (run playing)) !! room = Some r ∧
    (count (filter (λ p, is_bot (db (run playing)) (RP_PlayerID p) = false)
      (players_of (db (run playing)) room)) ≤ R_MaxPlayers r)%Z.
Proof.
  destruct (rooms (db (run playing)) !! room) as [r|] eqn:Hr.
  - exists r. split; [reflexivity|]. apply (room_capacity reg reg_players); [|exact Hr].
    apply run_reachable, steady_playing.
  - exfalso. assert (Runtime.is_some (rooms (db (run playing)) !! room) = true) as H
      by (vm_compute; reflexivity). rewrite Hr in H. discriminate H.
Defined.

Definition drawn_result : GameResult :=
  mkGameResult "r" session "tictactoe" (Some alice) false EndedByNormal None 0.

Definition seated : list RoomPlayer := [mkRoomPlayer room alice 0 0; mkRoomPlayer room bob 1 0].

Definition won_session : GameSession :=
  mkSession session room "tictactoe" None [] None SessionModeCasual 5 0 None None None 0 0 None None.

Lemma outcomes_agree_witness :
  let params := Runtime.buildGameResultParams won_session (mkResult ResultWin (Some alice) "") seated in
  let o := mkResultPlayer bob 1 OutcomeLoss in
  o ∈ GR_Players params ∧ Runtime.outcomeFor bob drawn_result = OutcomeLoss.
Proof.
  intros params o.
  assert (o ∈ GR_Players params) as Ho
    by (subst params o; vm_compute; apply list_elem_of_further, list_elem_of_here).
  split; [exact Ho|].
  apply (outcomes_agree won_session (mkResult ResultWin (Some alice) "") seated drawn_result o Ho).
  subst params. unfold is_result_of. split_and!; reflexivity.
Defined.

Lemma VotePause_consensus_witness :
  let w := run (playing ++ [Req_VotePause session alice]) in
  let '(r, w') := Runtime.VotePause [] session bob w in
  ∃ pv, r = Ok pv ∧ Runtime.PV_AllVoted pv = true ∧ paused session bob (obs w) pv (obs w').
Proof.
  intros w. destruct (Runtime.VotePause [] session bob w) as [r w'] eqn:Hr.
  assert (match (Runtime.VotePause [] session bob w).1 with
          | Ok pv => Runtime.PV_AllVoted pv | Err _ => false end = true) as H
    by (vm_compute; reflexivity).
  rewrite Hr in H. cbn [fst] in H. destruct r as [pv|e]; [|discriminate H].
  exists pv. split_and!; [reflexivity|exact H|].
  apply (VotePause_consensus [] session bob w pv w'); [..|exact Hr]; vm_compute; reflexivity.
Defined.

(** ** Requests that overtake each other

    The invariants above are those of requests served one after another. The server
    answers requests concurrently, and what it checks outside of a transaction may no
    longer hold when it writes: another request is served between two statements of
    a call [m], on the connection of its own that it has outside of transactions. *)
Definition overtaken {A} (m : M A) (other : World → World) (w w' : World) : Prop :=
  ∃ (B : Type) (p : M B) (q : B → M A),
    (∀ w1, m w1 = (p ≫= q) w1) ∧ tx_time (p w).2 = None ∧
    w' = ((b ← p; λ w1, q b (other w1)) w).2.

Lemma overtaken_intro {A B} (p : M B) (q : B → M A) m other w :
  (∀ w1, m w1 = (p ≫= q) w1) → tx_time (p w).2 = None →
  overtaken m other w ((b ← p; λ w1, q b (other w1)) w).2.
Proof. intros Hm Ht. by exists B, p, q. Qed.

Definition meanwhile (r : request) (w : World) : World := step w r.

Definition results_of (k : uuid) (w : World) : list GameResult :=
  filter (λ r, G_SessionID r = k) (snd <$> map_to_list (game_results (db w))).

(** Two players who surrender at the same time both find a running game: the session
    gets two results, each with another winner. *)
Theorem both_surrender : ∃ w',
  overtaken (Runtime.Surrender session alice) (meanwhile (Req_Surrender session bob)) (run playing) w' ∧
  G_WinnerID <$> results_of session w' = [Some bob; Some alice].
Proof.
  eexists. split.
  - apply (overtaken_intro (orElse (GetGameSession session) Runtime.ErrSessionNotFound)).
    + intros w1. unfold Runtime.Surrender. reflexivity.
    + vm_compute. reflexivity.
  - vm_compute. reflexivity.
Qed.

(** A move that is checked before the opponent surrenders and stored afterwards changes
    the finished session. *)
Theorem move_after_the_end :
  let over := step (run playing) (Req_Surrender session bob) in ∃ w',
  overtaken (Runtime.ApplyMove reg session alice (cell 8)) (meanwhile (Req_Surrender session bob))
    (run playing) w' ∧
  is_Some (the_session over ≫= GS_FinishedAt) ∧
  GS_MoveCount <$> the_session over = Some 4%Z ∧ GS_MoveCount <$> the_session w' = Some 5%Z ∧
  (the_session w' ≫= GS_State) ≠ (the_session over ≫= GS_State).
Proof.
  intros over. eexists. split_and!.
  - apply (overtaken_intro (orElse (GetGameSession session) Runtime.ErrSessionNotFound)).
    + intros w1. unfold Runtime.ApplyMove. reflexivity.
    + vm_compute. reflexivity.
  - apply is_some_true. vm_compute. reflexivity.
  - vm_compute. reflexivity.
  - vm_compute. reflexivity.
  - vm_compute. discriminate.
Qed.

(** Two players can take the last seat of a room, when both count the players before
    either is added; they get the same seat. *)
Definition open_room : list request := [
  Req_CreatePlayer "alice"; Req_CreatePlayer "bob"; Req_CreatePlayer "carol";
  Req_CreateRoom "tictactoe" alice None].
Definition carol : uuid := "id-2".
Definition last_room : uuid := "id-5".

(** [JoinRoom] as far as the check of the free seat, and from there. *)
Definition seats_checked (code : string) (playerID : uuid) : M (Room * list RoomPlayer) :=
  room ← orElse (GetRoomByCode (Lobby.ToUpper code)) Lobby.ErrRoomNotFound;
  if decide (R_Status room ≠ RoomStatusWaiting) then throw Lobby.ErrRoomNotWaiting
  else
    busy ← wrap "JoinRoom: check busy" (IsPlayerInActiveRoom playerID);
    if (busy : bool) then throw Lobby.ErrPlayerBusy
    else ps ← wrap "JoinRoom: list players" (ListRoomPlayers (R_ID room)); mret (room, ps).

Definition seat_taken (playerID : uuid) (rp : Room * list RoomPlayer) : M Lobby.RoomView :=
  let '(room, ps) := rp in
  if (R_MaxPlayers room <=? count ps)%Z then throw Lobby.ErrRoomFull
  else if existsb (λ p, bool_decide (RP_PlayerID p = playerID)) ps then throw Lobby.ErrAlreadyInRoom
  else
    wrap "JoinRoom: add player" (AddPlayerToRoom (R_ID room) playerID (count ps));;
    Lobby.getRoomView room.

Lemma JoinRoom_split code pid w :
  Lobby.JoinRoom code pid w = (seats_checked code pid ≫= seat_taken pid) w.
Proof.
  unfold Lobby.JoinRoom, seats_checked, mbind, M_bind.
  destruct (orElse _ _ w) as [[room|] w1]; [|done]. case_decide; [done|].
  destruct (wrap "JoinRoom: check busy" _ w1) as [[[]|] w2]; [done| |done].
  by destruct (wrap "JoinRoom: list players" _ w2) as [[ps|] w3].
Qed.

Theorem both_join : ∃ w',
  overtaken (Lobby.JoinRoom "abcdef" carol) (meanwhile (Req_JoinRoom "abcdef" bob)) (run open_room) w' ∧
  R_MaxPlayers <$> rooms (db w') !! last_room = Some 2%Z ∧
  (λ p, (RP_PlayerID p, RP_Seat p)) <$> players_of (db w') last_room =
    [(alice, 0%Z); (bob, 1%Z); (carol, 1%Z)].
Proof.
  eexists. split_and!.
  - apply (overtaken_intro _ _ _ _ _ (JoinRoom_split _ _)). vm_compute. reflexivity.
  - vm_compute. reflexivity.
  - vm_compute. reflexivity.
Qed.
