(* ===== verification/LobbySpec.v ===== *)
(** The properties of the lobby: who gets a seat, in which order the players of a
    game sit, and which settings are accepted. *)
From S2P Require Import Prelude Json Engine Randutil Backend Store BackendLogic Lobby Runtime.
From S2P Require Import Atomicity Consistency Requests Serving Demo RuntimeSpec.
From S2P Require RootAccess RootAccessSpec TicTacToe.

(** ** Seats *)

Lemma mapM_ok {A B} (f : A → result error B) (g : A → B) l :
  (∀ x, x ∈ l → f x = Ok (g x)) → mapM f l = Ok (g <$> l).
Proof.
  induction l as [|x l IH]; [done|]. intros Hf. cbn. rewrite Hf by set_solver. cbn.
  rewrite IH by (intros; apply Hf; set_solver). done.
Qed.

Lemma rem_small_split k i n : (0 ≤ k < n → 0 ≤ i < n →
  Z.rem (k + i) n = if decide (k + i < n) then k + i else k + i - n)%Z.
Proof.
  intros Hk Hi. rewrite Z.rem_mod_nonneg by lia. case_decide.
  - apply Z.mod_small. lia.
  - rewrite <- (Z.mod_add _ (-1)) by lia. apply Z.mod_small. lia.
Qed.

(** The players of a game are the seated players rotated so that the first mover
    comes first: all of them, in the same cyclic order. *)
Theorem rotatePlayers_spec ps k :
  (0 ≤ k < Z.of_nat (length ps))%Z →
  Lobby.rotatePlayers ps k = Ok (drop (Z.to_nat k) ps ++ take (Z.to_nat k) ps).
Proof.
  intros Hk. unfold Lobby.rotatePlayers.
  destruct (decide (k = 0%Z ∨ ps = [])) as [[->| ->]|_]; [by rewrite app_nil_r|cbn in Hk; lia|].
  set (g i := if decide (Z.to_nat k + i < length ps) then Z.to_nat k + i else Z.to_nat k + i - length ps).
  assert (∀ i, i < length ps → g i < length ps) as Hg.
  { intros i Hi. unfold g. case_decide; lia. }
  rewrite (mapM_ok _ (λ i, default (mkPlayer "" "") (ps !! g i))).
  2: { intros i Hi%elem_of_seq. unfold Lobby.player_at.
    rewrite rem_small_split by lia.
    replace (if decide _ then _ else _)%Z with (Z.of_nat (g i)) by (unfold g; repeat case_decide; lia).
    rewrite (proj2 (Z.ltb_ge _ _)), Nat2Z.id by lia.
    destruct (lookup_lt_is_Some_2 ps (g i)) as [p ->]; [apply Hg; lia|done]. }
  f_equal. apply list_eq. intros i. rewrite list_lookup_fmap.
  destruct (decide (i < length ps)) as [Hi|Hi].
  - rewrite lookup_seq_lt by done. cbn [fmap option_fmap option_map]. rewrite Nat.add_0_l.
    transitivity (ps !! g i).
    { destruct (lookup_lt_is_Some_2 ps (g i)) as [p ->]; [by apply Hg|done]. }
    unfold g. case_decide.
    + rewrite lookup_app_l by (rewrite length_drop; lia). by rewrite lookup_drop.
    + rewrite lookup_app_r by (rewrite length_drop; lia). rewrite length_drop, lookup_take_lt by lia.
      f_equal. lia.
  - rewrite lookup_seq_ge by lia. symmetry. apply lookup_ge_None_2.
    rewrite length_app, length_drop, length_take. lia.
Qed.

(** ** Joining and configuring a room *)

Section Effects.
Context `{U : UUID} `{E : Entropy} `{S : !Server} (reg : registry).

(** Nothing outside the database has changed. *)
Definition quietly (o o' : Obs) : Prop := outside o' = outside o.

Lemma wp_quiet {A B} (m : M A) (f : A → M B) (Φ : result error B → Obs → Prop) o :
  reads m → idle o → (∀ e, Φ (Err e) o) → (∀ a, wp (f a) Φ o) → wp (m ≫= f) Φ o.
Proof. intros Hm [Ht Ha]. by apply wp_reads. Qed.

Lemma reads_getRoomView r : reads (Lobby.getRoomView r).
Proof.
  unfold Lobby.getRoomView, ListRoomPlayers, GetPlayer, GetRoomSettings, GetActiveSessionByRoom.
  apply reads_bind; [eauto with recess|intros ps].
  apply reads_bind; [apply reads_mapM'; intros; eauto with recess|intros vs].
  apply reads_bind; [eauto with recess|intros ss]. case_decide; eauto with recess.
Qed.

(** The player may take a seat of the room, and takes the next one. *)
Definition joined (code : string) (player : uuid) (d d' : DB) : Prop :=
  ∃ k room t, rooms d !! k = Some room ∧ R_Code room = Lobby.ToUpper code ∧
    R_Status room = RoomStatusWaiting ∧ R_DeletedAt room = None ∧ player_busy d player = false ∧
    (count (players_of d (R_ID room)) < R_MaxPlayers room)%Z ∧
    room_players d !! (R_ID room, player) = None ∧
    d' = set_room_players (<[(R_ID room, player) := (count (players_of d (R_ID room)), t)]>
           (room_players d)) d.

Lemma wp_JoinRoom code player o : idle o →
  wp (Lobby.JoinRoom code player) (λ r o', quietly o o' ∧
    ((∃ e, r = Err e) ∧ o_db o' = o_db o ∨ joined code player (o_db o) (o_db o'))) o.
Proof.
  intros Hi. match goal with |- wp _ ?P _ => set (Φ := P) end.
  assert (∀ e, Φ (Err e) o) as He by (intros e; unfold Φ; split; [done|left; eauto]).
  unfold Lobby.JoinRoom. apply wp_bind, wp_orElse, wp_queryRow.
  { intros e. rewrite o_fail_idle by apply Hi. apply He. }
  intros _ _. destruct (fmap snd _) as [room|] eqn:Hroom; [|apply He].
  apply fmap_Some in Hroom as ([k room']&Hk&Heq). cbn in Heq. subst room'.
  apply head_Some_elem_of, elem_of_rows in Hk as [Hk Hcode].
  rewrite andb_true_iff, bool_decide_eq_true in Hcode. destruct Hcode as [Hcode Hdel].
  case_decide as Hst; [by apply wp_throw|].
  apply wp_bind, wp_wrap, wp_wrap, wp_query; [intros e; rewrite o_fail_idle by apply Hi; apply He|].
  intros _ _. destruct (player_busy (o_db o) player) eqn:Hbusy; [by apply wp_throw|].
  apply wp_bind, wp_wrap, wp_wrap, wp_query; [intros e; rewrite o_fail_idle by apply Hi; apply He|].
  intros _ _. destruct (Z.leb_spec (R_MaxPlayers room) (count (players_of (o_db o) (R_ID room)))) as [|Hfree];
    [by apply wp_throw|].
  destruct (existsb _ _); [by apply wp_throw|].
  apply wp_bind, wp_wrap, wp_wrap, wp_exec; [intros e; rewrite o_fail_idle by apply Hi; apply He|].
  intros _ t id a d Hf. destruct (room_players (o_db o) !! (R_ID room, player)) eqn:Hp; cbn in Hf; [done|].
  destruct (_ && _) in Hf; [|done]. injection Hf as _ <-.
  eapply wp_conseq; [apply reads_getRoomView; apply Hi|]. intros r o' ->. unfold Φ. split; [done|right].
  exists k, room, t. split_and!; try done; by destruct (R_DeletedAt room).
Qed.

(** C17 Whatever statements fail, joining a room either fails without a trace, or the
    room was waiting with a free seat, the player in no waiting or running room,
    and exactly one row was added: the player, at the seat after the last count. *)
Theorem JoinRoom_effect code player w r w' :
  tx_time w = None → aborted w = false → Lobby.JoinRoom code player w = (r, w') →
  tasks w' = tasks w ∧ published w' = published w ∧
  ((∃ e, r = Err e) ∧ db w' = db w ∨ joined code player (db w) (db w')).
Proof.
  intros Ht Ha Hr. assert (idle (obs w)) as Hi by (split; cbn; [by rewrite Ht|done]).
  destruct (wp_run _ _ _ _ _ (wp_JoinRoom code player _ Hi) Hr) as [Ho H].
  unfold quietly, outside in Ho. cbn in Ho. injection Ho as -> ->. done.
Qed.

(** A value that the setting accepts in a game. *)
Definition acceptable (s : LobbySetting) (key value : string) (game : Game) : Prop :=
  if decide (Type_ s = SettingTypeSelect) then ∃ o, o ∈ Options s ∧ Value o = value
  else Type_ s = SettingTypeInt ∧ ∃ n, Lobby.Atoi value = Some n ∧
    (∀ lo, Min s = Some lo → (lo ≤ n)%Z) ∧ (∀ hi, Max s = Some hi → (n ≤ hi)%Z) ∧
    (key = "first_mover_seat" → (n ≤ MaxPlayers game - 1)%Z).

Lemma checkSetting_acceptable s key value game :
  Lobby.checkSetting s key value game = Some (Ok tt) → acceptable s key value game.
Proof.
  unfold Lobby.checkSetting, acceptable. case_decide as Hsel.
  - destruct (existsb _ _) eqn:Hex; [|done]. intros _. apply existsb_exists in Hex as (o&Ho&Hv).
    exists o. rewrite bool_decide_eq_true in Hv. split; [by apply list_elem_of_In|done].
  - case_decide as Hint; [|done]. destruct (Lobby.Atoi value) as [n|]; [|done].
    intros H. split; [done|]. exists n. split; [done|].
    destruct (match Min s with Some lo => _ | None => _ end) eqn:Hlo; [done|].
    destruct (match Max s with Some hi => _ | None => _ end) eqn:Hhi; [done|].
    split_and!.
    + intros lo Hm. rewrite Hm in Hlo. lia.
    + intros hi Hm. rewrite Hm in Hhi. lia.
    + intros ->. rewrite decide_True in H by done. destruct (Z.ltb_spec (MaxPlayers game - 1) n); [done|lia].
Qed.

(** A setting of a room is changed by the owner while the room waits, to a value
    that one of the game's settings accepts. *)
Definition configured (room requester : uuid) (key value : string) (d d' : DB) : Prop :=
  ∃ r g s, rooms d !! room = Some r ∧ R_Status r = RoomStatusWaiting ∧ R_OwnerID r = requester ∧
    Get (R_GameID r) reg = Ok g ∧ s ∈ Lobby.lobbySettingsForGame g ∧ Key s = key ∧
    acceptable s key value g ∧
    d' = set_room_settings (<[(room, key) := value]> (room_settings d)) d.

Lemma validateSetting_acceptable key value g :
  Lobby.validateSetting key value g = Ok tt →
  ∃ s, s ∈ Lobby.lobbySettingsForGame g ∧ Key s = key ∧ acceptable s key value g.
Proof.
  unfold Lobby.validateSetting. destruct (head _) as [x|] eqn:Hh; [|done]. intros ->.
  apply head_Some_elem_of, list_elem_of_omap in Hh as (s&Hs&Hc). case_decide; [|done].
  exists s. split_and!; [done|done|by apply checkSetting_acceptable].
Qed.

Lemma wp_UpdateRoomSetting room requester key value o : idle o →
  wp (Lobby.UpdateRoomSetting reg room requester key value) (λ r o', quietly o o' ∧
    match r with
    | Err _ => o_db o' = o_db o
    | Ok _ => configured room requester key value (o_db o) (o_db o')
    end) o.
Proof.
  intros Hi. match goal with |- wp _ ?P _ => set (Φ := P) end.
  assert (∀ e, Φ (Err e) o) as He by done.
  unfold Lobby.UpdateRoomSetting. apply wp_bind, wp_orElse, wp_queryRow.
  { intros e. rewrite o_fail_idle by apply Hi. apply He. }
  intros _ _. destruct (rooms (o_db o) !! room) as [r|] eqn:Hr; cbn; [|apply He].
  destruct (guard _) as [[]|]; cbn; [|apply He].
  case_decide as Hst; [by apply wp_throw|]. case_decide as Hown; [by apply wp_throw|].
  unfold Lobby.registry_Get. apply wp_bind, wp_orElse.
  destruct (Get (R_GameID r) reg) as [g|] eqn:Hg; [apply wp_ret|by apply wp_throw].
  unfold Lobby.of_result. apply wp_bind.
  destruct (Lobby.validateSetting key value g) as [[]|] eqn:Hv; [apply wp_ret|by apply wp_throw].
  apply validateSetting_acceptable in Hv as (s&Hs&Hkey&Hacc).
  apply wp_wrap, wp_exec; [intros e; rewrite o_fail_idle by apply Hi; apply He|].
  intros _ t id a d Hf. destruct (is_none _) in Hf; [done|]. injection Hf as _ <-.
  unfold Φ. split; [done|]. exists r, g, s. split_and!; try done; by apply dec_stable.
Qed.

(** A setting changes only when it reports success, and then the room was waiting,
    the caller owned it, the value is one the setting accepts in the room's game,
    and nothing else changed. *)
Theorem UpdateRoomSetting_effect room requester key value w r w' :
  tx_time w = None → aborted w = false →
  Lobby.UpdateRoomSetting reg room requester key value w = (r, w') →
  tasks w' = tasks w ∧ published w' = published w ∧
  match r with
  | Err _ => db w' = db w
  | Ok _ => configured room requester key value (db w) (db w')
  end.
Proof.
  intros Ht Ha Hr. assert (idle (obs w)) as Hi by (split; cbn; [by rewrite Ht|done]).
  destruct (wp_run _ _ _ _ _ (wp_UpdateRoomSetting room requester key value _ Hi) Hr) as [Ho H].
  unfold quietly, outside in Ho. cbn in Ho. injection Ho as -> ->. done.
Qed.

End Effects.

(** The default settings of both games are values their own validation accepts. *)
Theorem default_settings_valid `{PRNG} g :
  g ∈ [RootAccess.RootAccess.game; TicTacToe.TicTacToe.game] →
  map_Forall (λ key value, Lobby.validateSetting key value g = Ok tt) (Lobby.buildDefaultSettings g).
Proof.
  intros Hg. apply map_Forall_to_list. repeat (apply elem_of_cons in Hg as [->|Hg]); [..|by apply elem_of_nil in Hg].
  all: apply Forall_fold_right; vm_compute; tauto.
Qed.

(** ** Witnesses *)

Import Demo.

Lemma rotatePlayers_spec_witness :
  (0 ≤ 1 < 3)%Z ∧
  Lobby.rotatePlayers [mkPlayer "a" ""; mkPlayer "b" ""; mkPlayer "c" ""] 1 =
    Ok [mkPlayer "b" ""; mkPlayer "c" ""; mkPlayer "a" ""].
Proof.
  split; [lia|].
  apply (rotatePlayers_spec [mkPlayer "a" ""; mkPlayer "b" ""; mkPlayer "c" ""] 1). cbn. lia.
Defined.

Definition waiting_room : list request :=
  [Req_CreatePlayer "alice"; Req_CreatePlayer "bob"; Req_CreateRoom "tictactoe" alice None].

Lemma JoinRoom_effect_witness :
  let w := run waiting_room in
  let '(r, w') := Lobby.JoinRoom "abcdef" bob w in
  is_ok r = true ∧ joined "abcdef" bob (db w) (db w').
Proof.
  intros w. destruct (Lobby.JoinRoom "abcdef" bob w) as [r w'] eqn:Hr.
  assert (is_ok (Lobby.JoinRoom "abcdef" bob w).1 = true) as H by (vm_compute; reflexivity).
  rewrite Hr in H. cbn [fst] in H. split; [exact H|].
  destruct (JoinRoom_effect "abcdef" bob w r w') as (_&_&[[[e ->] _]|Hj]); [..|exact Hr|discriminate H|exact Hj].
  - vm_compute. reflexivity.
  - vm_compute. reflexivity.
Defined.

Lemma UpdateRoomSetting_effect_witness :
  let w := run waiting_room in
  let '(r, w') := Lobby.UpdateRoomSetting reg room alice "first_mover_seat" "1" w in
  r = Ok tt ∧ configured reg room alice "first_mover_seat" "1" (db w) (db w').
Proof.
  intros w. destruct (Lobby.UpdateRoomSetting reg room alice "first_mover_seat" "1" w) as [r w'] eqn:Hr.
  assert ((Lobby.UpdateRoomSetting reg room alice "first_mover_seat" "1" w).1 = Ok tt) as H
    by (vm_compute; reflexivity).
  rewrite Hr in H. cbn [fst] in H. subst r. split; [reflexivity|].
  destruct (UpdateRoomSetting_effect reg room alice "first_mover_seat" "1" w (Ok tt) w') as (_&_&Hc);
    [..|exact Hr|exact Hc].
  - vm_compute. reflexivity.
  - vm_compute. reflexivity.
Defined.

#[local] Existing Instance RootAccessSpec.zeroPRNG.

Lemma default_settings_valid_witness :
  TicTacToe.TicTacToe.game ∈ [RootAccess.RootAccess.game; TicTacToe.TicTacToe.game] ∧
  map_Forall (λ key value, Lobby.validateSetting key value TicTacToe.TicTacToe.game = Ok tt)
    (Lobby.buildDefaultSettings TicTacToe.TicTacToe.game).
Proof.
  assert (TicTacToe.TicTacToe.game ∈ [RootAccess.RootAccess.game; TicTacToe.TicTacToe.game]) as H
    by apply list_elem_of_further, list_elem_of_here.
  split; [exact H|apply (default_settings_valid _ H)].
Defined.
