(* ===== verification/Matchmaking.v ===== *)
(** The matchmaker (shared/domain/matchmaking/matchmaker.go): players sorted by
    MMR, windows of adjacent players, a snake draft into teams and a quality
    threshold that relaxes with waiting. Arithmetic is IEEE binary64. *)
From S2P Require Import Prelude Json Float64.
From Stdlib Require Import Floats.SpecFloat.
Import Float64.

Module Matchmaking.

(** [time.Duration.Seconds] of nanoseconds. *)
Definition Seconds (d : Z) : f64 :=
  fadd (f_of_Z (Z.quot d 1000000000)) (fdiv (f_of_Z (Z.rem d 1000000000)) (f_of_Z 1000000000)).

(** ** Data *)

Record Player := mkPlayer { ID : string; MMR : f64 }.

Record QueueConfig := mkConfig {
  PlayersPerTeam : nat; TeamsPerMatch : nat; BaseSpread : f64; SpreadPerSecond : f64;
  MinQuality : f64
}.

Definition DefaultQueueConfig : QueueConfig :=
  mkConfig 1 2 (f_of_Z 200) (f_of_Z 2) (fdiv (f_of_Z 4) (f_of_Z 10)).

Record QueueEntry := mkEntry { Entry_Player : Player; JoinedAt : Z }.

Record ProposedMatch := mkProposed { Teams : list (list Player); Quality : f64 }.

(** [sort.Slice] by MMR, which is not stable: a permutation in which, when all MMRs
    are numbers, no player comes right after one with a greater MMR. *)
Class SortSlice := {
  sort_by_MMR : list QueueEntry → list QueueEntry;
  sort_by_MMR_perm : ∀ l, sort_by_MMR l ≡ₚ l;
  sort_by_MMR_sorted : ∀ l i x y, (∀ e, e ∈ l → MMR (Entry_Player e) ≠ S754_nan) →
    sort_by_MMR l !! i = Some x → sort_by_MMR l !! S i = Some y →
    flt (MMR (Entry_Player y)) (MMR (Entry_Player x)) = false
}.

(** ** Quality *)

Definition avgMMR (players : list Player) : f64 :=
  match players with
  | [] => f_of_Z 0
  | _ => fdiv (foldl (λ sum p, fadd sum (MMR p)) (f_of_Z 0) players) (f_of_Z (Z.of_nat (length players)))
  end.

(** Without a team the spread is 0: a window without players has none. *)
Definition matchQuality (teams : list (list Player)) (maxSpread : f64) : f64 :=
  if fle maxSpread (f_of_Z 0) then f_of_Z 0
  else
    let first := avgMMR (default [] (head teams)) in
    let '(minMMR, maxMMR) := foldl (λ '(mn, mx) t,
      let mmr := avgMMR t in
      (if flt mmr mn then mmr else mn, if flt mx mmr then mmr else mx)) (first, first) (tail teams) in
    let q := fsub (f_of_Z 1) (fdiv (fsub maxMMR minMMR) maxSpread) in
    if flt q (f_of_Z 0) then f_of_Z 0
    else if flt (f_of_Z 1) q then f_of_Z 1 else q.

(** ** The snake draft *)

Fixpoint snake (n : nat) (ps : list Player) (teams : list (list Player)) (idx : nat) (forward : bool)
    : list (list Player) :=
  match ps with
  | [] => teams
  | p :: ps =>
      let teams := alter (λ t, t ++ [p]) idx teams in
      if forward then
        if n <=? S idx then snake n ps teams (n - 1) false else snake n ps teams (S idx) true
      else
        match idx with
        | O => snake n ps teams 0 true
        | S idx => snake n ps teams idx false
        end
  end.

Definition draft (n : nat) (ps : list Player) : list (list Player) :=
  snake n ps (replicate n []) 0 true.

(** ** Finding matches *)

Section Find.
Context (cfg : QueueConfig) (now : Z).

Definition totalPerMatch : nat := PlayersPerTeam cfg * TeamsPerMatch cfg.

(** The spread that the longest wait of the window allows. *)
Definition maxSpread (entries : list QueueEntry) : f64 :=
  foldl (λ m e,
    let spread := fadd (BaseSpread cfg) (fmul (SpreadPerSecond cfg) (Seconds (now - JoinedAt e))) in
    if flt m spread then spread else m) (f_of_Z 0) entries.

Definition window (start : nat) (queue : list QueueEntry) : list QueueEntry :=
  take totalPerMatch (drop start queue).

Definition propose (entries : list QueueEntry) : ProposedMatch :=
  let teams := draft (TeamsPerMatch cfg) (Entry_Player <$> entries) in
  mkProposed teams (matchQuality teams (maxSpread entries)).

Definition mark (start : nat) (used : list bool) : list bool :=
  imap (λ k u, u || ((start <=? k) && (k <? start + totalPerMatch))) used.

(** The loop over the [n] windows from [start]. *)
Fixpoint scan (queue : list QueueEntry) (n start : nat) (used : list bool)
    : list ProposedMatch * list bool :=
  match n with
  | O => ([], used)
  | S n =>
      if existsb id (take totalPerMatch (drop start used)) then scan queue n (S start) used
      else
        let m := propose (window start queue) in
        if flt (Quality m) (MinQuality cfg) then scan queue n (S start) used
        else
          let '(ms, used) := scan queue n (S start) (mark start used) in
          (m :: ms, used)
  end.

(** The entries that are not used. *)
Definition unused {A} (used : list bool) (l : list A) : list A :=
  omap (λ ux : bool * A, if ux.1 then None else Some ux.2) (zip used l).

(** The matches and the queue without their players. *)
Definition FindMatches `{SortSlice} (queue : list QueueEntry) : list ProposedMatch * list QueueEntry :=
  if length queue <? totalPerMatch then ([], queue)
  else
    let queue := sort_by_MMR queue in
    let '(matches, used) :=
      scan queue (S (length queue - totalPerMatch)) 0 (replicate (length queue) false) in
    (matches, unused used queue).

End Find.
End Matchmaking.
