(* ===== verification/MatchmakingSpec.v ===== *)
(** The properties of the matchmaker: matches and the remaining queue partition
    the players, teams are even, every match meets the quality asked for, and no
    acceptable window of waiting players is left. *)
From S2P Require Import Prelude Json Float64 Matchmaking.
From Stdlib Require Import Floats.SpecFloat.
Import Float64 Matchmaking.

(** ** The snake draft *)

Section Snake.
Context (n : nat).

Lemma snake_length ps teams idx fwd : length (snake n ps teams idx fwd) = length teams.
Proof.
  revert teams idx fwd. induction ps as [|p ps IH]; intros teams idx fwd; [done|]. cbn [snake].
  destruct fwd; [destruct (_ <=? _)|destruct idx]; by rewrite IH, length_alter.
Qed.

Lemma concat_alter (teams : list (list Player)) i p :
  i < length teams → concat (alter (λ t, t ++ [p]) i teams) ≡ₚ concat teams ++ [p].
Proof.
  revert i. induction teams as [|t teams IH]; intros i Hi; [cbn in Hi; lia|].
  destruct i as [|i]; cbn.
  - rewrite <- !app_assoc. by rewrite (Permutation_app_comm [p]).
  - rewrite IH by (cbn in Hi; lia). by rewrite app_assoc.
Qed.

Lemma snake_perm ps teams idx fwd :
  length teams = n → idx < n → concat (snake n ps teams idx fwd) ≡ₚ concat teams ++ ps.
Proof.
  revert teams idx fwd. induction ps as [|p ps IH]; intros teams idx fwd Hl Hi; cbn [snake].
  { by rewrite app_nil_r. }
  assert (concat (alter (λ t, t ++ [p]) idx teams) ++ ps ≡ₚ concat teams ++ p :: ps) as Hp.
  { rewrite concat_alter by lia. by rewrite <- app_assoc. }
  destruct fwd; [destruct (Nat.leb_spec n (S idx))|destruct idx as [|idx]];
    rewrite IH by (rewrite ?length_alter; lia); done.
Qed.

(** In the middle of a pass the teams it has visited are one player ahead. *)
Definition in_pass (q idx : nat) (fwd : bool) (teams : list (list Player)) : Prop :=
  length teams = n ∧ idx < n ∧
  ∀ i t, teams !! i = Some t →
    length t = q + (if (if fwd then i <? idx else idx <? i) then 1 else 0).

Lemma in_pass_alter q idx fwd teams p i t :
  in_pass q idx fwd teams → alter (λ t, t ++ [p]) idx teams !! i = Some t →
  length t = q + (if (if fwd then i <=? idx else idx <=? i) then 1 else 0).
Proof.
  intros (Hl&Hi&Ht). destruct (decide (i = idx)) as [->|Hne].
  - rewrite list_lookup_alter_eq. intros (t'&Ht'&->)%fmap_Some. specialize (Ht _ _ Ht').
    rewrite length_app, Ht, Nat.leb_refl, Nat.ltb_irrefl. cbn [length]. destruct fwd; lia.
  - rewrite list_lookup_alter_ne by done. intros Ht'. rewrite (Ht _ _ Ht').
    destruct fwd; repeat case_match; lia || (repeat match goal with
      | H : (_ <? _) = true |- _ => apply Nat.ltb_lt in H
      | H : (_ <? _) = false |- _ => apply Nat.ltb_ge in H
      | H : (_ <=? _) = true |- _ => apply Nat.leb_le in H
      | H : (_ <=? _) = false |- _ => apply Nat.leb_gt in H end; lia).
Qed.

(** The next step of the draft. *)
Definition turn (q idx : nat) (fwd : bool) : nat * nat * bool :=
  if fwd then if n <=? S idx then (S q, n - 1, false) else (q, S idx, true)
  else match idx with O => (S q, 0, true) | S idx => (q, idx, false) end.

Lemma snake_cons q p ps teams idx fwd :
  snake n (p :: ps) teams idx fwd =
  snake n ps (alter (λ t, t ++ [p]) idx teams) (turn q idx fwd).1.2 (turn q idx fwd).2.
Proof. cbn [snake]. unfold turn. destruct fwd; [by destruct (_ <=? _)|by destruct idx]. Qed.

Lemma in_pass_turn q idx fwd teams p : in_pass q idx fwd teams →
  in_pass (turn q idx fwd).1.1 (turn q idx fwd).1.2 (turn q idx fwd).2 (alter (λ t, t ++ [p]) idx teams).
Proof.
  intros HP. pose proof (in_pass_alter q idx fwd teams p) as Ha. pose proof HP as (Hl&Hi&_).
  assert (∀ i u, alter (λ t, t ++ [p]) idx teams !! i = Some u → i < n) as Hlt.
  { intros i u Hu%lookup_lt_Some. by rewrite length_alter, Hl in Hu. }
  unfold turn. destruct fwd; [destruct (Nat.leb_spec n (S idx)) as [Hend|Hmid]|destruct idx as [|idx]];
    cbn [fst snd]; (split_and!; [by rewrite length_alter|lia|]); intros j u Hu; rewrite (Ha _ _ HP Hu);
    specialize (Hlt _ _ Hu).
  - rewrite (proj2 (Nat.leb_le _ _)), (proj2 (Nat.ltb_ge _ _)) by lia. lia.
  - by destruct (Nat.leb_spec j idx), (Nat.ltb_spec j (S idx)); try lia.
  - cbn. lia.
  - by destruct (Nat.leb_spec (S idx) j), (Nat.ltb_spec idx j); try lia.
Qed.

(** How many players have been drafted before this step. *)
Definition position (q idx : nat) (fwd : bool) : nat := q * n + (if fwd then idx else n - 1 - idx).

Lemma position_turn q idx fwd : idx < n →
  position (turn q idx fwd).1.1 (turn q idx fwd).1.2 (turn q idx fwd).2 = S (position q idx fwd).
Proof.
  intros Hi. unfold turn, position. destruct fwd; [destruct (Nat.leb_spec n (S idx))|destruct idx as [|idx]]; cbn; lia.
Qed.

Lemma even_turn q idx fwd : fwd = Nat.even q → (turn q idx fwd).2 = Nat.even (turn q idx fwd).1.1.
Proof.
  intros E. unfold turn. destruct fwd; [destruct (_ <=? _)|destruct idx]; cbn [fst snd]; try done;
    by rewrite Nat.even_succ, <- Nat.negb_even, <- E.
Qed.

(** The player that team [i] gets in round [j]: the teams take turns, every other round in
    the opposite order. *)
Definition snake_pick (i j : nat) : nat := j * n + (if Nat.even j then i else n - 1 - i).
Definition picked (all : list Player) (teams : list (list Player)) : Prop :=
  ∀ i t j, teams !! i = Some t → j < length t → t !! j = all !! snake_pick i j.

Lemma snake_spec all ps : ∀ q idx fwd teams,
  in_pass q idx fwd teams → fwd = Nat.even q → drop (position q idx fwd) all = ps →
  position q idx fwd ≤ length all → picked all teams →
  picked all (snake n ps teams idx fwd) ∧
  ∀ k, length all = k * n → ∀ i t, snake n ps teams idx fwd !! i = Some t → length t = k.
Proof.
  induction ps as [|p ps IH]; intros q idx fwd teams HP Hf Hd Hle Hpick.
  - split; [done|]. intros k Hk i t Hit. destruct HP as (Hl&Hi&Ht). cbn in Hit. rewrite (Ht _ _ Hit).
    assert (i < n) by (rewrite <- Hl; by eapply lookup_lt_Some).
    apply (f_equal length) in Hd. rewrite length_drop in Hd. cbn in Hd. unfold position in Hd, Hle.
    destruct fwd; [destruct (Nat.ltb_spec i idx)|destruct (Nat.ltb_spec idx i)]; nia.
  - pose proof HP as (Hl&Hi&Hlen). rewrite (snake_cons q).
    assert (all !! position q idx fwd = Some p) as Hp by (rewrite <- (Nat.add_0_r (position _ _ _)), <- lookup_drop, Hd; done).
    apply (IH (turn q idx fwd).1.1); [by apply in_pass_turn|by apply even_turn| | |]; rewrite ?position_turn by done.
    + rewrite <- Nat.add_1_r, <- drop_drop, Hd. done.
    + apply lookup_lt_Some in Hp. lia.
    + intros i t j Hit Hj. destruct (decide (i = idx)) as [->|Hne].
      * rewrite list_lookup_alter_eq in Hit. apply fmap_Some in Hit as (t' & Ht' & ->).
        pose proof (Hlen _ _ Ht') as Hq. assert (length t' = q) as Hq'.
        { rewrite Hq. destruct fwd; rewrite Nat.ltb_irrefl; lia. }
        rewrite length_app in Hj. cbn in Hj. destruct (decide (j < length t')).
        -- rewrite lookup_app_l by done. by apply Hpick.
        -- rewrite list_lookup_middle by lia. rewrite <- Hp. assert (j = q) as -> by lia.
           unfold snake_pick, position. by rewrite Hf.
      * rewrite list_lookup_alter_ne in Hit by done. by apply Hpick.
Qed.

Lemma draft_teams ps : length (draft n ps) = n.
Proof. unfold draft. by rewrite snake_length, length_replicate. Qed.

Lemma draft_perm ps : 0 < n ∨ ps = [] → concat (draft n ps) ≡ₚ ps.
Proof.
  intros [Hn| ->]; unfold draft.
  - rewrite snake_perm by (rewrite ?length_replicate; lia).
    replace (concat (replicate n [])) with (@nil Player) by (clear Hn; by induction n). done.
  - cbn. by induction n.
Qed.

Lemma draft_spec ps k : 0 < n → length ps = k * n →
  picked ps (draft n ps) ∧ ∀ i t, draft n ps !! i = Some t → length t = k.
Proof.
  intros Hn Hk. destruct (snake_spec ps ps 0 0 true (replicate n [])) as [H1 H2]; [|done|done|cbn; lia| |].
  - split_and!; [by rewrite length_replicate|done|]. intros j u (->&_)%lookup_replicate. done.
  - intros i t j (->&_)%lookup_replicate Hj. cbn in Hj. lia.
  - split; [exact H1|]. by apply H2.
Qed.

End Snake.

(** ** Extremes *)

(** [x] is one of the values of [f] on [l], or [d], and none of them is above it. *)
Definition largest {A} (f : A → f64) (d : f64) (l : list A) (x : f64) : Prop :=
  (x = d ∨ ∃ a, a ∈ l ∧ x = f a) ∧ flt x d = false ∧ ∀ a, a ∈ l → flt x (f a) = false.
Definition smallest {A} (f : A → f64) (d : f64) (l : list A) (x : f64) : Prop :=
  (x = d ∨ ∃ a, a ∈ l ∧ x = f a) ∧ flt d x = false ∧ ∀ a, a ∈ l → flt (f a) x = false.

Lemma flt_irrefl x : flt x x = false.
Proof. destruct (flt x x) eqn:E; [|done]. by rewrite (flt_asym _ _ E) in E. Qed.

Lemma foldl_largest {A} (f : A → f64) d l :
  largest f d l (foldl (λ m a, if flt m (f a) then f a else m) d l).
Proof.
  induction l as [|a l IH] using rev_ind; [split; [by left|split; [apply flt_irrefl|by intros ? ?%elem_of_nil]]|].
  rewrite foldl_app. cbn. set (m := foldl _ d l) in *. destruct IH as (Hm & Hd & Hl).
  assert (∀ x, flt m x = false → flt (if flt m (f a) then f a else m) x = false) as Hup.
  { intros x Hx. destruct (flt m (f a)) eqn:E; [|done]. destruct (flt (f a) x) eqn:E'; [|done].
    by rewrite (flt_trans _ _ _ E E') in Hx. }
  split; [|split; [by apply Hup|]].
  - destruct (flt m (f a)); [right; exists a; split; [set_solver|done]|].
    destruct Hm as [->|(b & Hb & ->)]; [by left|right]. exists b. split; [set_solver|done].
  - intros b [Hb| ->%list_elem_of_singleton]%elem_of_app; [by apply Hup, Hl|].
    destruct (flt m (f a)) eqn:E; [apply flt_irrefl|done].
Qed.

Lemma foldl_smallest {A} (f : A → f64) d l :
  smallest f d l (foldl (λ m a, if flt (f a) m then f a else m) d l).
Proof.
  induction l as [|a l IH] using rev_ind; [split; [by left|split; [apply flt_irrefl|by intros ? ?%elem_of_nil]]|].
  rewrite foldl_app. cbn. set (m := foldl _ d l) in *. destruct IH as (Hm & Hd & Hl).
  assert (∀ x, flt x m = false → flt x (if flt (f a) m then f a else m) = false) as Hup.
  { intros x Hx. destruct (flt (f a) m) eqn:E; [|done]. destruct (flt x (f a)) eqn:E'; [|done].
    by rewrite (flt_trans _ _ _ E' E) in Hx. }
  split; [|split; [by apply Hup|]].
  - destruct (flt (f a) m); [right; exists a; split; [set_solver|done]|].
    destruct Hm as [->|(b & Hb & ->)]; [by left|right]. exists b. split; [set_solver|done].
  - intros b [Hb| ->%list_elem_of_singleton]%elem_of_app; [by apply Hup, Hl|].
    destruct (flt (f a) m) eqn:E; [apply flt_irrefl|done].
Qed.

Lemma foldl_pair {A B C} (f : A → C → A) (g : B → C → B) l a b :
  foldl (λ '(a, b) c, (f a c, g b c)) (a, b) l = (foldl f a l, foldl g b l).
Proof. revert a b. induction l as [|c l IH]; intros a b; [done|]. cbn. apply IH. Qed.

(** Cut off below 0 and above 1. *)
Definition clamped (q : f64) : f64 :=
  if flt q (f_of_Z 0) then f_of_Z 0 else if flt (f_of_Z 1) q then f_of_Z 1 else q.

(** The quality of teams: 0 without a spread; else what the distance of the strongest from the
    weakest team leaves of the spread, as a share of it. *)
Definition rated (spread : f64) (teams : list (list Player)) (q : f64) : Prop :=
  (fle spread (f_of_Z 0) = true → q = f_of_Z 0) ∧
  (fle spread (f_of_Z 0) = false → ∀ t ts, teams = t :: ts → ∃ lo hi,
    smallest avgMMR (avgMMR t) ts lo ∧ largest avgMMR (avgMMR t) ts hi ∧
    q = clamped (fsub (f_of_Z 1) (fdiv (fsub hi lo) spread))).

Lemma matchQuality_rated spread teams : rated spread teams (matchQuality teams spread).
Proof.
  unfold rated, matchQuality. split; intros ->; [done|]. intros t ts ->. cbn [head default tail].
  change (default [] (Some t)) with t.
  rewrite (foldl_pair (λ mn t, if flt (avgMMR t) mn then avgMMR t else mn)
    (λ mx t, if flt mx (avgMMR t) then avgMMR t else mx)).
  eexists _, _. split; [apply foldl_smallest|]. split; [apply foldl_largest|done].
Qed.

(** ** Windows and marks *)

Section Used.
Context {A : Type}.

(** The entries that are used. *)
Definition chosen (used : list bool) (l : list A) : list A :=
  omap (λ ux : bool * A, if ux.1 then Some ux.2 else None) (zip used l).

Lemma chosen_unused used l : length used = length l → chosen used l ++ unused used l ≡ₚ l.
Proof.
  revert l. induction used as [|u used IH]; intros [|x l] Hl; try done.
  unfold chosen, unused in *. cbn. injection Hl as Hl. destruct u; cbn; rewrite <- (IH l Hl) at 3; [done|].
  by rewrite Permutation_middle.
Qed.

Lemma chosen_app u1 u2 l1 l2 :
  length u1 = length l1 → chosen (u1 ++ u2) (l1 ++ l2) = chosen u1 l1 ++ chosen u2 l2.
Proof. intros Hl. unfold chosen. by rewrite zip_with_app, omap_app by done. Qed.

Lemma chosen_false l n : chosen (replicate n false) l = [].
Proof. revert l. unfold chosen. induction n as [|n IH]; intros [|x l]; try done. cbn. apply IH. Qed.

Lemma chosen_true l : chosen (replicate (length l) true) l = l.
Proof. unfold chosen. induction l as [|x l IH]; [done|]. cbn. by rewrite IH. Qed.

End Used.

Section Scan.
Context (cfg : QueueConfig) (now : Z).

Lemma mark_app u1 u2 u3 :
  length u2 = totalPerMatch cfg →
  mark cfg (length u1) (u1 ++ u2 ++ u3) = u1 ++ replicate (totalPerMatch cfg) true ++ u3.
Proof.
  intros Hl. unfold mark. rewrite !imap_app. f_equal; [|f_equal].
  - apply list_eq. intros i. rewrite list_lookup_imap. destruct (u1 !! i) as [u|] eqn:Hu; [|done].
    apply lookup_lt_Some in Hu. cbn [fmap option_fmap option_map]. unfold compose. rewrite (proj2 (Nat.leb_gt _ _)) by lia. by rewrite orb_false_r.
  - apply list_eq. intros i. rewrite list_lookup_imap. destruct (decide (i < length u2)) as [Hi|Hi].
    + destruct (lookup_lt_is_Some_2 u2 i Hi) as [u ->]. cbn [fmap option_fmap option_map]. unfold compose.
      rewrite lookup_replicate_2 by lia.
      rewrite (proj2 (Nat.leb_le _ _)), (proj2 (Nat.ltb_lt _ _)) by lia. by rewrite orb_true_r.
    + rewrite !lookup_ge_None_2; [done|rewrite length_replicate; lia|lia].
  - apply list_eq. intros i. rewrite list_lookup_imap. destruct (u3 !! i) as [u|]; [|done]. cbn [fmap option_fmap option_map]. unfold compose.
    rewrite (proj2 (Nat.ltb_ge _ _)) by lia. by rewrite andb_false_r, orb_false_r.
Qed.

Lemma no_used (l : list bool) : existsb id l = false → l = replicate (length l) false.
Proof. induction l as [|[] l IH]; [done|done|]. intros H. cbn. by rewrite <- (IH H). Qed.

Lemma split_window {A} (l : list A) start :
  l = take start l ++ take (totalPerMatch cfg) (drop start l) ++ drop (totalPerMatch cfg) (drop start l).
Proof. by rewrite !take_drop. Qed.

(** A free window is chosen by marking it. *)
Lemma chosen_mark {A} (queue : list A) used start :
  length used = length queue → start + totalPerMatch cfg ≤ length queue →
  existsb id (take (totalPerMatch cfg) (drop start used)) = false →
  chosen (mark cfg start used) queue ≡ₚ
    chosen used queue ++ take (totalPerMatch cfg) (drop start queue).
Proof.
  intros Hl Hs Hfree. set (total := totalPerMatch cfg) in *.
  assert (length (take start used) = start) as Hl1 by (rewrite length_take; lia).
  assert (length (take total (drop start used)) = total) as Hl2 by (rewrite length_take, length_drop; lia).
  assert (length (take total (drop start queue)) = total) as Hl3 by (rewrite length_take, length_drop; lia).
  rewrite (split_window used start) at 1 2. fold total. rewrite <- Hl1 at 1. rewrite mark_app by done.
  fold total. apply no_used in Hfree. rewrite Hl2 in Hfree. rewrite Hfree at 1.
  rewrite (split_window queue start) at 1 2. fold total.
  rewrite !chosen_app by (rewrite ?length_take, ?length_drop, ?length_replicate; lia).
  rewrite <- Hl3 at 1. rewrite chosen_true, chosen_false. cbn [app].
  rewrite <- app_assoc. f_equiv. by rewrite Permutation_app_comm.
Qed.

Lemma length_mark start used : length (mark cfg start used) = length used.
Proof. unfold mark. by rewrite length_imap. Qed.

Definition match_players (m : ProposedMatch) : list Player := concat (Teams m).

Lemma propose_players entries :
  length entries = totalPerMatch cfg → match_players (propose cfg now entries) ≡ₚ Entry_Player <$> entries.
Proof.
  intros Hl. apply draft_perm. unfold totalPerMatch in Hl.
  destruct (TeamsPerMatch cfg); [right|left; lia].
  rewrite Nat.mul_0_r in Hl. by destruct entries.
Qed.

(** The spread that a player has come to accept by waiting, and that of a window: the largest
    that one of its players has. *)
Definition spread_of (e : QueueEntry) : f64 :=
  fadd (BaseSpread cfg) (fmul (SpreadPerSecond cfg) (Seconds (now - JoinedAt e))).
Definition accepts (w : list QueueEntry) (spread : f64) : Prop := largest spread_of (f_of_Z 0) w spread.

(** The teams of a window, by the snake draft. *)
Definition drafted (w : list QueueEntry) (teams : list (list Player)) : Prop :=
  length teams = TeamsPerMatch cfg ∧
  ∀ i t, teams !! i = Some t → length t = PlayersPerTeam cfg ∧
    ∀ j, j < PlayersPerTeam cfg → t !! j = (Entry_Player <$> w) !! snake_pick (TeamsPerMatch cfg) i j.

(** A match of the players of a window. *)
Definition match_of (w : list QueueEntry) (m : ProposedMatch) : Prop :=
  drafted w (Teams m) ∧ ∃ spread, accepts w spread ∧ rated spread (Teams m) (Quality m).

(** What a match promises. *)
Definition good_match (queue : list QueueEntry) (m : ProposedMatch) : Prop :=
  (∃ k, k + totalPerMatch cfg ≤ length queue ∧ match_of (window cfg k queue) m) ∧
  flt (Quality m) (MinQuality cfg) = false.

Lemma propose_match w : length w = totalPerMatch cfg → match_of w (propose cfg now w).
Proof.
  intros Hl. split; [|exists (maxSpread cfg now w); split; [apply foldl_largest|apply matchQuality_rated]].
  split; [apply draft_teams|]. cbn [propose Teams]. intros i t Hit.
  assert (i < TeamsPerMatch cfg) as Hi by (apply lookup_lt_Some in Hit; by rewrite draft_teams in Hit).
  destruct (draft_spec (TeamsPerMatch cfg) (Entry_Player <$> w) (PlayersPerTeam cfg)) as [Hp Hlen];
    [lia|by rewrite length_fmap|]. pose proof (Hlen _ _ Hit) as E. split; [done|].
  intros j Hj. apply (Hp i t j Hit). lia.
Qed.

(** The windows the loop has passed: each has a used player, or a match of its players is not
    good enough. *)
Definition exhausted (queue : list QueueEntry) (used : list bool) (start : nat) : Prop :=
  existsb id (take (totalPerMatch cfg) (drop start used)) = true ∨
  ∃ m, match_of (window cfg start queue) m ∧ flt (Quality m) (MinQuality cfg) = true.

Definition more_used (u u' : list bool) : Prop :=
  length u = length u' ∧ ∀ i, u !! i = Some true → u' !! i = Some true.

#[local] Instance more_used_preorder : PreOrder more_used.
Proof.
  split; [done|]. intros a b c [L1 H1] [L2 H2]. split; [congruence|auto].
Qed.

Lemma more_used_mark start used : more_used used (mark cfg start used).
Proof.
  split; [by rewrite length_mark|]. intros i Hi. unfold mark. by rewrite list_lookup_imap, Hi.
Qed.

Lemma existsb_used start (used : list bool) :
  existsb id (take (totalPerMatch cfg) (drop start used)) = true ↔
  ∃ i, start ≤ i < start + totalPerMatch cfg ∧ used !! i = Some true.
Proof.
  rewrite existsb_exists. split.
  - intros (b&Hb&Ht). destruct b; [|done]. apply list_elem_of_In, list_elem_of_lookup in Hb as (i&Hi).
    assert (i < totalPerMatch cfg) by (apply lookup_lt_Some in Hi; rewrite length_take in Hi; lia).
    rewrite lookup_take_lt, lookup_drop in Hi by done. exists (start + i). split; [lia|done].
  - intros (i&Hr&Hi). exists true. split; [|done]. apply list_elem_of_In, list_elem_of_lookup.
    exists (i - start). rewrite lookup_take_lt, lookup_drop by lia. by replace (start + (i - start)) with i by lia.
Qed.

Lemma exhausted_more queue u u' start : more_used u u' → exhausted queue u start → exhausted queue u' start.
Proof.
  intros [_ Hm] [H|H]; [left|by right]. apply existsb_used in H as (i&Hr&Hi). apply existsb_used. eauto.
Qed.

(** The players of the entries that the scan marks are the players of its matches. *)
Lemma scan_spec queue n start used ms used' :
  length used = length queue → start + n + totalPerMatch cfg ≤ S (length queue) →
  scan cfg now queue n start used = (ms, used') →
  more_used used used' ∧
  Entry_Player <$> chosen used' queue ≡ₚ
    (Entry_Player <$> chosen used queue) ++ concat (match_players <$> ms) ∧
  Forall (good_match queue) ms ∧
  (0 < totalPerMatch cfg → ∀ k, start ≤ k < start + n → exhausted queue used' k).
Proof.
  revert start used ms used'. induction n as [|n IH]; intros start used ms used' Hl Hn; cbn [scan].
  { intros [= <- <-]. split_and!; [done|by rewrite app_nil_r|constructor|lia]. }
  assert (length (window cfg start queue) = totalPerMatch cfg) as Hw
    by (unfold window; rewrite length_take, length_drop; lia).
  destruct (existsb id _) eqn:Hused.
  { intros Hs. destruct (IH (S start) used ms used' Hl ltac:(lia) Hs) as (H1&H2&H3&H4).
    split_and!; try done. intros H0 k Hk. destruct (decide (k = start)) as [->|]; [|apply H4; [done|lia]].
    eapply exhausted_more; [exact H1|by left]. }
  destruct (flt _ _) eqn:Hq.
  { intros Hs. destruct (IH (S start) used ms used' Hl ltac:(lia) Hs) as (H1&H2&H3&H4).
    split_and!; try done. intros H0 k Hk. destruct (decide (k = start)) as [->|]; [|apply H4; [done|lia]].
    right. eexists. split; [by apply propose_match|done]. }
  destruct (scan cfg now queue n (S start) (mark cfg start used)) as [ms1 used1] eqn:Hs.
  intros [= <- <-].
  destruct (IH (S start) (mark cfg start used) ms1 used1) as (H1&H2&H3&H4); [by rewrite length_mark|lia|done|].
  split_and!.
  - etrans; [apply more_used_mark|done].
  - rewrite H2. rewrite (chosen_mark queue used start) by (done || lia).
    rewrite fmap_app. cbn [fmap list_fmap concat].
    rewrite (propose_players (window cfg start queue) Hw).
    by rewrite app_assoc.
  - constructor; [|done]. split; [|done]. exists start. split; [lia|by apply propose_match].
  - intros H0 k Hk. destruct (decide (k = start)) as [->|]; [|apply H4; [done|lia]].
    eapply exhausted_more; [exact H1|]. left. apply existsb_used. exists start. split; [lia|].
    unfold mark. rewrite list_lookup_imap.
    destruct (lookup_lt_is_Some_2 used start) as [u ->]; [lia|].
    cbn [fmap option_fmap option_map]. f_equal.
    rewrite Nat.leb_refl, (proj2 (Nat.ltb_lt _ _)) by lia. by rewrite orb_true_r.
Qed.

(** C18 [FindMatches] splits the queue: every player of the queue is in exactly one team
    of one match or still waits. A match has the players of a window of the sorted queue: as
    many teams as configured, each of the configured size, drafted in turns, every other
    round in the opposite order. Its quality is what the distance between the averages of
    its strongest and its weakest team leaves of the largest spread that one of its players
    has come to accept by waiting, and at least the quality asked for. In the sorted queue no
    window of waiting players is left of which such a match would have been good enough. *)
Theorem FindMatches_spec `{SortSlice} queue ms rest :
  FindMatches cfg now queue = (ms, rest) →
  concat (match_players <$> ms) ++ (Entry_Player <$> rest) ≡ₚ Entry_Player <$> queue ∧
  Forall (good_match (sort_by_MMR queue)) ms ∧
  (0 < totalPerMatch cfg ≤ length queue → ∃ used,
     rest = unused used (sort_by_MMR queue) ∧
     ∀ k, k + totalPerMatch cfg ≤ length queue → exhausted (sort_by_MMR queue) used k).
Proof.
  unfold FindMatches. destruct (Nat.ltb_spec (length queue) (totalPerMatch cfg)) as [|Hle].
  { intros [= <- <-]. split_and!; [done|constructor|lia]. }
  pose proof (sort_by_MMR_perm queue) as Hp. pose proof (Permutation_length Hp) as Hlen.
  destruct (scan _ _ _ _ _ _) as [ms' used] eqn:Hs. intros [= <- <-].
  destruct (scan_spec (sort_by_MMR queue) (S (length (sort_by_MMR queue) - totalPerMatch cfg)) 0
    (replicate (length (sort_by_MMR queue)) false) ms' used) as ([L _]&H2&H3&H4);
    [by rewrite length_replicate|lia|done|].
  rewrite length_replicate in L. split_and!; [|done|].
  - transitivity (Entry_Player <$> sort_by_MMR queue); [|by apply fmap_Permutation].
    transitivity (Entry_Player <$> (chosen used (sort_by_MMR queue) ++ unused used (sort_by_MMR queue)));
      [|by apply fmap_Permutation, chosen_unused].
    rewrite fmap_app, H2, chosen_false. done.
  - intros [H0 _]. exists used. split; [done|]. intros k Hk. apply H4; [done|lia].
Qed.

End Scan.

(** ** Witness *)

(** Insertion into a list sorted by MMR. *)
Fixpoint insert_entry (e : QueueEntry) (l : list QueueEntry) : list QueueEntry :=
  match l with
  | [] => [e]
  | x :: l => if flt (MMR (Entry_Player e)) (MMR (Entry_Player x)) then e :: x :: l
              else x :: insert_entry e l
  end.

Lemma insert_entry_perm e l : insert_entry e l ≡ₚ e :: l.
Proof.
  induction l as [|x l IH]; [done|]. cbn. destruct (flt _ _); [done|]. rewrite IH. constructor.
Qed.

Definition ordered (l : list QueueEntry) : Prop :=
  ∀ i x y, l !! i = Some x → l !! S i = Some y → flt (MMR (Entry_Player y)) (MMR (Entry_Player x)) = false.

Lemma insert_entry_head e x l :
  flt (MMR (Entry_Player e)) (MMR (Entry_Player x)) = false →
  ∀ y, head (insert_entry e l) = Some y → head l = Some y ∨ y = e.
Proof. intros _ y. destruct l as [|z l]; cbn; [|case_match; cbn]; intros [= <-]; auto. Qed.

Lemma ordered_cons x l :
  ordered l → (∀ y, head l = Some y → flt (MMR (Entry_Player y)) (MMR (Entry_Player x)) = false) →
  ordered (x :: l).
Proof.
  intros Hl Hx [|i] a b Ha Hb; cbn in *.
  - injection Ha as <-. apply Hx. by destruct l.
  - by eapply Hl.
Qed.

Lemma insert_entry_ordered e l : ordered l → ordered (insert_entry e l).
Proof.
  induction l as [|x l IH]; intros Hl; cbn.
  - apply ordered_cons; [by intros ?|done].
  - destruct (flt _ _) eqn:He.
    + apply ordered_cons; [done|]. intros y [= <-]. by apply flt_asym.
    + assert (ordered l) as Hl' by (intros i; apply (Hl (S i))).
      apply ordered_cons; [by apply IH|]. intros y Hy.
      destruct (insert_entry_head e x l He y Hy) as [Hh| ->]; [|done].
      apply (Hl 0); [done|]. by destruct l.
Qed.

Definition insertion_sort : list QueueEntry → list QueueEntry := foldr insert_entry [].

Definition insertion_SortSlice : SortSlice.
Proof.
  refine (Build_SortSlice insertion_sort _ _).
  - intros l. induction l as [|e l IH]; [done|]. cbn. by rewrite insert_entry_perm, IH.
  - intros l i x y _. revert i x y. change (ordered (insertion_sort l)).
    induction l as [|e l IH]; [by intros ?|]. by apply insert_entry_ordered.
Defined.

Definition waiting (id : string) (mmr since : Z) : QueueEntry := mkEntry (mkPlayer id (f_of_Z mmr)) since.

Definition lobby_of_five : list QueueEntry :=
  [waiting "a" 1500 0; waiting "b" 1900 0; waiting "c" 1510 0; waiting "d" 1200 0; waiting "e" 1910 0].

#[local] Existing Instance insertion_SortSlice.

Lemma FindMatches_spec_witness :
  let '(ms, rest) := FindMatches DefaultQueueConfig 0 lobby_of_five in
  length ms = 2 ∧ ID ∘ Entry_Player <$> rest = ["d"] ∧
  concat (match_players <$> ms) ++ (Entry_Player <$> rest) ≡ₚ Entry_Player <$> lobby_of_five.
Proof.
  destruct (FindMatches DefaultQueueConfig 0 lobby_of_five) as [ms rest] eqn:Hm.
  assert (length (FindMatches DefaultQueueConfig 0 lobby_of_five).1 = 2) as H1 by (vm_compute; reflexivity).
  assert (ID ∘ Entry_Player <$> (FindMatches DefaultQueueConfig 0 lobby_of_five).2 = ["d"]) as H2
    by (vm_compute; reflexivity).
  rewrite Hm in H1, H2. split; [exact H1|split; [exact H2|]].
  apply (FindMatches_spec DefaultQueueConfig 0 lobby_of_five ms rest Hm).
Defined.
