(* ===== verification/Programs.v ===== *)
(** Concurrent programs over a shared store: a call is a program of atomic commands,
    the commands of all calls interleave, and any of them may fail or lose its
    reply. The logic [every] relates the stores before and after each command;
    [wps] proves invariants under interference, and [wpr] is a rely-guarantee logic
    whose assertions speak of the store. *)
From S2P Require Import Prelude.

Module Programs.

(** ** Programs *)

(** A call in progress: a value, or an atomic command and what to do with its reply,
    [None] when the command fails. What is local to the process, such as the clock and
    fresh ids, does not fail. *)
Inductive prog (S A : Type) : Type :=
  | Ret (a : A)
  | Do (R : Type) (may_fail : bool) (c : S → R * S) (k : option R → prog S A).
Arguments Ret {_ _} _.
Arguments Do {_ _} _ _ _ _.

#[export] Instance prog_ret S : MRet (prog S) := λ A a, Ret a.
#[export] Instance prog_bind S : MBind (prog S) := λ A B f,
  fix go p := match p with Ret a => f a | Do R b c k => Do R b c (λ r, go (k r)) end.

Section Commands.
Context {S : Type}.

Definition cmd {R} (c : S → R * S) : prog S (option R) := Do R true c Ret.
Definition read {R} (f : S → R) : prog S (option R) := cmd (λ s, (f s, s)).
Definition write (f : S → S) : prog S (option unit) := cmd (λ s, (tt, f s)).

(** A pipeline: all its commands are sent, one after the other, and it succeeds when
    they all do. *)
Fixpoint pipeline (cs : list (S → S)) : prog S bool :=
  match cs with
  | [] => mret true
  | c :: cs => r ← write c; ok ← pipeline cs; mret (if r is Some _ then ok else false)
  end.

Definition local {R} (d : R) (c : S → R * S) : prog S R := Do R false c (λ r, Ret (default d r)).

Fixpoint each {A} (f : A → prog S unit) (l : list A) : prog S unit :=
  match l with [] => mret tt | x :: l => f x;; each f l end.

Definition ignore {A} (p : prog S A) : prog S unit := p;; mret tt.

(** A call on its own, without failures. *)
Fixpoint alone {A} (p : prog S A) (s : S) : A * S :=
  match p with
  | Ret a => (a, s)
  | Do R b c k => let '(r, s') := c s in alone (k (Some r)) s'
  end.

Lemma alone_bind {A B} (p : prog S A) (f : A → prog S B) s :
  alone (p ≫= f) s = let '(a, s') := alone p s in alone (f a) s'.
Proof.
  revert s. induction p as [a|R b c k IH]; intros s; [done|].
  change (alone (Do R b c k ≫= f) s) with (let '(r, s') := c s in alone (k (Some r) ≫= f) s').
  cbn. destruct (c s) as [r s']. apply IH.
Qed.
Lemma alone_read {R} (f : S → R) s : alone (read f) s = (Some (f s), s).
Proof. done. Qed.

Lemma alone_cmd {R} (c : S → R * S) s : alone (cmd c) s = (Some (c s).1, (c s).2).
Proof. cbn. by destruct (c s). Qed.

Lemma alone_write (f : S → S) s : alone (write f) s = (Some tt, f s).
Proof. done. Qed.

Lemma alone_ret {A} (a : A) s : alone (mret a) s = (a, s).
Proof. done. Qed.
End Commands.

(** ** Interleaving *)

(** What the scheduler does next: a new call, the next command of a call, a failure
    of that command before it is executed, one after (its reply is lost), or an event
    of the environment. *)
Inductive label (C En : Type) : Type :=
  | Spawn (c : C)
  | Run (i : nat)
  | Break (i : nat)
  | Lose (i : nat)
  | Event (e : En).
Arguments Spawn {_ _} _.
Arguments Run {_ _} _.
Arguments Break {_ _} _.
Arguments Lose {_ _} _.
Arguments Event {_ _} _.

Section Interleaving.
Context {S C En : Type} (body : C → prog S unit) (env : En → S → S).

Definition exec (l : label C En) (x : S * list (prog S unit)) : S * list (prog S unit) :=
  let '(s, ps) := x in
  match l with
  | Spawn c => (s, ps ++ [body c])
  | Run i =>
      match ps !! i with
      | Some (Do R b c k) => let '(r, s') := c s in (s', <[i := k (Some r)]> ps)
      | _ => x
      end
  | Break i =>
      match ps !! i with
      | Some (Do R true c k) => (s, <[i := k None]> ps)
      | _ => x
      end
  | Lose i =>
      match ps !! i with
      | Some (Do R true c k) => ((c s).2, <[i := k None]> ps)
      | _ => x
      end
  | Event e => (env e s, ps)
  end.

Definition run (ls : list (label C En)) (x : S * list (prog S unit)) : S * list (prog S unit) :=
  foldl (λ x l, exec l x) x ls.
End Interleaving.

(** ** What every command does *)

Section Every.
Context {S : Type} (P : S → S → Prop).

Fixpoint every {A} (p : prog S A) : Prop :=
  match p with
  | Ret _ => True
  | Do R b c k => (∀ s, P s (c s).2) ∧ ∀ r, every (k r)
  end.

Lemma every_bind {A B} (p : prog S A) (f : A → prog S B) :
  every p → (∀ a, every (f a)) → every (p ≫= f).
Proof.
  intros Hp Hf. induction p as [a|R b c k IH]; [apply Hf|]. destruct Hp as [Hc Hk].
  split; [done|]. intros r. by apply IH.
Qed.

Lemma every_cmd {R} (c : S → R * S) : (∀ s, P s (c s).2) → every (cmd c).
Proof. by split. Qed.

Lemma every_pipeline cs : Forall (λ c : S → S, ∀ s, P s (c s)) cs → every (pipeline cs).
Proof.
  induction 1 as [|c cs Hc Hcs IH]; [done|]. apply every_bind; [by split|].
  intros r. by apply every_bind.
Qed.

Lemma every_each {A} (f : A → prog S unit) l : (∀ x, every (f x)) → every (each f l).
Proof. intros Hf. induction l as [|x l IH]; [done|]. by apply every_bind. Qed.

Context {C En : Type} (body : C → prog S unit) (env : En → S → S).
Hypothesis P_refl : ∀ s, P s s.
Hypothesis P_trans : ∀ s s' s'', P s s' → P s' s'' → P s s''.
Hypothesis P_body : ∀ c, every (body c).
Hypothesis P_env : ∀ e s, P s (env e s).

Lemma exec_every l (x : S * list (prog S unit)) : Forall every x.2 →
  Forall every (exec body env l x).2 ∧ P x.1 (exec body env l x).1.
Proof.
  destruct x as [s ps]. cbn [fst snd]. intros Hps. destruct l as [c|i|i|i|d]; cbn [exec].
  - split; [|apply P_refl]. apply Forall_app. split; [done|]. constructor; [apply P_body|done].
  - destruct (ps !! i) as [[a|R b c k]|] eqn:E; [by split| |by split].
    pose proof (Forall_lookup_1 _ _ _ _ Hps E) as [Hc Hk]. specialize (Hc s).
    destruct (c s) as [r s']. split; [by apply Forall_insert|done].
  - destruct (ps !! i) as [[a|R [|] c k]|] eqn:E; try by split.
    pose proof (Forall_lookup_1 _ _ _ _ Hps E) as [Hc Hk]. split; [by apply Forall_insert|apply P_refl].
  - destruct (ps !! i) as [[a|R [|] c k]|] eqn:E; try by split.
    pose proof (Forall_lookup_1 _ _ _ _ Hps E) as [Hc Hk]. split; [by apply Forall_insert|apply Hc].
  - split; [done|]. apply P_env.
Qed.

Lemma run_every ls (x : S * list (prog S unit)) : Forall every x.2 → P x.1 (run body env ls x).1.
Proof.
  revert x. induction ls as [|l ls IH]; intros x Hx; [apply P_refl|].
  destruct (exec_every l x Hx) as [Hps Hs]. eapply P_trans; [exact Hs|]. by apply IH.
Qed.
End Every.

(** ** Invariants under interference *)

(** [Inv] holds whenever a command runs, every command keeps it as long as the store
    stays within [Bound], and the result satisfies [Φ]. *)
Section Logic.
Context {S : Type} (Inv Bound : S → Prop).

Fixpoint wps {A} (p : prog S A) (Φ : A → Prop) : Prop :=
  match p with
  | Ret a => Φ a
  | Do R b c k => (b = true → wps (k None) Φ) ∧
      ∀ s, Inv s → Bound (c s).2 → Inv (c s).2 ∧ wps (k (Some (c s).1)) Φ
  end.

Lemma wps_conseq {A} (p : prog S A) (Φ Ψ : A → Prop) : wps p Φ → (∀ a, Φ a → Ψ a) → wps p Ψ.
Proof.
  intros H HΨ. induction p as [a|R b c k IH]; cbn in *; [by apply HΨ|]. destruct H as [Hn Hs].
  split; [by auto|]. intros s HI HB. destruct (Hs s HI HB). by auto.
Qed.

Lemma wps_bind {A B} (p : prog S A) (f : A → prog S B) Φ :
  wps p (λ a, wps (f a) Φ) → wps (p ≫= f) Φ.
Proof.
  induction p as [a|R b c k IH]; [done|]. intros [Hn Hs]. split; [intros; by apply IH, Hn|].
  intros s HI HB. destruct (Hs s HI HB). split; [done|]. by apply IH.
Qed.

Lemma wps_seq {A B} (p : prog S A) (f : A → prog S B) Φ :
  wps p (λ _, True) → (∀ a, wps (f a) Φ) → wps (p ≫= f) Φ.
Proof. intros Hp Hf. apply wps_bind. by eapply wps_conseq. Qed.

Lemma wps_cmd {R} (c : S → R * S) Φ :
  Φ None → (∀ s, Inv s → Bound (c s).2 → Inv (c s).2 ∧ Φ (Some (c s).1)) → wps (cmd c) Φ.
Proof. by split. Qed.

Lemma wps_read {R} (f : S → R) Φ :
  Φ None → (∀ s, Inv s → Φ (Some (f s))) → wps (read f) Φ.
Proof. intros Hn Hs. apply wps_cmd; [done|]. intros s HI _. by split; [|apply Hs]. Qed.

Lemma wps_write (f : S → S) (Φ : option unit → Prop) :
  (∀ s, Inv s → Inv (f s)) → (∀ r, Φ r) → wps (write f) Φ.
Proof. intros Hf HΦ. apply wps_cmd; [done|]. intros s HI _. by split; [apply Hf|]. Qed.

Lemma wps_pipeline cs (Φ : bool → Prop) :
  Forall (λ c : S → S, ∀ s, Inv s → Inv (c s)) cs → (∀ b, Φ b) → wps (pipeline cs) Φ.
Proof.
  intros Hcs HΦ. induction Hcs as [|c cs Hc Hcs IH]; [apply HΦ|].
  apply wps_bind, wps_write; [done|]. intros r. apply wps_bind.
  eapply wps_conseq; [exact IH|]. intros ok _. apply HΦ.
Qed.

Lemma wps_each {A} (f : A → prog S unit) l :
  (∀ x, wps (f x) (λ _, True)) → wps (each f l) (λ _, True).
Proof. intros Hf. induction l as [|x l IH]; [done|]. by apply wps_seq. Qed.

Context {C En : Type} (body : C → prog S unit) (env : En → S → S).

(** An invariant that every call keeps holds along every run, when the run grows by a
    relation [P] and ends within the bound. *)
Lemma run_invariant (P : S → S → Prop) ls (x : S * list (prog S unit)) :
  (∀ s, P s s) → (∀ s s' s'', P s s' → P s' s'' → P s s'') →
  (∀ c, every P (body c)) → (∀ e s, P s (env e s)) →
  (∀ s s', P s s' → Bound s' → Bound s) →
  (∀ e s, Event e ∈ ls → Inv s → Bound (env e s) → Inv (env e s)) →
  (∀ c, Spawn c ∈ ls → wps (body c) (λ _, True)) →
  Forall (every P) x.2 → Inv x.1 → Forall (λ p, wps p (λ _, True)) x.2 →
  Bound (run body env ls x).1 →
  Inv (run body env ls x).1.
Proof.
  intros Hr Ht Hb He HB Henv. revert x Henv. induction ls as [|l ls IH]; intros x Henv Hspawn Hg HI Hps HF; [done|].
  destruct (exec_every P body env Hr Hb He l x Hg) as [Hg' _].
  assert (HB' : Bound (exec body env l x).1).
  { apply (HB _ (run body env ls (exec body env l x)).1); [|exact HF]. by apply (run_every P). }
  assert (Inv (exec body env l x).1 ∧ Forall (λ p, wps p (λ _, True)) (exec body env l x).2) as [HI' Hps'].
  { clear IH HF Hg'. destruct x as [s ps]. cbn [fst snd] in *. destruct l as [c|i|i|i|d]; cbn [exec] in *.
    - split; [done|]. apply Forall_app. split; [done|]. constructor; [|done]. apply Hspawn. by left.
    - destruct (ps !! i) as [[a|R b c k]|] eqn:E; [done| |done].
      pose proof (Forall_lookup_1 _ _ _ _ Hps E) as [_ Hc]. specialize (Hc s HI).
      destruct (c s) as [r s']. destruct (Hc HB') as [HI' Hk]. split; [done|by apply Forall_insert].
    - destruct (ps !! i) as [[a|R [|] c k]|] eqn:E; try done.
      pose proof (Forall_lookup_1 _ _ _ _ Hps E) as [Hn _]. split; [done|]. by apply Forall_insert; [|apply Hn].
    - destruct (ps !! i) as [[a|R [|] c k]|] eqn:E; try done.
      pose proof (Forall_lookup_1 _ _ _ _ Hps E) as [Hn Hc].
      destruct (Hc s HI HB') as [HI' _]. split; [done|]. by apply Forall_insert; [|apply Hn].
    - split; [|done]. apply Henv; [by left|done..]. }
  apply (IH (exec body env l x)); auto; intros; [apply Henv|apply Hspawn]; auto; by right.
Qed.
End Logic.

(** ** Rely and guarantee *)

(** From a store [s] that the others may have changed by [P] meanwhile, every command
    keeps [Inv] and changes the store by [P], whether its reply arrives or not, and
    the result satisfies [Φ] in the store it is returned in. *)
Section Rely.
Context {S : Type} (Inv : S → Prop) (P : S → S → Prop).

Fixpoint wpr {A} (p : prog S A) (s : S) (Φ : A → S → Prop) : Prop :=
  match p with
  | Ret a => Φ a s
  | Do R b c k => ∀ s', P s s' → Inv s' →
      (Inv (c s').2 ∧ P s' (c s').2) ∧ wpr (k (Some (c s').1)) (c s').2 Φ ∧
      (b = true → wpr (k None) s' Φ ∧ wpr (k None) (c s').2 Φ)
  end.

Lemma wpr_conseq {A} (p : prog S A) s (Φ Ψ : A → S → Prop) :
  wpr p s Φ → (∀ a s', Φ a s' → Ψ a s') → wpr p s Ψ.
Proof.
  intros H HΨ. revert s H. induction p as [a|R b c k IH]; cbn; intros s H; [by apply HΨ|].
  intros s' HP HI. destruct (H s' HP HI) as (H1 & H2 & H3). split_and!; [apply H1..|by auto|].
  intros Hb. destruct (H3 Hb). auto.
Qed.

Lemma wpr_bind {A B} (p : prog S A) (f : A → prog S B) s Φ :
  wpr p s (λ a s', wpr (f a) s' Φ) → wpr (p ≫= f) s Φ.
Proof.
  revert s. induction p as [a|R b c k IH]; intros s H; [done|]. intros s' HP HI.
  destruct (H s' HP HI) as (H1 & H2 & H3). split_and!; [apply H1..|by apply IH|].
  intros Hb. destruct (H3 Hb). split; by apply IH.
Qed.

Lemma wpr_seq {A B} (p : prog S A) (f : A → prog S B) s Φ :
  wpr p s (λ _ _, True) → (∀ a s', wpr (f a) s' Φ) → wpr (p ≫= f) s Φ.
Proof. intros Hp Hf. apply wpr_bind. eapply wpr_conseq; [exact Hp|]. auto. Qed.

Hypothesis P_refl : ∀ s, P s s.
Hypothesis P_trans : ∀ s s' s'', P s s' → P s' s'' → P s s''.

Lemma wpr_later {A} (p : prog S A) s s' (Φ : A → S → Prop) :
  P s s' → (∀ a s s', P s s' → Φ a s → Φ a s') → wpr p s Φ → wpr p s' Φ.
Proof.
  intros HP HΦ. destruct p as [a|R b c k]; cbn; [by apply HΦ|].
  intros H s'' HP'. apply H. by eapply P_trans.
Qed.

Lemma wpr_frame {A} (p : prog S A) s (Φ : A → S → Prop) :
  wpr p s Φ → wpr p s (λ a s', P s s' ∧ Φ a s').
Proof.
  assert (H : ∀ s0, P s0 s → wpr p s Φ → wpr p s (λ a s', P s0 s' ∧ Φ a s')); [|by apply H].
  intros s0. revert s. induction p as [a|R b c k IH]; intros s HP Hp; [done|].
  intros s' HP' HI. destruct (Hp s' HP' HI) as ([H1 H2] & H3 & H4).
  assert (P s0 s') by (by eapply P_trans). assert (P s0 (c s').2) by (by eapply P_trans).
  split_and!; [done..|by apply IH|]. intros Hb. destruct (H4 Hb). split; by apply IH.
Qed.

Lemma wpr_cmd {R} (c : S → R * S) s (Φ : option R → S → Prop) :
  (∀ s', P s s' → Inv s' → (Inv (c s').2 ∧ P s' (c s').2) ∧
     Φ (Some (c s').1) (c s').2 ∧ Φ None s' ∧ Φ None (c s').2) →
  wpr (cmd c) s Φ.
Proof. intros H s' HP HI. destruct (H s' HP HI) as (H1 & H2 & H3 & H4). by split_and!; try apply H1. Qed.

Lemma wpr_read {R} (f : S → R) s (Φ : option R → S → Prop) :
  (∀ s', P s s' → Inv s' → Φ (Some (f s')) s' ∧ Φ None s') → wpr (read f) s Φ.
Proof.
  intros H. apply wpr_cmd. intros s' HP HI. destruct (H s' HP HI). cbn. auto using P_refl.
Qed.

Lemma wpr_local {R} (d : R) (c : S → R * S) s (Φ : R → S → Prop) :
  (∀ s', P s s' → Inv s' → (Inv (c s').2 ∧ P s' (c s').2) ∧ Φ (c s').1 (c s').2) →
  wpr (local d c) s Φ.
Proof. intros H s' HP HI. destruct (H s' HP HI) as (H1 & H2). by split_and!; try apply H1. Qed.

Lemma wpr_each {A} (f : A → prog S unit) l s :
  (∀ x s', x ∈ l → P s s' → wpr (f x) s' (λ _ s'', P s' s'')) → wpr (each f l) s (λ _ s', P s s').
Proof.
  revert s. induction l as [|x l IH]; intros s Hf; [by apply P_refl|]. apply wpr_bind.
  eapply wpr_conseq; [apply (Hf x s); [by left|apply P_refl]|]. intros [] s' HP. cbn.
  eapply wpr_conseq; [apply IH|intros; by eapply P_trans].
  intros y s'' Hy HP'. apply Hf; [by right|by eapply P_trans].
Qed.

Context {C En : Type} (body : C → prog S unit) (env : En → S → S).
Abbreviation safe_from := (λ s (p : prog S unit), wpr p s (λ _ _, True)).

(** Along every run the invariant holds and the store only changes by [P]. *)
Lemma run_rely ls (x : S * list (prog S unit)) :
  (∀ e s, Event e ∈ ls → Inv s → Inv (env e s) ∧ P s (env e s)) →
  (∀ c s, Spawn c ∈ ls → Inv s → safe_from s (body c)) →
  Inv x.1 → Forall (safe_from x.1) x.2 →
  Inv (run body env ls x).1 ∧ P x.1 (run body env ls x).1.
Proof.
  revert x. induction ls as [|l ls IH]; intros x Henv Hspawn HI Hps; [by split|].
  assert (Hall : ∀ s s' ps, P s s' → Forall (safe_from s) ps → Forall (safe_from s') ps).
  { intros s s' ps HP H. eapply Forall_impl; [exact H|]. intros p. by apply wpr_later. }
  assert (Hins : ∀ s s' i p ps, P s s' → safe_from s' p → Forall (safe_from s) ps →
    Forall (safe_from s') (<[i := p]> ps)).
  { intros s s' i p ps HP Hp H. apply Forall_insert; [by eapply Hall|done]. }
  assert (Inv (exec body env l x).1 ∧ P x.1 (exec body env l x).1 ∧
    Forall (safe_from (exec body env l x).1) (exec body env l x).2) as (HI' & HP' & Hps').
  { destruct x as [s ps]. cbn [fst snd] in *. destruct l as [c|i|i|i|e]; cbn [exec].
    - split_and!; [done|done|]. apply Forall_app. split; [done|]. constructor; [|done].
      apply Hspawn; [by left|done].
    - destruct (ps !! i) as [[a|R b c k]|] eqn:E; [done| |done].
      destruct (Forall_lookup_1 _ _ _ _ Hps E s (P_refl s) HI) as ([H1 H1'] & H2 & _).
      destruct (c s) as [r s']. cbn [fst snd] in *. split_and!; try done. by apply (Hins s).
    - destruct (ps !! i) as [[a|R [|] c k]|] eqn:E; try done.
      destruct (Forall_lookup_1 _ _ _ _ Hps E s (P_refl s) HI) as (_ & _ & H3).
      destruct (H3 eq_refl). cbn [fst snd]. split_and!; try done. by apply (Hins s).
    - destruct (ps !! i) as [[a|R [|] c k]|] eqn:E; try done.
      destruct (Forall_lookup_1 _ _ _ _ Hps E s (P_refl s) HI) as ([H1 H1'] & _ & H3).
      destruct (H3 eq_refl). cbn [fst snd]. split_and!; try done. by apply (Hins s).
    - destruct (Henv e s); [by left|done|]. cbn [fst snd]. split_and!; try done. by apply (Hall s). }
  destruct (IH (exec body env l x)) as [H1 H2]; try done.
  { intros e s He. apply Henv. by right. }
  { intros c s Hc. apply Hspawn. by right. }
  split; [done|]. by eapply P_trans.
Qed.
End Rely.

(** The structural steps of a proof about a program. *)
Ltac every_with tac :=
  repeat first
    [ done
    | apply every_bind; [|intros ?]
    | apply every_each; intros ?
    | tac
    | match goal with
      | |- every _ (if ?b then _ else _) => destruct b
      | |- every _ (match ?x with _ => _ end) => destruct x
      end ].
Ltac wps_with tac :=
  repeat first
    [ done
    | apply wps_seq; [|intros ?]
    | apply wps_each; intros ?
    | tac
    | match goal with
      | |- wps _ _ (if ?b then _ else _) _ => destruct b
      | |- wps _ _ (match ?x with _ => _ end) _ => destruct x
      end ].

End Programs.
