(* ===== verification/Queue.v ===== *)
(** The ranked queue (services/match-service/internal/queue/queue.go): joining,
    proposals, confirmation, expiry and bans, over Redis. The service runs in many
    goroutines and instances: a call is a program of atomic Redis commands. *)
From S2P Require Import Prelude Json Float64 Backend Programs Matchmaking.
Import Programs Float64 Matchmaking.

Module Queue.

Definition ConfirmationWindowSecs : Z := 30.
Definition DeclinePenaltyThreshold : Z := 3.
Definition BanBaseMinutes : Z := 5.
Definition BanExponentBase : Z := 5.
Definition BanMaxMinutes : Z := 1440.

(** Durations and times are in nanoseconds. *)
Definition Second : Z := 1000000000.
Definition Minute : Z := 60 * Second.
Definition DeclinePenaltyWindow : Z := 60 * Minute.
Definition QueueMetaTTL : Z := 10 * Minute.
Definition lockTTL : Z := 4 * Second.
Definition shadowTTL : Z := 60 * Second.

Inductive qerror : Type :=
  | ErrBanned (RetryAfterSecs : Z)
  | ErrAlreadyQueued
  | ErrMatchNotFound
  | ErrNotMatchParticipant
  | ErrRedis (what : string)
  | ErrRPC (what : string).

(** [min(BanBaseMinutes * BanExponentBase^(offense-1), BanMaxMinutes)] minutes: the
    power is exact in float64 as far as it is below the maximum. *)
Definition BanDurationForOffense (offense : Z) : Z :=
  let offense := if (offense <? 1)%Z then 1%Z else offense in
  (Z.min (BanBaseMinutes * BanExponentBase ^ (offense - 1)) BanMaxMinutes * Minute)%Z.

Definition estimatedWait (position : Z) : Z := (position * 10)%Z.

(** ** Redis *)

Section Redis.
Context `{U : UUID}.

(** A hash value; a float is stored by its shortest decimal form, which parses back
    to it. *)
Inductive value := Text (s : string) | Number (f : f64).

Definition text_of (v : option value) : string := match v with Some (Text s) => s | _ => "" end.
Definition float_of (v : option value) : f64 := match v with Some (Number f) => f | _ => f_of_Z 0 end.

(** A key with an optional deadline, after which it is gone. *)
Record entry (A : Type) := mkKey { content : A; deadline : option Z }.
Arguments mkKey {_} _ _.
Arguments content {_} _.
Arguments deadline {_} _.

Abbreviation hash := (gmap string value).

Record redis := mkRedis {
  now : Z;
  ids : nat;                              (* ids generated so far *)
  queued : gmap string f64;               (* queue:ranked *)
  metas : gmap string (entry (Z * f64));  (* queue:meta: joined_at, mmr *)
  pending : gmap uuid (entry hash);
  shadow : gmap uuid (entry hash);
  declines : gmap uuid (entry (list Z));
  bans : gmap uuid (entry unit);
  lock : option Z;                        (* queue:lock, by its deadline *)
  expiries : gmap uuid Z;                 (* delayed tasks of type queue:match_expiry *)
  sent : list (uuid * string);            (* events published to players *)
  proposals : list (uuid * (string * string)); (* the matches given an id, with their players *)
  ranked_rooms : list (uuid * uuid);      (* CreateRankedRoom calls *)
  started : list (uuid * uuid);           (* StartSession calls *)
  bot_known : gset string;                (* bot:known *)
  bot_available : gset string;            (* bot:available *)
  activations : list uuid;                (* tasks of type bot:activate *)
  dedup : gmap string (entry unit)        (* dedup:match-service *)
}.

Definition live {A} (t : Z) (e : entry A) : bool :=
  match deadline e with Some dl => (t <? dl)%Z | None => true end.

Definition get_key {K A} `{Countable K} (t : Z) (k : K) (m : gmap K (entry A)) : option (entry A) :=
  match m !! k with Some e => if live t e then Some e else None | None => None end.

(** [HGETALL]: the fields, none when there is no such key. *)
Definition hgetall (t : Z) (k : uuid) (m : gmap uuid (entry hash)) : hash :=
  match get_key t k m with Some e => content e | None => ∅ end.

(** [HSET]: the key keeps its deadline; a new key has none. *)
Definition hset (t : Z) (k : uuid) (fs : list (string * value)) (m : gmap uuid (entry hash))
    : gmap uuid (entry hash) :=
  match get_key t k m with
  | Some e => <[k := mkKey (list_to_map (reverse fs) ∪ content e) (deadline e)]> m
  | None => <[k := mkKey (list_to_map (reverse fs)) None]> m
  end.

(** [EXPIRE] *)
Definition expire {K A} `{Countable K} (t : Z) (k : K) (ttl : Z) (m : gmap K (entry A))
    : gmap K (entry A) :=
  match get_key t k m with
  | Some e => <[k := mkKey (content e) (Some (t + ttl)%Z)]> m
  | None => m
  end.

Definition set_queued v s := mkRedis (now s) (ids s) v (metas s) (pending s) (shadow s) (declines
  s) (bans s) (lock s) (expiries s) (sent s) (proposals s) (ranked_rooms s) (started s) (bot_known
  s) (bot_available s) (activations s) (dedup s).
Definition set_metas v s := mkRedis (now s) (ids s) (queued s) v (pending s) (shadow s) (declines
  s) (bans s) (lock s) (expiries s) (sent s) (proposals s) (ranked_rooms s) (started s) (bot_known
  s) (bot_available s) (activations s) (dedup s).
Definition set_pending v s := mkRedis (now s) (ids s) (queued s) (metas s) v (shadow s) (declines
  s) (bans s) (lock s) (expiries s) (sent s) (proposals s) (ranked_rooms s) (started s) (bot_known
  s) (bot_available s) (activations s) (dedup s).
Definition set_shadow v s := mkRedis (now s) (ids s) (queued s) (metas s) (pending s) v (declines
  s) (bans s) (lock s) (expiries s) (sent s) (proposals s) (ranked_rooms s) (started s) (bot_known
  s) (bot_available s) (activations s) (dedup s).
Definition set_declines v s := mkRedis (now s) (ids s) (queued s) (metas s) (pending s) (shadow s)
  v (bans s) (lock s) (expiries s) (sent s) (proposals s) (ranked_rooms s) (started s) (bot_known
  s) (bot_available s) (activations s) (dedup s).
Definition set_bans v s := mkRedis (now s) (ids s) (queued s) (metas s) (pending s) (shadow s)
  (declines s) v (lock s) (expiries s) (sent s) (proposals s) (ranked_rooms s) (started s)
  (bot_known s) (bot_available s) (activations s) (dedup s).
Definition set_lock v s := mkRedis (now s) (ids s) (queued s) (metas s) (pending s) (shadow s)
  (declines s) (bans s) v (expiries s) (sent s) (proposals s) (ranked_rooms s) (started s)
  (bot_known s) (bot_available s) (activations s) (dedup s).
Definition set_expiries v s := mkRedis (now s) (ids s) (queued s) (metas s) (pending s) (shadow s)
  (declines s) (bans s) (lock s) v (sent s) (proposals s) (ranked_rooms s) (started s) (bot_known
  s) (bot_available s) (activations s) (dedup s).
Definition set_sent v s := mkRedis (now s) (ids s) (queued s) (metas s) (pending s) (shadow s)
  (declines s) (bans s) (lock s) (expiries s) v (proposals s) (ranked_rooms s) (started s)
  (bot_known s) (bot_available s) (activations s) (dedup s).
Definition set_rooms v s := mkRedis (now s) (ids s) (queued s) (metas s) (pending s) (shadow s)
  (declines s) (bans s) (lock s) (expiries s) (sent s) (proposals s) v (started s) (bot_known s)
  (bot_available s) (activations s) (dedup s).
Definition set_started v s := mkRedis (now s) (ids s) (queued s) (metas s) (pending s) (shadow s)
  (declines s) (bans s) (lock s) (expiries s) (sent s) (proposals s) (ranked_rooms s) v (bot_known
  s) (bot_available s) (activations s) (dedup s).
Definition set_now v s := mkRedis v (ids s) (queued s) (metas s) (pending s) (shadow s) (declines
  s) (bans s) (lock s) (expiries s) (sent s) (proposals s) (ranked_rooms s) (started s) (bot_known
  s) (bot_available s) (activations s) (dedup s).
Definition set_available v s := mkRedis (now s) (ids s) (queued s) (metas s) (pending s) (shadow
  s) (declines s) (bans s) (lock s) (expiries s) (sent s) (proposals s) (ranked_rooms s) (started
  s) (bot_known s) v (activations s) (dedup s).
Definition set_activations v s := mkRedis (now s) (ids s) (queued s) (metas s) (pending s) (shadow
  s) (declines s) (bans s) (lock s) (expiries s) (sent s) (proposals s) (ranked_rooms s) (started
  s) (bot_known s) (bot_available s) v (dedup s).
Definition set_known v s := mkRedis (now s) (ids s) (queued s) (metas s) (pending s) (shadow s)
  (declines s) (bans s) (lock s) (expiries s) (sent s) (proposals s) (ranked_rooms s) (started s)
  v (bot_available s) (activations s) (dedup s).
Definition set_dedup v s := mkRedis (now s) (ids s) (queued s) (metas s) (pending s) (shadow s)
  (declines s) (bans s) (lock s) (expiries s) (sent s) (proposals s) (ranked_rooms s) (started s)
  (bot_known s) (bot_available s) (activations s) v.
Definition next_id id players s := mkRedis (now s) (S (ids s)) (queued s) (metas s) (pending s)
  (shadow s) (declines s) (bans s) (lock s) (expiries s) (sent s) (proposals s ++ [(id, players)])
  (ranked_rooms s) (started s) (bot_known s) (bot_available s) (activations s) (dedup s).

End Redis.
Arguments mkKey {_} _ _.
Arguments content {_} _.
Arguments deadline {_} _.

Abbreviation prog := (Programs.prog redis).

(** ** The service *)

Section Service.
Context `{U : UUID} `{!SortSlice}.

(** [uuid.New], the zero UUID, and what the rating service answers. *)
Context (New : nat → uuid) (Nil : uuid) (GetRating : uuid → option f64) (cfg : QueueConfig).

(** [id, _ := uuid.Parse(s)] *)
Definition clock_now : prog Z := local 0%Z (λ s, (now s, s)).

Definition parse (s : string) : uuid := default Nil (uuid_Parse s).

(** The id of a match between two players. *)
Definition fresh (players : string * string) : prog uuid :=
  local Nil (λ s, (New (ids s), next_id (New (ids s)) players s)).

(** The error is logged. *)
Definition publishToPlayer (playerID : uuid) (event : string) : prog unit :=
  write (λ s, set_sent (sent s ++ [(playerID, event)]) s);; mret tt.

Record BanInfo := mkBanInfo { Banned : bool; RetryAfterSecs : Z }.

(** [TTL], rounded to seconds. *)
Definition TTL (t : Z) (p : uuid) (m : gmap uuid (entry unit)) : Z :=
  match get_key t p m with
  | Some e => match deadline e with
              | Some dl => (((dl - t) / 1000000 + 500) / 1000)%Z
              | None => (-1)%Z
              end
  | None => (-2)%Z
  end.

Definition BanStatus (playerID : uuid) : prog (result qerror BanInfo) :=
  val ← read (λ s, get_key (now s) playerID (bans s));
  match val with
  | None => mret (Err (ErrRedis "BanStatus"))
  | Some None => mret (Ok (mkBanInfo false 0))
  | Some (Some _) =>
      ttl ← read (λ s, TTL (now s) playerID (bans s));
      match ttl with
      | None => mret (Ok (mkBanInfo false 0))
      | Some ttl => if (ttl <=? 0)%Z then mret (Ok (mkBanInfo false 0)) else mret (Ok (mkBanInfo true ttl))
      end
  end.

(** The number of members with a smaller score, or the same score and a smaller name. *)
Definition ZRank (member : string) (m : gmap string f64) : option Z :=
  score ← m !! member;
  Some (Z.of_nat (length (filter (λ kv : string * f64,
    flt kv.2 score = true ∨
    flt score kv.2 = false ∧ String.ltb kv.1 member = true) (map_to_list m)))).

Definition queuePosition (playerID : uuid) : prog (option Z) :=
  r ← read (λ s, ZRank (uuid_String playerID) (queued s));
  mret (match r with Some (Some rank) => Some (rank + 1)%Z | _ => None end).

Record QueuePosition := mkPosition { Position : Z; EstimatedWaitSec : Z }.

Definition DefaultMMR : f64 := f_of_Z 1500.

(** [now.UTC().Format(time.RFC3339)], read back: whole seconds. *)
Definition to_seconds (t : Z) : Z := (t / Second * Second)%Z.

Definition Enqueue (playerID : uuid) : prog (result qerror QueuePosition) :=
  ban ← BanStatus playerID;
  match ban with
  | Err _ => mret (Err (ErrRedis "Enqueue: check ban"))
  | Ok ban =>
      if Banned ban then mret (Err (ErrBanned (RetryAfterSecs ban)))
      else
        let member := uuid_String playerID in
        score ← read (λ s, queued s !! member);
        match score with
        | None => mret (Err (ErrRedis "Enqueue: zscore"))
        | Some (Some _) => mret (Err ErrAlreadyQueued)
        | Some None =>
            resp ← read (λ _, GetRating playerID);
            let mmr := match resp with Some (Some mmr) => mmr | _ => DefaultMMR end in
            t ← clock_now;
            ok ← pipeline [
              (λ s, set_metas (<[member := mkKey (to_seconds t, mmr)
                 (e ← get_key (now s) member (metas s); deadline e)]> (metas s)) s);
              (λ s, set_metas (expire (now s) member QueueMetaTTL (metas s)) s);
              (λ s, set_queued (<[member := mmr]> (queued s)) s)];
            if (ok : bool) then
              pos ← queuePosition playerID;
              match pos with
              | None => mret (Err (ErrRedis "Enqueue: position"))
              | Some pos => mret (Ok (mkPosition pos (estimatedWait pos)))
              end
            else mret (Err (ErrRedis "Enqueue: pipeline"))
        end
  end.

Definition Dequeue (playerID : uuid) : prog (result qerror bool) :=
  let member := uuid_String playerID in
  removed ← cmd (λ s, (bool_decide (is_Some (queued s !! member)), set_queued (delete member (queued s)) s));
  match removed with
  | None => mret (Err (ErrRedis "Dequeue"))
  | Some true => write (λ s, set_metas (delete member (metas s)) s);; mret (Ok true)
  | Some false => mret (Ok false)
  end.

(** ** Penalties *)

Definition recordDecline (playerID : uuid) : prog (result qerror unit) :=
  t ← clock_now;
  ok ← pipeline [
    (λ s, set_declines (match get_key (now s) playerID (declines s) with
       | Some e => <[playerID := mkKey (content e ++ [to_seconds t]) (deadline e)]> (declines s)
       | None => <[playerID := mkKey [to_seconds t] None]> (declines s)
       end) s);
    (λ s, set_declines (expire (now s) playerID DeclinePenaltyWindow (declines s)) s)];
  if negb ok then mret (Err (ErrRedis "recordDecline: push"))
  else
    entries ← read (λ s, match get_key (now s) playerID (declines s) with
                         | Some e => content e | None => [] end);
    match entries with
    | None => mret (Err (ErrRedis "recordDecline: lrange"))
    | Some entries =>
        t' ← clock_now;
        let windowStart := (t' - DeclinePenaltyWindow)%Z in
        let recentCount := Z.of_nat (length (filter (λ e, (windowStart < e)%Z) entries)) in
        if (recentCount <? DeclinePenaltyThreshold)%Z then mret (Ok tt)
        else
          let banDuration := BanDurationForOffense (recentCount / DeclinePenaltyThreshold) in
          ok ← pipeline [
            (λ s, set_bans (<[playerID := mkKey tt (Some (now s + banDuration)%Z)]> (bans s)) s);
            (λ s, set_declines (delete playerID (declines s)) s)];
          mret (if (ok : bool) then Ok tt else Err (ErrRedis "recordDecline: ban"))
    end.

Definition requeueAfterTimeout (playerID : uuid) (reason : string) : prog unit :=
  r ← Enqueue playerID;
  match r with
  | Err _ => mret tt
  | Ok _ => publishToPlayer playerID ("queue_joined: " +:+ reason)
  end.

Definition penalizeTimeout (playerID : uuid) : prog unit :=
  recordDecline playerID;; publishToPlayer playerID "match_cancelled: timeout_penalty".

(** ** Confirmation *)

Definition cancelExpiry (matchID : uuid) : prog unit :=
  write (λ s, set_expiries (delete matchID (expiries s)) s);; mret tt.

Definition scheduleExpiry (matchID : uuid) : prog unit :=
  write (λ s, set_expiries (delete matchID (expiries s)) s);;
  write (λ s, set_expiries
    (<[matchID := (now s + ConfirmationWindowSecs * Second)%Z]> (expiries s)) s);;
  mret tt.

Definition startMatch (playerA playerB : uuid) (mmrA mmrB : f64) : prog (result qerror unit) :=
  room ← write (λ s, set_rooms (ranked_rooms s ++ [(playerA, playerB)]) s);
  match room with
  | None => mret (Err (ErrRPC "startMatch: create ranked room"))
  | Some _ =>
      session ← write (λ s, set_started (started s ++ [(playerA, playerB)]) s);
      match session with
      | None => mret (Err (ErrRPC "startMatch: start session"))
      | Some _ =>
          publishToPlayer playerA "match_ready";; publishToPlayer playerB "match_ready";; mret (Ok tt)
      end
  end.

Definition HGetAll_pending (matchID : uuid) : prog (option (gmap string value)) :=
  read (λ s, hgetall (now s) matchID (pending s)).

(** [DEL pending shadow]: how many of the keys there were. *)
Definition Del_match (matchID : uuid) : prog (option Z) :=
  cmd (λ s,
    let n {A} (o : option A) := match o with Some _ => 1%Z | None => 0%Z end in
    ((n (get_key (now s) matchID (pending s)) + n (get_key (now s) matchID (shadow s)))%Z,
     set_shadow (delete matchID (shadow s)) (set_pending (delete matchID (pending s)) s))).

Definition yes : value := Text "1".
Definition accepted (f : string) (fields : gmap string value) : bool :=
  bool_decide (text_of (fields !! f) = "1").

(** The field in which a participant's acceptance is stored. *)
Definition acceptField (playerID : uuid) (fields : gmap string value) : option string :=
  if decide (playerID = parse (text_of (fields !! "player_a"))) then Some "accepted_a"
  else if decide (playerID = parse (text_of (fields !! "player_b"))) then Some "accepted_b"
  else None.

Definition Accept (playerID matchID : uuid) : prog (result qerror unit) :=
  fields ← HGetAll_pending matchID;
  match fields with
  | None => mret (Err ErrMatchNotFound)
  | Some fields =>
      if decide (fields = ∅) then mret (Err ErrMatchNotFound)
      else
        let playerA := parse (text_of (fields !! "player_a")) in
        let playerB := parse (text_of (fields !! "player_b")) in
        match acceptField playerID fields with
        | None => mret (Err ErrNotMatchParticipant)
        | Some acceptField =>
            ok ← pipeline [
              (λ s, set_pending (hset (now s) matchID [(acceptField, yes)] (pending s)) s);
              (λ s, set_shadow (hset (now s) matchID [(acceptField, yes)] (shadow s)) s)];
            if negb ok then mret (Err (ErrRedis "Accept: hset"))
            else
              fields ← HGetAll_pending matchID;
              match fields with
              | None => mret (Err (ErrRedis "Accept: reload"))
              | Some fields =>
                  if negb (accepted "accepted_a" fields) || negb (accepted "accepted_b" fields)
                  then mret (Ok tt)
                  else
                    let mmrA := float_of (fields !! "mmr_a") in
                    let mmrB := float_of (fields !! "mmr_b") in
                    deleted ← Del_match matchID;
                    match deleted with
                    | None | Some 0%Z => mret (Ok tt)
                    | Some _ => cancelExpiry matchID;; startMatch playerA playerB mmrA mmrB
                    end
              end
        end
  end.

Definition Decline (playerID matchID : uuid) : prog (result qerror unit) :=
  fields ← HGetAll_pending matchID;
  match fields with
  | None => mret (Err ErrMatchNotFound)
  | Some fields =>
      if decide (fields = ∅) then mret (Err ErrMatchNotFound)
      else
        let playerA := parse (text_of (fields !! "player_a")) in
        let playerB := parse (text_of (fields !! "player_b")) in
        if decide (playerID ≠ playerA ∧ playerID ≠ playerB) then mret (Err ErrNotMatchParticipant)
        else
          deleted ← Del_match matchID;
          match deleted with
          | None | Some 0%Z => mret (Ok tt)
          | Some _ =>
              cancelExpiry matchID;;
              let '(other, otherAcceptField) :=
                if decide (playerID = playerB) then (playerA, "accepted_a") else (playerB, "accepted_b") in
              (if accepted otherAcceptField fields then
                 r ← Enqueue other;
                 match r with
                 | Ok _ => publishToPlayer other "queue_joined: opponent_declined"
                 | Err _ => mret tt
                 end
               else mret tt);;
              recordDecline playerID;;
              publishToPlayer playerID "queue_left: declined";;
              mret (Ok tt)
          end
  end.

Definition handleMatchExpiry (matchID : uuid) : prog unit :=
  fields ← read (λ s, hgetall (now s) matchID (shadow s));
  match fields with
  | None => mret tt
  | Some fields =>
      if decide (fields = ∅) then mret tt
      else
        write (λ s, set_shadow (delete matchID (shadow s)) s);;
        let playerA := parse (text_of (fields !! "player_a")) in
        let playerB := parse (text_of (fields !! "player_b")) in
        match accepted "accepted_a" fields, accepted "accepted_b" fields with
        | true, false => requeueAfterTimeout playerA "opponent_timeout";; penalizeTimeout playerB
        | false, true => requeueAfterTimeout playerB "opponent_timeout";; penalizeTimeout playerA
        | _, _ =>
            publishToPlayer playerA "match_cancelled: timeout";;
            publishToPlayer playerB "match_cancelled: timeout"
        end
  end.

(** ** Proposals *)

(** The queue rebuilt from the snapshot, with the join times that are still stored. *)
Fixpoint snapshot (members : list (string * f64)) : prog (list QueueEntry) :=
  match members with
  | [] => mret []
  | (member, mmr) :: members =>
      meta ← read (λ s, get_key (now s) member (metas s));
      t ← clock_now;
      let joinedAt := match meta with Some (Some e) => (content e).1 | _ => t end in
      l ← snapshot members;
      mret (mkEntry (mkPlayer member mmr) joinedAt :: l)
  end.

Definition proposeMatch (m : ProposedMatch) : prog unit :=
  match Teams m with
  | [[a]; [b]] =>
      match uuid_Parse (ID a), uuid_Parse (ID b) with
      | Some pA, Some pB =>
          matchID ← fresh (ID a, ID b);
          let players := [("player_a", Text (ID a)); ("player_b", Text (ID b));
                          ("accepted_a", Text "0"); ("accepted_b", Text "0")] in
          ok ← pipeline [
            (λ s, set_pending (hset (now s) matchID
               (players ++ [("mmr_a", Number (MMR a)); ("mmr_b", Number (MMR b))]) (pending s)) s);
            (λ s, set_pending (expire (now s) matchID (ConfirmationWindowSecs * Second) (pending s)) s);
            (λ s, set_shadow (hset (now s) matchID players (shadow s)) s);
            (λ s, set_shadow (expire (now s) matchID shadowTTL (shadow s)) s);
            (λ s, set_queued (delete (ID a) (delete (ID b) (queued s))) s);
            (λ s, set_metas (delete (uuid_String pA) (delete (uuid_String pB) (metas s))) s)];
          if (ok : bool) then
            scheduleExpiry matchID;;
            publishToPlayer pA "match_found";; publishToPlayer pB "match_found"
          else mret tt
      | _, _ => mret tt
      end
  | _ => mret tt
  end.

Definition FindAndPropose : prog unit :=
  ok ← cmd (λ s,
    if match lock s with Some dl => (now s <? dl)%Z | None => false end then (false, s)
    else (true, set_lock (Some (now s + lockTTL)%Z) s));
  match ok with
  | Some true =>
      members ← read (λ s, map_to_list (queued s));
      match members with
      | None => mret tt
      | Some members =>
          if length members <? 2 then mret tt
          else
            queue ← snapshot members;
            t ← clock_now;
            each proposeMatch (FindMatches cfg t queue).1
      end;;
      write (set_lock None);; mret tt
  | _ => mret tt
  end.

Definition ResetPlayer (playerID : uuid) : prog (result qerror unit) :=
  let member := uuid_String playerID in
  ok ← pipeline [
    (λ s, set_queued (delete member (queued s)) s);
    (λ s, set_metas (delete member (metas s)) s);
    (λ s, set_declines (delete playerID (declines s)) s);
    (λ s, set_bans (delete playerID (bans s)) s)];
  mret (if (ok : bool) then Ok tt else Err (ErrRedis "ResetPlayer")).

End Service.
End Queue.
