(* ===== verification/Backfill.v ===== *)
(** Backfill of the ranked queue
    (services/match-service/internal/queue/backfill.go): when a single human has
    waited long enough, the idle bot with the closest MMR is claimed and activated. *)
From S2P Require Import Prelude Json Float64 Backend Programs Matchmaking Queue.
From Stdlib Require Import Floats.SpecFloat.
Import Programs Float64 Matchmaking Queue.

Module Backfill.

Record BackfillConfig := mkBackfillConfig { Enabled : bool; Threshold : Z; MaxActive : Z }.

Definition DefaultBackfillConfig : BackfillConfig := mkBackfillConfig false (15 * Second) 3.

(** [math.MaxFloat64] *)
Definition MaxFloat64 : f64 := S754_finite false (2 ^ 53 - 1) 971.

Section Scan.
Context `{U : UUID}.
Context (Nil : uuid) (GetRating : uuid → option f64).

(** A missing timestamp is not an error. The replies of the two commands are read at
    two times. *)
Definition humanWaitedLongEnough (humanID : uuid) (threshold : Z) : prog (option bool) :=
  joined ← read (λ s, get_key (now s) (uuid_String humanID) (metas s));
  match joined with
  | None => mret None
  | Some None => mret (Some false)
  | Some (Some e) =>
      t ← clock_now;
      mret (Some (threshold <=? t - (content e).1)%Z)
  end.

(** A failing lookup is [None], as in [GetRating] itself. *)
Definition botMMR (botID : uuid) : prog (option f64) :=
  r ← read (λ _, GetRating botID);
  mret (match r with Some o => o | None => None end).

Definition closest (targetMMR : f64) (id : uuid) (mmr : option f64) (best : uuid * f64) : uuid * f64 :=
  match mmr with
  | None => best
  | Some mmr =>
      let delta := SFabs (fsub mmr targetMMR) in
      if flt delta best.2 then (id, delta) else best
  end.

Fixpoint pickLoop (targetMMR : f64) (available : list string) (best : uuid * f64) : prog uuid :=
  match available with
  | [] => mret best.1
  | idStr :: available =>
      match uuid_Parse idStr with
      | None => pickLoop targetMMR available best
      | Some id =>
          mmr ← botMMR id;
          pickLoop targetMMR available (closest targetMMR id mmr best)
      end
  end.

(** The members of a set come in no particular order. *)
Definition pickClosestBot (targetMMR : f64) : prog (option uuid) :=
  available ← read (λ s, elements (bot_available s));
  match available with
  | None => mret None
  | Some available => best ← pickLoop targetMMR available (Nil, MaxFloat64); mret (Some best)
  end.

(** The queued players that are not bots, and how many are. *)
Definition humans (known : gset string) (queued : list (string * f64)) : list (string * f64) :=
  filter (λ z, z.1 ∉ known) queued.
Definition botsInQueue (known : gset string) (queued : list (string * f64)) : nat :=
  length (filter (λ z, z.1 ∈ known) queued).

(** [SREM], then the task; when the task is not enqueued, or there is no client to
    enqueue it, the bot is put back. *)
Definition activate (asynqClient : bool) (botID : uuid) : prog unit :=
  let bot := uuid_String botID in
  removed ← cmd (λ s, (bool_decide (bot ∈ bot_available s),
                       set_available (bot_available s ∖ {[bot]}) s));
  match removed with
  | Some true =>
      let put_back := write (λ s, set_available (bot_available s ∪ {[bot]}) s);; mret tt in
      if negb asynqClient then put_back
      else
        enqueued ← write (λ s, set_activations (activations s ++ [botID]) s);
        match enqueued with
        | None => put_back
        | Some _ => mret tt
        end
  | _ => mret tt
  end.

Definition BackfillScan (cfg : BackfillConfig) (asynqClient : bool) : prog unit :=
  if negb (Enabled cfg) then mret tt
  else
    queued ← read (λ s, map_to_list (queued s));
    match queued with
    | None | Some [] => mret tt
    | Some queued =>
        knownBots ← read bot_known;
        match knownBots with
        | None => mret tt
        | Some known =>
            match humans known queued with
            | [human] =>
                if 0 <? botsInQueue known queued then mret tt
                else
                  match uuid_Parse human.1 with
                  | None => mret tt
                  | Some humanID =>
                      waited ← humanWaitedLongEnough humanID (Threshold cfg);
                      match waited with
                      | Some true =>
                          availableCount ← read (λ s, Z.of_nat (size (bot_available s)));
                          match availableCount with
                          | None | Some 0%Z => mret tt
                          | Some n =>
                              if (MaxActive cfg <=? Z.of_nat (size known) - n)%Z then mret tt
                              else
                                bot ← pickClosestBot human.2;
                                match bot with
                                | None => mret tt
                                | Some botID =>
                                    if decide (botID = Nil) then mret tt
                                    else activate asynqClient botID
                                end
                          end
                      | _ => mret tt
                      end
                  end
            | _ => mret tt
            end
        end
    end.

End Scan.
End Backfill.
