(* ===== verification/Middleware.v ===== *)
(** What stands before every handler (shared/middleware/auth.go): the session cookie, the
    claims of its token, and the roles. *)
From S2P Require Import Prelude Backend.

Module Middleware.

Definition RolePlayer : string := "player".
Definition RoleManager : string := "manager".
Definition RoleOwner : string := "owner".
Definition CookieName : string := "recess_session".

Section Middleware.
Context `{UUID}.

(** The claims of a token, without the registered ones, which only the library reads. *)
Record Claims := mkClaims { PlayerID : uuid; ClaimUsername : string; ClaimRole : string }.

(** [jwt.ParseWithClaims] of the JWT library, with a key that is only handed out for an
    HMAC method: whether the token is valid and its claims, or whether it has expired. *)
Class JWT := {
  ParseWithClaims : string → string → result bool (bool * Claims)   (* Err true: expired *)
}.

Definition ErrTokenExpired : error := Sentinel "token expired".

Definition VerifyToken `{JWT} (secret raw : string) : result error Claims :=
  match ParseWithClaims secret raw with
  | Err true => Err ErrTokenExpired
  | Err false => Err (Sentinel "invalid token")
  | Ok (valid, c) => if valid then Ok c else Err (Sentinel "invalid token")
  end.

(** ** Responses *)

(** Status codes and bodies; what a body carries is left to the service. *)
Record response (B : Type) := mkResponse { code : Z; body : B }.
End Middleware.
Arguments mkResponse {B} _ _.
Arguments code {B} _.
Arguments body {B} _.

Definition StatusOK : Z := 200.
Definition StatusCreated : Z := 201.
Definition StatusNoContent : Z := 204.
Definition StatusBadRequest : Z := 400.
Definition StatusUnauthorized : Z := 401.
Definition StatusForbidden : Z := 403.
Definition StatusNotFound : Z := 404.
Definition StatusConflict : Z := 409.
Definition StatusUnprocessableEntity : Z := 422.
Definition StatusInternalServerError : Z := 500.

Section Handlers.
Context `{HU : UUID} `{!JWT} {M : Type → Type} `{MRet M} {B : Type} (message : string → B).

(** A body with an error message. *)
Definition writeError (status : Z) (msg : string) : M (response B) :=
  mret (mkResponse status (message msg)).

(** [Require]: the handler runs in a context that carries the claims of the cookie. *)
Definition Require (secret : string) (cookie : option string) (next : Claims → M (response B))
    : M (response B) :=
  match cookie with
  | None => writeError StatusUnauthorized "unauthorized"
  | Some raw =>
      match VerifyToken secret raw with
      | Err e =>
          if decide (e = ErrTokenExpired) then writeError StatusUnauthorized "token_expired"
          else writeError StatusUnauthorized "unauthorized"
      | Ok c => next c
      end
  end.

(** A role that is not in the table has the zero rank. *)
Definition rank (role : string) : Z :=
  if decide (role = RolePlayer) then 1
  else if decide (role = RoleManager) then 2
  else if decide (role = RoleOwner) then 3 else 0.

(** [RequireRole], behind [Require]. *)
Definition RequireRole (minimum : string) (next : Claims → M (response B)) (c : Claims) : M (response B) :=
  if (rank (ClaimRole c) <? rank minimum)%Z then writeError StatusForbidden "forbidden" else next c.
End Handlers.
End Middleware.
