(* ===== verification/Streams.v ===== *)
(** Redis Streams with consumer groups (shared/streams): the producer, and the worker
    that reads a stream for one group, runs a handler on each message, acknowledges,
    retries and gives up into the dead letter stream; and the events between the services
    (shared/events/events.go), as the consumers decode them: a payload on a stream is
    known by what it decodes to, [None] when it does not. *)
From S2P Require Import Prelude Backend Programs.
Import Programs.

Module Streams.

(** Durations and times are in milliseconds, the unit of Redis. *)
Definition defaultBatch : nat := 10.
Definition defaultMaxRetries : Z := 5.
Definition defaultClaimMinIdle : Z := 30000.
Definition defaultMaxLen : nat := N.to_nat 10000.

(** What a handler answers. *)
Inductive outcome : Type :=
  | Done
  | ErrSkipAck
  | Failed (e : error).

(** ** The stream *)

Section Broker.
Context {B D : Type}.               (* payloads; the store of the handler *)

(** The value of a field, as the client hands it out. *)
Inductive value := VString (b : B) | VBytes (b : B) | VOther.

Definition fields : Type := gmap string value.

(** A message that has been delivered and not acknowledged. *)
Record pending := mkPending { consumer : string; delivered_at : Z; RetryCount : Z }.

Record dead := mkDead { payload : B; original_id : nat; why : error }.

(** The id of an entry is its position among all entries ever added; the first
    [trimmed] of them have been removed from the stream. So it is with the dead letter
    stream, which the groups share: a dead letter of another group is [None]. *)
Record broker := mkBroker {
  clock : Z;
  log : list fields;
  trimmed : nat;
  group : option (nat * gmap nat pending);   (* entries before the first have been delivered *)
  dlq : list (option dead);
  dlq_trimmed : nat;
  store : D
}.

Definition set_clock v b := mkBroker v (log b) (trimmed b) (group b) (dlq b) (dlq_trimmed b) (store b).
Definition set_log v b := mkBroker (clock b) v (trimmed b) (group b) (dlq b) (dlq_trimmed b) (store b).
Definition set_trimmed v b := mkBroker (clock b) (log b) v (group b) (dlq b) (dlq_trimmed b) (store b).
Definition set_group v b := mkBroker (clock b) (log b) (trimmed b) v (dlq b) (dlq_trimmed b) (store b).
Definition set_dlq v b := mkBroker (clock b) (log b) (trimmed b) (group b) v (dlq_trimmed b) (store b).
Definition set_dlq_trimmed v b := mkBroker (clock b) (log b) (trimmed b) (group b) (dlq b) v (store b).
Definition set_store v b := mkBroker (clock b) (log b) (trimmed b) (group b) (dlq b) (dlq_trimmed b) v.

(** An entry as it is delivered. *)
Definition message : Type := nat * fields.

(** [XADD stream MAXLEN ~ n * payload data]. When and how far the stream is trimmed is
    an event of the environment. *)
Definition Publish (b : B) : prog broker (option unit) :=
  write (λ s, set_log (log s ++ [{["payload" := VBytes b]}]) s).

(** [XGROUP CREATE stream group $ MKSTREAM]: false when the group exists. *)
Definition XGroupCreate (s : broker) : bool * broker :=
  match group s with
  | Some _ => (false, s)
  | None => (true, set_group (Some (length (log s), ∅)) s)
  end.

(** The entries from [n] on, at most [k] of them, that are still in the stream. *)
Definition entries_from (n k : nat) (s : broker) : list message :=
  let n := n `max` trimmed s in
  take k (imap (λ i f, (n + i, f)) (drop n (log s))).

(** [XREADGROUP GROUP group consumer COUNT k STREAMS stream >] *)
Definition XReadGroup (c : string) (k : nat) (s : broker) : list message * broker :=
  match group s with
  | None => ([], s)
  | Some (delivered, pel) =>
      let ms := entries_from delivered k s in
      let pel := foldr (λ m, <[m.1 := mkPending c (clock s) 1]>) pel ms in
      let delivered := match last ms with Some m => S m.1 | None => delivered end in
      (ms, set_group (Some (delivered, pel)) s)
  end.

(** The ids of the pending messages from [start] on, in order. *)
Definition pending_from (start : nat) (pel : gmap nat pending) : list nat :=
  filter (λ i, start ≤ i ∧ is_Some (pel !! i)) (seq 0 (S (foldr max 0 (map_to_list pel).*1))).

(** [XAUTOCLAIM stream group consumer min-idle start COUNT k]: of at most [10 * k]
    pending messages from [start] on, those that are idle long enough are handed to
    the consumer and counted as delivered once more; those that are no longer in the
    stream are dropped. The reply names the id to go on from. *)
Fixpoint claim (c : string) (minIdle now : Z) (s : broker) (ids : list nat) (k : nat)
    (pel : gmap nat pending) : list message * gmap nat pending * nat :=
  match ids, k with
  | [], _ => ([], pel, 0)
  | i :: _, O => ([], pel, i)
  | i :: ids, S k' =>
      match log s !! i, pel !! i with
      | Some f, Some p =>
          if i <? trimmed s then claim c minIdle now s ids k' (delete i pel)
          else if (now - delivered_at p <? minIdle)%Z then claim c minIdle now s ids k pel
          else
            let '(ms, pel, next) :=
              claim c minIdle now s ids k' (<[i := mkPending c now (RetryCount p + 1)]> pel) in
            ((i, f) :: ms, pel, next)
      | _, _ => claim c minIdle now s ids k pel
      end
  end.

Definition XAutoClaim (c : string) (minIdle : Z) (start k : nat) (s : broker)
    : (list message * nat) * broker :=
  match group s with
  | None => (([], start), s)
  | Some (delivered, pel) =>
      let ids := pending_from start pel in
      let '(ms, pel, next) := claim c minIdle (clock s) s (take (10 * k) ids) k pel in
      let next := match drop (10 * k) ids, next with i :: _, O => i | _, n => n end in
      ((ms, next), set_group (Some (delivered, pel)) s)
  end.

(** [XACK] *)
Definition XAck (id : nat) (s : broker) : broker :=
  match group s with
  | None => s
  | Some (delivered, pel) => set_group (Some (delivered, delete id pel)) s
  end.

(** [XPENDING stream group id id 1] *)
Definition XPendingExt (id : nat) (s : broker) : option pending :=
  match group s with Some (_, pel) => pel !! id | None => None end.

(** A program over the store of the handler, run over the broker. *)
Definition lift {A} : prog D A → prog broker A :=
  fix go p := match p with
  | Ret a => Ret a
  | Do R b c k => Do R b (λ s, let '(r, d) := c (store s) in (r, set_store d s)) (λ r, go (k r))
  end.

(** ** The worker *)

Record Worker := mkWorker {
  consumer_name : string;
  handler : B → prog D outcome;
  batch : nat;
  maxRetries : Z;
  claimMinIdle : Z
}.

(** Without options. *)
Definition NewWorker (name : string) (h : B → prog D outcome) : Worker :=
  mkWorker name h defaultBatch defaultMaxRetries defaultClaimMinIdle.

Context (w : Worker).

Definition ensureGroup : prog broker bool :=
  r ← cmd XGroupCreate; mret (match r with Some _ => true | None => false end).

Definition readPayload (f : fields) : option B :=
  match f !! "payload" with
  | Some (VString b) | Some (VBytes b) => Some b
  | _ => None
  end.

(** The count of deliveries; 0 when the message is not pending any more. *)
Definition deliveryCount (id : nat) : prog broker (option Z) :=
  r ← read (XPendingExt id);
  mret (match r with
        | None => None
        | Some None => Some 0%Z
        | Some (Some p) => Some (RetryCount p)
        end).

(** [XADD dlq MAXLEN ~ 10000 * ...]: when the oldest dead letters go is an event of the
    environment. *)
Definition toDLQ (originalID : nat) (p : B) (handlerErr : error) : prog broker unit :=
  r ← write (λ s, set_dlq (dlq s ++ [Some (mkDead p originalID handlerErr)]) s);
  match r with
  | None => mret tt
  | Some _ => write (XAck originalID);; mret tt
  end.

Definition processMessage (m : message) : prog broker unit :=
  match readPayload m.2 with
  | None => write (XAck m.1);; mret tt
  | Some p =>
      r ← lift (handler w p);
      match r with
      | Done => write (XAck m.1);; mret tt
      | ErrSkipAck => mret tt
      | Failed e =>
          count ← deliveryCount m.1;
          match count with
          | None => mret tt
          | Some n => if (maxRetries w <=? n)%Z then toDLQ m.1 p e else mret tt
          end
      end
  end.

(** One round of the consume loop, and one tick of the claim loop, from where the
    previous tick has stopped. Both go on for ever; what they wait for between two
    rounds does not matter to the store. *)
Definition consumeRound : prog broker unit :=
  r ← cmd (XReadGroup (consumer_name w) (batch w));
  match r with
  | None => mret tt
  | Some ms => each processMessage ms
  end.

Definition claimRound (nextID : nat) : prog broker nat :=
  r ← cmd (XAutoClaim (consumer_name w) (claimMinIdle w) nextID (batch w));
  match r with
  | None => mret nextID
  | Some (ms, newNext) => each processMessage ms;; mret newNext
  end.

End Broker.
Arguments value : clear implicits.
Arguments fields : clear implicits.
Arguments broker : clear implicits.
Arguments dead : clear implicits.
Arguments Worker : clear implicits.

(** What a service promises of its handler: under interference by [evolves] it keeps
    the store sound and changes it by [evolves] only, whatever fails, and when it
    answers [Done], the payload is settled in the store, for good. *)
Class Consumer {B D : Type} (h : B → prog D outcome) := {
  sound : D → Prop;
  evolves : D → D → Prop;
  Settled : B → D → Prop;
  evolves_refl d : evolves d d;
  evolves_trans d d' d'' : evolves d d' → evolves d' d'' → evolves d d'';
  Settled_stable b d d' : evolves d d' → Settled b d → Settled b d';
  handler_spec b d : wpr sound evolves (h b) d (λ r d', r = Done → Settled b d')
}.

(** ** Any number of workers *)

Section Group.
Context {B D : Type} (workers : list (Worker B D)).

(** A worker starts, or goes through a round of one of its loops; someone publishes. *)
Inductive call : Type :=
  | Call_start (i : nat)
  | Call_consume (i : nat)
  | Call_claim (i : nat) (nextID : nat)
  | Call_publish (b : B).

Definition body (c : call) : prog (broker B D) unit :=
  match c with
  | Call_start i => ignore ensureGroup
  | Call_consume i => match workers !! i with Some w => consumeRound w | None => mret tt end
  | Call_claim i n => match workers !! i with Some w => ignore (claimRound w n) | None => mret tt end
  | Call_publish b => ignore (Publish b)
  end.

(** Time passes, the stream is trimmed, someone adds an entry of another form, others change
    the store of the handler, another group gives up a message, and the dead letter stream is
    trimmed, which leaves it at least the entries that the command names. *)
Inductive happening : Type :=
  | Wait (d : Z)
  | Trim (n : nat)
  | Foreign (f : fields B)
  | Change (f : D → D)
  | Bury
  | Evict (n : nat).

Definition happen (e : happening) (s : broker B D) : broker B D :=
  match e with
  | Wait d => set_clock (clock s + Z.max 0 d)%Z s
  | Trim n => set_trimmed (trimmed s `max` (n `min` length (log s))) s
  | Foreign f => set_log (log s ++ [f]) s
  | Change f => set_store (f (store s)) s
  | Bury => set_dlq (dlq s ++ [None]) s
  | Evict n => set_dlq_trimmed (dlq_trimmed s `max` (n `min` (length (dlq s) - defaultMaxLen))) s
  end.

Definition run (ls : list (label call happening)) (x : broker B D * list (prog (broker B D) unit)) :=
  Programs.run body happen ls x.

End Group.
Arguments call : clear implicits.
Arguments happening : clear implicits.
End Streams.

Module Events.

Record SessionPlayer := mkSessionPlayer { PlayerID : string; Seat : Z; Outcome : string }.

Record GameSessionFinished := mkGameSessionFinished {
  EventID : string; SessionID : string; ResultID : string; RoomID : string; GameID : string;
  Mode : string; EndedBy : string; WinnerID : string; IsDraw : bool;
  DurationSecs : Z; MoveCount : Z; Players : list SessionPlayer
}.

Record PlayerBanned := mkPlayerBanned {
  Ban_EventID : string; Ban_PlayerID : string; BanID : string; BannedBy : string; Reason : string;
  ExpiresAt : option string
}.

End Events.
