(* ===== verification/StreamsSpec.v ===== *)
(** No message is lost: under every interleaving of any number of workers, and
    whichever commands fail or lose their replies, a message that has been published
    for a group is still in the stream, pending, or dealt with. *)
From S2P Require Import Prelude Backend Programs Streams.
Import Programs Streams.

Lemma readPayload_published {B} (b : B) : readPayload {["payload" := VBytes b]} = Some b.
Proof. reflexivity. Qed.

Section NoLoss.
Context {B D : Type} (h : B → prog D outcome) `{!Consumer h} (workers : list (Worker B D)).
Hypothesis same_handler : ∀ w, w ∈ workers → handler w = h.

Abbreviation ID := (sound (h := h)).
Abbreviation PD := (evolves (h := h)).
Abbreviation Settled := (Settled (h := h)).

(** The position at which the group was created. *)
Context (n0 : nat).

Abbreviation broker := (broker B D).

(** A dead letter that is still in its stream, or that as many later ones, of all groups, as
    the stream holds at least have pushed out. *)
Definition buried (b : B) (i : nat) (s : broker) : Prop :=
  ∃ e j, dlq s !! j = Some (Some (mkDead b i e)) ∧
    (dlq_trimmed s ≤ j ∨ defaultMaxLen ≤ length (dlq s) - S j).

(** A message that needs no further delivery. *)
Definition settled (i : nat) (f : fields B) (s : broker) : Prop :=
  readPayload f = None ∨
  ∃ b, readPayload f = Some b ∧ (Settled b (store s) ∨ buried b i s).

Definition accounted (delivered : nat) (pel : gmap nat pending) (s : broker) : Prop :=
  delivered ≤ length (log s) ∧
  ∀ i f, n0 ≤ i < delivered → log s !! i = Some f →
    i < trimmed s ∨ is_Some (pel !! i) ∨ settled i f s.

Definition Inv (s : broker) : Prop :=
  ID (store s) ∧ dlq_trimmed s ≤ length (dlq s) ∧ ∃ delivered pel, group s = Some (delivered, pel) ∧ accounted delivered pel s.

Definition P (s s' : broker) : Prop :=
  PD (store s) (store s') ∧ log s `prefix_of` log s' ∧ dlq s `prefix_of` dlq s' ∧
  dlq_trimmed s' ≤ dlq_trimmed s `max` (length (dlq s') - defaultMaxLen).

Lemma P_refl s : P s s.
Proof. split_and!; [apply evolves_refl|done..|lia]. Qed.

Lemma P_trans s s' s'' : P s s' → P s' s'' → P s s''.
Proof.
  intros (?&?&?&?) (?&?&Hd&?). split_and!; [by eapply evolves_trans|by etrans..|].
  apply prefix_length in Hd. lia.
Qed.

(** Commands that do not touch the dead letter stream. *)
Lemma P_intro s s' : PD (store s) (store s') → log s `prefix_of` log s' → dlq s' = dlq s →
  dlq_trimmed s' = dlq_trimmed s → P s s'.
Proof. intros ?? E1 E2. unfold P. rewrite E1, E2. split_and!; [done..|lia]. Qed.

Lemma buried_stable b i s s' : P s s' → buried b i s → buried b i s'.
Proof.
  intros (_ & _ & Hd & Ht) (e & j & Hj & Hk). exists e, j. split; [by eapply prefix_lookup_Some|].
  apply prefix_length in Hd. lia.
Qed.

Lemma settled_stable i f s s' : P s s' → settled i f s → settled i f s'.
Proof.
  intros HP [H|(b & Hb & H)]; [by left|right]. exists b. split; [done|].
  destruct H as [H|H]; [left; eapply Settled_stable; [apply HP|done]|right; by eapply buried_stable].
Qed.

Lemma log_stable i f s s' : P s s' → log s !! i = Some f → log s' !! i = Some f.
Proof. intros (_ & Hl & _) Hf. by eapply prefix_lookup_Some. Qed.

(** ** Commands that do not touch the group *)

Lemma Inv_kept s s' : P s s' → ID (store s') → group s' = group s → trimmed s ≤ trimmed s' →
  Inv s → Inv s'.
Proof.
  intros HP HD Hg Ht (_ & Hdl & delivered & pel & E & Hlen & Hacc). split; [done|].
  split; [destruct HP as (_ & _ & ?%prefix_length & ?); lia|].
  exists delivered, pel. rewrite Hg. split; [done|]. pose proof HP as (_ & [l Hl] & _).
  split; [rewrite Hl, length_app; lia|]. intros i f Hi Hf. rewrite Hl, lookup_app_l in Hf by lia.
  destruct (Hacc i f Hi Hf) as [?|[?|?]]; [left; lia|by right; left|].
  right; right. by eapply settled_stable.
Qed.

(** ** Commands on the group *)

Lemma Inv_group s delivered pel : Inv s → accounted delivered pel s →
  Inv (set_group (Some (delivered, pel)) s) ∧ P s (set_group (Some (delivered, pel)) s).
Proof. intros (HD & Hdl & _) Hacc. split; [split_and!; [done..|by exists delivered, pel]|]. by apply P_intro; [apply evolves_refl|..]. Qed.

Lemma XAck_keeps i f s : Inv s → log s !! i = Some f → settled i f s →
  Inv (XAck i s) ∧ P s (XAck i s).
Proof.
  intros HI Hf Hs. pose proof HI as (_ & Hdl & delivered & pel & E & Hlen & Hacc). unfold XAck. rewrite E.
  apply Inv_group; [done|]. split; [done|]. intros j g Hj Hg. destruct (decide (j = i)) as [->|Hne].
  - right; right. congruence.
  - destruct (Hacc j g Hj Hg) as [?|[?|?]]; [by left|right; left|by right; right].
    by rewrite lookup_delete_ne.
Qed.

Lemma elem_of_entries n k (s : broker) m : m ∈ entries_from n k s →
  log s !! m.1 = Some m.2 ∧ n `max` trimmed s ≤ m.1.
Proof.
  unfold entries_from. intros Hm. apply elem_of_take in Hm as (j & Hm & _).
  rewrite list_lookup_imap, lookup_drop in Hm. destruct (log s !! _) eqn:E; [|done].
  injection Hm as <-. cbn. split; [done|lia].
Qed.

(** The entries that are delivered are consecutive. *)
Lemma entries_between n k (s : broker) i f m : last (entries_from n k s) = Some m →
  n `max` trimmed s ≤ i ≤ m.1 → log s !! i = Some f → (i, f) ∈ entries_from n k s.
Proof.
  unfold entries_from. set (a := n `max` trimmed s). set (l := imap _ (drop a (log s))).
  assert (Hl : ∀ j g, log s !! (a + j) = Some g → l !! j = Some (a + j, g)).
  { intros j g Hg. unfold l. by rewrite list_lookup_imap, lookup_drop, Hg. }
  assert (Hl' : ∀ j m', l !! j = Some m' → m'.1 = a + j).
  { intros j m'. unfold l. rewrite list_lookup_imap, lookup_drop.
    destruct (log s !! (a + j)); cbn; [|done]. by intros [= <-]. }
  clearbody l. rewrite last_lookup. intros Hm Hi Hf. apply lookup_take_Some in Hm as [Hm Hlt].
  apply Hl' in Hm as Hm1.
  apply (list_elem_of_lookup_2 _ (i - a)). apply lookup_take_Some. split; [|lia].
  replace (i, f) with (a + (i - a), f) by (f_equal; lia). apply Hl. by replace (a + (i - a)) with i by lia.
Qed.

Lemma lookup_deliver c t (ms : list (message (B := B))) (pel : gmap nat pending) i :
  is_Some (pel !! i) ∨ i ∈ ms.*1 →
  is_Some (foldr (λ m : message (B := B), <[m.1 := mkPending c t 1]>) pel ms !! i).
Proof.
  induction ms as [|m ms IH]; cbn; intros Hi; [by destruct Hi as [?|?%not_elem_of_nil]|].
  destruct (decide (i = m.1)) as [->|Hne]; [by rewrite lookup_insert_eq|].
  rewrite lookup_insert_ne by done. apply IH. rewrite elem_of_cons in Hi. tauto.
Qed.

Lemma XReadGroup_keeps c k s : Inv s →
  (Inv (XReadGroup c k s).2 ∧ P s (XReadGroup c k s).2) ∧
  ∀ m, m ∈ (XReadGroup c k s).1 → log s !! m.1 = Some m.2.
Proof.
  intros HI. pose proof HI as (_ & Hdl & delivered & pel & E & Hlen & Hacc). unfold XReadGroup. rewrite E.
  cbn [fst snd]. split; [|intros m Hm; by eapply elem_of_entries].
  apply Inv_group; [done|]. destruct (last (entries_from delivered k s)) as [m|] eqn:El.
  - assert (Hm : m ∈ entries_from delivered k s) by (by apply last_Some_elem_of).
    apply elem_of_entries in Hm as [Hm Hge]. split; [by apply lookup_lt_Some in Hm|].
    intros i f Hi Hf. destruct (decide (i < delivered)).
    + destruct (Hacc i f ltac:(lia) Hf) as [?|[?|?]]; [by left|right; left|by right; right].
      apply lookup_deliver. by left.
    + destruct (decide (i < trimmed s)); [by left|right; left]. apply lookup_deliver. right.
      apply (list_elem_of_fmap_2 fst _ (i, f)). apply (entries_between _ _ _ _ _ m); [done|lia|done].
  - split; [done|]. apply last_None in El. rewrite El. done.
Qed.

Lemma claim_keeps c minIdle t (s : broker) ids k pel :
  let '(ms, pel', _) := claim c minIdle t s ids k pel in
  (∀ i, is_Some (pel !! i) → i < trimmed s ∨ is_Some (pel' !! i)) ∧
  ∀ m, m ∈ ms → log s !! m.1 = Some m.2.
Proof.
  assert (Hnil : ∀ pel : gmap nat pending, (∀ i, is_Some (pel !! i) → i < trimmed s ∨ is_Some (pel !! i)) ∧
    ∀ m : message (B := B), m ∈ [] → log s !! m.1 = Some m.2).
  { intros pel'. split; [by right|]. by intros ? []%not_elem_of_nil. }
  revert k pel. induction ids as [|i ids IH]; intros [|k] pel; cbn [claim]; try apply Hnil.
  destruct (log s !! i) as [f|] eqn:Ef; [|apply IH]. destruct (pel !! i) as [p|] eqn:Ep; [|apply IH].
  destruct (Nat.ltb_spec i (trimmed s)) as [Ht|Ht].
  - specialize (IH k (delete i pel)). destruct (claim _ _ _ _ _ _ _) as [[ms pel'] n].
    destruct IH as [IH1 IH2]. split; [|done]. intros j Hj.
    destruct (decide (j = i)) as [->|Hne]; [by left|]. apply IH1. by rewrite lookup_delete_ne.
  - destruct (_ <? minIdle)%Z; [apply (IH (S k))|]. specialize (IH k (<[i := mkPending c t (RetryCount p + 1)]> pel)).
    destruct (claim _ _ _ _ _ _ _) as [[ms pel'] n]. destruct IH as [IH1 IH2]. split.
    + intros j Hj. apply IH1. destruct (decide (j = i)) as [->|Hne]; [by rewrite lookup_insert_eq|].
      by rewrite lookup_insert_ne.
    + intros m [->|Hm]%elem_of_cons; [done|by apply IH2].
Qed.

Lemma XAutoClaim_keeps c minIdle start k s : Inv s →
  (Inv (XAutoClaim c minIdle start k s).2 ∧ P s (XAutoClaim c minIdle start k s).2) ∧
  ∀ m, m ∈ (XAutoClaim c minIdle start k s).1.1 → log s !! m.1 = Some m.2.
Proof.
  intros HI. pose proof HI as (_ & Hdl & delivered & pel & E & Hlen & Hacc). unfold XAutoClaim. rewrite E.
  pose proof (claim_keeps c minIdle (clock s) s (take (10 * k) (pending_from start pel)) k pel) as Hc.
  destruct (claim _ _ _ _ _ _ _) as [[ms pel'] n]. destruct Hc as [Hc Hms]. cbn [fst snd].
  split; [|done]. apply Inv_group; [done|]. split; [done|]. intros i f Hi Hf.
  destruct (Hacc i f Hi Hf) as [?|[Hp|?]]; [by left| |by right; right].
  destruct (Hc i Hp); [by left|by right; left].
Qed.

(** ** Programs *)

Abbreviation safe s p := (wpr Inv P p s (λ _ _, True)).

Lemma wpr_lift {A} (p : prog D A) s (Φ : A → D → Prop) :
  wpr ID PD p (store s) Φ → wpr Inv P (lift p) s (λ a s', Φ a (store s')).
Proof.
  revert s. induction p as [a|R b c k IH]; intros s Hp; [done|]. intros s' HP HI.
  pose proof HI as [HD _]. destruct (Hp (store s') (proj1 HP) HD) as ([H1 H1'] & H2 & H3).
  cbn -[store]. destruct (c (store s')) as [r d] eqn:Ec. cbn [fst snd] in *.
  assert (HP' : P s' (set_store d s')) by (by apply P_intro). split_and!; [|done|by apply IH|].
  - by apply (Inv_kept s').
  - intros Hb. destruct (H3 Hb). split; by apply IH.
Qed.

Lemma wpr_after {A} (p : prog broker A) s : safe s p → wpr Inv P p s (λ _ s', P s s').
Proof.
  intros Hp. eapply wpr_conseq; [apply (wpr_frame _ _ P_refl P_trans), Hp|]. by intros ?? [].
Qed.

Lemma safe_deliveryCount i s : wpr Inv P (deliveryCount i) s (λ _ s', P s s').
Proof.
  apply wpr_after. intros s' HP HI. cbn. pose proof (P_refl s'). by split_and!.
Qed.

Lemma safe_ack i f s : log s !! i = Some f → settled i f s →
  wpr Inv P (write (XAck i);; mret tt) s (λ _ _, True).
Proof.
  intros Hf Hs. apply wpr_seq; [|done]. apply wpr_cmd. intros s' HP HI. cbn.
  split_and!; try done; apply (XAck_keeps i f s' HI); solve [by eapply log_stable|by eapply settled_stable].
Qed.

Lemma safe_toDLQ i b e f s : log s !! i = Some f → readPayload f = Some b → safe s (toDLQ i b e).
Proof.
  intros Hf Hb. unfold toDLQ. apply wpr_bind, wpr_cmd. intros s' HP HI. cbn [fst snd].
  set (s'' := set_dlq _ s'). assert (HP' : P s' s'').
  { split_and!; [apply evolves_refl|done|by eexists|cbn; lia]. }
  split_and!; [by apply (Inv_kept s'); [| apply HI| | |]|done| |done|done].
  apply (safe_ack i f); [by eapply log_stable, log_stable|]. right. exists b. split; [done|].
  right. exists e, (length (dlq s')). split; [by apply list_lookup_middle|left]. apply HI.
Qed.

Lemma safe_processMessage w m s : w ∈ workers → log s !! m.1 = Some m.2 →
  safe s (processMessage w m).
Proof.
  intros Hw Hm. unfold processMessage. destruct (readPayload m.2) as [b|] eqn:Hb.
  2: { apply (safe_ack m.1 m.2); [done|]. by left. }
  apply wpr_bind. eapply wpr_conseq.
  { rewrite same_handler by done. apply (wpr_frame _ _ P_refl P_trans), wpr_lift, handler_spec. }
  intros r s' [HP Hr]. pose proof (log_stable _ _ _ _ HP Hm).
  destruct r as [| |e]; cbv beta iota; [|done|].
  - apply (safe_ack m.1 m.2); [done|]. right. exists b. split; [done|]. left. by apply Hr.
  - apply wpr_bind. eapply wpr_conseq; [apply safe_deliveryCount|]. intros [n|] s'' HP'; [|done]. cbv beta iota.
    destruct (_ <=? n)%Z; [|done]. apply (safe_toDLQ m.1 b _ m.2); [|done].
    by eapply log_stable.
Qed.

Lemma safe_messages w ms s : w ∈ workers →
  (∀ m : message (B := B), m ∈ ms → log s !! m.1 = Some m.2) → safe s (each (processMessage w) ms).
Proof.
  intros Hw Hms. eapply wpr_conseq; [apply (wpr_each _ _ P_refl P_trans)|done].
  intros m s' Hm HP. apply wpr_after, safe_processMessage; [done|]. by eapply log_stable, Hms.
Qed.

Lemma safe_consumeRound w s : w ∈ workers → safe s (consumeRound w).
Proof.
  intros Hw. apply wpr_bind, wpr_cmd. intros s' HP HI.
  destruct (XReadGroup_keeps (consumer_name w) (batch w) s' HI) as [H1 H2].
  split_and!; [apply H1..| |done|done]. apply safe_messages; [done|].
  intros m Hm. apply (log_stable _ _ s'); [apply H1|by apply H2].
Qed.

Lemma safe_claimRound w n s : w ∈ workers → safe s (claimRound w n).
Proof.
  intros Hw. apply wpr_bind, wpr_cmd. intros s' HP HI.
  destruct (XAutoClaim_keeps (consumer_name w) (claimMinIdle w) n (batch w) s' HI) as [H1 H2].
  split_and!; [apply H1..| |done|done].
  destruct (XAutoClaim _ _ _ _ s') as [[ms next] s''] eqn:E. cbn [fst snd] in *.
  apply wpr_seq; [|done]. apply safe_messages; [done|].
  intros m Hm. apply (log_stable _ _ s'); [apply H1|by apply H2].
Qed.

Lemma safe_call c s : safe s (body workers c).
Proof.
  destruct c as [i|i|i n|b]; cbn [body]; unfold ignore.
  - apply wpr_seq; [|done]. apply wpr_seq; [|done]. apply wpr_cmd. intros s' HP HI.
    pose proof HI as (_ & Hdl & delivered & pel & E & _). unfold XGroupCreate. rewrite E. cbn.
    split_and!; try done; apply P_refl.
  - destruct (workers !! i) eqn:E; [|done]. apply safe_consumeRound. by eapply list_elem_of_lookup_2.
  - destruct (workers !! i) eqn:E; [|done]. apply wpr_seq; [|done].
    apply safe_claimRound. by eapply list_elem_of_lookup_2.
  - apply wpr_seq; [|done]. apply wpr_cmd. intros s' HP HI. cbn [fst snd].
    set (s'' := set_log _ s'). assert (HP' : P s' s'').
    { apply P_intro; [apply evolves_refl|by eexists|done..]. }
    split_and!; [|done..]. by apply (Inv_kept s'); [|apply HI| | |].
Qed.

Lemma Inv_happen e s : (∀ f, e = Change f → ∀ d, ID d → ID (f d) ∧ PD d (f d)) →
  Inv s → Inv (happen e s) ∧ P s (happen e s).
Proof.
  intros He HI. pose proof HI as [HD _].
  assert (HP : P s (happen e s)).
  { destruct e as [d|n|f|f| |n]; [apply P_intro; cbn; try done; try apply evolves_refl..| |].
    - by eexists.
    - by eapply He.
    - split_and!; [apply evolves_refl|done|by eexists|cbn; lia].
    - split_and!; [apply evolves_refl|done..|cbn; lia]. }
  split; [|done]. apply (Inv_kept s); try done; destruct e as [d|n|f|f| |n]; cbn; try done.
  - by eapply He.
  - lia.
Qed.
End NoLoss.

(** ** What a group can rely on *)

Section Reliable.
Context {B D : Type} (h : B → prog D outcome) `{!Consumer h} (workers : list (Worker B D)).

(** The invariant holds along every run from a group that has just been created. *)
Lemma run_group (s0 : broker B D) (ls : list (label (call B) (happening B D))) :
  (∀ w, w ∈ workers → handler w = h) →
  sound (h := h) (store s0) → group s0 = Some (length (log s0), ∅) → dlq_trimmed s0 ≤ length (dlq s0) →
  (∀ f, Event (Change f) ∈ ls → ∀ d, sound (h := h) d → sound (h := h) (f d) ∧ evolves (h := h) d (f d)) →
  Inv h (length (log s0)) (run workers ls (s0, [])).1.
Proof.
  intros Hh HD Hg Hd Hc.
  apply (run_rely (Inv h (length (log s0))) (P h) (P_refl h) (P_trans h) (body workers) happen ls (s0, [])).
  - intros e s' He HI. apply Inv_happen; [|done]. intros f ->. by apply Hc.
  - intros c s' _ _. by apply safe_call.
  - split_and!; [done..|]. exists (length (log s0)), ∅. split; [done|]. split; [done|]. intros i f Hi. lia.
  - by apply Forall_nil_2.
Qed.

(** C21 After a group has been created, through any number of rounds of any number of
    its workers, whichever commands and handlers fail, lose their replies or overlap,
    and however the stream is trimmed: every message published since is no longer in
    the stream, still to be delivered, pending, without a payload, settled by the
    handler, or was added to the dead letter stream: there it stays, unless at least 10,000
    later dead letters, which the groups of the stream share, have pushed it out. *)
Theorem no_message_lost (s0 : broker B D) (ls : list (label (call B) (happening B D))) :
  (∀ w, w ∈ workers → handler w = h) →
  sound (h := h) (store s0) → group s0 = Some (length (log s0), ∅) → dlq_trimmed s0 ≤ length (dlq s0) →
  (∀ f, Event (Change f) ∈ ls → ∀ d, sound (h := h) d → sound (h := h) (f d) ∧ evolves (h := h) d (f d)) →
  let s := (run workers ls (s0, [])).1 in
  ∃ delivered pel, group s = Some (delivered, pel) ∧
    ∀ i f, length (log s0) ≤ i → log s !! i = Some f →
      i < trimmed s ∨ delivered ≤ i ∨ is_Some (pel !! i) ∨ readPayload f = None ∨
      ∃ b, readPayload f = Some b ∧
        (Settled (h := h) b (store s) ∨
         ∃ e j, dlq s !! j = Some (Some (mkDead b i e)) ∧
           (dlq_trimmed s ≤ j ∨ defaultMaxLen ≤ length (dlq s) - S j)).
Proof.
  intros Hh HD Hg Hd Hc s.
  destruct (run_group s0 ls Hh HD Hg Hd Hc) as (_ & Hdl & delivered & pel & E & Hlen & Hacc).
  exists delivered, pel. split; [done|]. intros i f Hi Hf.
  destruct (decide (delivered ≤ i)); [by right; left|].
  destruct (Hacc i f ltac:(lia) Hf) as [?|[?|[?|(b & Hb & Hs)]]]; eauto 8.
Qed.
End Reliable.

(** ** A handler that is not ready yet *)

(** It answers [ErrSkipAck] until it has been called four times, and then fails once. *)
Definition hesitant (b : string) : prog nat outcome :=
  n ← local 0 (λ n, (n, S n));
  mret (if n <? 4 then ErrSkipAck else Failed (Plain "transient")).

Definition shy : Worker string nat := NewWorker "worker" hesitant.

Definition start : broker string nat := mkBroker 0 [] 0 (Some (0, ∅)) [] 0 0.

Definition round (c : call string) (i : nat) : list (label (call string) (happening string nat)) :=
  Spawn c :: replicate 10 (Run i).

Definition attempts (n : nat) : list (label (call string) (happening string nat)) :=
  round (Call_publish "event") 0 ++ round (Call_consume 0) 1 ++
  flat_map (λ i, Event (Wait defaultClaimMinIdle) :: round (Call_claim 0 0) (2 + i)) (seq 0 n).

(** Redis counts every delivery: answers of [ErrSkipAck] do use up the retry budget. The
    message is given up at the first failure. *)
Theorem skipped_attempts_count :
  dlq (run [shy] (attempts 3) (start, [])).1 = [] ∧
  dlq (run [shy] (attempts 4) (start, [])).1 = [Some (mkDead "event" 0 (Plain "transient"))].
Proof. vm_compute. by split. Qed.
