(* ===== verification/Rating.v ===== *)
(** The rating engine (shared/domain/rating): a multi-team Elo with a dynamic K factor,
    in binary64 arithmetic. Players are shared by pointers: [heap] is the store of the
    players, and a player that is in two teams is updated twice. *)
From S2P Require Import Prelude Json Float64 Backend.
From Stdlib Require Import Floats.SpecFloat.
Import Float64.

(** [math.Pow], of which the code relies on the documented special case. *)
Class MathPow := {
  math_Pow : f64 → f64 → f64;
  math_Pow_zero x s : math_Pow x (S754_zero s) = f_of_Z 1
}.

Module Rating.

(** [math.Min], with its special cases. *)
Definition math_Min (x y : f64) : f64 :=
  match x, y with
  | S754_infinity true, _ | _, S754_infinity true => S754_infinity true
  | S754_nan, _ | _, S754_nan => S754_nan
  | S754_zero s, S754_zero s' => if s then x else y
  | _, _ => if flt x y then x else y
  end.

Definition Sigmoid `{MathPow} (diff scale : f64) : f64 :=
  fdiv (f_of_Z 1) (fadd (f_of_Z 1) (math_Pow (f_of_Z 10) (fdiv (SFopp diff) scale))).

Definition Clamp (v lo hi : f64) : f64 := if flt v lo then lo else if flt hi v then hi else v.

(** ** Data *)

Record Player := mkPlayer {
  ID : string; MMR : f64; DisplayRating : f64;
  GamesPlayed : Z; WinStreak : Z; LossStreak : Z
}.

Definition DefaultMMR : f64 := f_of_Z 1500.

Definition NewPlayer (id : string) : Player := mkPlayer id DefaultMMR DefaultMMR 0 0 0.

(** A pointer to a player, and what the pointers point to; no pointer is [nil] unless
    it points to nothing. *)
Abbreviation pointer := string.
Abbreviation heap := (gmap pointer Player).

Definition Team : Type := list pointer.

Record Placement := mkPlacement { Placement_Team : Team; Rank : Z }.
Definition MatchResult : Type := list Placement.

Record Config := mkConfig {
  Cfg_DefaultMMR : f64; EloScale : f64; KMax : f64; KMin : f64; KDefault : f64;
  CalibrationGames : Z; VeteranGames : Z; StreakThreshold : Z;
  StreakMultiplierMax : f64; DisplayConvergenceRate : f64
}.

Definition DefaultConfig : Config :=
  mkConfig DefaultMMR (f_of_Z 400) (f_of_Z 48) (f_of_Z 10) (f_of_Z 24) 30 200 3 (f_dec 15 1) (f_dec 15 2).

Inductive rating_error : Type :=
  | TooFewTeams (n : nat)
  | BadRank (i : nat) (rank : Z)
  | EmptyTeam (i : nat)
  | NilPointer.

Definition deref (h : heap) (p : pointer) : result rating_error Player :=
  match h !! p with Some x => Ok x | None => Err NilPointer end.

(** The arithmetic mean of a rating of the members. *)
Fixpoint total (rating : Player → f64) (h : heap) (t : Team) (sum : f64) : result rating_error f64 :=
  match t with
  | [] => Ok sum
  | p :: t => x ← deref h p; total rating h t (fadd sum (rating x))
  end.

Definition EffectiveMMR (h : heap) (t : Team) : result rating_error f64 :=
  match t with
  | [] => Ok (f_of_Z 0)
  | _ => sum ← total MMR h t (f_of_Z 0); Ok (fdiv sum (f_of_Z (Z.of_nat (length t))))
  end.

Definition EffectiveDisplayRating (h : heap) (t : Team) : result rating_error f64 :=
  match t with
  | [] => Ok (f_of_Z 0)
  | _ => sum ← total DisplayRating h t (f_of_Z 0); Ok (fdiv sum (f_of_Z (Z.of_nat (length t))))
  end.

Fixpoint totalGames (h : heap) (t : Team) : result rating_error Z :=
  match t with
  | [] => Ok 0%Z
  | p :: t => x ← deref h p; n ← totalGames h t; Ok (GamesPlayed x + n)%Z
  end.

Definition AverageGamesPlayed (h : heap) (t : Team) : result rating_error Z :=
  match t with
  | [] => Ok 0%Z
  | _ => n ← totalGames h t; Ok (Z.quot n (Z.of_nat (length t)))
  end.

Fixpoint validatePlacements (i : nat) (ps : list Placement) : result rating_error unit :=
  match ps with
  | [] => Ok tt
  | p :: ps =>
      if (Rank p <? 1)%Z then Err (BadRank i (Rank p))
      else if Placement_Team p is [] then Err (EmptyTeam i)
      else validatePlacements (S i) ps
  end.

Definition Validate (mr : MatchResult) : result rating_error unit :=
  if length mr <? 2 then Err (TooFewTeams (length mr)) else validatePlacements 0 mr.

(** ** The K factor *)

Definition DynamicK (cfg : Config) (p : Player) (surpriseFactor : f64) : f64 :=
  let kBase :=
    if (CalibrationGames cfg <? GamesPlayed p)%Z then
      let t := fdiv (f_of_Z (GamesPlayed p - CalibrationGames cfg))
                    (f_of_Z (VeteranGames cfg - CalibrationGames cfg)) in
      let t := Clamp t (f_of_Z 0) (f_of_Z 1) in
      fadd (KMin cfg) (fmul (fsub (KDefault cfg) (KMin cfg)) (fsub (f_of_Z 1) t))
    else KMax cfg in
  let streak := Z.max (WinStreak p) (LossStreak p) in
  let streakMul :=
    if (StreakThreshold cfg <=? streak)%Z then
      math_Min (StreakMultiplierMax cfg)
        (fadd (f_of_Z 1) (fmul (f_dec 1 1) (f_of_Z (streak - StreakThreshold cfg))))
    else f_of_Z 1 in
  let upsetMul := Clamp (fadd (f_of_Z 1) surpriseFactor) (f_of_Z 1) (f_of_Z 2) in
  fmul (fmul kBase streakMul) upsetMul.

(** ** The engine *)

Definition actualScore (rankA rankB : Z) : f64 :=
  if (rankA <? rankB)%Z then f_of_Z 1 else if (rankA =? rankB)%Z then f_dec 5 1 else f_of_Z 0.

Section Engine.
Context `{MathPow} (cfg : Config).

(** The inner loop: what team [i] gains against each other team. *)
Fixpoint opponents (h : heap) (i : nat) (a : Placement) (j : nat) (ps : list Placement) (sumDelta : f64)
    : result rating_error f64 :=
  match ps with
  | [] => Ok sumDelta
  | b :: ps =>
      if i =? j then opponents h i a (S j) ps sumDelta
      else
        mmrA ← EffectiveMMR h (Placement_Team a);
        mmrB ← EffectiveMMR h (Placement_Team b);
        let expected := Sigmoid (fsub mmrA mmrB) (EloScale cfg) in
        let actual := actualScore (Rank a) (Rank b) in
        opponents h i a (S j) ps (fadd sumDelta (fsub actual expected))
  end.

Definition teamDelta (h : heap) (mr : MatchResult) (i : nat) (a : Placement) : result rating_error f64 :=
  sumDelta ← opponents h i a 0 mr (f_of_Z 0);
  Ok (fdiv sumDelta (f_of_Z (Z.of_nat (length mr) - 1))).

Fixpoint teamDeltas (h : heap) (mr : MatchResult) (i : nat) (ps : list Placement)
    : result rating_error (list f64) :=
  match ps with
  | [] => Ok []
  | a :: ps => d ← teamDelta h mr i a; ds ← teamDeltas h mr (S i) ps; Ok (d :: ds)
  end.

(** A player after a match, and the change of the MMR. *)
Definition mmrChange (delta : f64) (p : Player) : f64 := fmul (DynamicK cfg p (SFabs delta)) delta.

Definition updatePlayer (delta : f64) (p : Player) : Player :=
  let mmr := fadd (MMR p) (mmrChange delta p) in
  let display := fadd (DisplayRating p) (fmul (DisplayConvergenceRate cfg) (fsub mmr (DisplayRating p))) in
  let '(win, loss) :=
    if flt (f_of_Z 0) delta then (WinStreak p + 1, 0)%Z
    else if flt delta (f_of_Z 0) then (0, LossStreak p + 1)%Z
    else (WinStreak p, LossStreak p) in
  mkPlayer (ID p) mmr display (GamesPlayed p + 1) win loss.

Fixpoint updateTeam (delta : f64) (t : Team) (h : heap) (deltas : gmap string f64)
    : result rating_error (heap * gmap string f64) :=
  match t with
  | [] => Ok (h, deltas)
  | p :: t =>
      x ← deref h p;
      updateTeam delta t (<[p := updatePlayer delta x]> h) (<[ID x := mmrChange delta x]> deltas)
  end.

Fixpoint updateTeams (ps : list Placement) (ds : list f64) (h : heap) (deltas : gmap string f64)
    : result rating_error (heap * gmap string f64) :=
  match ps, ds with
  | pl :: ps, d :: ds =>
      hd ← updateTeam d (Placement_Team pl) h deltas;
      updateTeams ps ds hd.1 hd.2
  | _, _ => Ok (h, deltas)
  end.

(** The players are updated in place: the new heap is part of the answer. *)
Definition ProcessMatch (mr : MatchResult) (h : heap) : result rating_error (gmap string f64 * heap) :=
  _ ← Validate mr;
  ds ← teamDeltas h mr 0 mr;
  hd ← updateTeams mr ds h ∅;
  Ok (hd.2, hd.1).

End Engine.
End Rating.
