(* ===== verification/RatingService.v ===== *)
(** The rating service (services/rating-service): the consumer of finished sessions,
    the update of the ratings of their players, its storage, and the HTTP and gRPC
    interface. *)
From stdpp Require Import strings.
From Stdlib Require Import Ascii.
From S2P Require Import Prelude Json Float64 Backend Store Programs Middleware Streams Rating.
From S2P Require Lobby Grpc.
Import Middleware Programs Float64 Rating Events.

Module RatingService.

(** ** Storage (internal/store/store.go, shared/db/migrations/003, 008) *)

Section Store.
Context `{U : UUID}.

(** A row of ratings.ratings; the key is the player and the game. *)
Record PlayerRating := mkPlayerRating {
  PR_MMR : f64; PR_DisplayRating : f64; PR_GamesPlayed : Z; PR_WinStreak : Z; PR_LossStreak : Z
}.

Record HistoryEntry := mkHistoryEntry {
  H_PlayerID : uuid; H_GameID : string; H_SessionID : uuid; H_ResultID : uuid;
  MMRBefore : f64; MMRAfter : f64; Delta : f64
}.

(** The tables, and the keys of the tables that they refer to. *)
Record RatingDB := mkRatingDB {
  ratings : gmap (uuid * string) PlayerRating;
  history : list HistoryEntry;
  known_players : gset uuid;
  known_results : gset uuid
}.

Definition ErrSessionAlreadyProcessed : error :=
  Sentinel "rating history already recorded for this session".

Definition default_rating : PlayerRating := mkPlayerRating DefaultMMR DefaultMMR 0 0 0.

Definition rating_of (d : RatingDB) (gameID : string) (id : uuid) : PlayerRating :=
  default default_rating (ratings d !! (id, gameID)).

(** Any error is answered with the default. *)
Definition GetRating (playerID : uuid) (gameID : string) : prog RatingDB PlayerRating :=
  r ← read (λ d, ratings d !! (playerID, gameID));
  mret (match r with Some (Some pr) => pr | _ => default_rating end).

Definition GetRatings (playerIDs : list uuid) (gameID : string)
    : prog RatingDB (option (gmap uuid PlayerRating)) :=
  let defaults := list_to_map ((λ id, (id, default_rating)) <$> playerIDs) : gmap uuid PlayerRating in
  if playerIDs is [] then mret (Some defaults)
  else read (λ d, list_to_map ((λ id, (id, rating_of d gameID id)) <$> playerIDs)).

(** What becomes of a transaction. *)
Inductive tx : Type :=
  | Committed (d : RatingDB)
  | Duplicate
  | Refused (what : string).

Fixpoint insertHistory (d : RatingDB) (hs : list HistoryEntry) : tx :=
  match hs with
  | [] => Committed d
  | h :: hs =>
      if existsb (λ h', bool_decide ((H_SessionID h', H_PlayerID h') = (H_SessionID h, H_PlayerID h)))
           (history d) then Duplicate
      else if negb (bool_decide (H_PlayerID h ∈ known_players d))
           || negb (bool_decide (H_ResultID h ∈ known_results d)) then Refused "foreign key"
      else insertHistory (mkRatingDB (ratings d) (history d ++ [h]) (known_players d) (known_results d)) hs
  end.

(** A column of type INT. *)
Definition int4 (n : Z) : bool := ((- 2 ^ 31 <=? n) && (n <? 2 ^ 31))%Z.

Fixpoint upsertAll (gameID : string) (d : RatingDB) (us : list (uuid * PlayerRating)) : tx :=
  match us with
  | [] => Committed d
  | (id, u) :: us =>
      if negb (int4 (PR_GamesPlayed u) && int4 (PR_WinStreak u) && int4 (PR_LossStreak u))
      then Refused "integer out of range"
      else if negb (bool_decide (id ∈ known_players d)) then Refused "foreign key"
      else upsertAll gameID
             (mkRatingDB (<[(id, gameID) := u]> (ratings d)) (history d) (known_players d) (known_results d)) us
  end.

(** One transaction: the store sees it as a whole or not at all. *)
Definition UpsertRatings (gameID : string) (updates : list (uuid * PlayerRating))
    (hist : list HistoryEntry) : prog RatingDB (result error unit) :=
  r ← cmd (λ d,
    match insertHistory d hist with
    | Committed d' =>
        match upsertAll gameID d' updates with
        | Committed d'' => (Ok tt, d'')
        | Duplicate => (Err ErrSessionAlreadyProcessed, d)
        | Refused what => (Err (Wrap "upsert rating" (Driver what)), d)
        end
    | Duplicate => (Err ErrSessionAlreadyProcessed, d)
    | Refused what => (Err (Wrap "insert history" (Driver what)), d)
    end);
  mret (match r with Some r => r | None => Err (Driver "connection") end).

(** ** The service (internal/service/service.go) *)

Definition outcomeToRank (outcome : string) : Z :=
  if decide (outcome = "win" ∨ outcome = "draw") then 1 else 2.

Fixpoint parseAll (ps : list SessionPlayer) : result error (list uuid) :=
  match ps with
  | [] => Ok []
  | sp :: ps =>
      match uuid_Parse (PlayerID sp) with
      | None => Err (Wrap "invalid player_id" (Plain "uuid"))
      | Some id => ids ← parseAll ps; Ok (id :: ids)
      end
  end.

(** The players as the engine knows them: the pointer to a player is the text of the
    id, as the map of the service has one pointer per id. *)
Definition ratingPlayers (rows : gmap uuid PlayerRating) (ids : list uuid) : heap :=
  list_to_map ((λ id,
    let row := default default_rating (rows !! id) in
    (uuid_String id, mkPlayer (uuid_String id) (PR_MMR row) (PR_DisplayRating row)
       (PR_GamesPlayed row) (PR_WinStreak row) (PR_LossStreak row))) <$> ids).

Definition placements (ids : list uuid) (ps : list SessionPlayer) : MatchResult :=
  zip_with (λ id sp, mkPlacement [uuid_String id] (outcomeToRank (Outcome sp))) ids ps.

Definition update_of (h : heap) (id : uuid) : uuid * PlayerRating :=
  let rp := default (NewPlayer "") (h !! uuid_String id) in
  (id, mkPlayerRating (MMR rp) (DisplayRating rp) (GamesPlayed rp) (WinStreak rp) (LossStreak rp)).

Definition history_of (gameID : string) (sessionID resultID : uuid) (rows : gmap uuid PlayerRating)
    (deltas : gmap string f64) (h : heap) (id : uuid) : HistoryEntry :=
  let rp := default (NewPlayer "") (h !! uuid_String id) in
  mkHistoryEntry id gameID sessionID resultID
    (PR_MMR (default default_rating (rows !! id))) (MMR rp)
    (default (f_of_Z 0) (deltas !! uuid_String id)).

Section Process.
Context `{MathPow} (cfg : Config).

Definition ProcessGameFinished (evt : GameSessionFinished) : prog RatingDB (result error unit) :=
  if decide (Mode evt ≠ "ranked") then mret (Ok tt)
  else if length (Players evt) <? 2 then mret (Ok tt)
  else
    match parseAll (Players evt) with
    | Err e => mret (Err e)
    | Ok playerIDs =>
        rows ← GetRatings playerIDs (GameID evt);
        match rows with
        | None => mret (Err (Wrap "load ratings" (Driver "connection")))
        | Some rows =>
            match ProcessMatch cfg (placements playerIDs (Players evt)) (ratingPlayers rows playerIDs) with
            | Err _ => mret (Err (Plain "invalid match result"))
            | Ok (deltas, h) =>
                match uuid_Parse (ResultID evt), uuid_Parse (SessionID evt) with
                | None, _ => mret (Err (Wrap "invalid result_id" (Plain "uuid")))
                | _, None => mret (Err (Wrap "invalid session_id" (Plain "uuid")))
                | Some resultID, Some sessionID =>
                    r ← UpsertRatings (GameID evt) (update_of h <$> playerIDs)
                          (history_of (GameID evt) sessionID resultID rows deltas h <$> playerIDs);
                    mret (match r with
                          | Ok _ => Ok tt
                          | Err e => if errors_Is e ErrSessionAlreadyProcessed then Ok tt
                                     else Err (Wrap "persist ratings" e)
                          end)
                end
            end
        end
    end.

(** The handler of the stream (internal/consumer/consumer.go). *)
Definition handle (payload : option GameSessionFinished) : prog RatingDB Streams.outcome :=
  match payload with
  | None => mret (Streams.Failed (Wrap "unmarshal GameSessionFinished" (Plain "json")))
  | Some evt =>
      r ← ProcessGameFinished evt;
      mret (match r with Ok _ => Streams.Done | Err e => Streams.Failed e end)
  end.

End Process.
(** ** The leaderboard (internal/store/store.go) *)

(** A row of the table of players, which the users' services own. *)
Record Identity := mkIdentity { Username : string; IsBot : bool; BotProfile : option string; Deleted : bool }.
Record LeaderboardRow := mkRow { R_PlayerID : uuid; R_Rating : PlayerRating; R_Identity : Identity }.

Section Interface.
Context `{TOK : !JWT} (players : gmap uuid Identity).

Definition eligible (gameID : string) (minGames : Z) (includeBots : bool)
    (k : uuid * string) (pr : PlayerRating) : option LeaderboardRow :=
  who ← players !! k.1;
  if bool_decide (k.2 = gameID) && (minGames <=? PR_GamesPlayed pr)%Z && negb (Deleted who)
     && (includeBots || negb (IsBot who))
  then Some (mkRow k.1 pr who) else None.

Definition leaders (gameID : string) (minGames : Z) (includeBots : bool) (d : RatingDB) : list LeaderboardRow :=
  omap (λ kv, eligible gameID minGames includeBots kv.1 kv.2) (map_to_list (ratings d)).

(** [ORDER BY display_rating DESC] *)
Definition higher (x y : LeaderboardRow) : Prop :=
  flt (PR_DisplayRating (R_Rating x)) (PR_DisplayRating (R_Rating y)) = false.
#[global] Instance higher_dec x y : Decision (higher x y).
Proof. unfold higher. apply _. Defined.

Definition GetLeaderboard (gameID : string) (limit offset minGames : Z) (includeBots : bool)
    : prog RatingDB (option (list LeaderboardRow)) :=
  read (λ d, page limit offset (merge_sort higher (leaders gameID minGames includeBots d))).
Definition CountLeaderboard (gameID : string) (minGames : Z) (includeBots : bool) : prog RatingDB (option nat) :=
  read (λ d, length (leaders gameID minGames includeBots d)).

(** ** HTTP (internal/handler/handler.go) *)

Definition defaultLeaderboardLimit : Z := 100.
Definition maxLeaderboardLimit : Z := 500.
Definition leaderboardMinGames : Z := 5.

(** [fmt.Sscanf(s, "%d")]: spaces, a sign and digits; what follows is not looked at. *)
Fixpoint skip_spaces (s : string) : string :=
  match s with
  | String c s' =>
      if decide (c = " "%char ∨ c = "009"%char ∨ c = "011"%char ∨ c = "012"%char ∨ c = "013"%char)
      then skip_spaces s' else s
  | EmptyString => s
  end.
Fixpoint digits_of (s : string) : string :=
  match s with
  | String c s' => if Lobby.Lobby.digit c is Some _ then String c (digits_of s') else EmptyString
  | EmptyString => EmptyString
  end.
Definition Sscanf_d (s : string) : option Z :=
  match skip_spaces s with
  | String "-" s' => Lobby.Lobby.Atoi (String "-" (digits_of s'))
  | String "+" s' => Lobby.Lobby.Atoi (String "+" (digits_of s'))
  | s' => Lobby.Lobby.Atoi (digits_of s')
  end.
Definition queryInt (s : string) (fallback : Z) : Z :=
  if decide (s = "") then fallback else default fallback (Sscanf_d s).

Record entry := mkEntry {
  Rank : Z; E_PlayerID : string; E_Username : string; E_IsBot : bool; E_BotProfile : option string;
  E_DisplayRating : f64; E_GamesPlayed : Z
}.
Definition entry_of (offset : Z) (i : nat) (row : LeaderboardRow) : entry :=
  mkEntry (offset + Z.of_nat i + 1) (uuid_String (R_PlayerID row)) (Username (R_Identity row))
    (IsBot (R_Identity row)) (BotProfile (R_Identity row)) (PR_DisplayRating (R_Rating row))
    (PR_GamesPlayed (R_Rating row)).

(** The rating of a player is shown without the MMR. *)
Inductive answer : Type :=
  | B_error (msg : string)
  | B_leaderboard (gameID : string) (entries : list entry) (total : nat)
  | B_rating (playerID gameID : string) (DisplayRating : f64) (GamesPlayed WinStreak LossStreak : Z).

Abbreviation handler := (prog RatingDB (response answer)).
Definition http_Error (msg : string) (status : Z) : handler := mret (mkResponse status (B_error msg)).

Definition handleLeaderboard (gameID limit offset include_bots : string) : handler :=
  if decide (gameID = "") then http_Error "game_id is required" StatusBadRequest
  else
    let limit := queryInt limit defaultLeaderboardLimit in
    if (limit <=? 0)%Z || (maxLeaderboardLimit <? limit)%Z
    then http_Error "limit must be between 1 and 500" StatusBadRequest
    else
      let offset := Z.max (queryInt offset 0) 0 in
      let includeBots := bool_decide (include_bots = "true") in
      rows ← GetLeaderboard gameID limit offset leaderboardMinGames includeBots;
      match rows with
      | None => http_Error "internal error" StatusInternalServerError
      | Some rows =>
          total ← CountLeaderboard gameID leaderboardMinGames includeBots;
          match total with
          | None => http_Error "internal error" StatusInternalServerError
          | Some total => mret (mkResponse StatusOK (B_leaderboard gameID (imap (entry_of offset) rows) total))
          end
      end.

Definition handlePlayerRating (rawID gameID : string) : handler :=
  match uuid_Parse rawID with
  | None => http_Error "invalid player id" StatusBadRequest
  | Some playerID =>
      if decide (gameID = "") then http_Error "game_id is required" StatusBadRequest
      else
        pr ← GetRating playerID gameID;
        mret (mkResponse StatusOK (B_rating (uuid_String playerID) gameID (PR_DisplayRating pr)
          (PR_GamesPlayed pr) (PR_WinStreak pr) (PR_LossStreak pr)))
  end.

Inductive route : Type :=
  | GetLeaderboard_ (gameID limit offset include_bots : string)
  | GetPlayerRating (playerID gameID : string).

Definition RegisterRoutes (t : route) : handler :=
  match t with
  | GetLeaderboard_ g l o b => handleLeaderboard g l o b
  | GetPlayerRating p g => handlePlayerRating p g
  end.
(** Both are behind the session cookie (cmd/server/main.go). *)
Definition NewRouter (secret : string) (cookie : option string) (t : route) : handler :=
  Require (M := prog RatingDB) B_error secret cookie (λ _, RegisterRoutes t).

(** ** gRPC (internal/grpc/handler.go) *)

Abbreviation rpc A := (prog RatingDB (result (Grpc.Grpc.code * string) A)).
Definition fail {A} (c : Grpc.Grpc.code) (msg : string) : rpc A := mret (Err (c, msg)).

(** The MMR is for the services. *)
Record GetRatingResponse := mkRatingResponse { G_PlayerId : string; G_GameId : string; G_Rating : PlayerRating }.
Definition toProto (playerID : uuid) (gameID : string) (pr : PlayerRating) : GetRatingResponse :=
  mkRatingResponse (uuid_String playerID) gameID pr.

Definition grpc_GetRating (PlayerId GameId : string) : rpc GetRatingResponse :=
  if decide (PlayerId = "") then fail Grpc.Grpc.InvalidArgument "player_id is required"
  else if decide (GameId = "") then fail Grpc.Grpc.InvalidArgument "game_id is required"
  else
    match uuid_Parse PlayerId with
    | None => fail Grpc.Grpc.InvalidArgument "invalid player_id"
    | Some p => pr ← GetRating p GameId; mret (Ok (toProto p GameId pr))
    end.

Definition grpc_GetRatings (PlayerIds : list string) (GameId : string) : rpc (list GetRatingResponse) :=
  if decide (PlayerIds = []) then fail Grpc.Grpc.InvalidArgument "player_ids must not be empty"
  else if decide (GameId = "") then fail Grpc.Grpc.InvalidArgument "game_id is required"
  else if 100 <? length PlayerIds then fail Grpc.Grpc.InvalidArgument "player_ids exceeds max batch size of 100"
  else
    match mapM uuid_Parse PlayerIds with
    | None => fail Grpc.Grpc.InvalidArgument "invalid player_id"
    | Some ids =>
        rows ← GetRatings ids GameId;
        match rows with
        | None => fail Grpc.Grpc.Internal "get ratings"
        | Some rows => mret (Ok ((λ id, toProto id GameId (default default_rating (rows !! id))) <$> ids))
        end
    end.

Definition grpc_GetLeaderboard (GameId : string) (Limit Offset : Z) : rpc (list entry * nat) :=
  if decide (GameId = "") then fail Grpc.Grpc.InvalidArgument "game_id is required"
  else
    let limit := if (Limit <=? 0)%Z then defaultLeaderboardLimit else Limit in
    if (maxLeaderboardLimit <? limit)%Z then fail Grpc.Grpc.InvalidArgument "limit exceeds maximum"
    else
      let offset := Z.max Offset 0 in
      rows ← GetLeaderboard GameId limit offset leaderboardMinGames false;
      match rows with
      | None => fail Grpc.Grpc.Internal "get leaderboard"
      | Some rows =>
          total ← CountLeaderboard GameId leaderboardMinGames false;
          match total with
          | None => fail Grpc.Grpc.Internal "count leaderboard"
          | Some total => mret (Ok (imap (entry_of offset) rows, total))
          end
      end.
End Interface.
End Store.
End RatingService.
