(* ===== verification/RatingSpec.v ===== *)
(** The rating engine updates every player of a match once, from the ratings before the
    match; and the tables of the rating service agree with the history of sessions,
    whatever is redelivered, fails or overlaps. *)
From S2P Require Import Prelude Json Float64 Backend Programs Streams StreamsSpec.
From S2P Require Import Store Rating RatingService.
From Stdlib Require Import Floats.SpecFloat.
Import Programs Float64 Events Rating RatingService.

Section Engine.
Context `{MathPow} (cfg : Config).

Lemma deref_ok (h : heap) p : is_Some (h !! p) → ∃ x, h !! p = Some x ∧ deref h p = Ok x.
Proof. intros [x Hx]. exists x. unfold deref. by rewrite Hx. Qed.

Lemma total_ok rating h t sum : (∀ p, p ∈ t → is_Some (h !! p)) → is_ok (total rating h t sum).
Proof.
  revert sum. induction t as [|p t IH]; intros sum Ht; [done|]. cbn [total].
  destruct (deref_ok h p) as (x & _ & ->); [apply Ht; by left|]. cbn. apply IH. intros q Hq. apply Ht. by right.
Qed.

Lemma EffectiveMMR_ok h t : (∀ p, p ∈ t → is_Some (h !! p)) → ∃ v, EffectiveMMR h t = Ok v.
Proof.
  intros Ht. pose proof (total_ok MMR h t (f_of_Z 0) Ht) as Hs. unfold EffectiveMMR.
  destruct t as [|p t]; [by eexists|]. destruct (total MMR h (p :: t) (f_of_Z 0)); [by eexists|done].
Qed.

(** The pointers of a match. *)
Definition members (ps : list Placement) : list pointer := ps ≫= Placement_Team.

Definition present (h : heap) (ps : list Placement) : Prop := ∀ p, p ∈ members ps → is_Some (h !! p).

Lemma present_team h ps pl : present h ps → pl ∈ ps → ∀ p, p ∈ Placement_Team pl → is_Some (h !! p).
Proof. intros Hh Hpl p Hp. apply Hh, list_elem_of_bind. eauto. Qed.

Lemma opponents_ok h i a j ps sum :
  (∀ p, p ∈ Placement_Team a → is_Some (h !! p)) → present h ps →
  ∃ v, opponents cfg h i a j ps sum = Ok v.
Proof.
  intros Ha. revert j sum. induction ps as [|b ps IH]; intros j sum Hps; [by eexists|]. cbn [opponents].
  assert (Hps' : present h ps). { intros p Hp. apply Hps. cbn. apply elem_of_app. by right. }
  destruct (i =? j); [by apply IH|].
  destruct (EffectiveMMR_ok h (Placement_Team a)) as [x ->]; [done|].
  destruct (EffectiveMMR_ok h (Placement_Team b)) as [y ->]; [|by apply IH].
  apply (present_team h (b :: ps)); [done|by left].
Qed.

Lemma teamDelta_ok h mr i a : present h mr → a ∈ mr → ∃ d, teamDelta cfg h mr i a = Ok d.
Proof.
  intros Hh Ha. unfold teamDelta. destruct (opponents_ok h i a 0 mr (f_of_Z 0)) as [v ->]; [|done|by eexists].
  by eapply present_team.
Qed.

Lemma teamDeltas_ok h mr i ps : present h mr → (∀ a, a ∈ ps → a ∈ mr) →
  ∃ ds, teamDeltas cfg h mr i ps = Ok ds ∧ length ds = length ps ∧
    ∀ k a d, ps !! k = Some a → ds !! k = Some d → teamDelta cfg h mr (i + k) a = Ok d.
Proof.
  intros Hh. revert i. induction ps as [|a ps IH]; intros i Hps; [by exists []|]. cbn [teamDeltas].
  destruct (teamDelta_ok h mr i a) as [d Hd]; [done|apply Hps; by left|]. rewrite Hd. cbn.
  destruct (IH (S i)) as (ds & -> & Hl & Hds); [intros; apply Hps; by right|].
  exists (d :: ds). split; [done|]. cbn. split; [by rewrite Hl|]. intros [|k] b e; cbn.
  - intros [= <-] [= <-]. by rewrite Nat.add_0_r.
  - intros H1 H2. replace (i + S k) with (S i + k) by lia. by apply Hds.
Qed.

(** Different pointers point to players with different ids. *)
Definition ids_differ (h : heap) : Prop :=
  ∀ p q x y, h !! p = Some x → h !! q = Some y → ID x = ID y → p = q.

Lemma ID_updatePlayer d x : ID (updatePlayer cfg d x) = ID x.
Proof. unfold updatePlayer. by destruct (flt (f_of_Z 0) d), (flt d (f_of_Z 0)). Qed.

Lemma ids_differ_update h p d x : h !! p = Some x → ids_differ h → ids_differ (<[p := updatePlayer cfg d x]> h).
Proof.
  intros Hx Hh q r y z. rewrite !lookup_insert_Some.
  intros [[<- <-]|[Hq Hy]] [[<- <-]|[Hr Hz]]; rewrite ?ID_updatePlayer; [done| | |by apply Hh];
    intros E; [by eapply Hh|by eapply Hh].
Qed.

Lemma updateTeam_spec d t h ds : NoDup t → (∀ p, p ∈ t → is_Some (h !! p)) → ids_differ h →
  ∃ h' ds', updateTeam cfg d t h ds = Ok (h', ds') ∧ ids_differ h' ∧
    (∀ p, p ∉ t → h' !! p = h !! p) ∧
    (∀ p x, p ∈ t → h !! p = Some x →
       h' !! p = Some (updatePlayer cfg d x) ∧ ds' !! ID x = Some (mmrChange cfg d x)) ∧
    (∀ k, (∀ p x, p ∈ t → h !! p = Some x → ID x ≠ k) → ds' !! k = ds !! k).
Proof.
  revert h ds. induction t as [|p t IH]; intros h ds Hnd Ht Hid.
  { exists h, ds. split_and!; try done. by intros ?? []%not_elem_of_nil. }
  apply NoDup_cons in Hnd as [Hp Hnd]. cbn [updateTeam].
  destruct (deref_ok h p) as (x & Hx & ->); [apply Ht; by left|]. cbn [mbind result_bind].
  destruct (IH (<[p := updatePlayer cfg d x]> h) (<[ID x := mmrChange cfg d x]> ds)) as (h' & ds' & E & Hid' & Hout & Hin & Hds).
  { done. }
  { intros q Hq. rewrite lookup_insert_is_Some'. right. apply Ht. by right. }
  { by apply ids_differ_update. }
  assert (Hold : ∀ q y, q ∈ t → h !! q = Some y → <[p := updatePlayer cfg d x]> h !! q = Some y).
  { intros q y Hq Hy. rewrite lookup_insert_ne; [done|]. by intros <-. }
  assert (Hnew : ∀ q y, q ∈ t → <[p := updatePlayer cfg d x]> h !! q = Some y → h !! q = Some y).
  { intros q y Hq. rewrite lookup_insert_ne; [done|]. by intros <-. }
  exists h', ds'. rewrite E. split_and!; [done|done|..].
  - intros q [Hq1 Hq2]%not_elem_of_cons. rewrite Hout by done. by rewrite lookup_insert_ne.
  - intros q y [->|Hq]%elem_of_cons Hy.
    + assert (y = x) as -> by congruence. split.
      * rewrite Hout by done. apply lookup_insert_eq.
      * rewrite Hds; [apply lookup_insert_eq|]. intros q z Hq Hz Hzx. apply Hp.
        rewrite (Hid p q x z); [done..|by apply Hnew|done].
    + by apply Hin; [|apply Hold].
  - intros k Hk. rewrite Hds.
    + rewrite lookup_insert_ne; [done|]. apply (Hk p x); [by left|done].
    + intros q y Hq Hy. apply (Hk q y); [by right|by apply Hnew].
Qed.

(** What a match does to the players of the placements [ps], whose teams gain [ds]. *)
Definition applied (ps : list Placement) (ds : list f64) (h h' : heap) (deltas : gmap string f64) : Prop :=
  (∀ p, p ∉ members ps → h' !! p = h !! p) ∧
  ∀ k pl d p x, ps !! k = Some pl → ds !! k = Some d → p ∈ Placement_Team pl → h !! p = Some x →
    h' !! p = Some (updatePlayer cfg d x) ∧ deltas !! ID x = Some (mmrChange cfg d x).

Lemma updateTeams_spec ps ds h deltas : length ds = length ps → NoDup (members ps) → present h ps → ids_differ h →
  ∃ h' deltas', updateTeams cfg ps ds h deltas = Ok (h', deltas') ∧ applied ps ds h h' deltas' ∧
    (∀ k, (∀ p x, p ∈ members ps → h !! p = Some x → ID x ≠ k) → deltas' !! k = deltas !! k).
Proof.
  revert ds h deltas. induction ps as [|pl ps IH]; intros [|d ds] h deltas Hl Hnd Hps Hid; try done.
  { exists h, deltas. split_and!; try done. }
  cbn [updateTeams]. apply NoDup_app in Hnd as (Hnd1 & Hdisj & Hnd2).
  destruct (updateTeam_spec d (Placement_Team pl) h deltas) as (h1 & ds1 & E & Hid1 & Hout & Hin & Hds);
    [done|apply (present_team h (pl :: ps)); [done|by left]|done|].
  rewrite E. cbn [mbind result_bind fst snd].
  assert (Hkeep : ∀ p, p ∈ members ps → h1 !! p = h !! p).
  { intros p Hp. apply Hout. intros Hp'. by apply (Hdisj p). }
  destruct (IH ds h1 ds1) as (h2 & ds2 & E2 & [Hout2 Hin2] & Hds2); [by injection Hl|done| |done|].
  { intros p Hp. rewrite Hkeep by done. apply Hps. cbn. apply elem_of_app. by right. }
  assert (Hsplit : ∀ p, p ∈ members (pl :: ps) ↔ p ∈ Placement_Team pl ∨ p ∈ members ps).
  { intros p. cbn. by rewrite elem_of_app. }
  exists h2, ds2. split_and!; [done| |].
  - split.
    + intros p Hp. rewrite Hsplit in Hp. rewrite Hout2, Hout; [done|tauto..].
    + intros [|k] pl' d' p x; cbn.
      * intros [= <-] [= <-] Hp Hx. destruct (Hin p x Hp Hx) as [H1 H2]. split.
        -- rewrite Hout2; [done|]. by apply Hdisj.
        -- rewrite Hds2; [done|]. intros q y Hq Hy Hyx. apply (Hdisj p Hp).
           rewrite Hkeep in Hy by done. by rewrite (Hid p q x y).
      * intros Hpl Hd Hp Hx. apply (Hin2 k pl' d' p x); [done..|]. rewrite Hkeep; [done|].
        apply list_elem_of_bind. exists pl'. split; [done|]. by eapply list_elem_of_lookup_2.
  - intros k Hk. rewrite Hds2, Hds; [done| |].
    + intros p x Hp. apply Hk. rewrite Hsplit. by left.
    + intros p x Hp Hx. apply (Hk p); [rewrite Hsplit; by right|]. by rewrite <- Hkeep.
Qed.

(** C22 For players that are given once each, [ProcessMatch] never panics and fails
    exactly when the result does not validate. It updates every player of the match
    once, by the delta of the player's team, which is computed for all teams from the
    ratings before the match; it reports the change of every MMR and touches no one
    else. *)
Theorem ProcessMatch_spec (mr : MatchResult) (h : heap) :
  NoDup (members mr) → present h mr → ids_differ h →
  match ProcessMatch cfg mr h with
  | Err e => Validate mr = Err e
  | Ok (deltas, h') =>
      Validate mr = Ok tt ∧ (∀ p, p ∉ members mr → h' !! p = h !! p) ∧
      ∀ k pl, mr !! k = Some pl → ∃ d, teamDelta cfg h mr k pl = Ok d ∧
        ∀ p x, p ∈ Placement_Team pl → h !! p = Some x →
          h' !! p = Some (updatePlayer cfg d x) ∧ deltas !! ID x = Some (mmrChange cfg d x)
  end.
Proof.
  intros Hnd Hh Hid. unfold ProcessMatch. destruct (Validate mr) as [[]|e]; [|done]. cbn [mbind result_bind].
  destruct (teamDeltas_ok h mr 0 mr Hh) as (ds & -> & Hl & Hds); [done|]. cbn [mbind result_bind].
  destruct (updateTeams_spec mr ds h ∅ Hl Hnd Hh Hid) as (h' & deltas & -> & [Hout Hin] & _). cbn.
  split_and!; [done..|]. intros k pl Hpl. destruct (lookup_lt_is_Some_2 ds k) as [d Hd].
  { rewrite Hl. by eapply lookup_lt_Some. }
  exists d. split; [by apply (Hds k)|]. intros p x. by apply (Hin k pl d).
Qed.
End Engine.

(** ** The tables of the service *)

Section Tables.
Context `{U : UUID} `{MathPow} (cfg : Config).

Definition key (e : HistoryEntry) : uuid * uuid := (H_SessionID e, H_PlayerID e).

Definition about (p : uuid) (g : string) (hs : list HistoryEntry) : list HistoryEntry :=
  filter (λ e, H_PlayerID e = p ∧ H_GameID e = g) hs.

(** A player's rating is the one after the last session on record, and counts at most
    the sessions on record; there is one record per session and player. *)
Definition ratings_sound (d : RatingDB) : Prop :=
  NoDup (key <$> history d) ∧
  (∀ p g row, ratings d !! (p, g) = Some row →
     ∃ e, last (about p g (history d)) = Some e ∧ MMRAfter e = PR_MMR row ∧
       (1 ≤ PR_GamesPlayed row ≤ Z.of_nat (length (about p g (history d))))%Z) ∧
  ∀ e, e ∈ history d → is_Some (ratings d !! (H_PlayerID e, H_GameID e)).

Definition ratings_evolve (d d' : RatingDB) : Prop :=
  history d `prefix_of` history d' ∧ known_players d ⊆ known_players d' ∧ known_results d ⊆ known_results d'.

(** An event needs nothing more: it is none for the ratings, names a player twice, or
    its session is on record for one of its players. *)
Definition ratings_settled (payload : option GameSessionFinished) (d : RatingDB) : Prop :=
  match payload with
  | None => False
  | Some evt =>
      Mode evt ≠ "ranked" ∨ length (Players evt) < 2 ∨
      ∃ ids, parseAll (Players evt) = Ok ids ∧
        (¬ NoDup ids ∨ ∃ sid e, uuid_Parse (SessionID evt) = Some sid ∧ e ∈ history d ∧
           H_SessionID e = sid ∧ H_PlayerID e ∈ ids)
  end.

Lemma insertHistory_committed d hs d' : insertHistory d hs = Committed d' →
  d' = mkRatingDB (ratings d) (history d ++ hs) (known_players d) (known_results d) ∧
  (NoDup (key <$> history d) → NoDup (key <$> history d ++ hs)).
Proof.
  revert d. induction hs as [|h hs IH]; intros d; cbn [insertHistory].
  { intros [= <-]. rewrite app_nil_r. by destruct d. }
  destruct (existsb _ (history d)) eqn:E; [done|]. destruct (_ || _); [done|].
  intros Hi. apply IH in Hi as [-> Hn]. cbn in *. rewrite <- app_assoc in *. split; [done|].
  intros Hd. apply Hn. rewrite fmap_app. apply NoDup_app. split_and!; [done| |apply NoDup_singleton].
  intros k Hk ->%list_elem_of_singleton. apply list_elem_of_fmap in Hk as (e & Hk & He).
  apply not_true_iff_false in E. apply E. apply existsb_exists. exists e.
  split; [by apply list_elem_of_In|]. apply bool_decide_eq_true. symmetry. exact Hk.
Qed.

Lemma insertHistory_duplicate d hs : insertHistory d hs = Duplicate →
  ¬ NoDup (key <$> hs) ∨ ∃ e h, e ∈ history d ∧ h ∈ hs ∧ key e = key h.
Proof.
  revert d. induction hs as [|h hs IH]; intros d; cbn [insertHistory]; [done|].
  destruct (existsb _ (history d)) eqn:E.
  { intros _. right. apply existsb_exists in E as (e & He & Hk%bool_decide_eq_true).
    exists e, h. apply list_elem_of_In in He. split_and!; [done|by left|done]. }
  destruct (_ || _); [done|]. intros Hi. apply IH in Hi as [Hn|(e & h' & He & Hh & Hk)].
  - left. intros [_ ?]%NoDup_cons. done.
  - cbn in He. apply elem_of_app in He as [He| ->%list_elem_of_singleton].
    + right. exists e, h'. split_and!; [done|by right|done].
    + left. intros [Hn _]%NoDup_cons. apply Hn. rewrite Hk. by apply list_elem_of_fmap_2.
Qed.

Lemma upsertAll_committed g d us d' : NoDup us.*1 → upsertAll g d us = Committed d' →
  history d' = history d ∧ known_players d' = known_players d ∧ known_results d' = known_results d ∧
  (∀ p u, (p, u) ∈ us → ratings d' !! (p, g) = Some u) ∧
  (∀ p g', g' ≠ g ∨ p ∉ us.*1 → ratings d' !! (p, g') = ratings d !! (p, g')).
Proof.
  revert d. induction us as [|[id u] us IH]; intros d Hnd; cbn [upsertAll].
  { intros [= <-]. split_and!; try done. by intros ?? []%not_elem_of_nil. }
  destruct (negb _); [done|]. destruct (negb _); [done|]. apply NoDup_cons in Hnd as [Hid Hnd].
  intros (Hh & Hp & Hr & Hin & Hout)%IH; [|done]. split_and!; [done..| |].
  - intros p v [E|Hpv]%elem_of_cons; [injection E as -> ->|by apply Hin].
    rewrite Hout by by right. apply lookup_insert_eq.
  - intros p g' Hne. cbn in Hne. rewrite Hout by set_solver. cbn. rewrite lookup_insert_ne; [done|].
    intros [= -> ->]. destruct Hne; [done|set_solver].
Qed.

Lemma upsertAll_not_duplicate g d us : upsertAll g d us ≠ Duplicate.
Proof.
  revert d. induction us as [|[id u] us IH]; intros d; cbn [upsertAll]; [done|].
  destruct (negb _); [done|]. destruct (negb _); [done|apply IH].
Qed.

(** Recording one session for each of the players [ids], with updates that agree. *)
Lemma record_sound g d ids (upd : uuid → PlayerRating) (his : uuid → HistoryEntry) d1 d2 :
  ratings_sound d → NoDup ids →
  (∀ id, id ∈ ids → H_PlayerID (his id) = id ∧ H_GameID (his id) = g ∧ MMRAfter (his id) = PR_MMR (upd id) ∧
     (1 ≤ PR_GamesPlayed (upd id) ≤ Z.of_nat (S (length (about id g (history d)))))%Z) →
  insertHistory d (his <$> ids) = Committed d1 →
  upsertAll g d1 ((λ id, (id, upd id)) <$> ids) = Committed d2 →
  ratings_sound d2 ∧ ratings_evolve d d2 ∧ ∀ id, id ∈ ids → his id ∈ history d2.
Proof.
  intros (Hnd & Hrow & Hrec) Hids Hhis Hi Hu.
  apply insertHistory_committed in Hi as [-> Hnd']. specialize (Hnd' Hnd).
  assert (Hfst : ((λ id, (id, upd id)) <$> ids).*1 = ids).
  { rewrite <- list_fmap_compose. apply list_fmap_id. }
  apply upsertAll_committed in Hu as (Hh & Hp & Hr & Hin & Hout); [|by rewrite Hfst].
  cbn in *. rewrite Hfst in Hout.
  assert (Hab : ∀ p g', about p g' (his <$> ids) = if decide (p ∈ ids ∧ g' = g) then [his p] else []).
  { intros p g'. clear -Hids Hhis. unfold about. induction ids as [|id ids IH]; [done|].
    apply NoDup_cons in Hids as [Hid Hids]. cbn [fmap list_fmap]. rewrite filter_cons.
    destruct (Hhis id) as (E1 & E2 & _); [by left|].
    specialize (IH Hids ltac:(intros; apply Hhis; by right)). rewrite IH.
    destruct (decide (p = id)) as [->|Hne].
    - rewrite (decide_False (P := id ∈ ids ∧ g' = g)) by tauto.
      destruct (decide (g' = g)) as [->|]; [rewrite !decide_True by (split; [done|set_solver] || (split; [set_solver|done])); done|].
      rewrite !decide_False; [done|tauto|intros []; congruence].
    - rewrite decide_False by (intros []; congruence).
      destruct (decide (p ∈ ids ∧ g' = g)) as [[? ?]|Hn].
      + rewrite decide_True; [done|]. split; [by right|done].
      + rewrite decide_False; [done|]. intros [[?|?]%elem_of_cons ?]; tauto. }
  unfold ratings_sound, ratings_evolve. rewrite Hh, Hp, Hr. split; [|split; [|]].
  - split; [done|split].
    + intros p g' row. unfold about. rewrite filter_app. fold (about p g' (history d)).
      fold (about p g' (his <$> ids)). rewrite Hab. destruct (decide (p ∈ ids ∧ g' = g)) as [[Hpi ->]|Hn].
      * rewrite (Hin p (upd p)) by (by apply (list_elem_of_fmap_2 (λ id, (id, upd id)))).
        intros [= <-]. destruct (Hhis p Hpi) as (_ & _ & Em & Hg). exists (his p).
        rewrite last_snoc, length_app. cbn. split_and!; [done..|lia|lia].
      * rewrite Hout by (destruct (decide (g' = g)); [right; tauto|by left]). rewrite app_nil_r. apply Hrow.
    + intros e. rewrite elem_of_app. intros [He|He].
      * destruct (decide (H_PlayerID e ∈ ids ∧ H_GameID e = g)) as [[Hi ->]|Hn].
        -- rewrite (Hin _ (upd (H_PlayerID e))) by (by apply (list_elem_of_fmap_2 (λ id, (id, upd id)))). by eexists.
        -- rewrite Hout by (destruct (decide (H_GameID e = g)); [right; tauto|by left]). by apply Hrec.
      * apply list_elem_of_fmap in He as (id & -> & Hi). destruct (Hhis id Hi) as (-> & -> & _).
        rewrite (Hin _ (upd id)) by (by apply (list_elem_of_fmap_2 (λ id, (id, upd id)))). by eexists.
  - split_and!; [by apply prefix_app_r|done..].
  - intros id Hi. rewrite elem_of_app. right. by apply list_elem_of_fmap_2.
Qed.

(** ** The handler *)

Lemma parseAll_length ps ids : parseAll ps = Ok ids → length ids = length ps.
Proof.
  revert ids. induction ps as [|sp ps IH]; intros ids; cbn [parseAll]; [by intros [= <-]|].
  destruct (uuid_Parse (PlayerID sp)); [|done]. destruct (parseAll ps) as [l|]; [|done].
  intros [= <-]. cbn. by rewrite (IH l).
Qed.

Lemma members_placements ids ps : length ids = length ps →
  members (placements ids ps) = uuid_String <$> ids.
Proof.
  revert ps. induction ids as [|id ids IH]; intros [|sp ps] Hl; try done.
  cbn. f_equal. apply IH. by injection Hl.
Qed.

Lemma ratingPlayers_lookup rows ids id : NoDup ids → id ∈ ids →
  ratingPlayers rows ids !! uuid_String id =
  Some (let row := default default_rating (rows !! id) in
        mkPlayer (uuid_String id) (PR_MMR row) (PR_DisplayRating row) (PR_GamesPlayed row)
          (PR_WinStreak row) (PR_LossStreak row)).
Proof.
  intros Hnd Hid. unfold ratingPlayers. apply elem_of_list_to_map.
  - rewrite <- list_fmap_compose. apply NoDup_fmap_2; [|done]. intros x y. apply uuid_String_inj.
  - apply list_elem_of_fmap. by exists id.
Qed.

Lemma ratingPlayers_Some rows ids p x : ratingPlayers rows ids !! p = Some x → ID x = p.
Proof.
  intros E%elem_of_list_to_map_2. apply list_elem_of_fmap in E as (id & E & _). by injection E as -> ->.
Qed.

Lemma processed_games ids ps rows deltas h id : NoDup ids → length ids = length ps → id ∈ ids →
  ProcessMatch cfg (placements ids ps) (ratingPlayers rows ids) = Ok (deltas, h) →
  ∃ x, h !! uuid_String id = Some x ∧
    GamesPlayed x = (PR_GamesPlayed (default default_rating (rows !! id)) + 1)%Z.
Proof.
  intros Hnd Hl Hid E.
  pose proof (ProcessMatch_spec cfg (placements ids ps) (ratingPlayers rows ids)) as Hs. rewrite E in Hs.
  destruct Hs as (_ & _ & Hs).
  - rewrite members_placements by done. apply NoDup_fmap_2; [|done]. intros x y. apply uuid_String_inj.
  - intros p. rewrite members_placements by done. intros (i & -> & Hi)%list_elem_of_fmap.
    rewrite ratingPlayers_lookup by done. by eexists.
  - intros p q x y <-%ratingPlayers_Some <-%ratingPlayers_Some. done.
  - apply list_elem_of_lookup in Hid as [k Hk].
    destruct (lookup_lt_is_Some_2 ps k) as [sp Hsp]; [rewrite <- Hl; by eapply lookup_lt_Some|].
    destruct (Hs k (mkPlacement [uuid_String id] (outcomeToRank (Outcome sp)))) as (d & _ & Hp).
    { apply lookup_zip_with_Some. by exists id, sp. }
    assert (Hin : id ∈ ids) by (by eapply list_elem_of_lookup_2).
    destruct (Hp (uuid_String id) _ ltac:(by left) (ratingPlayers_lookup rows ids id Hnd Hin)) as [Hx _].
    eexists. split; [exact Hx|]. unfold updatePlayer. by destruct (flt (f_of_Z 0) d), (flt d (f_of_Z 0)).
Qed.

Lemma about_prefix p g hs hs' : hs `prefix_of` hs' → length (about p g hs) ≤ length (about p g hs').
Proof. intros [l ->]. unfold about. rewrite filter_app, length_app. lia. Qed.

Lemma rating_of_games d g id : ratings_sound d →
  (0 ≤ PR_GamesPlayed (rating_of d g id) ≤ Z.of_nat (length (about id g (history d))))%Z.
Proof.
  intros (_ & Hrow & _). unfold rating_of. destruct (ratings d !! (id, g)) as [row|] eqn:E; cbn; [|lia].
  destruct (Hrow id g row E) as (_ & _ & _ & ?). lia.
Qed.

Lemma ratings_evolve_refl d : ratings_evolve d d.
Proof. by split_and!. Qed.

Lemma ratings_evolve_trans d d' d'' : ratings_evolve d d' → ratings_evolve d' d'' → ratings_evolve d d''.
Proof. intros (?&?&?) (?&?&?). split_and!; by etrans. Qed.

Lemma ratings_settled_stable b d d' : ratings_evolve d d' → ratings_settled b d → ratings_settled b d'.
Proof.
  intros ([l Hl] & _) Hs. destruct b as [evt|]; [|done].
  destruct Hs as [?|[?|(ids & Hp & Hs)]]; [by left|by right; left|]. right; right. exists ids.
  split; [done|]. destruct Hs as [?|(sid & e & ? & He & ? & ?)]; [by left|right].
  exists sid, e. split_and!; try done. rewrite Hl. apply elem_of_app. by left.
Qed.

(** A transaction that is not committed. *)
Definition processed (r : result error unit) : Prop :=
  match r with Ok _ => True | Err e => errors_Is e ErrSessionAlreadyProcessed end.

Ltac refused := cbn; done.

(** The commit of a match, of which the ratings have been read in [d0]. *)
Lemma UpsertRatings_safe evt ids sid rid deltas h d0 d : let g := GameID evt in
  let rows := list_to_map ((λ id, (id, rating_of d0 g id)) <$> ids) : gmap uuid PlayerRating in
  ratings_sound d0 → ratings_evolve d0 d → Mode evt = "ranked" →
  parseAll (Players evt) = Ok ids → uuid_Parse (SessionID evt) = Some sid →
  ProcessMatch cfg (placements ids (Players evt)) (ratingPlayers rows ids) = Ok (deltas, h) →
  wpr ratings_sound ratings_evolve
    (UpsertRatings g (update_of h <$> ids) (history_of g sid rid rows deltas h <$> ids)) d
    (λ r d', processed r → ratings_settled (Some evt) d').
Proof.
  intros g rows Hs0 H0 Hm Hp Hsid Hok. apply wpr_bind, wpr_cmd. intros s' HP HS.
  set (his := history_of g sid rid rows deltas h).
  assert (Hrefl := ratings_evolve_refl).
  destruct (insertHistory s' (his <$> ids)) as [d1| |what] eqn:Ei.
  - destruct (upsertAll g d1 (update_of h <$> ids)) as [d2| |what] eqn:Eu;
      [|by apply upsertAll_not_duplicate in Eu|].
    2: { split; [done|]. split; [refused|split; refused]. }
    assert (Hnd : NoDup ids).
    { apply insertHistory_committed in Ei as [_ Hn]. destruct HS as [HS _]. specialize (Hn HS).
      rewrite fmap_app in Hn. apply NoDup_app in Hn as (_ & _ & Hn). rewrite <- list_fmap_compose in Hn.
      by apply (NoDup_fmap_1 (λ id, (sid, id))). }
    destruct (record_sound g s' ids (λ id, (update_of h id).2) his d1 d2 HS Hnd) as (H1 & H2 & H3); [|exact Ei|exact Eu|].
    { intros id Hid. cbn. destruct (processed_games ids (Players evt) rows deltas h id) as (x & Hx & Hg);
        [done|by apply parseAll_length|done|done|]. rewrite Hx. cbn. split; [done|]. split; [done|]. split; [done|].
      pose proof (rating_of_games d0 g id Hs0) as Hb.
      assert (rows !! id = Some (rating_of d0 g id)) as Hrow.
      { apply elem_of_list_to_map; [|apply list_elem_of_fmap; by exists id].
        rewrite <- list_fmap_compose. by rewrite list_fmap_id. }
      rewrite Hrow in Hg. cbn in Hg.
      destruct H0 as [H0 _], HP as [HP _]. pose proof (about_prefix id g _ _ H0). pose proof (about_prefix id g _ _ HP).
      lia. }
    assert (Hset : ratings_settled (Some evt) d2).
    { right. destruct (decide (length (Players evt) < 2)) as [|Hlen]; [by left|right]. exists ids.
      split; [done|]. right. apply parseAll_length in Hp as Hl.
      destruct ids as [|id ids]; [cbn in Hl; lia|].
      exists sid, (his id). split_and!; [done|apply H3; by left|done|by left]. }
    split; [done|]. cbn. split; [done|]. by split.
  - split; [done|]. cbn [fst snd]. split; [|split; refused]. intros _. right. right. exists ids. split; [done|].
    apply insertHistory_duplicate in Ei as [Hn|(e & x & He & Hx & Hk)].
    + left. intros Hnd. apply Hn. rewrite <- list_fmap_compose.
      apply NoDup_fmap_2; [|done]. by intros ? ? [= ->].
    + right. apply list_elem_of_fmap in Hx as (id & -> & Hid). injection Hk as Hk1 Hk2.
      exists sid, e. split_and!; [done..|congruence].
  - split; [done|]. split; [refused|split; refused].
Qed.

Lemma ProcessGameFinished_safe evt d :
  wpr ratings_sound ratings_evolve (ProcessGameFinished cfg evt) d
    (λ r d', is_ok r → ratings_settled (Some evt) d').
Proof.
  unfold ProcessGameFinished. case_decide as Hm; [intros _; by left|].
  destruct (Nat.ltb_spec (length (Players evt)) 2) as [Hl|Hl]; [intros _; right; by left|].
  destruct (parseAll (Players evt)) as [ids|e] eqn:Hp; [|by cbn].
  apply wpr_bind. unfold GetRatings. destruct ids as [|id ids'] eqn:Hids.
  { apply parseAll_length in Hp. cbn in Hp. lia. }
  rewrite <- Hids in *. clear Hids id ids'.
  apply (wpr_read _ _ ratings_evolve_refl). intros d0 _ H0. split; [|by cbn]. cbv beta iota.
  set (rows := list_to_map _). destruct (ProcessMatch cfg _ _) as [[deltas h]|e] eqn:E; [|by cbn].
  destruct (uuid_Parse (ResultID evt)) as [rid|]; [|by cbn].
  destruct (uuid_Parse (SessionID evt)) as [sid|] eqn:Hsid; [|by cbn].
  apply wpr_bind. eapply wpr_conseq.
  { apply (UpsertRatings_safe evt ids sid rid deltas h d0 d0); done. }
  intros r d' Hr. cbn. destruct r as [[]|e]; [by intros _; apply Hr|].
  destruct (errors_Is e ErrSessionAlreadyProcessed) eqn:He; [|done]. intros _. apply Hr. cbn. by rewrite He.
Qed.

#[export] Instance rating_consumer : Streams.Consumer (handle cfg).
Proof.
  refine (Streams.Build_Consumer _ _ _ ratings_sound ratings_evolve ratings_settled ratings_evolve_refl
    ratings_evolve_trans ratings_settled_stable _).
  intros [evt|] d; [|by cbn]. apply wpr_bind. eapply wpr_conseq; [apply ProcessGameFinished_safe|].
  intros [[]|e] d' Hr; cbn; [by intros _; apply Hr|done].
Defined.

Lemma empty_sound ps rs : ratings_sound (mkRatingDB ∅ [] ps rs).
Proof.
  split; [by apply NoDup_nil|split].
  - intros p g row. cbn. by rewrite lookup_empty.
  - by intros ? []%not_elem_of_nil.
Qed.
End Tables.

Section Service.
Context `{U : UUID} `{MathPow} (cfg : Config).

(** C23 Any number of replicas of the rating service consume finished sessions from the
    stream, which redelivers; commands, transactions and replies fail, and handlers
    overlap, while players and results are added. At any time there is one record per
    session and player; every rating is the one after the last record of the player in
    that game and counts no more games than are on record; and of every ranked session
    of distinct players that has been published, delivered and acknowledged, some
    player's record exists, or the event was added to the dead letter stream: there it stays,
    unless at least 10,000 later dead letters of all groups have pushed it out. *)
Theorem ratings_applied_once (workers : list (Streams.Worker (option GameSessionFinished) RatingDB))
    (s0 : Streams.broker (option GameSessionFinished) RatingDB)
    (ls : list (label (Streams.call (option GameSessionFinished))
                      (Streams.happening (option GameSessionFinished) RatingDB))) :
  (∀ w, w ∈ workers → Streams.handler w = handle cfg) →
  Streams.group s0 = Some (length (Streams.log s0), ∅) →
  Streams.dlq_trimmed s0 ≤ length (Streams.dlq s0) →
  ratings (Streams.store s0) = ∅ → history (Streams.store s0) = [] →
  (∀ f, Event (Streams.Change f) ∈ ls → ∀ d, ratings (f d) = ratings d ∧ history (f d) = history d ∧
     known_players d ⊆ known_players (f d) ∧ known_results d ⊆ known_results (f d)) →
  let s := (Streams.run workers ls (s0, [])).1 in
  ratings_sound (Streams.store s) ∧
  ∃ delivered pel, Streams.group s = Some (delivered, pel) ∧
    ∀ i evt ids, length (Streams.log s0) ≤ i < delivered → Streams.trimmed s ≤ i → pel !! i = None →
      Streams.log s !! i = Some {["payload" := Streams.VBytes (Some evt)]} →
      Mode evt = "ranked" → 2 ≤ length (Players evt) → parseAll (Players evt) = Ok ids → NoDup ids →
      (∃ e j, Streams.dlq s !! j = Some (Some (Streams.mkDead (Some evt) i e)) ∧
        (Streams.dlq_trimmed s ≤ j ∨ Streams.defaultMaxLen ≤ length (Streams.dlq s) - S j)) ∨
      ∃ sid e, uuid_Parse (SessionID evt) = Some sid ∧ e ∈ history (Streams.store s) ∧
        H_SessionID e = sid ∧ H_PlayerID e ∈ ids.
Proof.
  intros Hw Hg Hq0 Hr0 Hh0 Hc s.
  destruct (run_group (handle cfg) workers s0 ls Hw) as (Hs & _ & delivered & pel & E & Hlen & Hacc); [|done|done|..].
  - destruct s0 as [c l t g q qt [r h ps rs]]. cbn in *. subst. apply empty_sound.
  - intros f Hf d Hd. destruct (Hc f Hf d) as (Hr & Hh & Hp & Hrs). cbn in *. split.
    + unfold ratings_sound in *. by rewrite Hr, Hh.
    + split_and!; [by rewrite Hh|done|done].
  - split; [exact Hs|]. exists delivered, pel. split; [exact E|].
    intros i evt ids Hi Ht Hn Hl Hm Hlen' Hp Hnd.
    destruct (Hacc i _ Hi Hl) as [?|[[? ?]|[Hbad|(b & Hb & Hset)]]]; [unfold s in *; lia|congruence|..].
    + by rewrite readPayload_published in Hbad.
    + rewrite readPayload_published in Hb. injection Hb as <-.
      destruct Hset as [Hset|?]; [right|by left]. destruct Hset as [?|[?|(ids' & Hp' & [?|?])]]; [done|lia|..].
      * assert (ids' = ids) as -> by congruence. done.
      * by assert (ids' = ids) as <- by congruence.
Qed.
End Service.

(** ** The interface *)

Section Interface.
Context `{U : UUID} (players : gmap uuid Identity).

(** A page of the leaderboard is a page of all eligible players by their rating. *)
Lemma GetLeaderboard_page gameID limit offset minGames includeBots d :
  ∃ all, alone (GetLeaderboard players gameID limit offset minGames includeBots) d = (Some (page limit offset all), d) ∧
    (alone (CountLeaderboard players gameID minGames includeBots) d).1 = Some (length all) ∧ Sorted higher all ∧
    ∀ row, row ∈ all ↔
      ratings d !! (R_PlayerID row, gameID) = Some (R_Rating row) ∧ players !! R_PlayerID row = Some (R_Identity row) ∧
      (minGames ≤ PR_GamesPlayed (R_Rating row))%Z ∧ Deleted (R_Identity row) = false ∧
      (includeBots = true ∨ IsBot (R_Identity row) = false).
Proof.
  exists (merge_sort higher (leaders players gameID minGames includeBots d)). split; [done|]. split.
  { cbn. by rewrite merge_sort_Permutation. }
  split.
  { apply Sorted_merge_sort. intros x y. unfold higher.
    destruct (flt (PR_DisplayRating (R_Rating x)) _) eqn:E; [right|by left]. by apply flt_asym. }
  intros row. rewrite merge_sort_Permutation. unfold leaders. rewrite list_elem_of_omap. split.
  - intros ([[id g] pr] & Hin%elem_of_map_to_list & He). unfold eligible in He. cbn in He.
    destruct (players !! id) as [who|] eqn:Ew; [|done]. cbn in He.
    destruct (bool_decide (g = gameID) && _ && _ && _) eqn:Eb; [|done]. injection He as <-. cbn.
    apply andb_true_iff in Eb as [[[->%bool_decide_eq_true Hg%Z.leb_le]%andb_true_iff Hd%negb_true_iff]%andb_true_iff Hb].
    split_and!; try done. apply orb_true_iff in Hb as [|Hb%negb_true_iff]; auto.
  - intros (Hr & Hw & Hg & Hd & Hb). exists (R_PlayerID row, gameID, R_Rating row).
    rewrite elem_of_map_to_list. split; [done|]. unfold eligible. cbn. rewrite Hw. cbn.
    rewrite bool_decide_eq_true_2, (proj2 (Z.leb_le _ _)), Hd by done.
    destruct row. destruct Hb as [-> | ->]; [done|]. by rewrite orb_true_r.
Qed.

Lemma lookup_keyed {A} (f : uuid → A) ids id : id ∈ ids →
  (list_to_map ((λ id, (id, f id)) <$> ids) : gmap uuid A) !! id = Some (f id).
Proof.
  induction ids as [|x ids IH]; [by intros ?%elem_of_nil|]. intros [->|Hin]%elem_of_cons; cbn.
  - by rewrite lookup_insert_eq.
  - destruct (decide (x = id)) as [->|]; [by rewrite lookup_insert_eq|rewrite lookup_insert_ne by done; by apply IH].
Qed.

(** The batch says of every player what a single request says. *)
Lemma GetRatings_each raws gameID d l : "" ∉ raws →
  (alone (grpc_GetRatings raws gameID) d).1 = Ok l →
  ∀ i raw, raws !! i = Some raw → ∃ r, l !! i = Some r ∧ (alone (grpc_GetRating raw gameID) d).1 = Ok r.
Proof.
  intros Hne. unfold grpc_GetRatings. destruct (decide (raws = [])); [done|].
  destruct (decide (gameID = "")) as [|Hg]; [done|]. destruct (100 <? length raws); [done|].
  destruct (mapM uuid_Parse raws) as [ids|] eqn:Em; [|done]. apply mapM_Some in Em.
  assert (Hids : ids ≠ []) by (intros ->; by apply Forall2_nil_inv_r in Em).
  unfold GetRatings. destruct ids as [|id0 ids0] eqn:Ei; [done|]. rewrite <-Ei in *. clear Ei Hids.
  rewrite alone_bind, alone_read. cbn. intros [= <-] i raw Hi.
  destruct (Forall2_lookup_l _ _ _ _ _ Em Hi) as (id & Hid & Hp). rewrite list_lookup_fmap, Hid. cbn.
  eexists. split; [done|]. unfold grpc_GetRating. rewrite (decide_False (P := raw = "")), decide_False, Hp; [|done|].
  2: { intros ->. apply Hne. by eapply list_elem_of_lookup_2. }
  rewrite alone_bind. unfold GetRating. rewrite alone_bind, alone_read. cbn. unfold toProto.
  rewrite lookup_keyed by (by eapply list_elem_of_lookup_2). cbn. unfold rating_of. by destruct (ratings d !! _).
Qed.
End Interface.
