(* ===== verification/RatingDemo.v ===== *)
(** The rating service on a concrete deployment, with two replicas: the properties
    tried on runs, and what the rules do not exclude. *)
From S2P Require Import Prelude Json Float64 Backend Demo Programs Streams StreamsSpec.
From S2P Require Import Rating RatingService RatingSpec.
From Stdlib Require Import Floats.SpecFloat.
Import Demo Programs Float64 Events Rating RatingService.

(** Any function that is 1 at an exponent of zero will do. *)
Definition flat_Pow : MathPow.
Proof. by refine (Build_MathPow (λ _ _, f_of_Z 1) _). Defined.
#[export] Existing Instance flat_Pow.

Definition ann : uuid := "ann".
Definition ben : uuid := "ben".
Definition cat : uuid := "cat".

(** ** One match *)

Definition novice : Player := NewPlayer "novice".
Definition veteran : Player := mkPlayer "veteran" DefaultMMR DefaultMMR 200 0 0.
Definition pair_of : heap := {["novice" := novice; "veteran" := veteran]}.
Definition upset : MatchResult := [mkPlacement ["novice"] 1; mkPlacement ["veteran"] 2].

Lemma ids_differ_pair : ids_differ pair_of.
Proof.
  intros p q x y. unfold pair_of. rewrite !lookup_insert_Some, !lookup_singleton_Some. naive_solver.
Qed.

Lemma ProcessMatch_spec_witness :
  ∃ deltas h', ProcessMatch DefaultConfig upset pair_of = Ok (deltas, h') ∧
    ∃ d, teamDelta DefaultConfig pair_of upset 0 (mkPlacement ["novice"] 1) = Ok d ∧
      h' !! "novice" = Some (updatePlayer DefaultConfig d novice).
Proof.
  pose proof (ProcessMatch_spec DefaultConfig upset pair_of) as Hs.
  assert (Hok : is_ok (ProcessMatch DefaultConfig upset pair_of) = true) by (vm_compute; reflexivity).
  destruct (ProcessMatch DefaultConfig upset pair_of) as [[deltas h']|e]; [|discriminate Hok].
  destruct Hs as (_ & _ & Hs).
  - cbn. apply NoDup_cons. split; [by intros [=]%list_elem_of_singleton|apply NoDup_singleton].
  - intros p Hp. cbn in Hp. rewrite elem_of_cons, list_elem_of_singleton in Hp. destruct Hp as [-> | ->]; by eexists.
  - apply ids_differ_pair.
  - exists deltas, h'. split; [reflexivity|]. destruct (Hs 0 _ eq_refl) as (d & Hd & Hp).
    exists d. split; [exact Hd|]. apply (Hp "novice"); [by left|reflexivity].
Defined.

(** The MMR that a match adds and takes away does not balance, as the K factors of the
    players differ: 36 for the novice, 7.5 from the veteran. *)
Theorem elo_not_conserved :
  ∃ deltas h', ProcessMatch DefaultConfig upset pair_of = Ok (deltas, h') ∧
    deltas !! "novice" = Some (f_of_Z 36) ∧ deltas !! "veteran" = Some (SFopp (f_dec 75 1)).
Proof.
  assert (H : match ProcessMatch DefaultConfig upset pair_of with
              | Ok (d, _) => Some (d !! "novice", d !! "veteran") | Err _ => None end =
              Some (Some (f_of_Z 36), Some (SFopp (f_dec 75 1)))) by (vm_compute; reflexivity).
  revert H. generalize (ProcessMatch DefaultConfig upset pair_of). intros [[deltas h']|e] H; [|discriminate H].
  exists deltas, h'. split; [reflexivity|]. injection H as H1 H2. by rewrite H1, H2.
Qed.

(** ** Two replicas *)

Definition session_of (s r a b : string) : GameSessionFinished :=
  mkGameSessionFinished ("event-" +:+ s) s r "room" "rootaccess" "ranked" "win" a false 60 9
    [mkSessionPlayer a 0 "win"; mkSessionPlayer b 1 "loss"].

Definition first_session := session_of "s1" "r1" "ann" "ben".
Definition second_session := session_of "s2" "r2" "ann" "cat".

Abbreviation payload := (option GameSessionFinished).

Definition replica (name : string) : Streams.Worker payload RatingDB :=
  Streams.NewWorker name (handle DefaultConfig).
Definition replicas : list (Streams.Worker payload RatingDB) := [replica "rating-1"; replica "rating-2"].

Definition fresh_store : RatingDB :=
  mkRatingDB ∅ [] {[ann; ben; cat]} {["r1" : uuid; "r2" : uuid]}.
Definition fresh_broker : Streams.broker payload RatingDB :=
  Streams.mkBroker 0 [] 0 (Some (0, ∅)) [] 0 fresh_store.

Abbreviation sched := (list (label (Streams.call payload) (Streams.happening payload RatingDB))).

Definition published (e : GameSessionFinished) (i : nat) : sched :=
  [Spawn (Streams.Call_publish (Some e)); Run i].

(** The first session is delivered, processed and acknowledged; then its event is
    published once more, and processed by the other replica. *)
Definition redelivered : sched :=
  published first_session 0 ++ Spawn (Streams.Call_consume 0) :: replicate 10 (Run 1) ++
  published first_session 2 ++ Spawn (Streams.Call_consume 1) :: replicate 10 (Run 3).

Abbreviation operate ls := (Streams.run replicas ls (fresh_broker, [])).1.

Lemma replicas_handle w : w ∈ replicas → Streams.handler w = handle DefaultConfig.
Proof. by intros [->|[->|[]%not_elem_of_nil]%elem_of_cons]%elem_of_cons. Qed.

Lemma no_change (ls : sched) f :
  forallb (λ l, if l is Event (Streams.Change _) then false else true) ls = true →
  Event (Streams.Change f) ∉ ls.
Proof. rewrite forallb_forall. intros H Hl. apply list_elem_of_In, H in Hl. done. Qed.

Lemma no_message_lost_witness :
  ∃ delivered pel, Streams.group (operate redelivered) = Some (delivered, pel) ∧
    ∀ i f, 0 ≤ i → Streams.log (operate redelivered) !! i = Some f →
      i < Streams.trimmed (operate redelivered) ∨ delivered ≤ i ∨ is_Some (pel !! i) ∨
      Streams.readPayload f = None ∨
      ∃ b, Streams.readPayload f = Some b ∧
        (ratings_settled b (Streams.store (operate redelivered)) ∨
         ∃ e j, Streams.dlq (operate redelivered) !! j = Some (Some (Streams.mkDead b i e)) ∧
           (Streams.dlq_trimmed (operate redelivered) ≤ j ∨
            Streams.defaultMaxLen ≤ length (Streams.dlq (operate redelivered)) - S j)).
Proof.
  refine (no_message_lost (handle DefaultConfig) replicas fresh_broker redelivered replicas_handle _ eq_refl (le_n _) _).
  - apply empty_sound.
  - intros f Hf. exfalso. revert Hf. apply no_change. vm_compute. reflexivity.
Defined.

Lemma ratings_applied_once_witness :
  length (history (Streams.store (operate redelivered))) = 2 ∧
  ratings_sound (Streams.store (operate redelivered)).
Proof.
  split; [vm_compute; reflexivity|].
  refine (proj1 (ratings_applied_once DefaultConfig replicas fresh_broker redelivered replicas_handle eq_refl (le_n _) eq_refl eq_refl _)).
  intros f Hf. exfalso. revert Hf. apply no_change. vm_compute. reflexivity.
Defined.

(** Two sessions of the same player, processed at the same time: both handlers read the
    rating before either has written it, and one update is lost. *)
Definition overlapping : sched :=
  published first_session 0 ++ [Spawn (Streams.Call_consume 0); Run 1] ++
  published second_session 2 ++ [Spawn (Streams.Call_consume 1); Run 3] ++
  [Run 1; Run 3] ++ replicate 5 (Run 1) ++ replicate 5 (Run 3).

Theorem lost_update :
  length (about ann "rootaccess" (history (Streams.store (operate overlapping)))) = 2 ∧
  PR_GamesPlayed (rating_of (Streams.store (operate overlapping)) "rootaccess" ann) = 1%Z.
Proof. split; vm_compute; reflexivity. Qed.
