(* ===== verification/Achievements.v ===== *)
(** Achievements (shared/achievements): the registry, the evaluator, the registered
    achievements, and the consumer of the user service that records progress
    (services/user-service/internal/consumer). *)
From S2P Require Import Prelude Backend Programs Streams.
Import Programs Events.

Module Achievements.

(** ** Types and keys *)

Record Progress := mkProgress { Progress_Tier : Z; Progress_Progress : Z }.

Record Unlock := mkUnlock { Unlock_Key : string; NewTier : Z; TierName : string; Unlock_Progress : Z }.

Record Tier := mkTier { Threshold : Z; Tier_NameKey : string; Tier_DescriptionKey : string }.

Definition ProgressFunc : Type := Progress → GameSessionFinished → string → Z * bool.

(** [Definition] of the package. *)
Record Achievement := mkAchievement {
  Key : string; NameKey_ : string; DescriptionKey_ : string; Achievement_GameID : string;
  Type_ : string; Tiers : list Tier; ComputeProgress : option ProgressFunc
}.

Definition TypeFlat : string := "flat".
Definition TypeTiered : string := "tiered".

(** The rune ['0' + n]. *)
Definition digit (n : nat) : string := String (Ascii.ascii_of_nat (48 + n)) "".

Definition itoa (n : nat) : string :=
  if n <=? 9 then digit n else digit (n / 10) +:+ digit (n mod 10).

Definition NameKey (id : string) : string := "achievements." +:+ id +:+ ".name".
Definition DescriptionKey (id : string) : string := "achievements." +:+ id +:+ ".description".
Definition TierNameKey (id : string) (tier : nat) : string :=
  "achievements." +:+ id +:+ ".tiers." +:+ itoa tier +:+ ".name".
Definition TierDescriptionKey (id : string) (tier : nat) : string :=
  "achievements." +:+ id +:+ ".tiers." +:+ itoa tier +:+ ".description".

(** ** The registry: the definitions in the order of registration *)

Definition registry : Type := list Achievement.

(** A registration that is refused panics. *)
Definition Register (def : Achievement) (reg : registry) : option registry :=
  if decide (Key def = "") then None
  else if decide (NameKey_ def = "") then None
  else if decide (Type_ def ≠ TypeFlat ∧ Type_ def ≠ TypeTiered) then None
  else if Tiers def is [] then None
  else if decide (Key def ∈ Key <$> reg) then None
  else Some (reg ++ [def]).

Definition Get (key : string) (reg : registry) : option Achievement :=
  List.find (λ d, String.eqb (Key d) key) reg.

Definition ForGame (gameID : string) (reg : registry) : list Achievement :=
  filter (λ d, Achievement_GameID d = "" ∨ Achievement_GameID d = gameID) reg.

(** [All] sorts stably by game, the empty one first: an insertion sort. *)
Definition before (a b : Achievement) : bool :=
  if String.eqb (Achievement_GameID a) (Achievement_GameID b) then false
  else if String.eqb (Achievement_GameID a) "" then true
  else if String.eqb (Achievement_GameID b) "" then false
  else String.ltb (Achievement_GameID a) (Achievement_GameID b).

Fixpoint insert_sorted (a : Achievement) (l : list Achievement) : list Achievement :=
  match l with
  | [] => [a]
  | b :: l => if before b a then b :: insert_sorted a l else a :: b :: l
  end.

Definition All (reg : registry) : list Achievement := foldr insert_sorted [] reg.

(** ** The evaluator *)

(** The tiers from [i] on, as far as the progress reaches. *)
Fixpoint climb (tiers : list Tier) (i : Z) (newProgress newTier : Z) : Z :=
  match tiers with
  | [] => newTier
  | t :: tiers =>
      if (Threshold t <=? newProgress)%Z then climb tiers (i + 1) newProgress (i + 1) else newTier
  end.

(** [None] is a panic: an index out of range. *)
Definition checkTierUp (def : Achievement) (cur : Progress) (newProgress : Z) : option (option Unlock) :=
  if String.eqb (Type_ def) TypeFlat then
    if (1 <=? Progress_Tier cur)%Z then Some None
    else
      match Tiers def with
      | [] => None
      | t :: _ =>
          if (Threshold t <=? newProgress)%Z
          then Some (Some (mkUnlock (Key def) 1 (Tier_NameKey t) newProgress))
          else Some None
      end
  else
    let maxTier := Z.of_nat (length (Tiers def)) in
    if (maxTier <=? Progress_Tier cur)%Z then Some None
    else if (Progress_Tier cur <? 0)%Z then None
    else
      let newTier := climb (drop (Z.to_nat (Progress_Tier cur)) (Tiers def)) (Progress_Tier cur)
                       newProgress (Progress_Tier cur) in
      if (Progress_Tier cur <? newTier)%Z then
        t ← Tiers def !! Z.to_nat (newTier - 1);
        Some (Some (mkUnlock (Key def) newTier (Tier_NameKey t) newProgress))
      else Some None.

Definition progress_of (state : gmap string Progress) (key : string) : Progress :=
  default (mkProgress 0 0) (state !! key).

Fixpoint evaluateAll (defs : list Achievement) (evt : GameSessionFinished) (playerOutcome : string)
    (state : gmap string Progress) : option (list Unlock) :=
  match defs with
  | [] => Some []
  | def :: defs =>
      match ComputeProgress def with
      | None => evaluateAll defs evt playerOutcome state
      | Some compute =>
          let cur := progress_of state (Key def) in
          let '(newProgress, applicable) := compute cur evt playerOutcome in
          if negb applicable then evaluateAll defs evt playerOutcome state
          else
            u ← checkTierUp def cur newProgress;
            us ← evaluateAll defs evt playerOutcome state;
            Some (match u with Some u => u :: us | None => us end)
      end
  end.

Definition Evaluate (reg : registry) (evt : GameSessionFinished) (playerOutcome : string)
    (state : gmap string Progress) : option (list Unlock) :=
  evaluateAll (ForGame (GameID evt) reg) evt playerOutcome state.

Definition ComputeNewProgress (def : Achievement) (cur : Progress) (evt : GameSessionFinished)
    (playerOutcome : string) : Z * bool :=
  match ComputeProgress def with
  | None => (Progress_Progress cur, false)
  | Some compute => compute cur evt playerOutcome
  end.

(** ** What is registered *)

Definition tier (key : string) (n : nat) (threshold : Z) : Tier :=
  mkTier threshold (TierNameKey key n) (TierDescriptionKey key n).

Definition games_played : Achievement :=
  mkAchievement "games_played" (NameKey "games_played") "" "" TypeTiered
    [tier "games_played" 1 1; tier "games_played" 2 10; tier "games_played" 3 50;
     tier "games_played" 4 100; tier "games_played" 5 500]
    (Some (λ cur _ _, ((Progress_Progress cur + 1)%Z, true))).

Definition games_won : Achievement :=
  mkAchievement "games_won" (NameKey "games_won") "" "" TypeTiered
    [tier "games_won" 1 1; tier "games_won" 2 10; tier "games_won" 3 50; tier "games_won" 4 100]
    (Some (λ cur _ outcome,
      if String.eqb outcome "win" then ((Progress_Progress cur + 1)%Z, true)
      else (Progress_Progress cur, false))).

Definition win_streak : Achievement :=
  mkAchievement "win_streak" (NameKey "win_streak") "" "" TypeTiered
    [tier "win_streak" 1 3; tier "win_streak" 2 5; tier "win_streak" 3 10]
    (Some (λ cur _ outcome,
      if String.eqb outcome "win" then ((Progress_Progress cur + 1)%Z, true)
      else if (0 <? Progress_Progress cur)%Z then (0%Z, true)
      else (Progress_Progress cur, false))).

Definition first_draw : Achievement :=
  mkAchievement "first_draw" (NameKey "first_draw") (DescriptionKey "first_draw") "" TypeFlat
    [tier "first_draw" 1 1]
    (Some (λ cur _ outcome,
      if String.eqb outcome "draw" then (1%Z, true) else (Progress_Progress cur, false))).

Definition ttt_perfect_game : Achievement :=
  mkAchievement "ttt_perfect_game" (NameKey "ttt_perfect_game") (DescriptionKey "ttt_perfect_game")
    "tictactoe" TypeFlat [tier "ttt_perfect_game" 1 1]
    (Some (λ cur evt outcome,
      if negb (String.eqb outcome "win") || negb (MoveCount evt =? 5)%Z
      then (Progress_Progress cur, false) else (1%Z, true))).

Definition ttt_games_played : Achievement :=
  mkAchievement "ttt_games_played" (NameKey "ttt_games_played") "" "tictactoe" TypeTiered
    [tier "ttt_games_played" 1 5; tier "ttt_games_played" 2 25; tier "ttt_games_played" 3 100]
    (Some (λ cur _ _, ((Progress_Progress cur + 1)%Z, true))).

(** The packages are initialised in the order of their paths. *)
Definition registered : option registry :=
  foldl (λ reg def, reg ← reg; Register def reg) (Some [])
    [ttt_perfect_game; ttt_games_played; games_played; games_won; win_streak; first_draw].

(** ** The consumer *)

Section Consumer.
Context `{U : UUID}.

(** users.player_achievements, the players it refers to, and the events published. *)
Record AchievementDB := mkAchievementDB {
  rows : gmap (uuid * string) Progress;
  ach_players : gset uuid;
  unlocked : list (string * string * Z * string)
}.

Definition ListAchievements (playerID : uuid) : prog AchievementDB (option (gmap string Progress)) :=
  read (λ d, list_to_map (omap (λ kv : (uuid * string) * Progress,
    if decide (kv.1.1 = playerID) then Some (kv.1.2, kv.2) else None) (map_to_list (rows d)))).

(** [INT] columns, a foreign key, and [GREATEST] of the tiers on conflict. *)
Definition UpsertAchievement (playerID : uuid) (key : string) (newTier progress : Z)
    : prog AchievementDB (option bool) :=
  cmd (λ d,
    if bool_decide (playerID ∈ ach_players d) && (- 2 ^ 31 <=? progress)%Z && (progress <? 2 ^ 31)%Z then
      let tier := match rows d !! (playerID, key) with
                  | Some p => Z.max (Progress_Tier p) newTier
                  | None => newTier
                  end in
      (true, mkAchievementDB (<[(playerID, key) := mkProgress tier progress]> (rows d))
               (ach_players d) (unlocked d))
    else (false, d)).

Definition PublishAchievementUnlocked (playerID : string) (u : Unlock) : prog AchievementDB unit :=
  write (λ d, mkAchievementDB (rows d) (ach_players d)
    (unlocked d ++ [(playerID, Unlock_Key u, NewTier u, TierName u)]));; mret tt.

(** The tier of the unlock of a definition, if it has one. *)
Definition tierAfter (us : list Unlock) (key : string) (cur : Progress) : Z :=
  match List.find (λ u, String.eqb (Unlock_Key u) key) us with
  | Some u => NewTier u
  | None => Progress_Tier cur
  end.

Definition updateProgress (playerID : uuid) (evt : GameSessionFinished) (outcome : string)
    (state : gmap string Progress) (us : list Unlock) (def : Achievement) : prog AchievementDB unit :=
  let cur := progress_of state (Key def) in
  let '(newProgress, changed) := ComputeNewProgress def cur evt outcome in
  if negb changed then mret tt
  else ignore (UpsertAchievement playerID (Key def) (tierAfter us (Key def) cur) newProgress).

(** Errors are logged by the caller; a panic ends the process ([None]). *)
Definition evaluatePlayer (reg : registry) (evt : GameSessionFinished) (sp : SessionPlayer)
    : prog AchievementDB (option unit) :=
  match uuid_Parse (PlayerID sp) with
  | None => mret (Some tt)
  | Some playerID =>
      existing ← ListAchievements playerID;
      match existing with
      | None => mret (Some tt)
      | Some state =>
          match Evaluate reg evt (Outcome sp) state with
          | None => mret None
          | Some us =>
              each (updateProgress playerID evt (Outcome sp) state us) (ForGame (GameID evt) reg);;
              each (PublishAchievementUnlocked (PlayerID sp)) us;;
              mret (Some tt)
          end
      end
  end.

Fixpoint evaluatePlayers (reg : registry) (evt : GameSessionFinished) (ps : list SessionPlayer)
    : prog AchievementDB (option unit) :=
  match ps with
  | [] => mret (Some tt)
  | sp :: ps =>
      r ← evaluatePlayer reg evt sp;
      match r with None => mret None | Some _ => evaluatePlayers reg evt ps end
  end.

(** A process that has ended does not acknowledge. *)
Definition handle (reg : registry) (enabled : bool) (payload : option GameSessionFinished)
    : prog AchievementDB Streams.outcome :=
  match payload with
  | None => mret (Streams.Failed (Wrap "unmarshal GameSessionFinished" (Plain "json")))
  | Some evt =>
      if negb enabled then mret Streams.Done
      else
        r ← evaluatePlayers reg evt (Players evt);
        mret (match r with Some _ => Streams.Done | None => Streams.ErrSkipAck end)
  end.

End Consumer.
End Achievements.
