(* ===== verification/AchievementsSpec.v ===== *)
(** What the evaluation of a finished game does to the achievements of a player, and
    what redelivery and failures do to them. *)
From S2P Require Import Prelude Backend Demo Programs Streams Achievements.
Import Demo Programs Events Achievements.

(** ** Tiers *)

(** The tier that a progress reaches: how many thresholds it has passed. *)
Definition reached (def : Achievement) (progress : Z) : Z :=
  Z.of_nat (length (filter (λ t, (Threshold t ≤ progress)%Z) (Tiers def))).

(** Ascending thresholds, and a single one when the achievement is flat. *)
Definition good (def : Achievement) : Prop :=
  StronglySorted Z.lt (Threshold <$> Tiers def) ∧ Tiers def ≠ [] ∧
  (Type_ def = TypeFlat → length (Tiers def) = 1).

Lemma passed_none l x : StronglySorted Z.lt (Threshold <$> l) →
  (∀ t, head l = Some t → (x < Threshold t)%Z) → filter (λ t, (Threshold t ≤ x)%Z) l = [].
Proof.
  intros Hs Hh. destruct l as [|t l]; [done|]. specialize (Hh t eq_refl).
  cbn in Hs. apply StronglySorted_inv in Hs as [_ Hf]. rewrite filter_cons_False by lia.
  rewrite Forall_fmap in Hf. induction Hf as [|u l Hu _ IH]; [done|]. cbn in Hu.
  rewrite filter_cons_False by lia. apply IH.
Qed.

Lemma climb_spec l i x : StronglySorted Z.lt (Threshold <$> l) →
  climb l i x i = (i + Z.of_nat (length (filter (λ t, (Threshold t ≤ x)%Z) l)))%Z.
Proof.
  revert i. induction l as [|t l IH]; intros i Hs; cbn [climb]; [cbn; lia|].
  destruct (Z.leb_spec (Threshold t) x).
  - rewrite filter_cons_True by done. cbn in Hs. apply StronglySorted_inv in Hs as [Hs _].
    rewrite IH by done. cbn. lia.
  - rewrite passed_none; [cbn; lia|done|]. by intros ? [= <-].
Qed.

(** From tier [i] on one climbs to the tier that is reached, and never down. *)
Lemma climb_drop def i x : good def → i ≤ length (Tiers def) →
  climb (drop i (Tiers def)) (Z.of_nat i) x (Z.of_nat i) = Z.max (Z.of_nat i) (reached def x).
Proof.
  intros (Hs & _) Hi. rewrite <- (take_drop i (Tiers def)), fmap_app in Hs.
  assert (Hs2 : StronglySorted Z.lt (Threshold <$> drop i (Tiers def))).
  { by apply StronglySorted_app_1_r in Hs. }
  rewrite climb_spec by done. unfold reached. rewrite <- (take_drop i (Tiers def)) at 2.
  rewrite filter_app, length_app. set (hi := filter _ (drop i _)). set (lo := filter _ (take i _)).
  assert (length lo ≤ i) as Hlo.
  { etrans; [apply length_filter|]. rewrite length_take. lia. }
  destruct (decide (hi = [])) as [E|Hne]; [rewrite E; cbn; lia|].
  assert (length lo = i); [|lia].
  unfold lo. rewrite filter_all; [rewrite length_take; lia|]. intros t Ht.
  destruct hi as [|u hi'] eqn:E; [done|].
  assert (Hu : u ∈ filter (λ t, (Threshold t ≤ x)%Z) (drop i (Tiers def))) by (unfold hi in E; rewrite E; by left).
  apply list_elem_of_filter in Hu as [Hu Hu'].
  pose proof (StronglySorted_app_1_elem_of _ _ _ (Threshold t) (Threshold u) Hs
    (list_elem_of_fmap_2 _ _ _ Ht) (list_elem_of_fmap_2 _ _ _ Hu')). lia.
Qed.

Lemma reached_bounds def x : (0 ≤ reached def x ≤ Z.of_nat (length (Tiers def)))%Z.
Proof. unfold reached. pose proof (length_filter (λ t, (Threshold t ≤ x)%Z) (Tiers def)). lia. Qed.

(** The unlock that is due, by the tier that is reached. *)
Definition due (def : Achievement) (cur : Progress) (x : Z) : option Unlock :=
  if (Progress_Tier cur <? reached def x)%Z then
    t ← Tiers def !! Z.to_nat (reached def x - 1);
    Some (mkUnlock (Key def) (reached def x) (Tier_NameKey t) x)
  else None.

Lemma reached_mono def x y : (x ≤ y)%Z → (reached def x ≤ reached def y)%Z.
Proof.
  intros Hxy. unfold reached. induction (Tiers def) as [|t l IH]; [done|]. rewrite !filter_cons.
  destruct (decide (Threshold t ≤ x)%Z); [rewrite decide_True by lia; cbn; lia|].
  destruct (decide (Threshold t ≤ y)%Z); cbn; lia.
Qed.

(** A row whose tier is at least the one that its progress reaches gains nothing by a value
    that is not higher. *)
Lemma due_none def cur x : (reached def (Progress_Progress cur) ≤ Progress_Tier cur)%Z →
  (x ≤ Progress_Progress cur)%Z → due def cur x = None.
Proof.
  intros Hc Hx. pose proof (reached_mono def _ _ Hx). unfold due. by rewrite (proj2 (Z.ltb_ge _ _)) by lia.
Qed.

Definition in_range (def : Achievement) (cur : Progress) : Prop :=
  (0 ≤ Progress_Tier cur ≤ Z.of_nat (length (Tiers def)))%Z.

Lemma checkTierUp_due def cur x : good def → in_range def cur →
  checkTierUp def cur x = Some (due def cur x).
Proof.
  intros Hg Hr. unfold checkTierUp, due, in_range in *. pose proof (reached_bounds def x) as Hb.
  destruct (String.eqb_spec (Type_ def) TypeFlat) as [Hf|Hf].
  - destruct Hg as (_ & _ & Hone). specialize (Hone Hf).
    destruct (Tiers def) as [|t [|]] eqn:Ht; try done. unfold reached in *. rewrite Ht in *.
    destruct (Z.leb_spec (Threshold t) x).
    + rewrite filter_cons_True by done. cbn. change (Z.of_nat 1) with 1%Z.
      destruct (Z.leb_spec 1 (Progress_Tier cur)), (Z.ltb_spec (Progress_Tier cur) 1);
        try lia; done.
    + rewrite filter_cons_False by lia. cbn. change (Z.of_nat 0) with 0%Z in *.
      rewrite (proj2 (Z.ltb_ge _ 0)) by lia. by destruct (1 <=? _)%Z.
  - destruct (Z.leb_spec (Z.of_nat (length (Tiers def))) (Progress_Tier cur)).
    + by rewrite (proj2 (Z.ltb_ge _ _)) by lia.
    + rewrite (proj2 (Z.ltb_ge _ 0)) by lia.
      pose proof (climb_drop def (Z.to_nat (Progress_Tier cur)) x Hg ltac:(lia)) as Hc.
      rewrite Z2Nat.id in Hc by lia. rewrite Hc.
      destruct (Z.ltb_spec (Progress_Tier cur) (reached def x)).
      * rewrite Z.max_r by lia. rewrite (proj2 (Z.ltb_lt _ _)) by lia.
        destruct (lookup_lt_is_Some_2 (Tiers def) (Z.to_nat (reached def x - 1))) as [t ->]; [lia|done].
      * rewrite Z.max_l by lia. by rewrite Z.ltb_irrefl.
Qed.

Lemma NoDup_fmap_filter {A B} (f : A → B) (P : A → Prop) `{!∀ x, Decision (P x)} (l : list A) :
  NoDup (f <$> l) → NoDup (f <$> filter P l).
Proof.
  induction l as [|x l IH]; [done|]. rewrite fmap_cons. intros [Hx Hl]%NoDup_cons.
  rewrite filter_cons. case_decide; [|by apply IH]. rewrite fmap_cons. apply NoDup_cons. split; [|by apply IH].
  intros (y & Hy & Hin)%list_elem_of_fmap. apply Hx, list_elem_of_fmap. exists y. split; [done|].
  by apply list_elem_of_filter in Hin as [_ Hin].
Qed.

(** ** One player *)

Section Player.
Context `{U : UUID} (reg : registry) (evt : GameSessionFinished).

(** The definitions that apply to the game of the event. *)
Abbreviation defs := (ForGame (GameID evt) reg).

Hypothesis reg_good : ∀ def, def ∈ reg → good def.
Hypothesis reg_keys : NoDup (Key <$> reg).

Lemma defs_good def : def ∈ defs → good def.
Proof. intros [_ H]%list_elem_of_filter. by apply reg_good. Qed.

Lemma defs_keys : NoDup (Key <$> defs).
Proof. by apply NoDup_fmap_filter. Qed.

Context (outcome : string) (state : gmap string Progress).

(** The unlock of one definition. *)
Definition unlock_of (def : Achievement) : option Unlock :=
  let cur := progress_of state (Key def) in
  let '(x, changed) := ComputeNewProgress def cur evt outcome in
  if changed then due def cur x else None.

Lemma unlock_of_Key def u : unlock_of def = Some u → Unlock_Key u = Key def.
Proof.
  unfold unlock_of, due. destruct (ComputeNewProgress _ _ _ _) as [x [|]]; [|done].
  destruct (_ <? _)%Z; [|done]. destruct (Tiers def !! _); [|done]. by intros [= <-].
Qed.

Lemma evaluateAll_omap ds : (∀ def, def ∈ ds → good def) →
  (∀ def, def ∈ ds → in_range def (progress_of state (Key def))) →
  evaluateAll ds evt outcome state = Some (omap unlock_of ds).
Proof.
  induction ds as [|def ds IH]; intros Hg Hr; [done|]. cbn [evaluateAll].
  rewrite IH by (intros; (apply Hg || apply Hr); by right).
  assert (E : omap unlock_of (def :: ds) =
    match unlock_of def with Some u => u :: omap unlock_of ds | None => omap unlock_of ds end) by done.
  assert (Hu : unlock_of def =
    match ComputeProgress def with
    | None => None
    | Some compute => let '(x, changed) := compute (progress_of state (Key def)) evt outcome in
                      if changed then due def (progress_of state (Key def)) x else None
    end) by (unfold unlock_of, ComputeNewProgress; by destruct (ComputeProgress def)).
  rewrite E, Hu. destruct (ComputeProgress def) as [compute|]; [|done].
  destruct (compute _ _ _) as [x [|]]; [|done]. cbn [negb].
  rewrite checkTierUp_due; [|apply Hg; by left|apply Hr; by left]. cbn.
  by destruct (due _ _ _).
Qed.

Lemma find_unlock ds def : NoDup (Key <$> ds) → def ∈ ds →
  List.find (λ u, String.eqb (Unlock_Key u) (Key def)) (omap unlock_of ds) = unlock_of def.
Proof.
  induction ds as [|d ds IH]; intros Hnd Hin; [by apply not_elem_of_nil in Hin|].
  cbn in Hnd. apply NoDup_cons in Hnd as [Hd Hnd].
  assert (Hnone : ∀ k, k ∉ Key <$> ds → List.find (λ u, String.eqb (Unlock_Key u) k) (omap unlock_of ds) = None).
  { intros k. clear. induction ds as [|e ds IH]; [done|]. rewrite fmap_cons, not_elem_of_cons. intros [Hk Hks].
    cbn. destruct (unlock_of e) as [u|] eqn:E; [|by apply IH]. cbn. rewrite (unlock_of_Key e u E).
    destruct (String.eqb_spec (Key e) k); [by subst|by apply IH]. }
  apply elem_of_cons in Hin as [->|Hin].
  - cbn. destruct (unlock_of d) as [u|] eqn:E; [|by apply Hnone]. cbn.
    by rewrite (unlock_of_Key d u E), String.eqb_refl.
  - cbn. destruct (unlock_of d) as [u|] eqn:E; [|by apply IH]. cbn. rewrite (unlock_of_Key d u E).
    destruct (String.eqb_spec (Key d) (Key def)) as [Hk|]; [|by apply IH].
    exfalso. apply Hd. rewrite Hk. by apply list_elem_of_fmap_2.
Qed.

(** ** The rows of the player *)

Context (playerID : uuid).

Definition after (def : Achievement) (d : AchievementDB) : option Progress :=
  let cur := progress_of state (Key def) in
  let '(x, changed) := ComputeNewProgress def cur evt outcome in
  if changed then Some (mkProgress (Z.max (Progress_Tier cur) (reached def x)) x)
  else rows d !! (playerID, Key def).

Definition storable (def : Achievement) : Prop :=
  let '(x, changed) := ComputeNewProgress def (progress_of state (Key def)) evt outcome in
  changed = true → (- 2 ^ 31 ≤ x < 2 ^ 31)%Z.

Lemma tierAfter_reached def x : in_range def (progress_of state (Key def)) →
  ComputeNewProgress def (progress_of state (Key def)) evt outcome = (x, true) → def ∈ defs →
  tierAfter (omap unlock_of defs) (Key def) (progress_of state (Key def)) =
  Z.max (Progress_Tier (progress_of state (Key def))) (reached def x).
Proof.
  unfold in_range. intros Hr Hx Hin. unfold tierAfter. rewrite find_unlock by (done || apply defs_keys).
  unfold unlock_of. rewrite Hx. unfold due. pose proof (reached_bounds def x).
  revert Hr. generalize (progress_of state (Key def)). intros cur Hr.
  destruct (Z.ltb_spec (Progress_Tier cur) (reached def x)); [|lia].
  destruct (lookup_lt_is_Some_2 (Tiers def) (Z.to_nat (reached def x - 1))) as [t ->]; [lia|].
  cbn [mbind option_bind NewTier]. lia.
Qed.

(** The rows of the player are still those that were read. *)
Definition current (d : AchievementDB) (def : Achievement) : Prop :=
  default (mkProgress 0 0) (rows d !! (playerID, Key def)) = progress_of state (Key def).

Lemma updateProgress_alone def d : good def → in_range def (progress_of state (Key def)) → def ∈ defs →
  storable def → playerID ∈ ach_players d → current d def →
  ∃ d', alone (updateProgress playerID evt outcome state (omap unlock_of defs) def) d = (tt, d') ∧
    rows d' !! (playerID, Key def) = after def d ∧
    (∀ k, k ≠ (playerID, Key def) → rows d' !! k = rows d !! k) ∧
    ach_players d' = ach_players d ∧ unlocked d' = unlocked d.
Proof.
  intros Hg Hr Hin Hs Hp Hc. unfold updateProgress, after, storable in *.
  destruct (ComputeNewProgress def _ evt outcome) as [x [|]] eqn:Hx; cbn [negb]; [|by exists d].
  specialize (Hs eq_refl). unfold ignore. rewrite alone_bind. unfold UpsertAchievement. rewrite alone_cmd.
  rewrite bool_decide_true by done. rewrite (proj2 (Z.leb_le _ _)), (proj2 (Z.ltb_lt _ _)) by lia. cbn [andb fst snd].
  eexists. split; [reflexivity|]. cbn. split; [|split; [|done]].
  - rewrite lookup_insert_eq, (tierAfter_reached def x) by done. unfold current in Hc. do 2 f_equal.
    destruct (rows d !! (playerID, Key def)) as [p|]; cbn [default] in Hc; [|done].
    rewrite <- Hc. cbn. lia.
  - intros k Hk. by rewrite lookup_insert_ne.
Qed.

(** All definitions, one after the other: every row depends on what was read only. *)
Lemma updateAll_alone ds d : ds `sublist_of` defs → (∀ def, def ∈ ds → in_range def (progress_of state (Key def))) →
  (∀ def, def ∈ ds → storable def) → playerID ∈ ach_players d → (∀ def, def ∈ ds → current d def) →
  ∃ d', alone (each (updateProgress playerID evt outcome state (omap unlock_of defs)) ds) d = (tt, d') ∧
    (∀ def, def ∈ ds → rows d' !! (playerID, Key def) = after def d) ∧
    (∀ k, (∀ def, def ∈ ds → k ≠ (playerID, Key def)) → rows d' !! k = rows d !! k) ∧
    unlocked d' = unlocked d.
Proof.
  revert d. induction ds as [|def ds IH]; intros d Hsub Hr Hs Hp Hc.
  { exists d. split_and!; try done. by intros ? []%not_elem_of_nil. }
  assert (Hin : def ∈ defs) by (eapply elem_of_submseteq; [|by apply sublist_submseteq]; by left).
  assert (Hnd : NoDup (Key <$> def :: ds)).
  { eapply sublist_NoDup; [apply defs_keys|]. by apply fmap_sublist. }
  rewrite fmap_cons in Hnd. apply NoDup_cons in Hnd as [Hdef _].
  destruct (updateProgress_alone def d) as (d1 & E1 & Hd1 & Ho1 & Hp1 & Hu1);
    [by apply defs_good|apply Hr; by left|done|apply Hs; by left|done|apply Hc; by left|].
  assert (Hother : ∀ e, e ∈ ds → (playerID, Key e) ≠ (playerID, Key def)).
  { intros e He [= E]. apply Hdef. rewrite <- E. by apply list_elem_of_fmap_2. }
  destruct (IH d1) as (d2 & E2 & Hd2 & Ho2 & Hu2).
  - etrans; [|exact Hsub]. by apply sublist_cons.
  - intros e He. apply Hr. by right.
  - intros e He. apply Hs. by right.
  - by rewrite Hp1.
  - intros e He. unfold current. rewrite Ho1 by by apply Hother. apply Hc. by right.
  - exists d2. cbn [each]. rewrite alone_bind, E1. split; [exact E2|]. split_and!.
    + intros e [->|He]%elem_of_cons.
      * rewrite Ho2, Hd1; [done|]. intros e' He' E. by apply (Hother e').
      * rewrite Hd2 by done. unfold after. destruct (ComputeNewProgress _ _ _ _) as [x [|]]; [done|].
        by rewrite Ho1 by by apply Hother.
    + intros k Hk. rewrite Ho2, Ho1; [done|apply Hk; by left|]. intros e He. apply Hk. by right.
    + by rewrite Hu2.
Qed.
End Player.

(** The rows of a player, listed. *)
Lemma listed `{U : UUID} (d : AchievementDB) (playerID : uuid) (key : string) :
  (list_to_map (omap (λ kv : (uuid * string) * Progress,
     if decide (kv.1.1 = playerID) then Some (kv.1.2, kv.2) else None) (map_to_list (rows d)))
   : gmap string Progress) !! key = rows d !! (playerID, key).
Proof.
  apply option_eq. intros p.
  set (l := omap _ _). assert (Hl : ∀ k q, (k, q) ∈ l ↔ rows d !! (playerID, k) = Some q).
  { intros k q. unfold l. rewrite list_elem_of_omap. split.
    - intros ([[u k'] q'] & Hin & E). cbn in E. case_decide; [|done]. injection E as -> ->. subst.
      by apply elem_of_map_to_list.
    - intros E. exists ((playerID, k), q). split; [by apply elem_of_map_to_list|]. cbn. by rewrite decide_True. }
  assert (Hnd : NoDup l.*1).
  { unfold l. pose proof (NoDup_fst_map_to_list (rows d)) as Hn. clear -Hn. revert Hn.
    generalize (map_to_list (rows d)). intros m. induction m as [|[[u k] q] m IH]; [by intros; apply NoDup_nil_2|].
    rewrite fmap_cons. intros [Hx Hm]%NoDup_cons. cbn. case_decide; [|by apply IH].
    cbn. apply NoDup_cons. split; [|by apply IH]. intros ([k' q'] & E & Hin)%list_elem_of_fmap. cbn in E. subst k'.
    apply list_elem_of_omap in Hin as ([[u' k'] q''] & Hin & E). cbn in E. case_decide; [|done]. injection E as -> ->.
    apply Hx, list_elem_of_fmap. exists ((playerID, k), q'). cbn in *. by subst. }
  rewrite <- (Hl key p). split; [apply elem_of_list_to_map_2|by apply elem_of_list_to_map_1].
Qed.

Lemma publish_all `{U : UUID} (p : string) us d :
  ∃ d', alone (each (PublishAchievementUnlocked p) us) d = (tt, d') ∧ rows d' = rows d ∧
    unlocked d' = unlocked d ++ ((λ u, (p, Unlock_Key u, NewTier u, TierName u)) <$> us).
Proof.
  revert d. induction us as [|u us IH]; intros d; [exists d; split_and!; [done..|by rewrite app_nil_r]|].
  cbn [each]. rewrite alone_bind. unfold PublishAchievementUnlocked at 1. rewrite alone_bind, alone_write, alone_ret.
  destruct (IH (mkAchievementDB (rows d) (ach_players d) (unlocked d ++ [(p, Unlock_Key u, NewTier u, TierName u)])))
    as (d' & E & Hr & Hu). exists d'. split; [exact E|]. rewrite Hr, Hu. split; [done|]. cbn. by rewrite <- app_assoc.
Qed.

(** C24 Undisturbed, a finished game moves each achievement that applies to the game, and
    whose rule the game fulfils, to the progress of the rule and to the highest tier
    whose threshold that progress passes, but never down; all other rows stay. Exactly
    the achievements that reach a higher tier than before are announced, each once, in
    the order of the registry; nothing panics. A value that is not above the stored progress
    announces nothing, if the stored tier is at least the one that the stored progress
    reaches; it can otherwise ([lagging_tier_catches_up]). *)
Theorem evaluatePlayer_spec `{U : UUID} (reg : registry) (evt : GameSessionFinished)
    (sp : SessionPlayer) (playerID : uuid) (d : AchievementDB) (state : gmap string Progress) :
  (∀ def, def ∈ reg → good def) → NoDup (Key <$> reg) →
  uuid_Parse (PlayerID sp) = Some playerID → playerID ∈ ach_players d →
  (∀ key, state !! key = rows d !! (playerID, key)) →
  (∀ def, def ∈ ForGame (GameID evt) reg → in_range def (progress_of state (Key def)) ∧
     storable evt (Outcome sp) state def) →
  ∃ d', alone (evaluatePlayer reg evt sp) d = (Some tt, d') ∧
    (∀ def, def ∈ ForGame (GameID evt) reg →
       let cur := progress_of state (Key def) in
       rows d' !! (playerID, Key def) =
       match ComputeNewProgress def cur evt (Outcome sp) with
       | (x, true) => Some (mkProgress (Z.max (Progress_Tier cur) (reached def x)) x)
       | (_, false) => rows d !! (playerID, Key def)
       end) ∧
    (∀ k, (∀ def, def ∈ ForGame (GameID evt) reg → k ≠ (playerID, Key def)) → rows d' !! k = rows d !! k) ∧
    unlocked d' = unlocked d ++
      ((λ u, (PlayerID sp, Unlock_Key u, NewTier u, TierName u)) <$>
        omap (unlock_of evt (Outcome sp) state) (ForGame (GameID evt) reg)) ∧
    (∀ def x, ComputeNewProgress def (progress_of state (Key def)) evt (Outcome sp) = (x, true) →
       (x ≤ Progress_Progress (progress_of state (Key def)))%Z →
       (reached def (Progress_Progress (progress_of state (Key def))) ≤ Progress_Tier (progress_of state (Key def)))%Z →
       unlock_of evt (Outcome sp) state def = None).
Proof.
  intros Hg Hk Hp Hin Hst Hr. unfold evaluatePlayer. rewrite Hp, alone_bind. unfold ListAchievements.
  rewrite alone_read. set (st := list_to_map _). assert (Heq : st = state).
  { apply map_eq. intros key. rewrite Hst. unfold st. apply listed. }
  cbv zeta. rewrite Heq. clear st Heq. unfold Evaluate.
  rewrite evaluateAll_omap; [|intros def Hd; by apply (defs_good reg evt Hg)|intros def Hd; by apply Hr].
  cbv iota beta. rewrite alone_bind.
  destruct (updateAll_alone reg evt Hg Hk (Outcome sp) state playerID (ForGame (GameID evt) reg) d)
    as (d1 & E1 & Hd1 & Ho1 & Hu1); [done|intros def Hd; by apply Hr|intros def Hd; by apply Hr|done| |].
  { intros def Hd. unfold current, progress_of. by rewrite Hst. }
  rewrite E1. cbv beta iota. rewrite alone_bind.
  destruct (publish_all (PlayerID sp) (omap (unlock_of evt (Outcome sp) state) (ForGame (GameID evt) reg)) d1)
    as (d2 & E2 & Hr2 & Hu2). rewrite E2. exists d2. split; [done|]. rewrite Hr2, Hu2, Hu1.
  split_and!; [|done|done|intros def x Hx Hle Hc; unfold unlock_of; cbv zeta; rewrite Hx; by apply due_none].
  intros def Hd. rewrite Hd1 by done. unfold after. by destruct (ComputeNewProgress _ _ _ _) as [x [|]].
Qed.

(** ** The registered achievements *)

Definition all_registered : registry :=
  [ttt_perfect_game; ttt_games_played; games_played; games_won; win_streak; first_draw].

Lemma registered_all : registered = Some all_registered.
Proof. reflexivity. Qed.

Lemma registered_good def : def ∈ all_registered → good def.
Proof.
  unfold all_registered. rewrite !elem_of_cons, elem_of_nil.
  intros [->|[->|[->|[->|[->|[->|[]]]]]]]; (split; [|split; [done|by intros]]); cbn;
    repeat (constructor; [|repeat (constructor; [lia|]); constructor]); constructor.
Qed.

Lemma registered_keys : NoDup (Key <$> all_registered).
Proof. apply (bool_decide_unpack _). vm_compute. done. Qed.

(** ** A deployment *)

Definition gamer : uuid := "ann".

Definition perfect_game : GameSessionFinished :=
  mkGameSessionFinished "event" "session" "result" "room" "tictactoe" "casual" "win" "ann" false 20 5
    [mkSessionPlayer "ann" 0 "win"].

Definition beginner : AchievementDB := mkAchievementDB ∅ {[gamer]} [].

Lemma evaluatePlayer_spec_witness :
  ∃ d', alone (evaluatePlayer all_registered perfect_game (mkSessionPlayer "ann" 0 "win")) beginner = (Some tt, d') ∧
    rows d' !! (gamer, "ttt_perfect_game") = Some (mkProgress 1 1).
Proof.
  destruct (evaluatePlayer_spec all_registered perfect_game (mkSessionPlayer "ann" 0 "win") gamer beginner ∅)
    as (d' & E & Hr & _).
  - exact registered_good.
  - exact registered_keys.
  - reflexivity.
  - by apply elem_of_singleton.
  - intros key. cbn. by rewrite !lookup_empty.
  - intros def. change (ForGame (GameID perfect_game) all_registered) with all_registered.
    unfold all_registered. rewrite !elem_of_cons, elem_of_nil.
    intros [->|[->|[->|[->|[->|[->|[]]]]]]]; split; cbn; try lia; by intros.
  - exists d'. split; [exact E|]. apply (Hr ttt_perfect_game). by left.
Defined.

(** ** A tier that lags behind *)

(** "(value, true) with value ≤ cur: persisted but cannot tier-up", says the comment of
    [ProgressFunc]. A row whose tier is below the one that its progress reaches does. *)
Theorem lagging_tier_catches_up :
  let state : gmap string Progress := {["first_draw" := mkProgress 0 1]} in
  ComputeNewProgress first_draw (progress_of state "first_draw") perfect_game "draw" = (1%Z, true) ∧
  NewTier <$> unlock_of perfect_game "draw" state first_draw = Some 1%Z.
Proof. vm_compute. by split. Qed.

(** ** Redelivery and failures *)

Abbreviation payload := (option GameSessionFinished).

Definition watcher : Streams.Worker payload AchievementDB :=
  Streams.NewWorker "user-service" (handle all_registered true).

Definition idle_broker : Streams.broker payload AchievementDB :=
  Streams.mkBroker 0 [] 0 (Some (0, ∅)) [] 0 beginner.

Abbreviation sched := (list (label (Streams.call payload) (Streams.happening payload AchievementDB))).
Abbreviation watch ls := (Streams.run [watcher] ls (idle_broker, [])).1.

Definition delivered_once : sched :=
  [Spawn (Streams.Call_publish (Some perfect_game)); Run 0; Spawn (Streams.Call_consume 0); Run 1].

(** The acknowledgement fails after the handler has succeeded; the message is delivered
    again, and the one game counts twice. *)
Definition unacknowledged : sched :=
  delivered_once ++ replicate 9 (Run 1) ++ Break 1 :: Event (Streams.Wait Streams.defaultClaimMinIdle) ::
  Spawn (Streams.Call_claim 0 0) :: replicate 12 (Run 2).

Theorem one_game_counted_twice :
  rows (Streams.store (watch unacknowledged)) !! (gamer, "games_played") = Some (mkProgress 1 2) ∧
  Streams.group (watch unacknowledged) = Some (1, ∅).
Proof. split; vm_compute; reflexivity. Qed.

(** The achievements cannot be read: the error is logged and the message acknowledged. *)
Definition unreadable : sched := delivered_once ++ [Break 1; Run 1].

Theorem progress_lost :
  rows (Streams.store (watch unreadable)) = ∅ ∧
  Streams.group (watch unreadable) = Some (1, ∅) ∧ Streams.dlq (watch unreadable) = [].
Proof. split_and!; vm_compute; reflexivity. Qed.
