(* ===== verification/EventLog.v ===== *)
(** The event log of a session (game-server/internal/platform/events,
    platform/store/pg_events.go): events are appended to a Redis stream, written to
    Postgres when the session ends, and read back from wherever they are. *)
From S2P Require Import Prelude Json Backend Programs.
Import Programs.

Module EventLog.

(** ** What the log is written with *)

(** Times are in nanoseconds since 1970 (UTC), the resolution of [time.Time]. *)
Definition zeroTime : Z := (- 62135596800 * 10 ^ 9)%Z.

(** The years that RFC 3339 can write, after the zero time. *)
Definition writable (t : Z) : Prop := (zeroTime < t < 253402300800 * 10 ^ 9)%Z.

(** [json.Marshal], time.RFC3339Nano, and the text that a JSONB column gives back for
    a text, [None] when it is refused. *)
Class EventCodec := {
  Marshal : any → option string;
  FormatTime : Z → string;
  ParseTime : string → option Z;
  ParseTime_Format : ∀ t, writable t → ParseTime (FormatTime t) = Some t;
  jsonb : string → option string
}.

Section Log.
Context `{UUID, EventCodec}.

(** ** Events *)

Definition TypeGameStarted : string := "game_started".
Definition TypeMoveApplied : string := "move_applied".
Definition TypeGameOver : string := "game_over".
Definition TypeTurnTimeout : string := "turn_timeout".
Definition TypePlayerSurrendered : string := "player_surrendered".
Definition TypeRematchVoted : string := "rematch_voted".

(** The id of a stream entry, written ["ms-seq"]. *)
Definition entry_id : Type := Z * Z.

(** [Event], and the row of [session_events] that it becomes. *)
Record Event := mkEvent {
  ID : entry_id; SessionID : uuid; Event_Type : string; PlayerID : option uuid;
  Payload : option string; OccurredAt : Z
}.

Record CreateSessionEventParams := mkParams {
  P_SessionID : uuid; StreamID : entry_id; EventType : string; P_PlayerID : option uuid;
  P_Payload : option string; P_OccurredAt : Z
}.

Record SessionEvent := mkSessionEvent { row_ID : Z; row : CreateSessionEventParams }.

(** ** The two stores *)

(** An entry of a stream: [redis.XMessage]. *)
Record entry := mkEntry { entry_ID : entry_id; Values : gmap string string }.

(** The clocks of the process and of Redis (in milliseconds), the streams by session,
    the table with its sequence, and the keys that its rows refer to. *)
Record log := mkLog {
  wall : Z; redis_ms : Z;
  streams : gmap uuid (list entry);
  session_events : list SessionEvent; serial : Z;
  sessions : gset uuid; players : gset uuid
}.

Definition set_clocks (w r : Z) (s : log) : log :=
  mkLog w r (streams s) (session_events s) (serial s) (sessions s) (players s).
Definition set_streams m (s : log) : log :=
  mkLog (wall s) (redis_ms s) m (session_events s) (serial s) (sessions s) (players s).
Definition set_events rows n (s : log) : log :=
  mkLog (wall s) (redis_ms s) (streams s) rows n (sessions s) (players s).

Definition stream (sid : uuid) (s : log) : list entry := default [] (streams s !! sid).

(** The id that [XADD key *] chooses after the last entry. *)
Definition next_id (now : Z) (l : list entry) : entry_id :=
  match last l with
  | Some e => if (fst (entry_ID e) <? now)%Z then (now, 0%Z) else (fst (entry_ID e), (snd (entry_ID e) + 1)%Z)
  | None => (now, 0%Z)
  end.

(** [XADD], [XRANGE key - +], [EXISTS] and [DEL] *)
Definition XAdd (sid : uuid) (values : gmap string string) (s : log) : log :=
  let l := stream sid s in
  set_streams (<[sid := l ++ [mkEntry (next_id (redis_ms s) l) values]]> (streams s)) s.
Definition XRange (sid : uuid) (s : log) : list entry := stream sid s.
Definition Exists (sid : uuid) (s : log) : bool :=
  match streams s !! sid with Some _ => true | None => false end.
Definition Del (sid : uuid) (s : log) : log := set_streams (delete sid (streams s)) s.

(** TIMESTAMPTZ has a resolution of a microsecond. *)
Definition micro (t : Z) : Z := (t / 1000 * 1000)%Z.

(** [INSERT INTO session_events ... ON CONFLICT (stream_id) DO NOTHING]. The sequence
    is advanced first; [None] when the statement is refused. *)
Definition insert_event (p : CreateSessionEventParams) (t : list SessionEvent * Z) (s : log)
    : option (list SessionEvent) :=
  payload ← match P_Payload p with
            | None => Some None
            | Some raw => x ← jsonb raw; Some (Some x)
            end;
  if decide (StreamID p ∈ (StreamID ∘ row) <$> t.1) then Some t.1
  else if decide (P_SessionID p ∈ sessions s) then
    if match P_PlayerID p with None => true | Some u => bool_decide (u ∈ players s) end
    then Some (t.1 ++ [mkSessionEvent t.2 (mkParams (P_SessionID p) (StreamID p) (EventType p)
                 (P_PlayerID p) payload (micro (P_OccurredAt p)))])
    else None
  else None.

(** The statements of the transaction, and the sequence after them. *)
Fixpoint insert_events (ps : list CreateSessionEventParams) (t : list SessionEvent * Z) (s : log)
    : option (list SessionEvent) * Z :=
  match ps with
  | [] => (Some t.1, t.2)
  | p :: ps =>
      match insert_event p t s with
      | None => (None, (t.2 + 1)%Z)
      | Some rows => insert_events ps (rows, (t.2 + 1)%Z) s
      end
  end.

(** One transaction: all the rows or none, false on an error. *)
Definition BulkCreateSessionEvents (ps : list CreateSessionEventParams) (s : log) : bool * log :=
  match insert_events ps (session_events s, serial s) s with
  | (Some rows, n) => (true, set_events rows n s)
  | (None, n) => (false, set_events (session_events s) n s)
  end.

(** [ORDER BY occurred_at ASC, id ASC] *)
Definition event_le (x y : SessionEvent) : Prop :=
  (P_OccurredAt (row x) < P_OccurredAt (row y))%Z ∨
  (P_OccurredAt (row x) = P_OccurredAt (row y) ∧ row_ID x ≤ row_ID y)%Z.
#[export] Instance event_le_dec x y : Decision (event_le x y).
Proof. unfold event_le. apply _. Defined.

Definition ListSessionEvents (sid : uuid) (s : log) : list SessionEvent :=
  merge_sort event_le (filter (λ e, P_SessionID (row e) = sid) (session_events s)).

(** ** The operations *)

Definition time_Now : prog log Z := local 0%Z (λ s, (wall s, s)).

(** The fields of an entry. *)
Definition fields (sid : uuid) (eventType : string) (playerID : option uuid) (raw : string) (t : Z)
    : gmap string string :=
  let f := <["session_id" := uuid_String sid]> (<["type" := eventType]>
            (<["payload" := raw]> {["occurred_at" := FormatTime t]})) in
  match playerID with Some u => <["player_id" := uuid_String u]> f | None => f end.

(** Errors are logged and nothing is returned. *)
Definition Append (sid : uuid) (eventType : string) (playerID : option uuid) (payload : any)
    : prog log unit :=
  match Marshal payload with
  | None => mret tt
  | Some raw =>
      t ← time_Now;
      ignore (write (XAdd sid (fields sid eventType playerID raw t)))
  end.

(** [None] is the panic of a type assertion on a missing field. *)
Definition parseEntry (sid : uuid) (e : entry) (now : Z) : option CreateSessionEventParams :=
  ty ← Values e !! "type";
  let player := raw ← Values e !! "player_id";
                if decide (raw = "") then None else uuid_Parse raw in
  let at_ := default zeroTime (raw ← Values e !! "occurred_at"; ParseTime raw) in
  Some (mkParams sid (entry_ID e) ty player (Values e !! "payload")
          (if decide (at_ = zeroTime) then now else at_)).

Fixpoint parseEntries (sid : uuid) (l : list entry) : prog log (option (list CreateSessionEventParams)) :=
  match l with
  | [] => mret (Some [])
  | e :: l =>
      t ← time_Now;
      match parseEntry sid e t with
      | None => mret None
      | Some p => ps ← parseEntries sid l; mret (cons p <$> ps)
      end
  end.

Definition Persist (sid : uuid) : prog log unit :=
  r ← read (XRange sid);
  match r with
  | None | Some [] => mret tt
  | Some entries =>
      ps ← parseEntries sid entries;
      match ps with
      | None => mret tt
      | Some params =>
          ok ← cmd (BulkCreateSessionEvents params);
          match ok with
          | Some true => ignore (write (Del sid))
          | _ => mret tt
          end
      end
  end.

Definition entryParamsToEvent (id : entry_id) (p : CreateSessionEventParams) : Event :=
  mkEvent id (P_SessionID p) (EventType p) (P_PlayerID p) (P_Payload p) (P_OccurredAt p).

Definition readFromStream (sid : uuid) : prog log (result error (list Event)) :=
  r ← read (XRange sid);
  match r with
  | None => mret (Err (Wrap "events.Read: XRange" (Driver "redis")))
  | Some entries =>
      ps ← parseEntries sid entries;
      mret (match ps with
            | None => Err (Panic "interface conversion")
            | Some params => Ok (map (λ p, entryParamsToEvent (StreamID p) p) params)
            end)
  end.

Definition readFromDB (sid : uuid) : prog log (result error (list Event)) :=
  r ← read (ListSessionEvents sid);
  mret (match r with
        | None => Err (Wrap "events.Read: list from db" (Driver "ListSessionEvents"))
        | Some rows => Ok (map (λ e, entryParamsToEvent (StreamID (row e)) (row e)) rows)
        end).

Definition Read (sid : uuid) : prog log (result error (list Event)) :=
  exists_ ← read (Exists sid);
  match exists_ with
  | Some true => readFromStream sid
  | _ => readFromDB sid
  end.

(** ** Who writes to the log *)

Definition obj (l : list (string * any)) : any := Map (list_to_map l).
Definition player_or_null (u : option uuid) : any :=
  match u with Some u => Str (uuid_String u) | None => Nil end.

(** The end of [StartSession], of [ApplyMove] (in a running and in a finished game), of
    [Surrender], of a vote for a rematch, and of a turn that timed out. *)
Definition gameStarted (sid : uuid) (gameID : string) (turnTimeoutSecs : any) : prog log unit :=
  Append sid TypeGameStarted None (obj [("game_id", Str gameID); ("turn_timeout_secs", turnTimeoutSecs)]).

Definition moveApplied (sid player : uuid) (moveNumber : Z) (payload : any) : prog log unit :=
  Append sid TypeMoveApplied (Some player) (obj [("move_number", Int moveNumber); ("payload", payload)]).

Definition gameOver (sid player : uuid) (moveNumber : Z) (payload : any) (winner : option string)
    (status : string) : prog log unit :=
  moveApplied sid player moveNumber payload;;
  Append sid TypeGameOver None
    (obj [("winner_id", match winner with Some w => Str w | None => Nil end);
          ("status", Str status); ("ended_by", Str EndedByNormal)]);;
  Persist sid.

Definition surrendered (sid player : uuid) (opponent : option uuid) : prog log unit :=
  Append sid TypePlayerSurrendered (Some player)
    (obj [("player_id", Str (uuid_String player)); ("opponent_id", player_or_null opponent)]);;
  Append sid TypeGameOver None
    (obj [("winner_id", player_or_null opponent); ("status", Str OutcomeWin);
          ("ended_by", Str EndedByForfeit)]);;
  Persist sid.

Definition rematchVoted (sid player : uuid) : prog log unit :=
  Append sid TypeRematchVoted (Some player) (obj [("player_id", Str (uuid_String player))]).

(** [uuid.Parse] answers the nil UUID with its error, but the caller has parsed it. *)
Definition turnTimeout (sid timedOut : uuid) : prog log unit :=
  Append sid TypeTurnTimeout (Some timedOut)
    (obj [("timed_out_player", Str (uuid_String timedOut)); ("penalty", Str "engine_timeout")]).

Inductive call : Type :=
  | Call_started (sid : uuid) (gameID : string) (turnTimeoutSecs : any)
  | Call_move (sid player : uuid) (moveNumber : Z) (payload : any)
  | Call_over (sid player : uuid) (moveNumber : Z) (payload : any) (winner : option string) (status : string)
  | Call_surrender (sid player : uuid) (opponent : option uuid)
  | Call_rematch (sid player : uuid)
  | Call_timeout (sid timedOut : uuid)
  | Call_read (sid : uuid).

Definition body (c : call) : prog log unit :=
  match c with
  | Call_started sid g t => gameStarted sid g t
  | Call_move sid p n x => moveApplied sid p n x
  | Call_over sid p n x w st => gameOver sid p n x w st
  | Call_surrender sid p o => surrendered sid p o
  | Call_rematch sid p => rematchVoted sid p
  | Call_timeout sid p => turnTimeout sid p
  | Call_read sid => ignore (Read sid)
  end.

(** The clocks move on, each at its own pace. *)
Inductive happening : Type := Clocks (w r : Z).
Definition happen (e : happening) (s : log) : log := let 'Clocks w r := e in set_clocks w r s.

Definition run (ls : list (label call happening)) (s : log) : log :=
  (Programs.run body happen ls (s, [])).1.

End Log.
End EventLog.
