(* ===== verification/EventLogSpec.v ===== *)
(** The event log: what is appended is what is read, from the stream and from the
    table; and the runs in which events do not come back. *)
From S2P Require Import Prelude Json Backend Demo Programs EventLog.
From Stdlib Require DecimalString DecimalZ.
Import Demo Programs EventLog.

(** ** Ids of entries *)

Definition id_lt (a b : entry_id) : Prop := (a.1 < b.1 ∨ a.1 = b.1 ∧ a.2 < b.2)%Z.

#[export] Instance id_lt_trans : Transitive id_lt.
Proof. intros [] [] []. unfold id_lt. cbn. lia. Qed.
#[export] Instance id_lt_irrefl : Irreflexive id_lt.
Proof. intros []. unfold complement, id_lt. cbn. lia. Qed.

Lemma StronglySorted_snoc {A} (R : relation A) `{!Transitive R} l x :
  StronglySorted R l → (∀ y, last l = Some y → R y x) → StronglySorted R (l ++ [x]).
Proof.
  intros Hl Hx. apply StronglySorted_app. split_and!; [|done|by repeat constructor].
  intros a b Ha ->%list_elem_of_singleton. revert Hx Ha.
  induction Hl as [|y l Hl IH Hy]; intros Hx Ha; [by apply not_elem_of_nil in Ha|].
  apply elem_of_cons in Ha as [->|Ha].
  - destruct (last l) as [z|] eqn:E.
    + transitivity z; [rewrite Forall_forall in Hy; by apply Hy, last_Some_elem_of|].
      apply Hx. destruct l; [done|]. by rewrite last_cons_cons.
    + apply last_None in E as ->. by apply Hx.
  - apply IH; [|done]. intros z Hz. apply Hx. destruct l; [done|]. by rewrite last_cons_cons.
Qed.

Lemma StronglySorted_NoDup {A} (R : relation A) `{!Irreflexive R} l : StronglySorted R l → NoDup l.
Proof.
  induction 1 as [|x l Hl IH Hx]; constructor; [|done]. intros Hin.
  rewrite Forall_forall in Hx. by apply (irreflexivity R x), Hx.
Qed.

Lemma filter_none {A} (P : A → Prop) `{!∀ x, Decision (P x)} l : Forall (λ x, ¬ P x) l → filter P l = [].
Proof. induction 1 as [|x l Hx Hl IH]; [done|]. by rewrite filter_cons_False. Qed.

Section Roundtrip.
Context `{UUID, EventCodec}.

Lemma next_id_lt now l e : last l = Some e → id_lt (entry_ID e) (next_id now l).
Proof. intros E. unfold next_id. rewrite E. unfold id_lt. destruct (Z.ltb_spec (fst (entry_ID e)) now); cbn; lia. Qed.

(** ** Appending *)

(** An event of a session, and the two clocks when it is appended. *)
Record item := mkItem { at_ : Z; redis_at : Z; kind : string; who : option uuid; what : any }.

Definition append_at (sid : uuid) (s : log) (it : item) : log :=
  (alone (Append sid (kind it) (who it) (what it)) (set_clocks (at_ it) (redis_at it) s)).2.
Definition appended (sid : uuid) (its : list item) (s : log) : log := foldl (append_at sid) s its.

Definition text (it : item) : string := default "" (Marshal (what it)).
(** The payload can be marshalled, the time written; the text of a UUID is not empty. *)
Definition readable (it : item) : Prop :=
  is_Some (Marshal (what it)) ∧ writable (at_ it) ∧ ∀ u, who it = Some u → uuid_String u ≠ "".

Definition entry_of (sid : uuid) (id : entry_id) (it : item) : entry :=
  mkEntry id (fields sid (kind it) (who it) (text it) (at_ it)).
Definition event_of (sid : uuid) (id : entry_id) (it : item) : Event :=
  mkEvent id sid (kind it) (who it) (Some (text it)) (at_ it).
Definition params_of (sid : uuid) (id : entry_id) (it : item) : CreateSessionEventParams :=
  mkParams sid id (kind it) (who it) (Some (text it)) (at_ it).

(** Two logs that differ at most in the stream of [sid] and the clocks. *)
Definition same_but (sid : uuid) (s s' : log) : Prop :=
  session_events s' = session_events s ∧ serial s' = serial s ∧
  sessions s' = sessions s ∧ players s' = players s ∧
  ∀ u, u ≠ sid → streams s' !! u = streams s !! u.

Lemma append_at_eq sid s it : readable it →
  append_at sid s it = XAdd sid (fields sid (kind it) (who it) (text it) (at_ it))
                         (set_clocks (at_ it) (redis_at it) s).
Proof.
  intros ([raw E] & _). unfold append_at, Append, text. rewrite E. cbn. reflexivity.
Qed.

Lemma stream_XAdd sid f s :
  stream sid (XAdd sid f s) = stream sid s ++ [mkEntry (next_id (redis_ms s) (stream sid s)) f].
Proof. unfold stream at 1, XAdd. cbn. by rewrite lookup_insert_eq. Qed.

Lemma append_at_spec sid s it : readable it → StronglySorted id_lt (entry_ID <$> stream sid s) →
  ∃ id, stream sid (append_at sid s it) = stream sid s ++ [entry_of sid id it] ∧
    StronglySorted id_lt (entry_ID <$> stream sid (append_at sid s it)) ∧
    same_but sid s (append_at sid s it) ∧ streams (append_at sid s it) !! sid = Some (stream sid s ++ [entry_of sid id it]).
Proof.
  intros Hit Hs. rewrite append_at_eq by done. rewrite stream_XAdd.
  set (id := next_id _ _). exists id. unfold entry_of. split; [done|]. split_and!.
  - rewrite fmap_app. apply StronglySorted_snoc; [apply _|done|]. intros y Hy.
    rewrite fmap_last in Hy. apply fmap_Some in Hy as (e & He & ->). by apply next_id_lt.
  - unfold same_but, XAdd. cbn. split_and!; try done. intros u Hu. by rewrite lookup_insert_ne.
  - unfold XAdd. cbn. by rewrite lookup_insert_eq.
Qed.

Lemma appended_spec sid its s : Forall readable its → StronglySorted id_lt (entry_ID <$> stream sid s) →
  ∃ ids, length ids = length its ∧
    stream sid (appended sid its s) = stream sid s ++ zip_with (entry_of sid) ids its ∧
    StronglySorted id_lt (entry_ID <$> stream sid (appended sid its s)) ∧
    same_but sid s (appended sid its s) ∧
    (its ≠ [] → Exists sid (appended sid its s) = true).
Proof.
  intros Hits. revert s. induction Hits as [|it its Hit Hits IH]; intros s Hs.
  { exists []. cbn. rewrite app_nil_r. by split_and!. }
  destruct (append_at_spec sid s it Hit Hs) as (id & E & Hs' & (H1&H2&H3&H4&H5) & E').
  cbn. destruct (IH _ Hs') as (ids & Hlen & Est & Hsorted & (H1'&H2'&H3'&H4'&H5') & Hex).
  exists (id :: ids). split_and!; [cbn; by f_equal| |done| |].
  - unfold appended in Est. rewrite Est, E, <-app_assoc. done.
  - unfold same_but in *. unfold appended in *. split_and!; try congruence. intros u Hu.
    rewrite H5' by done. by apply H5.
  - intros _. destruct its as [|it' its]; [|by apply Hex]. cbn. unfold Exists. by rewrite E'.
Qed.

(** ** Reading *)

Lemma fields_lookup sid it :
  let f := fields sid (kind it) (who it) (text it) (at_ it) in
  f !! "type" = Some (kind it) ∧ f !! "player_id" = uuid_String <$> who it ∧
  f !! "occurred_at" = Some (FormatTime (at_ it)) ∧ f !! "payload" = Some (text it).
Proof. unfold fields. by destruct (who it). Qed.

Lemma parse_fields sid id it now : readable it →
  parseEntry sid (entry_of sid id it) now = Some (params_of sid id it).
Proof.
  intros (_ & Ht & Hu). unfold parseEntry, entry_of, params_of. cbn [Values entry_ID].
  destruct (fields_lookup sid it) as (-> & -> & -> & ->). cbn. rewrite ParseTime_Format by done. cbn.
  rewrite decide_False by (unfold writable in Ht; lia). do 2 f_equal.
  destruct (who it) as [u|]; cbn; [|done]. rewrite decide_False by auto. apply uuid_Parse_String.
Qed.

Lemma alone_parseEntries sid e l s :
  alone (parseEntries sid (e :: l)) s =
  match parseEntry sid e (wall s) with
  | None => (None, s)
  | Some p => let '(ps, s') := alone (parseEntries sid l) s in (cons p <$> ps, s')
  end.
Proof.
  cbn [parseEntries]. rewrite alone_bind. cbn [alone time_Now local]. cbn.
  destruct (parseEntry sid e (wall s)); [|done]. rewrite alone_bind. by destruct (alone _ s).
Qed.

Lemma parseEntries_spec sid ids its s : Forall readable its →
  alone (parseEntries sid (zip_with (entry_of sid) ids its)) s =
  (Some (zip_with (params_of sid) ids its), s).
Proof.
  intros Hits. revert ids. induction Hits as [|it its Hit Hits IH]; intros [|id ids]; [done..|].
  cbn [zip_with]. rewrite alone_parseEntries, parse_fields by done. by rewrite IH.
Qed.

(** ** The table *)

(** What the table makes of an event. *)
Definition stored_text (it : item) : string := default "" (jsonb (text it)).
Definition storable (s : log) (it : item) : Prop :=
  is_Some (jsonb (text it)) ∧ ∀ u, who it = Some u → u ∈ players s.
Definition stored_event (sid : uuid) (id : entry_id) (it : item) : Event :=
  mkEvent id sid (kind it) (who it) (Some (stored_text it)) (micro (at_ it)).

Fixpoint stored_rows (sid : uuid) (n : Z) (ids : list entry_id) (its : list item) : list SessionEvent :=
  match ids, its with
  | id :: ids, it :: its =>
      mkSessionEvent n (mkParams sid id (kind it) (who it) (Some (stored_text it)) (micro (at_ it)))
        :: stored_rows sid (n + 1) ids its
  | _, _ => []
  end.

Lemma insert_events_fresh sid ids its rows n s :
  NoDup ids → (∀ e, e ∈ rows → StreamID (row e) ∉ ids) →
  sid ∈ sessions s → Forall (storable s) its → length ids = length its →
  insert_events (zip_with (params_of sid) ids its) (rows, n) s =
  (Some (rows ++ stored_rows sid n ids its), (n + Z.of_nat (length its))%Z).
Proof.
  intros Hnd Hrows Hsid Hits. revert ids rows n Hnd Hrows.
  induction Hits as [|it its [[x Ex] Hwho] Hits IH]; intros [|id ids] rows n Hnd Hrows Hlen; try done.
  { cbn. by rewrite app_nil_r, Z.add_0_r. }
  apply NoDup_cons in Hnd as [Hid Hnd]. cbn [zip_with insert_events].
  assert (E : insert_event (params_of sid id it) (rows, n) s = Some (rows ++
    [mkSessionEvent n (mkParams sid id (kind it) (who it) (Some (stored_text it)) (micro (at_ it)))])).
  { unfold insert_event, stored_text. cbn [P_Payload params_of]. rewrite Ex. cbn.
    rewrite decide_False, decide_True by (first [done|intros (e & -> & He)%list_elem_of_fmap; apply (Hrows e He); by left]).
    destruct (who it) as [u|]; [|done]. rewrite bool_decide_true by auto. done. }
  rewrite E. cbn [fst snd]. rewrite IH; [cbn [stored_rows length]; rewrite <-app_assoc; f_equal; cbn; lia|done| |by injection Hlen].
  intros e [He| ->%list_elem_of_singleton]%elem_of_app; [|done].
  intros Hin. apply (Hrows e He). by right.
Qed.

Lemma stored_rows_of sid n ids its : Forall (λ e, P_SessionID (row e) = sid) (stored_rows sid n ids its).
Proof. revert n its. induction ids as [|id ids IH]; intros n [|it its]; cbn; constructor; auto. Qed.

Lemma stored_rows_events sid n ids its :
  map (λ e, entryParamsToEvent (StreamID (row e)) (row e)) (stored_rows sid n ids its) =
  zip_with (stored_event sid) ids its.
Proof. revert n its. induction ids as [|id ids IH]; intros n [|it its]; cbn; f_equal; auto. Qed.

Lemma micro_mono a b : (a ≤ b)%Z → (micro a ≤ micro b)%Z.
Proof. intros Hab. unfold micro. pose proof (Z.div_le_mono a b 1000 ltac:(lia) Hab). lia. Qed.

Lemma stored_rows_sorted sid n ids its : StronglySorted Z.le (at_ <$> its) →
  StronglySorted event_le (stored_rows sid n ids its) ∧
  Forall (λ e, n ≤ row_ID e)%Z (stored_rows sid n ids its) ∧
  Forall (λ e, ∃ it, it ∈ its ∧ P_OccurredAt (row e) = micro (at_ it)) (stored_rows sid n ids its).
Proof.
  revert n its. induction ids as [|id ids IH]; intros n [|it its] Hs; [by split_and!; constructor..|].
  cbn in Hs. apply StronglySorted_inv in Hs as [Hs Hit]. destruct (IH (n + 1)%Z its Hs) as (H1 & H2 & H3).
  rewrite Forall_forall in Hit. rewrite Forall_forall in H2. rewrite Forall_forall in H3.
  cbn. rewrite !Forall_forall. split_and!.
  - constructor; [done|]. rewrite Forall_forall. intros e He. specialize (H2 e He).
    destruct (H3 e He) as (it' & Hin & E). unfold event_le. cbn. rewrite E.
    assert (micro (at_ it) ≤ micro (at_ it'))%Z; [|lia]. apply micro_mono, Hit. by apply list_elem_of_fmap_2.
  - intros e [->|He]%elem_of_cons; [done|]. specialize (H2 e He). lia.
  - intros e [->|He]%elem_of_cons; [exists it; split; [by left|done]|].
    destruct (H3 e He) as (it' & Hin & E). exists it'. split; [by right|done].
Qed.

#[local] Instance event_le_trans : Transitive event_le.
Proof. intros x y z. unfold event_le. lia. Qed.
#[local] Instance event_le_total : Total event_le.
Proof. intros x y. unfold event_le. lia. Qed.

(** A sorted list of rows with different ids is left alone. *)
Lemma merge_sort_sorted (l : list SessionEvent) :
  StronglySorted event_le l → (∀ x y, x ∈ l → y ∈ l → row_ID x = row_ID y → x = y) →
  merge_sort event_le l = l.
Proof.
  intros Hs Hid. eapply (StronglySorted_unique_strong event_le); [| |done|by rewrite merge_sort_Permutation].
  - intros x y Hx Hy Hxy Hyx. rewrite merge_sort_Permutation in Hx. apply Hid; [done..|].
    unfold event_le in *. lia.
  - apply StronglySorted_merge_sort; apply _.
Qed.

Lemma stored_rows_inj sid n ids its x y :
  x ∈ stored_rows sid n ids its → y ∈ stored_rows sid n ids its → row_ID x = row_ID y → x = y.
Proof.
  assert (Hge : ∀ ids its n e, e ∈ stored_rows sid n ids its → (n ≤ row_ID e)%Z).
  { clear. induction ids as [|id ids IH]; intros [|it its] n e; cbn; try by intros ?%not_elem_of_nil.
    intros [->|He]%elem_of_cons; [done|]. specialize (IH its _ _ He). lia. }
  revert n its. induction ids as [|id ids IH]; intros n [|it its]; cbn; try by intros ?%not_elem_of_nil.
  intros [->|Hx]%elem_of_cons [->|Hy]%elem_of_cons; cbn; [done|..|by apply (IH (n + 1)%Z its)].
  - apply Hge in Hy. lia.
  - apply Hge in Hx. lia.
Qed.

(** ** Persisting *)

Lemma Read_stream sid ids its s : Forall readable its → Exists sid s = true →
  stream sid s = zip_with (entry_of sid) ids its →
  alone (Read sid) s = (Ok (zip_with (event_of sid) ids its), s).
Proof.
  intros Hits Hex Hst. unfold Read. rewrite alone_bind, alone_read. cbv beta iota. rewrite Hex.
  unfold readFromStream. rewrite alone_bind, alone_read. cbv beta iota. unfold XRange.
  rewrite Hst, alone_bind, parseEntries_spec by done. cbn. f_equal. f_equal.
  clear. revert its. induction ids as [|id ids IH]; intros [|it its]; cbn; f_equal; auto.
Qed.

Lemma Read_table sid s : Exists sid s = false →
  alone (Read sid) s =
  (Ok (map (λ e, entryParamsToEvent (StreamID (row e)) (row e)) (ListSessionEvents sid s)), s).
Proof. intros Hex. unfold Read. rewrite alone_bind, alone_read. cbv beta iota. by rewrite Hex. Qed.

Lemma Persist_spec sid ids its s :
  Forall readable its → stream sid s = zip_with (entry_of sid) ids its →
  length ids = length its → its ≠ [] →
  NoDup ids → (∀ e, e ∈ session_events s → StreamID (row e) ∉ ids) →
  sid ∈ sessions s → Forall (storable s) its →
  (alone (Persist sid) s).2 =
  Del sid (set_events (session_events s ++ stored_rows sid (serial s) ids its)
             (serial s + Z.of_nat (length its)) s).
Proof.
  intros Hits Hst Hlen Hne Hnd Hrows Hsid Hsto. unfold Persist. rewrite alone_bind, alone_read.
  cbv beta iota. unfold XRange. rewrite Hst.
  destruct (zip_with (entry_of sid) ids its) as [|e l] eqn:E; [by destruct its, ids|]. rewrite <-E.
  rewrite alone_bind, parseEntries_spec by done. cbv beta iota. rewrite alone_bind, alone_cmd.
  unfold BulkCreateSessionEvents. rewrite insert_events_fresh by done. cbv beta iota. done.
Qed.

Lemma ListSessionEvents_stored sid n ids its rows s :
  session_events s = rows ++ stored_rows sid n ids its →
  Forall (λ e, P_SessionID (row e) ≠ sid) rows → StronglySorted Z.le (at_ <$> its) →
  ListSessionEvents sid s = stored_rows sid n ids its.
Proof.
  intros E Hrows Hs. unfold ListSessionEvents. rewrite E, filter_app.
  assert (filter (λ e, P_SessionID (row e) = sid) rows = []) as ->.
  { by apply filter_none. }
  pose proof (stored_rows_of sid n ids its) as Hof.
  assert (filter (λ e, P_SessionID (row e) = sid) (stored_rows sid n ids its) = stored_rows sid n ids its) as ->.
  { apply filter_all. by rewrite Forall_forall in Hof. }
  apply merge_sort_sorted; [by apply stored_rows_sorted|]. intros x y. apply stored_rows_inj.
Qed.

(** C25 Whatever is appended to the log of a session is what is read, in order and with
    the time and the payload it had. Persisting deletes the stream and leaves the logs
    of other sessions alone, and then the same events are read from the table, in the
    same order, with the payload as the column gives it back and the time cut to
    microseconds, provided the rows may refer to the session and the players, the
    clock of the process did not go back and no other session has used one of the ids. *)
Theorem events_roundtrip (sid : uuid) (its : list item) (s0 : log) :
  Forall readable its → streams s0 !! sid = None →
  Forall (λ e, P_SessionID (row e) ≠ sid) (session_events s0) →
  let s := appended sid its s0 in
  ∃ ids, length ids = length its ∧ StronglySorted id_lt ids ∧
    alone (Read sid) s = (Ok (zip_with (event_of sid) ids its), s) ∧
    (sid ∈ sessions s0 → Forall (storable s0) its → StronglySorted Z.le (at_ <$> its) →
     (∀ e, e ∈ session_events s0 → StreamID (row e) ∉ ids) →
     let s' := (alone (Persist sid) s).2 in
     Exists sid s' = false ∧
     alone (Read sid) s' = (Ok (zip_with (stored_event sid) ids its), s') ∧
     ∀ u, u ≠ sid → streams s' !! u = streams s0 !! u ∧ ListSessionEvents u s' = ListSessionEvents u s0).
Proof.
  intros Hits Hnone Hrows s. assert (Hnil : stream sid s0 = []) by (unfold stream; by rewrite Hnone).
  destruct (appended_spec sid its s0 Hits) as (ids & Hlen & Hst & Hsort & (E1&E2&E3&E4&E5) & Hex);
    [rewrite Hnil; constructor|].
  rewrite Hnil in Hst. cbn [app] in Hst. fold s in Hst, Hsort, Hex, E1, E2, E3, E4, E5. exists ids.
  assert (Hsort' : StronglySorted id_lt ids).
  { rewrite Hst, fmap_zip_with_l in Hsort; [done..|lia]. }
  destruct (decide (its = [])) as [->|Hne].
  { destruct ids; [|done]. assert (Hs : s = s0) by done. clearbody s. subst s.
    assert (Hr : Exists sid s0 = false) by (unfold Exists; by rewrite Hnone).
    assert (Hl : ListSessionEvents sid s0 = []).
    { apply (ListSessionEvents_stored sid 0 [] [] (session_events s0)); [by rewrite app_nil_r|done|constructor]. }
    split_and!; [done|constructor|by rewrite Read_table, Hl|]. intros _ _ _ _.
    assert (Hp : alone (Persist sid) s0 = (tt, s0)).
    { unfold Persist. rewrite alone_bind, alone_read. unfold XRange. by rewrite Hnil. }
    rewrite Hp. cbn [snd]. split_and!; [done|by rewrite Read_table, Hl|done]. }
  split_and!; [done..|by apply Read_stream; [|apply Hex|]|]. intros Hsid Hsto Hsorted Hids s'.
  assert (Hs' : s' = Del sid (set_events (session_events s0 ++ stored_rows sid (serial s0) ids its)
             (serial s0 + Z.of_nat (length its)) s)).
  { unfold s'. rewrite (Persist_spec sid ids its s); rewrite ?E1, ?E2, ?E3; try done.
    - by eapply StronglySorted_NoDup; [apply _|].
    - eapply Forall_impl; [exact Hsto|]. intros it []. split; [done|]. by rewrite E4. }
  assert (Hex' : Exists sid s' = false).
  { rewrite Hs'. unfold Exists, Del. cbn. by rewrite lookup_delete_eq. }
  split_and!; [done| |].
  - rewrite Read_table by done.
    rewrite (ListSessionEvents_stored sid (serial s0) ids its (session_events s0)) by (rewrite ?Hs'; done).
    by rewrite stored_rows_events.
  - intros u Hu. rewrite Hs'. cbn [Del streams set_events set_streams]. split.
    + rewrite lookup_delete_ne by done. by apply E5.
    + unfold ListSessionEvents. cbn. rewrite filter_app.
      assert (filter (λ e, P_SessionID (row e) = u) (stored_rows sid (serial s0) ids its) = []) as ->.
      { apply filter_none. eapply Forall_impl; [apply stored_rows_of|]. cbn. congruence. }
      by rewrite app_nil_r.
Qed.
End Roundtrip.

(** ** Events that do not come back *)

Section Late.
Context `{UUID, EventCodec}.

(** An event that is appended after the log has been persisted starts a new stream, and
    then it is all that is read, whatever the table holds. *)
Theorem late_event_hides_table (sid : uuid) (it : item) (s : log) :
  readable it → streams s !! sid = None →
  ∃ id, (alone (Read sid) (append_at sid s it)).1 = Ok [event_of sid id it].
Proof.
  intros Hit Hnone. assert (Hnil : stream sid s = []) by (unfold stream; by rewrite Hnone).
  destruct (append_at_spec sid s it Hit) as (id & E & _ & _ & E'); [rewrite Hnil; constructor|].
  exists id. rewrite Hnil in E. rewrite (Read_stream sid [id] [it]); try done; [by constructor|].
  unfold Exists. by rewrite E'.
Qed.
End Late.

(** ** A concrete codec *)

Definition plain_codec : EventCodec.
Proof.
  refine (Build_EventCodec
    (λ v, match v with Str s => Some s | Map _ => Some "{}" | _ => None end)
    (λ t, DecimalString.NilEmpty.string_of_int (Z.to_int t))
    (λ s, Z.of_int <$> DecimalString.NilEmpty.int_of_string s) _ Some).
  intros t _. rewrite DecimalString.NilEmpty.isi. cbn. by rewrite DecimalZ.of_to.
Defined.
#[export] Existing Instance plain_codec.

(** A running session of two players, and another session. *)
Definition fresh_log : log :=
  mkLog 0 0 ∅ [] 1 {[session; room]} {[alice; bob]}.

Definition turn_of (t : Z) (u : uuid) : item := mkItem t (t / 1000000) TypeMoveApplied (Some u) (Str "move").
Definition two_turns : list item := [turn_of 1000000001 alice; turn_of 2000000002 bob].

Lemma two_turns_readable : Forall readable two_turns.
Proof.
  repeat constructor; cbn; eauto; unfold writable, zeroTime; try lia; by intros u [= <-].
Qed.

Lemma events_roundtrip_witness :
  let s := (alone (Persist session) (appended session two_turns fresh_log)).2 in
  Exists session s = false ∧
  ∃ ids, (alone (Read session) s).1 = Ok (zip_with (stored_event session) ids two_turns).
Proof.
  destruct (events_roundtrip session two_turns fresh_log) as (ids & _ & _ & _ & Hp).
  - apply two_turns_readable.
  - reflexivity.
  - constructor.
  - cbv zeta in *. destruct Hp as (He & Hr & _).
    + apply (bool_decide_unpack _). vm_compute. done.
    + repeat constructor; cbn; eauto; intros u [= <-]; apply (bool_decide_unpack _); vm_compute; done.
    + repeat constructor; cbn; lia.
    + intros e He. by apply not_elem_of_nil in He.
    + split; [exact He|]. exists ids. by rewrite Hr.
Defined.

(** Redis numbers the entries of every stream on its own, the table wants their ids to
    be unique: of two sessions in which something happens in the same millisecond, the
    second to be persisted loses the event, without an error. *)
Theorem same_millisecond_lost :
  let s := append_at room (append_at session fresh_log (turn_of 1000000001 alice)) (turn_of 1000000002 bob) in
  let s := (alone (Persist session;; Persist room) s).2 in
  is_ok (alone (Read session) s).1 = true ∧ (alone (Read room) s).1 = Ok [].
Proof. vm_compute. by split. Qed.

(** A vote for a rematch between the reading and the deletion of the stream is neither in
    the stream nor in the table. *)
Definition overtaken : list (label call happening) :=
  [Spawn (Call_over session alice 9 Nil None "draw"); Spawn (Call_rematch session bob)] ++
  replicate 5 (Run 0) ++ replicate 2 (Run 1) ++ replicate 4 (Run 0).

Theorem append_during_persist_lost :
  let s := run overtaken fresh_log in
  streams s !! session = None ∧
  (EventType ∘ row) <$> session_events s = [TypeMoveApplied; TypeGameOver].
Proof. vm_compute. by split. Qed.
