(* ===== verification/Users.v ===== *)
(** The store of the user service (services/user-service/internal/store): friendships,
    mutes, bans, reports, profiles, settings, roles, invitations and the audit log.
    Every statement is an atomic command; the achievements are in [Achievements]. *)
From S2P Require Import Prelude Json Float64 Backend Store Programs.
Import Programs Float64.

Module Users.

(** What the statements run on: [gen_random_uuid()], the [n]th, and [LOWER]. *)
Class Postgres `{UUID} := {
  gen_random_uuid : nat → uuid;
  LOWER : string → string
}.

Definition ErrNotFound : error := Sentinel "not found".
Definition ErrNoRows : error := Sentinel "no rows in result set".

Definition FriendshipStatusPending : string := "pending".
Definition FriendshipStatusAccepted : string := "accepted".
Definition FriendshipStatusBlocked : string := "blocked".
Definition ReportStatusPending : string := "pending".
Definition ReportStatusReviewed : string := "reviewed".
Definition RolePlayer : string := "player".
Definition RoleManager : string := "manager".
Definition RoleOwner : string := "owner".

Section Store.
Context `{Postgres}.

(** ** Rows *)

Record Friendship := mkFriendship {
  RequesterID : uuid; AddresseeID : uuid; Status : string; Note : option string;
  F_CreatedAt : Z; F_UpdatedAt : Z
}.
Record FriendshipView := mkFriendshipView {
  FriendID : uuid; FriendUsername : string; FriendAvatarURL : option string;
  FV_Status : string; FV_CreatedAt : Z
}.
Record PlayerMute := mkMute { MuterID : uuid; MutedID : uuid; M_CreatedAt : Z }.
Record Ban := mkBan {
  BanID : uuid; Ban_PlayerID : uuid; BannedBy : uuid; Ban_Reason : option string;
  ExpiresAt : option Z; LiftedAt : option Z; LiftedBy : option uuid; Ban_CreatedAt : Z
}.
Record PlayerReport := mkReport {
  ReportID : uuid; ReporterID : uuid; ReportedID : uuid; Report_Reason : string; Report_Context : string;
  Report_Status : string; ReviewedBy : option uuid; ReviewedAt : option Z;
  Resolution : option string; Report_BanID : option uuid; Report_CreatedAt : Z
}.
Record Player := mkPlayer {
  Player_ID : uuid; Username : string; Role : string; AvatarURL : option string; IsBot : bool;
  BotProfile : option string; Player_CreatedAt : Z; DeletedAt : option Z
}.
Record AllowedEmail := mkAllowedEmail {
  Email : string; E_Role : string; E_Note : option string; InvitedBy : option uuid;
  E_ExpiresAt : option Z; E_CreatedAt : Z
}.
Record AuditLog := mkAuditLog {
  Log_ID : uuid; ActorID : uuid; Action : string; TargetType : string; TargetID : string;
  Details : option (list (string * option string)); Log_CreatedAt : Z
}.
Record PlayerProfile := mkProfile {
  PP_PlayerID : uuid; PP_Username : string; PP_AvatarURL : option string; PP_IsBot : bool;
  PP_BotProfile : option string; Bio : option string; Country : option string; PP_UpdatedAt : Z
}.

(** [nil] is the default of the application. *)
Record PlayerSettingMap := mkSettings {
  Theme : option string; Language : option string; ReduceMotion : option bool; FontSize : option string;
  NotifyDM : option bool; NotifyGameInvite : option bool; NotifyFriendRequest : option bool;
  NotifySound : option bool;
  MuteAll : option bool; VolumeMaster : option float64; VolumeSFX : option float64;
  VolumeUI : option float64; VolumeNotifications : option float64; VolumeMusic : option float64;
  ShowMoveHints : option bool; ConfirmMove : option bool; ShowTimerWarning : option bool;
  ShowOnlineStatus : option bool; AllowDMs : option string
}.
Record PlayerSettings := mkPlayerSettings {
  PS_PlayerID : uuid; Settings : PlayerSettingMap; PS_UpdatedAt : Z
}.

(** An event that leaves the service, with what it carries; its id and time are fresh. *)
Inductive event : Type :=
  | PlayerBanned (b : Ban)
  | PlayerUnbanned (banID playerID liftedBy : uuid)
  | FriendshipRequested (requesterID : uuid) (requesterUsername : string) (addresseeID : uuid)
  | FriendshipAccepted (requesterID addresseeID : uuid)
  | AdminBroadcastSent (message broadcastType : string) (sentBy : uuid).

(** The tables, the clock of the database, how many UUIDs it has generated, and the
    events that have been sent. *)
Record tables := mkTables {
  clock : Z; generated : nat;
  players : gmap uuid Player;
  friendships : gmap (uuid * uuid) Friendship;
  player_mutes : gmap (uuid * uuid) PlayerMute;
  bans : gmap uuid Ban;
  player_reports : gmap uuid PlayerReport;
  allowed_emails : gmap string AllowedEmail;
  audit_logs : gmap uuid AuditLog;
  player_profiles : gmap uuid (option string * option string * Z);
  player_settings : gmap uuid (PlayerSettingMap * Z);
  outbox : list event
}.

Definition set_clock v s := mkTables v (generated s) (players s) (friendships s) (player_mutes s) (bans s)
  (player_reports s) (allowed_emails s) (audit_logs s) (player_profiles s) (player_settings s) (outbox s).
Definition set_generated v s := mkTables (clock s) v (players s) (friendships s) (player_mutes s) (bans s)
  (player_reports s) (allowed_emails s) (audit_logs s) (player_profiles s) (player_settings s) (outbox s).
Definition set_players v s := mkTables (clock s) (generated s) v (friendships s) (player_mutes s) (bans s)
  (player_reports s) (allowed_emails s) (audit_logs s) (player_profiles s) (player_settings s) (outbox s).
Definition set_friendships v s := mkTables (clock s) (generated s) (players s) v (player_mutes s) (bans s)
  (player_reports s) (allowed_emails s) (audit_logs s) (player_profiles s) (player_settings s) (outbox s).
Definition set_mutes v s := mkTables (clock s) (generated s) (players s) (friendships s) v (bans s)
  (player_reports s) (allowed_emails s) (audit_logs s) (player_profiles s) (player_settings s) (outbox s).
Definition set_bans v s := mkTables (clock s) (generated s) (players s) (friendships s) (player_mutes s) v
  (player_reports s) (allowed_emails s) (audit_logs s) (player_profiles s) (player_settings s) (outbox s).
Definition set_reports v s := mkTables (clock s) (generated s) (players s) (friendships s) (player_mutes s)
  (bans s) v (allowed_emails s) (audit_logs s) (player_profiles s) (player_settings s) (outbox s).
Definition set_emails v s := mkTables (clock s) (generated s) (players s) (friendships s) (player_mutes s)
  (bans s) (player_reports s) v (audit_logs s) (player_profiles s) (player_settings s) (outbox s).
Definition set_audit v s := mkTables (clock s) (generated s) (players s) (friendships s) (player_mutes s)
  (bans s) (player_reports s) (allowed_emails s) v (player_profiles s) (player_settings s) (outbox s).
Definition set_profiles v s := mkTables (clock s) (generated s) (players s) (friendships s) (player_mutes s)
  (bans s) (player_reports s) (allowed_emails s) (audit_logs s) v (player_settings s) (outbox s).
Definition set_settings v s := mkTables (clock s) (generated s) (players s) (friendships s) (player_mutes s)
  (bans s) (player_reports s) (allowed_emails s) (audit_logs s) (player_profiles s) v (outbox s).
Definition set_outbox v s := mkTables (clock s) (generated s) (players s) (friendships s) (player_mutes s)
  (bans s) (player_reports s) (allowed_emails s) (audit_logs s) (player_profiles s) (player_settings s) v.

(** ** Statements *)

(** A statement is executed, or the connection fails. *)
Definition sql {A} (c : tables → result error A * tables) : prog tables (result error A) :=
  r ← cmd c; mret (default (Err (Driver "connection")) r).
Definition query {A} (f : tables → result error A) : prog tables (result error A) :=
  sql (λ s, (f s, s)).

Definition refused {A} (constraint : string) (s : tables) : result error A * tables :=
  (Err (Driver constraint), s).

Definition player_exists (p : uuid) (s : tables) : bool := negb (is_none (players s !! p)).

(** [RowsAffected() == 0] is reported as [ErrNotFound]. *)
Definition found (n : nat) : result error unit := if n =? 0 then Err ErrNotFound else Ok tt.

(** [Row.Scan] of the first row. *)
Definition first_row {A} (l : list A) : result error A :=
  match l with x :: _ => Ok x | [] => Err ErrNoRows end.

Definition values {K V} `{Countable K} (P : V → bool) (m : gmap K V) : list V :=
  (rows (λ _ v, P v) m).*2.

(** [ORDER BY key DESC] *)
Definition order_by_desc {A} (key : A → Z) (l : list A) : list A := order_by (λ x, (- key x)%Z) l.

(** ** Friendships *)

(** [LIMIT 1] without an order: here the first in the order of the map. *)
Definition GetFriendship (a b : uuid) : prog tables (result error (option Friendship)) :=
  query (λ s, Ok (head (values (λ f,
    (bool_decide (RequesterID f = a) && bool_decide (AddresseeID f = b))
    || (bool_decide (RequesterID f = b) && bool_decide (AddresseeID f = a))) (friendships s)))).

(** The other side of a friendship, joined with the players. *)
Definition friend_of (p : uuid) (f : Friendship) : uuid :=
  if decide (RequesterID f = p) then AddresseeID f else RequesterID f.
Definition view (friend : uuid) (f : Friendship) (s : tables) : option FriendshipView :=
  p ← players s !! friend;
  Some (mkFriendshipView friend (Username p) (AvatarURL p) (Status f) (F_CreatedAt f)).

Definition ListFriends (playerID : uuid) : prog tables (result error (list FriendshipView)) :=
  query (λ s, Ok (omap (M:=list) (λ f, view (friend_of playerID f) f s) (values (λ f,
    (bool_decide (RequesterID f = playerID) || bool_decide (AddresseeID f = playerID))
    && bool_decide (Status f = FriendshipStatusAccepted)) (friendships s)))).

Definition ListPendingFriendRequests (playerID : uuid) : prog tables (result error (list FriendshipView)) :=
  query (λ s, Ok (omap (M:=list) (λ f, view (RequesterID f) f s) (order_by_desc F_CreatedAt (values (λ f,
    bool_decide (AddresseeID f = playerID) && bool_decide (Status f = FriendshipStatusPending))
    (friendships s))))).

(** [ON CONFLICT DO NOTHING RETURNING]: no row comes back when there is one already. *)
Definition SendFriendRequest (a b : uuid) : prog tables (result error Friendship) :=
  sql (λ s,
    if player_exists a s && player_exists b s then
      match friendships s !! (a, b) with
      | Some _ => (Err ErrNoRows, s)
      | None =>
          let f := mkFriendship a b FriendshipStatusPending None (clock s) (clock s) in
          (Ok f, set_friendships (<[(a, b) := f]> (friendships s)) s)
      end
    else refused "foreign key" s).

Definition with_status (st : string) (now : Z) (f : Friendship) : Friendship :=
  mkFriendship (RequesterID f) (AddresseeID f) st (Note f) (F_CreatedAt f) now.

Definition has_status (st : string) (k : uuid * uuid) (s : tables) : option Friendship :=
  f ← friendships s !! k; if decide (Status f = st) then Some f else None.

Definition AcceptFriendRequest (requesterID addresseeID : uuid) : prog tables (result error Friendship) :=
  sql (λ s,
    match has_status FriendshipStatusPending (requesterID, addresseeID) s with
    | Some f =>
        let f' := with_status FriendshipStatusAccepted (clock s) f in
        (Ok f', set_friendships (<[(requesterID, addresseeID) := f']> (friendships s)) s)
    | None => (Err ErrNotFound, s)
    end).

(** [DELETE ... WHERE requester_id = $1 AND addressee_id = $2 AND status = st] *)
Definition delete_friendship (st : string) (k : uuid * uuid) : prog tables (result error unit) :=
  sql (λ s,
    match has_status st k s with
    | Some _ => (Ok tt, set_friendships (delete k (friendships s)) s)
    | None => (Err ErrNotFound, s)
    end).

Definition DeclineFriendRequest (requesterID addresseeID : uuid) : prog tables (result error unit) :=
  delete_friendship FriendshipStatusPending (requesterID, addresseeID).

Definition UnblockPlayer (requesterID addresseeID : uuid) : prog tables (result error unit) :=
  delete_friendship FriendshipStatusBlocked (requesterID, addresseeID).

Definition BlockPlayer (requesterID addresseeID : uuid) : prog tables (result error Friendship) :=
  sql (λ s,
    if player_exists requesterID s && player_exists addresseeID s then
      let f := match friendships s !! (requesterID, addresseeID) with
               | Some f => with_status FriendshipStatusBlocked (clock s) f
               | None => mkFriendship requesterID addresseeID FriendshipStatusBlocked None (clock s) (clock s)
               end in
      (Ok f, set_friendships (<[(requesterID, addresseeID) := f]> (friendships s)) s)
    else refused "foreign key" s).

(** [WHERE (r = $1 AND a = $2) OR (r = $2 AND a = $1) AND status = 'accepted']: AND binds
    stronger than OR. *)
Definition RemoveFriend (a b : uuid) : prog tables (result error unit) :=
  sql (λ s,
    let gone := λ f, (bool_decide (RequesterID f = a) && bool_decide (AddresseeID f = b))
      || (bool_decide (RequesterID f = b) && bool_decide (AddresseeID f = a)
          && bool_decide (Status f = FriendshipStatusAccepted)) in
    let n := length (values gone (friendships s)) in
    (found n, set_friendships (filter (λ kv, gone kv.2 = false) (friendships s)) s)).

(** ** Mutes *)

Definition MutePlayer (muterID mutedID : uuid) : prog tables (result error unit) :=
  sql (λ s,
    if player_exists muterID s && player_exists mutedID s then
      (Ok tt, match player_mutes s !! (muterID, mutedID) with
              | Some _ => s
              | None => set_mutes (<[(muterID, mutedID) := mkMute muterID mutedID (clock s)]> (player_mutes s)) s
              end)
    else refused "foreign key" s).

Definition UnmutePlayer (muterID mutedID : uuid) : prog tables (result error unit) :=
  sql (λ s, (Ok tt, set_mutes (delete (muterID, mutedID) (player_mutes s)) s)).

Definition GetMutedPlayers (playerID : uuid) : prog tables (result error (list PlayerMute)) :=
  query (λ s, Ok (order_by_desc M_CreatedAt
    (values (λ m, bool_decide (MuterID m = playerID)) (player_mutes s)))).

(** ** Bans *)

Record IssueBanParams := mkIssueBanParams {
  I_PlayerID : uuid; I_BannedBy : uuid; I_Reason : option string; I_ExpiresAt : option Z
}.

(** An id generated by the database, refused when it is taken. *)
Definition insert_with_id {A V} (get : tables → gmap uuid V) (mk : uuid → V) (put : gmap uuid V → tables → tables)
    (ok : tables → bool) (ret : V → A) (s : tables) : result error A * tables :=
  let id := gen_random_uuid (generated s) in
  let s := set_generated (S (generated s)) s in
  if ok s && is_none (get s !! id)
  then (Ok (ret (mk id)), put (<[id := mk id]> (get s)) s)
  else refused "constraint" s.

Definition IssueBan (p : IssueBanParams) : prog tables (result error Ban) :=
  sql (λ s, insert_with_id bans
    (λ id, mkBan id (I_PlayerID p) (I_BannedBy p) (I_Reason p) (I_ExpiresAt p) None None (clock s)) set_bans
    (λ s, player_exists (I_PlayerID p) s && player_exists (I_BannedBy p) s) (λ b, b) s).

Definition GetBan (banID : uuid) : prog tables (result error Ban) :=
  query (λ s, match bans s !! banID with Some b => Ok b | None => Err ErrNoRows end).

Definition LiftBan (banID liftedBy : uuid) : prog tables (result error unit) :=
  sql (λ s,
    match bans s !! banID with
    | Some b =>
        match LiftedAt b with
        | None =>
            if player_exists liftedBy s then
              (Ok tt, set_bans (<[banID := mkBan (BanID b) (Ban_PlayerID b) (BannedBy b) (Ban_Reason b)
                 (ExpiresAt b) (Some (clock s)) (Some liftedBy) (Ban_CreatedAt b)]> (bans s)) s)
            else refused "foreign key" s
        | Some _ => (Err ErrNotFound, s)
        end
    | None => (Err ErrNotFound, s)
    end).

Definition active (now : Z) (b : Ban) : bool :=
  is_none (LiftedAt b) && match ExpiresAt b with None => true | Some t => (now <? t)%Z end.

Definition CheckActiveBan (playerID : uuid) : prog tables (result error (option Ban)) :=
  query (λ s, Ok (head (order_by_desc Ban_CreatedAt (values (λ b,
    bool_decide (Ban_PlayerID b = playerID) && active (clock s) b) (bans s))))).

Definition ListBans (playerID : uuid) : prog tables (result error (list Ban)) :=
  query (λ s, Ok (order_by_desc Ban_CreatedAt
    (values (λ b, bool_decide (Ban_PlayerID b = playerID)) (bans s)))).

(** ** Reports *)

Definition CreateReport (reporter reported : uuid) (reason context : string)
    : prog tables (result error PlayerReport) :=
  sql (λ s, insert_with_id player_reports
    (λ id, mkReport id reporter reported reason context ReportStatusPending None None None None (clock s))
    set_reports (λ s, player_exists reporter s && player_exists reported s) (λ r, r) s).

Definition ReviewReport (reportID reviewedBy : uuid) (resolution : option string) (banID : option uuid)
    : prog tables (result error unit) :=
  sql (λ s,
    match player_reports s !! reportID with
    | Some r =>
        if decide (Report_Status r = ReportStatusPending) then
          if player_exists reviewedBy s && match banID with Some b => negb (is_none (bans s !! b)) | None => true end
          then (Ok tt, set_reports (<[reportID := mkReport (ReportID r) (ReporterID r) (ReportedID r)
                 (Report_Reason r) (Report_Context r) ReportStatusReviewed (Some reviewedBy) (Some (clock s))
                 resolution banID (Report_CreatedAt r)]> (player_reports s)) s)
          else refused "foreign key" s
        else (Err ErrNotFound, s)
    | None => (Err ErrNotFound, s)
    end).

(** [if limit <= 0 || limit > 200 { limit = 50 }], and the page. *)
Definition clamp (limit : Z) : Z := if (limit <=? 0)%Z || (200 <? limit)%Z then 50%Z else limit.
Definition page {A} (limit offset : Z) (l : list A) : list A :=
  take (Z.to_nat (clamp limit)) (drop (Z.to_nat offset) l).

Definition ListPendingReports (limit offset : Z) : prog tables (result error (list PlayerReport)) :=
  query (λ s, Ok (page limit offset (order_by Report_CreatedAt
    (values (λ r, bool_decide (Report_Status r = ReportStatusPending)) (player_reports s))))).

Definition ListReportsByPlayer (reportedID : uuid) : prog tables (result error (list PlayerReport)) :=
  query (λ s, Ok (order_by_desc Report_CreatedAt
    (values (λ r, bool_decide (ReportedID r = reportedID)) (player_reports s)))).

(** ** Profiles *)

Definition FindPlayerByUsername (username : string) : prog tables (result error Player) :=
  query (λ s, match values (λ p, String.eqb (LOWER (Username p)) (LOWER username)
                && is_none (DeletedAt p) && negb (IsBot p)) (players s) with
              | p :: _ => Ok (mkPlayer (Player_ID p) (Username p) (Role p) (AvatarURL p) (IsBot p) None
                                (Player_CreatedAt p) (DeletedAt p))
              | [] => Err (Plain "player not found")
              end).

(** The profile is joined from the left: a player without one still has an identity. *)
Definition GetProfile (playerID : uuid) : prog tables (result error PlayerProfile) :=
  query (λ s,
    match players s !! playerID with
    | Some p =>
        if is_none (DeletedAt p) then
          let pp := player_profiles s !! playerID in
          Ok (mkProfile playerID (Username p) (AvatarURL p) (IsBot p) (BotProfile p)
                (x ← pp; x.1.1) (x ← pp; x.1.2)
                match pp with Some (_, _, t) => t | None => Player_CreatedAt p end)
        else Err (Plain "player not found")
    | None => Err (Plain "player not found")
    end).

(** A country that does not fit CHAR(2) is refused. *)
Definition UpsertProfile (playerID : uuid) (bio country : option string)
    : prog tables (result error PlayerProfile) :=
  r ← sql (λ s,
    if player_exists playerID s && match country with Some c => String.length c <=? 2 | None => true end
    then (Ok tt, set_profiles (<[playerID := (bio, country, clock s)]> (player_profiles s)) s)
    else refused "constraint" s);
  match r with
  | Err e => mret (Err (Wrap "upsert profile" e))
  | Ok _ => GetProfile playerID
  end.

(** ** Settings *)

Definition defaultPlayerSettings : PlayerSettingMap :=
  let vol1 := f_of_Z 1 in
  {| Theme := Some "dark"; Language := Some "en"; ReduceMotion := Some false; FontSize := Some "medium";
     NotifyDM := Some true; NotifyGameInvite := Some true; NotifyFriendRequest := Some true;
     NotifySound := Some true; MuteAll := Some false; VolumeMaster := Some vol1; VolumeSFX := Some vol1;
     VolumeUI := Some vol1; VolumeNotifications := Some vol1; VolumeMusic := Some vol1;
     ShowMoveHints := Some true; ConfirmMove := Some false; ShowTimerWarning := Some true;
     ShowOnlineStatus := Some true; AllowDMs := Some "anyone" |}.

(** [if stored.X != nil { m.X = stored.X }] *)
Definition merge {A} (default stored : option A) : option A :=
  match stored with Some _ => stored | None => default end.

Definition mergeSettings (d s : PlayerSettingMap) : PlayerSettingMap :=
  {| Theme := merge (Theme d) (Theme s); Language := merge (Language d) (Language s);
     ReduceMotion := merge (ReduceMotion d) (ReduceMotion s); FontSize := merge (FontSize d) (FontSize s);
     NotifyDM := merge (NotifyDM d) (NotifyDM s);
     NotifyGameInvite := merge (NotifyGameInvite d) (NotifyGameInvite s);
     NotifyFriendRequest := merge (NotifyFriendRequest d) (NotifyFriendRequest s);
     NotifySound := merge (NotifySound d) (NotifySound s); MuteAll := merge (MuteAll d) (MuteAll s);
     VolumeMaster := merge (VolumeMaster d) (VolumeMaster s); VolumeSFX := merge (VolumeSFX d) (VolumeSFX s);
     VolumeUI := merge (VolumeUI d) (VolumeUI s);
     VolumeNotifications := merge (VolumeNotifications d) (VolumeNotifications s);
     VolumeMusic := merge (VolumeMusic d) (VolumeMusic s);
     ShowMoveHints := merge (ShowMoveHints d) (ShowMoveHints s);
     ConfirmMove := merge (ConfirmMove d) (ConfirmMove s);
     ShowTimerWarning := merge (ShowTimerWarning d) (ShowTimerWarning s);
     ShowOnlineStatus := merge (ShowOnlineStatus d) (ShowOnlineStatus s);
     AllowDMs := merge (AllowDMs d) (AllowDMs s) |}.

Definition zeroTime : Z := (- 62135596800)%Z.

(** Any error of the query counts as "no settings". The column is read back as it was
    written: every field is a string, a bool or a finite number of the request. *)
Definition GetPlayerSettings (playerID : uuid) : prog tables (result error PlayerSettings) :=
  r ← query (λ s, match player_settings s !! playerID with Some x => Ok x | None => Err ErrNoRows end);
  mret (match r with
        | Err _ => Ok (mkPlayerSettings playerID defaultPlayerSettings zeroTime)
        | Ok (stored, t) => Ok (mkPlayerSettings playerID (mergeSettings defaultPlayerSettings stored) t)
        end).

Definition UpsertPlayerSettings (playerID : uuid) (settings : PlayerSettingMap)
    : prog tables (result error PlayerSettings) :=
  sql (λ s,
    if player_exists playerID s
    then (Ok (mkPlayerSettings playerID settings (clock s)),
          set_settings (<[playerID := (settings, clock s)]> (player_settings s)) s)
    else refused "foreign key" s).

(** ** Administration *)

(** The values of the type [player_role]. *)
Definition valid_role (role : string) : bool :=
  String.eqb role RolePlayer || String.eqb role RoleManager || String.eqb role RoleOwner.

Definition ListPlayers (limit offset : Z) : prog tables (result error (list Player)) :=
  query (λ s, Ok (page limit offset (order_by_desc Player_CreatedAt
    (values (λ p, is_none (DeletedAt p)) (players s))))).

(** The player, when not deleted. *)
Definition live_player (playerID : uuid) (s : tables) : option Player :=
  p ← players s !! playerID; if is_none (DeletedAt p) then Some p else None.

Definition with_role (role : string) (p : Player) : Player :=
  mkPlayer (Player_ID p) (Username p) role (AvatarURL p) (IsBot p) (BotProfile p) (Player_CreatedAt p) (DeletedAt p).

(** The role is read and written by two statements. *)
Definition SetPlayerRole (playerID : uuid) (role : string) : prog tables (result error unit) :=
  r ← query (λ s, match live_player playerID s with Some p => Ok (Role p) | None => Err ErrNoRows end);
  match r with
  | Err e => mret (Err (Wrap "SetPlayerRole get current" e))
  | Ok currentRole =>
      if String.eqb currentRole RoleOwner && negb (String.eqb role RoleOwner)
      then mret (Err (Plain "SetPlayerRole: cannot demote an owner"))
      else
        r ← sql (λ s,
          if valid_role role then
            match live_player playerID s with
            | Some p => (Ok 1, set_players (<[playerID := with_role role p]> (players s)) s)
            | None => (Ok 0, s)
            end
          else refused "enum" s);
        mret (match r with
              | Err e => Err (Wrap "SetPlayerRole" e)
              | Ok n => if n =? 0 then Err (Plain "SetPlayerRole: player not found") else Ok tt
              end)
  end.

Definition ListAllowedEmails : prog tables (result error (list AllowedEmail)) :=
  query (λ s, Ok (order_by_desc E_CreatedAt (values (λ _, true) (allowed_emails s)))).

Definition AddAllowedEmail (email role : string) (invitedBy : uuid) : prog tables (result error AllowedEmail) :=
  sql (λ s,
    if valid_role role && player_exists invitedBy s then
      let e := match allowed_emails s !! email with
               | Some e => mkAllowedEmail email role (E_Note e) (Some invitedBy) (E_ExpiresAt e) (E_CreatedAt e)
               | None => mkAllowedEmail email role None (Some invitedBy) None (clock s)
               end in
      (Ok e, set_emails (<[email := e]> (allowed_emails s)) s)
    else refused "constraint" s).

Definition RemoveAllowedEmail (email : string) : prog tables (result error unit) :=
  sql (λ s,
    match allowed_emails s !! email with
    | Some _ => (Ok tt, set_emails (delete email (allowed_emails s)) s)
    | None => (Err (Plain "RemoveAllowedEmail: email not found"), s)
    end).

(** ** The audit log *)

Definition LogAction (actorID : uuid) (action targetType targetID : string)
    (details : option (list (string * option string))) : prog tables (result error unit) :=
  sql (λ s, insert_with_id audit_logs
    (λ id, mkAuditLog id actorID action targetType targetID details (clock s)) set_audit
    (player_exists actorID) (λ _, tt) s).

Record AuditFilter := mkAuditFilter {
  A_ActorID : option uuid; A_Action : option string; A_TargetType : option string;
  From : option Z; To : option Z; Limit : Z; Offset : Z
}.

Definition selects {A} (o : option A) (test : A → bool) : bool :=
  match o with Some x => test x | None => true end.

Definition ListAuditLogs (f : AuditFilter) : prog tables (result error (list AuditLog)) :=
  query (λ s, Ok (page (Limit f) (Offset f) (order_by_desc Log_CreatedAt (values (λ l,
    selects (A_ActorID f) (λ u, bool_decide (ActorID l = u)) && selects (A_Action f) (String.eqb (Action l))
    && selects (A_TargetType f) (String.eqb (TargetType l)) && selects (From f) (λ t, t <=? Log_CreatedAt l)%Z
    && selects (To f) (λ t, Log_CreatedAt l <=? t)%Z) (audit_logs s))))).

(** An event leaves the service; nobody waits for it and its failure is only logged. *)
Definition send (e : event) : prog tables unit := ignore (write (λ s, set_outbox (outbox s ++ [e]) s)).
End Store.
End Users.
