(* ===== verification/Web.v ===== *)
(** What the services of messages share: calls into another service, maintenance mode
    (shared/middleware/maintenance.go), and pages of a list. *)
From S2P Require Import Prelude Store Programs Users.
From S2P Require Lobby.
Import Programs.

Module Web.

(** ** Another service *)

Section Zoom.
Context {S D : Type} (get : S → D) (put : D → S → S).

(** A program over a part of the store. *)
Definition zoom {A} : prog D A → prog S A :=
  fix go p := match p with
  | Ret a => Ret a
  | Do R b c k => Do R b (λ s, let '(r, d) := c (get s) in (r, put d s)) (λ r, go (k r))
  end.

(** A call of another service over that part: the request or the reply may get lost. *)
Definition remote {A} (p : prog D A) : prog S (option A) :=
  sent ← read (λ _, tt);
  match sent with
  | None => mret None
  | Some _ => r ← zoom p; back ← read (λ _, tt); mret (if back is Some _ then Some r else None)
  end.

Lemma every_zoom {A} (P : S → S → Prop) (p : prog D A) :
  (∀ d s, P s (put d s)) → every P (zoom p).
Proof.
  intros HP. induction p as [a|R b c k IH]; [done|]. split; [|done]. intros s.
  destruct (c (get s)) as [r d]. apply HP.
Qed.

Lemma every_remote {A} (P : S → S → Prop) (p : prog D A) :
  (∀ s, P s s) → (∀ d s, P s (put d s)) → every P (remote p).
Proof.
  intros Hr HP. apply every_bind; [by apply every_cmd|]. intros [x|]; [|done].
  apply every_bind; [by apply every_zoom|]. intros r. by apply every_bind; [apply every_cmd|].
Qed.
End Zoom.

(** ** Maintenance mode *)

Inductive method : Type := GET | HEAD | OPTIONS | POST | PUT | PATCH | DELETE.
Definition isMutation (m : method) : bool :=
  match m with POST | PUT | PATCH | DELETE => true | _ => false end.

(** [flags.IsEnabled("maintenance-mode", false)], read once per request; the paths that
    are always let through are those of the probes. *)
Definition Maintenance {S A} (maintenance : S → bool) (m : method) (refused next : prog S A) : prog S A :=
  if isMutation m then
    on ← local false (λ s, (maintenance s, s));
    if on : bool then refused else next
  else next.

(** ** Pages *)

(** A parameter that does not parse, or is out of range, is ignored. *)
Definition parameter (v : string) (ok : Z → bool) (d : Z) : Z :=
  if decide (v = "") then d
  else match Lobby.Lobby.Atoi v with Some n => if ok n then n else d | None => d end.

Definition limit_param (maximum d : Z) (v : string) : Z := parameter v (λ n, (0 <? n) && (n <=? maximum))%Z d.
Definition offset_param (v : string) : Z := parameter v (λ n, 0 <=? n)%Z 0%Z.

(** The rows of a page are rows of the table that pass the filter. *)

Lemma elem_of_values {K V} `{Countable K} (P : V → bool) (m : gmap K V) x :
  x ∈ Users.values P m → ∃ k, m !! k = Some x ∧ P x = true.
Proof.
  unfold Users.values, rows. intros ([k x'] & -> & Hk)%list_elem_of_fmap.
  rewrite list_elem_of_filter in Hk. destruct Hk as [HP Hk%elem_of_map_to_list]. eauto.
Qed.

Lemma elem_of_page_values {K V} `{Countable K} (key : V → Z) limit offset (P : V → bool) (m : gmap K V) x :
  x ∈ page limit offset (order_by key (Users.values P m)) → ∃ k, m !! k = Some x ∧ P x = true.
Proof.
  intros Hx. apply elem_of_values. unfold page, order_by in Hx.
  rewrite <-(merge_sort_Permutation (key_le key)), <-(take_drop (Z.to_nat offset)), elem_of_app. right.
  rewrite <-(take_drop (Z.to_nat limit)), elem_of_app. by left.
Qed.

End Web.
