(* ===== verification/Ranked.v ===== *)
(** The match service (services/match-service): its HTTP interface (internal/api), the
    consumer of bans (internal/consumer), and with the delayed tasks and the ticker of
    cmd/server/main.go the ranked queue as a concurrent system over one Redis store. A tick
    runs [FindAndPropose] and then [BackfillScan]. *)
From S2P Require Import Prelude Json Float64 Backend Programs Matchmaking Queue Backfill.
From S2P Require Import Middleware Streams Web.
Import Programs Float64 Matchmaking Queue Backfill Middleware Web.

Module Ranked.

Definition StatusTooManyRequests : Z := 429.
Definition StatusServiceUnavailable : Z := 503.
Definition dedupeKeyPrefix : string := "dedup:match-service:".
Definition dedupeTTL : Z := 24 * 60 * Minute.

Inductive route : Type :=
  | PostQueue
  | DeleteQueue
  | PostAccept (match_id : option string)
  | PostDecline (match_id : option string)
  | DeleteState (id : string).

(** A body is the match id it decodes to, [None] when the schema or the decoder refuses
    it. The flags are what they say while the request is handled. *)
Record request := mkRequest {
  cookie : option string; to : route; maintenance : bool; FlagRankedEnabled : bool
}.

Inductive answer : Type :=
  | B_error (msg : string)
  | B_banned (retry_after_secs : Z)
  | B_position (p : QueuePosition)
  | B_empty.

Definition method_of (t : route) : method :=
  match t with DeleteQueue | DeleteState _ => DELETE | _ => POST end.

Section Ranked.
Context `{U : UUID} `{!SortSlice} `{!JWT}.
Context (New : nat → uuid) (Nil : uuid) (GetRating : uuid → option f64) (cfg : QueueConfig)
  (backfillCfg : BackfillConfig) (secret : string) (TEST_MODE : bool).

(** ** Handlers (internal/api/api.go) *)

Abbreviation handler := (prog (response answer)).

Definition writeJSON (status : Z) (b : answer) : handler := mret (mkResponse status b).
Definition writeError (status : Z) (msg : string) : handler := Middleware.writeError (M := prog) B_error status msg.
Definition noContent : handler := writeJSON StatusNoContent B_empty.

Definition handleJoinQueue (r : request) (c : Claims) : handler :=
  if negb (FlagRankedEnabled r) then writeError StatusServiceUnavailable "ranked_disabled"
  else
    pos ← Enqueue GetRating (PlayerID c);
    match pos with
    | Ok pos => writeJSON StatusOK (B_position pos)
    | Err (ErrBanned secs) => writeJSON StatusTooManyRequests (B_banned secs)
    | Err ErrAlreadyQueued => writeError StatusConflict "already in queue"
    | Err _ => writeError StatusInternalServerError "failed to join queue"
    end.

Definition handleLeaveQueue (c : Claims) : handler :=
  r ← Dequeue (PlayerID c);
  match r with Err _ => writeError StatusInternalServerError "failed to leave queue" | Ok _ => noContent end.

(** Accepting and declining differ in the operation and a message. *)
Definition confirm (match_id : option string) (op : uuid → prog (result qerror unit)) (failed : string) : handler :=
  match match_id with
  | None => writeError StatusBadRequest "invalid request body"
  | Some raw =>
      match uuid_Parse raw with
      | None => writeError StatusBadRequest "invalid match_id"
      | Some m =>
          r ← op m;
          match r with
          | Ok _ => noContent
          | Err ErrMatchNotFound => writeError StatusNotFound "match not found or already expired"
          | Err ErrNotMatchParticipant => writeError StatusForbidden "not a participant in this match"
          | Err _ => writeError StatusInternalServerError failed
          end
      end
  end.
Definition handleAcceptMatch (match_id : option string) (c : Claims) : handler :=
  confirm match_id (Accept Nil (PlayerID c)) "failed to accept match".
Definition handleDeclineMatch (match_id : option string) (c : Claims) : handler :=
  confirm match_id (Decline Nil GetRating (PlayerID c)) "failed to decline match".

Definition handleResetPlayer (id : string) (_ : Claims) : handler :=
  if negb TEST_MODE then writeError StatusNotFound "404 page not found"
  else
    match uuid_Parse id with
    | None => writeError StatusBadRequest "invalid player id"
    | Some p =>
        r ← ResetPlayer p;
        match r with
        | Err _ => writeError StatusInternalServerError "failed to reset player state"
        | Ok _ => noContent
        end
    end.

Definition route_handler (r : request) : Claims → handler :=
  match to r with
  | PostQueue => handleJoinQueue r
  | DeleteQueue => handleLeaveQueue
  | PostAccept m => handleAcceptMatch m
  | PostDecline m => handleDeclineMatch m
  | DeleteState id => handleResetPlayer id
  end.

Definition NewRouter (r : request) : handler :=
  if isMutation (method_of (to r)) && maintenance r then writeError StatusServiceUnavailable "maintenance"
  else Require (M := prog) B_error secret (cookie r) (route_handler r).

(** ** Bans (internal/consumer/consumer.go) *)

(** [SET key 1 NX EX ttl]: whether the key existed; an error counts as not seen. *)
Definition set_nx (key : string) (s : redis) : bool * redis :=
  match get_key (now s) key (dedup s) with
  | Some _ => (true, s)
  | None => (false, set_dedup (<[key := mkKey tt (Some (now s + dedupeTTL)%Z)]> (dedup s)) s)
  end.
Definition seenEvent (eventID : string) : prog bool :=
  if decide (eventID = "") then mret false
  else r ← cmd (set_nx (dedupeKeyPrefix +:+ eventID)); mret (default false r).

Definition handle (payload : option Events.PlayerBanned) : prog (result string unit) :=
  match payload with
  | None => mret (Err "unmarshal PlayerBanned")
  | Some evt =>
      match uuid_Parse (Events.Ban_PlayerID evt) with
      | None => mret (Err "invalid player_id")
      | Some playerID =>
          seen ← seenEvent (Events.Ban_EventID evt);
          if seen : bool then mret (Ok tt)
          else
            removed ← Dequeue playerID;
            match removed with Err _ => mret (Err "dequeue banned player") | Ok _ => mret (Ok tt) end
      end
  end.

(** ** The service *)

Inductive call : Type :=
  | Http (r : request)
  | Ban (payload : option Events.PlayerBanned)
  | Call_Expiry (match_ : uuid)
  | Call_FindAndPropose
  | Call_BackfillScan.

Definition serve (c : call) : prog unit :=
  match c with
  | Http r => ignore (NewRouter r)
  | Ban evt => ignore (handle evt)
  | Call_Expiry m => handleMatchExpiry Nil GetRating m
  | Call_FindAndPropose => FindAndPropose New Nil cfg
  | Call_BackfillScan => BackfillScan Nil GetRating backfillCfg true
  end.

(** The environment lets time pass and bots come and go. *)
Inductive happening : Type :=
  | Wait (d : Z)
  | BotRegisters (bot : uuid)
  | BotIdle (bot : uuid)
  | BotBusy (bot : uuid).

Definition happen (e : happening) (s : redis) : redis :=
  match e with
  | Wait d => set_now (now s + Z.max 0 d)%Z s
  | BotRegisters b => set_known (bot_known s ∪ {[uuid_String b]}) s
  | BotIdle b => set_available (bot_available s ∪ {[uuid_String b]}) s
  | BotBusy b => set_available (bot_available s ∖ {[uuid_String b]}) s
  end.

Definition label : Type := Programs.label call happening.

Definition run (ls : list label) (x : redis * list (prog unit)) : redis * list (prog unit) :=
  Programs.run serve happen ls x.

Definition initial : redis := mkRedis 0 0 ∅ ∅ ∅ ∅ ∅ ∅ None ∅ [] [] [] [] ∅ ∅ [] ∅.

(** The claims of a request's token, and its acceptance of a match. *)
Definition claims_of (r : request) : option Claims :=
  raw ← cookie r; match VerifyToken secret raw with Ok c => Some c | Err _ => None end.
Definition accepts (ls : list label) (p m : uuid) : Prop :=
  ∃ r c raw, Spawn (Http r) ∈ ls ∧ claims_of r = Some c ∧ PlayerID c = p ∧
    to r = PostAccept (Some raw) ∧ uuid_Parse raw = Some m.

End Ranked.
End Ranked.
