(* ===== verification/QueueSpec.v ===== *)
(** What the ranked queue guarantees under every interleaving and every failure: a
    ranked session is only started for a proposed match that both of its players
    accepted. Then what its rules do not exclude, on concrete schedules. *)
From stdpp Require Import pretty.
From S2P Require Import Prelude Json Float64 Backend Demo Programs Matchmaking MatchmakingSpec.
From S2P Require Import Queue Backfill Middleware Streams Web Ranked.
Import Demo Programs Float64 Matchmaking Queue Backfill Middleware Ranked.

(** ** Every call *)

(** Match ids are drawn in order, and what has been drawn stays. *)
Section Drawn.
Context `{U : UUID} `{!SortSlice} `{!JWT} (New : nat → uuid) (Nil : uuid) (GetRating : uuid → option f64)
  (cfg : QueueConfig) (bcfg : BackfillConfig) (secret : string) (TEST_MODE : bool).

Definition aligned (s : redis) : Prop := (proposals s).*1 = New <$> seq 0 (ids s).

Definition grows (s s' : redis) : Prop :=
  proposals s `prefix_of` proposals s' ∧ (aligned s → aligned s').

Lemma grows_same s s' : proposals s' = proposals s → ids s' = ids s → grows s s'.
Proof. intros Hp Hi. unfold grows, aligned. by rewrite Hp, Hi. Qed.

Ltac every_ := every_with ltac:(first
  [ apply every_pipeline; repeat (constructor; [intros ?; by apply grows_same|]); by constructor
  | apply every_cmd; intros ?; solve [by apply grows_same] ]).

Lemma every_clock : every grows clock_now.
Proof. split; [|done]. intros s. by apply grows_same. Qed.

Lemma every_publish p e : every grows (publishToPlayer p e).
Proof. unfold publishToPlayer, write. every_. Qed.

Lemma every_Enqueue p : every grows (Enqueue GetRating p).
Proof.
  unfold Enqueue, BanStatus, queuePosition, read. pose proof every_clock. every_.
Qed.

Lemma every_recordDecline p : every grows (recordDecline p).
Proof. unfold recordDecline, read. pose proof every_clock. every_. Qed.

Lemma every_startMatch a b x y : every grows (startMatch a b x y).
Proof. unfold startMatch, write. pose proof every_publish. every_. Qed.

Lemma every_Accept p m : every grows (Accept Nil p m).
Proof.
  unfold Accept, HGetAll_pending, Del_match, cancelExpiry, read, write. pose proof every_startMatch. every_.
Qed.

Lemma every_Decline p m : every grows (Decline Nil GetRating p m).
Proof.
  unfold Decline, HGetAll_pending, Del_match, cancelExpiry, read, write.
  pose proof every_Enqueue. pose proof every_recordDecline. pose proof every_publish. every_.
Qed.

Lemma every_handleMatchExpiry m : every grows (handleMatchExpiry Nil GetRating m).
Proof.
  unfold handleMatchExpiry, requeueAfterTimeout, penalizeTimeout, read, write.
  pose proof every_Enqueue. pose proof every_recordDecline. pose proof every_publish. every_.
Qed.

Lemma every_fresh ps : every grows (fresh New Nil ps).
Proof.
  split; [|done]. intros s. split; [by eexists|]. unfold aligned. intros Ha.
  change (((proposals s ++ [(New (ids s), ps)]).*1) = New <$> seq 0 (S (ids s))).
  by rewrite fmap_app, Ha, seq_S, fmap_app.
Qed.

Lemma every_proposeMatch m : every grows (proposeMatch New Nil m).
Proof.
  unfold proposeMatch, scheduleExpiry, write. pose proof every_fresh. pose proof every_publish. every_.
Qed.

Lemma every_snapshot l : every grows (snapshot l).
Proof.
  induction l as [|[m f] l IH]; cbn [snapshot]; [done|]. unfold read. pose proof every_clock. every_.
Qed.

Lemma every_pickLoop mmr l best : every grows (pickLoop GetRating mmr l best).
Proof.
  revert best. induction l as [|x l IH]; intros best; cbn [pickLoop]; [done|].
  unfold botMMR, read. every_.
Qed.

Lemma every_BackfillScan b : every grows (BackfillScan Nil GetRating bcfg b).
Proof.
  unfold BackfillScan, humanWaitedLongEnough, pickClosestBot, activate, read, write.
  pose proof every_clock. pose proof every_pickLoop. every_.
Qed.

Lemma every_Require {A} (P : redis → redis → Prop) (message : string → A) ck k :
  (∀ c, every P (k c)) → every P (Require (M := prog) message secret ck k).
Proof. intros Hk. unfold Require. destruct ck; [|done]. destruct (VerifyToken _ _) as [|e]; [done|]. by destruct (decide _). Qed.

Lemma every_NewRouter r : every grows (NewRouter Nil GetRating secret TEST_MODE r).
Proof.
  unfold NewRouter. destruct (_ && _); [done|]. apply every_Require. intros c.
  pose proof every_Enqueue. pose proof every_Accept. pose proof every_Decline.
  unfold route_handler, handleJoinQueue, handleLeaveQueue, handleAcceptMatch, handleDeclineMatch, confirm,
    handleResetPlayer, Dequeue, ResetPlayer, writeError, writeJSON, noContent, write. destruct (to r); every_.
Qed.

Lemma every_handle evt : every grows (handle evt).
Proof.
  unfold handle, seenEvent, Dequeue, write. every_.
  apply every_cmd. intros s. unfold set_nx. by destruct (get_key _ _ _).
Qed.

Lemma every_body c : every grows (serve New Nil GetRating cfg bcfg secret TEST_MODE c).
Proof.
  destruct c; cbn [serve]; unfold ignore.
  - pose proof every_NewRouter. every_.
  - pose proof every_handle. every_.
  - apply every_handleMatchExpiry.
  - unfold FindAndPropose, read, write.
    pose proof every_snapshot. pose proof every_clock. pose proof every_proposeMatch. every_.
    apply every_cmd. intros s. by destruct (match lock s with Some _ => _ | None => _ end).
  - apply every_BackfillScan.
Qed.

(** Along a run the match ids only grow. *)
Lemma grows_trans s s' s'' : grows s s' → grows s' s'' → grows s s''.
Proof. intros [H1 H2] [H3 H4]. split; [by etrans|auto]. Qed.

Lemma happen_grows e s : grows s (happen e s).
Proof. by destruct e; apply grows_same. Qed.

Lemma run_grows ls (x : redis * list (prog unit)) : Forall (every grows) x.2 →
  grows x.1 (run New Nil GetRating cfg bcfg secret TEST_MODE ls x).1.
Proof.
  apply run_every; [by intros; apply grows_same|apply grows_trans|apply every_body|apply happen_grows].
Qed.

End Drawn.

(** ** Consent *)

Section Consent.
Context `{U : UUID} `{!SortSlice} `{!JWT} (New : nat → uuid) (Nil : uuid) (GetRating : uuid → option f64)
  (cfg : QueueConfig) (bcfg : BackfillConfig) (secret : string) (TEST_MODE : bool).

(** The matches proposed along the run, and who accepted which of them. *)
Context (F : list (uuid * (string * string))) (Acc : uuid → uuid → Prop).
Hypothesis functional : ∀ m q q', (m, q) ∈ F → (m, q') ∈ F → q = q'.
Hypothesis nobody : ∀ m, ¬ Acc (parse Nil "") m.

Abbreviation parse := (parse Nil).

Definition consent (a b : uuid) : Prop :=
  ∃ m q, (m, q) ∈ F ∧ a = parse q.1 ∧ b = parse q.2 ∧ Acc a m ∧ Acc b m.

Definition named (m : uuid) (h : gmap string value) (q : string * string) : Prop :=
  (m, q) ∈ F ∧ h !! "player_a" = Some (Text q.1) ∧ h !! "player_b" = Some (Text q.2).

Definition faithful (m : uuid) (h : gmap string value) : Prop :=
  (h !! "player_a" = None ∧ h !! "player_b" = None ∨ ∃ q, named m h q) ∧
  (accepted "accepted_a" h = true → ∃ q, (m, q) ∈ F ∧ Acc (parse q.1) m) ∧
  (accepted "accepted_b" h = true → ∃ q, (m, q) ∈ F ∧ Acc (parse q.2) m).

Definition Inv (s : redis) : Prop :=
  map_Forall (λ m e, faithful m (content e)) (pending s) ∧
  ∀ a b, (a, b) ∈ started s → consent a b.

Definition Bound (s : redis) : Prop := proposals s `prefix_of` F.

Lemma Inv_same s s' : pending s' = pending s → started s' = started s → Inv s → Inv s'.
Proof. unfold Inv. by intros -> ->. Qed.

Lemma faithful_empty m : faithful m ∅.
Proof. split; [by left|]. by split. Qed.

Lemma faithful_hgetall m s : Inv s → faithful m (hgetall (now s) m (pending s)).
Proof.
  intros [Hp _]. unfold hgetall, get_key. destruct (pending s !! m) as [e|] eqn:E.
  - destruct (live (now s) e); [by apply (Hp m e)|apply faithful_empty].
  - apply faithful_empty.
Qed.

Lemma Inv_hset s m fs :
  (∀ h, faithful m h → faithful m (list_to_map (reverse fs) ∪ h)) →
  Inv s → Inv (set_pending (hset (now s) m fs (pending s)) s).
Proof.
  intros Hfs HI. pose proof (faithful_hgetall m s HI) as Hh. destruct HI as [Hp Hs]. split; [|done].
  revert Hh. unfold hgetall. cbn [pending set_pending]. unfold hset.
  destruct (get_key (now s) m (pending s)) as [e|]; intros Hh.
  - apply map_Forall_insert_2; [by apply Hfs|done].
  - apply map_Forall_insert_2; [|done]. cbn [content].
    rewrite <- (map_union_empty (list_to_map (reverse fs))). by apply Hfs.
Qed.

Lemma Inv_expire s m ttl : Inv s → Inv (set_pending (expire (now s) m ttl (pending s)) s).
Proof.
  intros HI. pose proof (faithful_hgetall m s HI) as Hh. destruct HI as [Hp Hs]. split; [|done].
  revert Hh. unfold hgetall. cbn [pending set_pending]. unfold expire.
  destruct (get_key (now s) m (pending s)) as [e|]; intros Hh; [|done].
  by apply map_Forall_insert_2.
Qed.

Lemma Inv_delete s m : Inv s → Inv (set_pending (delete m (pending s)) s).
Proof. intros [Hp Hs]. split; [|done]. by apply map_Forall_delete. Qed.

Abbreviation safe p := (wps Inv Bound p (λ _, True)).

Lemma safe_bind {A B} (p : prog A) (f : A → prog B) : safe p → (∀ a, safe (f a)) → safe (p ≫= f).
Proof. apply wps_seq. Qed.

Lemma safe_cmd {R} (c : redis → R * redis) : (∀ s, Inv s → Inv (c s).2) → safe (cmd c).
Proof. intros Hc. apply wps_cmd; [done|]. auto. Qed.

Lemma safe_pipeline cs :
  Forall (λ c : redis → redis, ∀ s, Inv s → Inv (c s)) cs → safe (pipeline cs).
Proof. intros Hcs. by apply wps_pipeline. Qed.

Ltac safe_ := wps_with ltac:(first
  [ apply safe_pipeline; repeat (constructor; [intros ?; by apply Inv_same|]); by constructor
  | apply safe_cmd; intros ?; solve [by apply Inv_same] ]).

Lemma safe_clock : safe clock_now.
Proof. split; [done|]. intros s HI _. by split. Qed.

Lemma safe_publish p e : safe (publishToPlayer p e).
Proof. unfold publishToPlayer, write. safe_. Qed.

Lemma safe_Enqueue p : safe (Enqueue GetRating p).
Proof. unfold Enqueue, BanStatus, queuePosition, read. pose proof safe_clock. safe_. Qed.

Lemma safe_recordDecline p : safe (recordDecline p).
Proof. unfold recordDecline, read. pose proof safe_clock. safe_. Qed.

Lemma safe_Del_match m : safe (Del_match m).
Proof.
  apply safe_cmd. intros s HI. eapply Inv_same; [| |apply (Inv_delete s m HI)]; done.
Qed.

Lemma safe_startMatch a b x y : consent a b → safe (startMatch a b x y).
Proof.
  intros Hc. unfold startMatch. apply safe_bind; [unfold write; safe_|]. intros [[]|]; [|done].
  apply safe_bind; [|intros ?; pose proof safe_publish; safe_].
  apply safe_cmd. intros s [Hp Hs]. split; [done|]. intros a' b'. cbn [started set_started snd].
  rewrite elem_of_app, list_elem_of_singleton. intros [?|[= -> ->]]; auto.
Qed.

(** An acceptance is written by a participant of the match as it was proposed. *)
Lemma acceptField_named p m h f : Acc p m → faithful m h → acceptField Nil p h = Some f →
  ∃ q, named m h q ∧ (f = "accepted_a" ∧ p = parse q.1 ∨ f = "accepted_b" ∧ p = parse q.2).
Proof.
  intros Hp [[[Ha Hb]|[q Hq]] _] Hf; unfold acceptField in Hf.
  - rewrite Ha, Hb in Hf. cbn [text_of] in Hf. destruct (decide (p = parse "")) as [->|]; [|done].
    by destruct (nobody m).
  - exists q. split; [done|]. destruct Hq as (_ & Ha & Hb). rewrite Ha, Hb in Hf. cbn [text_of] in Hf.
    destruct (decide (p = parse q.1)) as [->|]; [left|destruct (decide (p = parse q.2)); [right|done]].
    all: by injection Hf.
Qed.

Lemma lookup_yes f (h : gmap string value) f' :
  (list_to_map (reverse [(f, yes)]) ∪ h : gmap string value) !! f' =
  if decide (f' = f) then Some yes else h !! f'.
Proof.
  change (list_to_map (reverse [(f, yes)]) : gmap string value) with (<[f := yes]> (∅ : gmap string value)).
  rewrite insert_empty, <- insert_union_singleton_l. case_decide as E.
  - subst. by rewrite lookup_insert_eq.
  - by rewrite lookup_insert_ne.
Qed.

Lemma faithful_accept p m q f h : Acc p m → (m, q) ∈ F →
  f = "accepted_a" ∧ p = parse q.1 ∨ f = "accepted_b" ∧ p = parse q.2 →
  faithful m h → faithful m (list_to_map (reverse [(f, yes)]) ∪ h).
Proof.
  intros Hp Hm Hf (Hn & Ha & Hb). unfold faithful, named, accepted in *.
  destruct Hf as [[-> ->]|[-> ->]]; rewrite !lookup_yes; repeat (rewrite decide_False by done);
    repeat (rewrite decide_True by done); split_and!; try done; intros _; eauto.
Qed.

Lemma both_accepted m h q : faithful m h → (m, q) ∈ F →
  accepted "accepted_a" h = true → accepted "accepted_b" h = true → consent (parse q.1) (parse q.2).
Proof.
  intros (_ & Ha & Hb) Hm HA HB. destruct (Ha HA) as (qa & Hqa & Pa), (Hb HB) as (qb & Hqb & Pb).
  rewrite (functional m qa q), (functional m qb q) in * by done. by exists m, q.
Qed.

Lemma safe_Accept p m : Acc p m → safe (Accept Nil p m).
Proof.
  intros Hp. unfold Accept. apply wps_bind, wps_read; [done|]. intros s HI.
  apply (faithful_hgetall m) in HI. revert HI. generalize (hgetall (now s) m (pending s)). intros h Hh.
  destruct (decide (h = ∅)); [done|]. destruct (acceptField Nil p h) as [f|] eqn:Ef; [|done].
  destruct (acceptField_named p m h f Hp Hh Ef) as (q & (Hm & Ha & Hb) & Hq).
  apply safe_bind.
  - apply safe_pipeline. apply Forall_cons_2; [|apply Forall_singleton; by intros s'; apply Inv_same].
    intros s' HI. apply Inv_hset; [|done]. intros h' Hh'. by apply (faithful_accept p m q).
  - intros ok. destruct (negb ok); [done|]. apply wps_bind, wps_read; [done|]. intros s' HI.
    apply (faithful_hgetall m) in HI. revert HI. generalize (hgetall (now s') m (pending s')). intros h' Hh'.
    destruct (accepted "accepted_a" h') eqn:HA; [|done].
    destruct (accepted "accepted_b" h') eqn:HB; [|done]. cbn [negb orb].
    rewrite Ha, Hb. cbn [text_of]. pose proof (both_accepted m h' q Hh' Hm HA HB) as Hc.
    pose proof (safe_Del_match m). unfold cancelExpiry, write.
    pose proof (λ x y, safe_startMatch _ _ x y Hc). safe_.
Qed.

Lemma safe_Decline p m : safe (Decline Nil GetRating p m).
Proof.
  unfold Decline, HGetAll_pending, cancelExpiry, read, write.
  pose proof safe_Del_match. pose proof safe_Enqueue. pose proof safe_recordDecline.
  pose proof safe_publish. safe_.
Qed.

Lemma safe_handleMatchExpiry m : safe (handleMatchExpiry Nil GetRating m).
Proof.
  unfold handleMatchExpiry, requeueAfterTimeout, penalizeTimeout, read, write.
  pose proof safe_Enqueue. pose proof safe_recordDecline. pose proof safe_publish. safe_.
Qed.

(** A match is stored under a new id, with the players it was proposed with. *)
Lemma faithful_proposed m a b x y h : (m, (a, b)) ∈ F →
  faithful m (list_to_map (reverse ([("player_a", Text a); ("player_b", Text b);
    ("accepted_a", Text "0"); ("accepted_b", Text "0")] ++ [("mmr_a", Number x); ("mmr_b", Number y)])) ∪ h).
Proof.
  intros Hm.
  assert (Hl : ∀ f v, (list_to_map (reverse ([("player_a", Text a); ("player_b", Text b);
    ("accepted_a", Text "0"); ("accepted_b", Text "0")] ++ [("mmr_a", Number x); ("mmr_b", Number y)]))
    : gmap string value) !! f = Some v → ∀ h' : gmap string value,
    (list_to_map (reverse ([("player_a", Text a); ("player_b", Text b);
    ("accepted_a", Text "0"); ("accepted_b", Text "0")] ++ [("mmr_a", Number x); ("mmr_b", Number y)]))
    ∪ h') !! f = Some v) by (intros; by apply lookup_union_Some_l).
  split; [right; exists (a, b); split_and!; [done| |]; by apply Hl|].
  unfold accepted. by rewrite (Hl "accepted_a" (Text "0")), (Hl "accepted_b" (Text "0")).
Qed.

Lemma safe_proposeMatch p : safe (proposeMatch New Nil p).
Proof.
  unfold proposeMatch. destruct (Teams p) as [|[|a [|]] [|[|b [|]] [|]]]; try done.
  destruct (uuid_Parse (ID a)), (uuid_Parse (ID b)); try done.
  apply wps_bind. split; [done|]. intros s HI [l HB]. cbn [fst snd default] in *. split.
  { eapply Inv_same; [..|exact HI]; done. }
  set (m := New (ids s)) in *.
  assert (Hm : (m, (ID a, ID b)) ∈ F).
  { rewrite HB. cbn [proposals next_id]. rewrite !elem_of_app. left. right. by left. }
  clearbody m. apply safe_bind.
  - apply safe_pipeline. apply Forall_cons_2; [|apply Forall_cons_2].
    + intros s'. apply Inv_hset. intros h _. by apply faithful_proposed.
    + intros s'. apply Inv_expire.
    + repeat (apply Forall_cons_2; [by intros s'; apply Inv_same|]). by apply Forall_nil_2.
  - intros ok. unfold scheduleExpiry, write. pose proof safe_publish. safe_.
Qed.

Lemma safe_snapshot l : safe (snapshot l).
Proof.
  induction l as [|[m f] l IH]; cbn [snapshot]; [done|]. unfold read. pose proof safe_clock. safe_.
Qed.

Lemma safe_BackfillScan b : safe (BackfillScan Nil GetRating bcfg b).
Proof.
  assert (∀ mmr l best, safe (pickLoop GetRating mmr l best)).
  { intros mmr l. induction l as [|x l IH]; intros best; cbn [pickLoop]; [done|].
    unfold botMMR, read. safe_. }
  unfold BackfillScan, humanWaitedLongEnough, pickClosestBot, activate, read, write.
  pose proof safe_clock. safe_.
Qed.

Lemma safe_confirm raw (op : uuid → prog (result qerror unit)) what :
  (∀ m, uuid_Parse raw = Some m → safe (op m)) → safe (confirm (Some raw) op what).
Proof.
  intros Hop. unfold confirm. destruct (uuid_Parse raw) as [m|]; [|done]. apply safe_bind; [by apply Hop|].
  intros [[]|e]; [done|by destruct e].
Qed.

Lemma safe_NewRouter r :
  (∀ c raw m, claims_of secret r = Some c → to r = PostAccept (Some raw) → uuid_Parse raw = Some m → Acc (PlayerID c) m) →
  safe (NewRouter Nil GetRating secret TEST_MODE r).
Proof.
  intros Hacc. unfold NewRouter, Require. destruct (_ && _); [done|].
  unfold claims_of in Hacc. destruct (cookie r) as [raw|]; [|done]. cbn in Hacc.
  destruct (VerifyToken secret raw) as [c|e]; [|by destruct (decide _)]. specialize (Hacc c).
  unfold route_handler. destruct (to r) as [| |[m|]|[m|]|id]; try done.
  - unfold handleJoinQueue, writeError, writeJSON. pose proof safe_Enqueue. safe_.
  - unfold handleLeaveQueue, Dequeue, writeError, noContent, writeJSON, write. safe_.
  - apply safe_confirm. intros u Hu. apply safe_Accept. by eapply Hacc.
  - apply safe_confirm. intros u _. apply safe_Decline.
  - unfold handleResetPlayer, ResetPlayer, writeError, noContent, writeJSON. safe_.
Qed.

Lemma safe_handle evt : safe (handle evt).
Proof.
  unfold handle, seenEvent, Dequeue, write. safe_.
  apply safe_cmd. intros s. unfold set_nx. destruct (get_key _ _ _); [done|]. by apply Inv_same.
Qed.

Lemma safe_body c :
  (∀ r cl raw m, c = Http r → claims_of secret r = Some cl → to r = PostAccept (Some raw) → uuid_Parse raw = Some m →
     Acc (PlayerID cl) m) →
  safe (serve New Nil GetRating cfg bcfg secret TEST_MODE c).
Proof.
  intros Hc. destruct c; cbn [serve]; unfold ignore.
  - apply safe_bind; [|done]. apply safe_NewRouter. eauto.
  - apply safe_bind; [apply safe_handle|done].
  - apply safe_handleMatchExpiry.
  - unfold FindAndPropose, read, write.
    pose proof safe_snapshot. pose proof safe_clock. pose proof safe_proposeMatch. safe_.
    apply safe_cmd. intros s. destruct (match lock s with Some _ => _ | None => _ end); [done|].
    by apply Inv_same.
  - apply safe_BackfillScan.
Qed.
End Consent.

(** ** A ranked session has the consent of both players *)

Section Started.
Context `{U : UUID} `{!SortSlice} `{!JWT} (New : nat → uuid) (Nil : uuid) (GetRating : uuid → option f64)
  (cfg : QueueConfig) (bcfg : BackfillConfig) (secret : string) (TEST_MODE : bool).

(** C19 However requests, redelivered bans, expiries and ticks of any number of instances
    interleave, and whichever commands fail: a ranked session is only started for two
    players whom one proposed match names, and who both accepted that match in a request
    with a valid token of their own. *)
Theorem started_with_consent (ls : list label) :
  (∀ i j, New i = New j → i = j) →
  (∀ r c, Spawn (Http r) ∈ ls → claims_of secret r = Some c → PlayerID c ≠ parse Nil "") →
  let s := (run New Nil GetRating cfg bcfg secret TEST_MODE ls (initial, [])).1 in
  ∀ a b, (a, b) ∈ started s →
    ∃ m q, (m, q) ∈ proposals s ∧ a = parse Nil q.1 ∧ b = parse Nil q.2 ∧
      accepts secret ls a m ∧ accepts secret ls b m.
Proof.
  intros Hinj Hnil s. set (Acc := accepts secret ls). apply (λ H : Inv Nil (proposals s) Acc s, proj2 H).
  apply (run_invariant (Inv Nil (proposals s) Acc) (λ s', proposals s' `prefix_of` proposals s)
    (serve New Nil GetRating cfg bcfg secret TEST_MODE) happen (grows New) ls (initial, [])).
  - by intros; apply grows_same.
  - apply grows_trans.
  - apply every_body.
  - apply happen_grows.
  - intros s1 s2 [Hp _] HB. by etrans.
  - intros e s' _ HI _. by destruct e; (eapply Inv_same; [| |exact HI]).
  - intros c Hc. apply safe_body.
    + destruct (run_grows New Nil GetRating cfg bcfg secret TEST_MODE ls (initial, [])) as [_ Ha]; [done|].
      specialize (Ha eq_refl). fold s in Ha. unfold aligned in Ha.
      assert (Hn : NoDup (proposals s).*1).
      { rewrite Ha. apply NoDup_fmap_2; [|apply NoDup_seq]. intros ???; by apply Hinj. }
      intros m q q' Hq Hq'. apply list_elem_of_lookup in Hq as [i Hi], Hq' as [j Hj].
      assert (i = j) as <-; [|congruence].
      by apply (NoDup_lookup _ i j m Hn); rewrite list_lookup_fmap, ?Hi, ?Hj.
    + intros m (r & c' & raw & Hr & Hcl & Hp & _). by apply (Hnil r c').
    + intros r c' raw m -> Hcl Ht Hm. by exists r, c', raw.
  - by apply Forall_nil_2.
  - split; [done|]. intros ?? []%not_elem_of_nil.
  - by apply Forall_nil_2.
  - done.
Qed.
End Started.

(** ** Penalties *)

Section Penalties.
Context `{U : UUID}.

(** The declines on a player's slate. *)
Definition slate (p : uuid) (s : redis) : list Z :=
  match get_key (now s) p (declines s) with Some e => content e | None => [] end.

(** The slate after one more decline, and the declines of the last hour on it. *)
Definition slated (p : uuid) (s : redis) : list Z := slate p s ++ [to_seconds (now s)].

Definition recent (t : Z) (l : list Z) : nat := length (filter (λ e, (t - DeclinePenaltyWindow < e)%Z) l).

Definition put_slate (p : uuid) (s : redis) : redis :=
  set_declines (<[p := mkKey (slated p s) (Some (now s + DeclinePenaltyWindow)%Z)]> (declines s)) s.

Lemma get_key_live {A} (t ttl : Z) (k : uuid) (c : A) m : (0 < ttl)%Z →
  get_key t k (<[k := mkKey c (Some (t + ttl)%Z)]> m) = Some (mkKey c (Some (t + ttl)%Z)).
Proof.
  intros H. unfold get_key. rewrite lookup_insert_eq. unfold live. cbn [deadline].
  destruct (Z.ltb_spec t (t + ttl)); [done|lia].
Qed.

Lemma push_expire (p : uuid) (s : redis) :
  expire (now s) p DeclinePenaltyWindow
    (match get_key (now s) p (declines s) with
     | Some e => <[p := mkKey (content e ++ [to_seconds (now s)]) (deadline e)]> (declines s)
     | None => <[p := mkKey [to_seconds (now s)] None]> (declines s)
     end) =
  <[p := mkKey (slated p s) (Some (now s + DeclinePenaltyWindow)%Z)]> (declines s).
Proof.
  unfold expire, slated, slate, get_key. destruct (declines s !! p) as [e|] eqn:E.
  - destruct (live (now s) e) eqn:L.
    + rewrite lookup_insert_eq. unfold live in *. cbn [deadline]. rewrite L. apply insert_insert_eq.
    + rewrite lookup_insert_eq. apply insert_insert_eq.
  - rewrite lookup_insert_eq. apply insert_insert_eq.
Qed.

Lemma recordDecline_alone (p : uuid) (s : redis) :
  alone (recordDecline p) s =
  (Ok tt, if (Z.of_nat (recent (now s) (slated p s)) <? 3)%Z then put_slate p s
          else set_declines (delete p (declines s))
            (set_bans (<[p := mkKey tt (Some (now s +
               BanDurationForOffense (Z.of_nat (recent (now s) (slated p s)) / 3))%Z)]> (bans s)) s)).
Proof.
  unfold recordDecline, clock_now, read, pipeline, write, cmd, local. cbn -[expire get_key].
  rewrite push_expire, get_key_live by done. cbn [content]. fold (recent (now s) (slated p s)).
  unfold DeclinePenaltyThreshold. destruct (_ <? 3)%Z; cbn; [done|].
  unfold set_declines, set_bans. cbn. by rewrite delete_insert_eq.
Qed.

Lemma recent_slated (p : uuid) (s : redis) :
  recent (now s) (slated p s) = S (recent (now s) (slate p s)).
Proof.
  unfold recent, slated. rewrite filter_app, length_app, filter_cons_True; [cbn; lia|].
  unfold to_seconds, Second, DeclinePenaltyWindow, Minute, Second.
  pose proof (Z.mul_div_le (now s) 1000000000 ltac:(lia)).
  pose proof (Z.mul_succ_div_gt (now s) 1000000000 ltac:(lia)). lia.
Qed.

(** A decline or a timeout is put on the player's slate. The third one within an hour
    bans the player and wipes the slate; so undisturbed there are never more than two
    recent ones on it, and every ban is the base ban of five minutes, whatever the
    number of the player's earlier bans. *)
Theorem recordDecline_bans (p : uuid) (s : redis) :
  recent (now s) (slate p s) ≤ 2 →
  let '(r, s') := alone (recordDecline p) s in
  r = Ok tt ∧ now s' = now s ∧ recent (now s') (slate p s') ≤ 2 ∧
  (if recent (now s) (slate p s) <? 2
   then slate p s' = slate p s ++ [to_seconds (now s)] ∧ bans s' = bans s
   else slate p s' = [] ∧ bans s' = <[p := mkKey tt (Some (now s + 5 * Minute)%Z)]> (bans s)).
Proof.
  intros Hr. rewrite recordDecline_alone, recent_slated.
  destruct (Nat.ltb_spec (recent (now s) (slate p s)) 2) as [Hlt|Hge].
  - rewrite (proj2 (Z.ltb_lt _ 3)) by lia.
    assert (Hs : slate p (put_slate p s) = slated p s).
    { unfold slate, put_slate. cbn [now declines set_declines]. by rewrite get_key_live. }
    cbv beta iota zeta. split_and!; try done. rewrite Hs. change (now (put_slate p s)) with (now s). rewrite recent_slated. lia.
  - rewrite (proj2 (Z.ltb_ge _ 3)) by lia.
    assert (recent (now s) (slate p s) = 2) as -> by lia.
    assert (Hs : ∀ b, slate p (set_declines (delete p (declines s)) b) = []).
    { intros b. unfold slate, get_key. cbn [declines set_declines]. by rewrite lookup_delete_eq. }
    rewrite !Hs. split_and!; try done. cbn. lia.
Qed.
End Penalties.

(** ** A deployment *)

#[local] Existing Instance insertion_SortSlice.

Definition ann : uuid := "ann".
Definition ben : uuid := "ben".
Definition first_match : uuid := id_of 0.

Definition nobody_rated (p : uuid) : option f64 := None.

(** A token is the name of its owner. *)
Definition owner_JWT : JWT.
Proof. refine (Build_JWT (λ _ raw, Ok (true, mkClaims raw raw RolePlayer))). Defined.
#[local] Existing Instance owner_JWT.

Abbreviation drive ls :=
  (run id_of ("nil" : uuid) nobody_rated DefaultQueueConfig DefaultBackfillConfig "key" false ls (initial, [])).1.

Definition asks (p : string) (t : route) : call := Http (mkRequest (Some p) t false true).
Abbreviation Call_Enqueue p := (asks p PostQueue).
Abbreviation Call_Accept p m := (asks p (PostAccept (Some m))).

(** The [i]th call, without interference. *)
Definition whole (i : nat) (c : call) : list label := Spawn c :: replicate 30 (Run i).

(** Two players join and are matched. *)
Definition matched : list label :=
  whole 0 (Call_Enqueue ann) ++ whole 1 (Call_Enqueue ben) ++ whole 2 Call_FindAndPropose.

Definition agreed : list label :=
  matched ++ whole 3 (Call_Accept ann first_match) ++ whole 4 (Call_Accept ben first_match).

Lemma id_of_inj i j : id_of i = id_of j → i = j.
Proof. intros H. apply (inj (String.append "id-")), (inj pretty) in H. lia. Qed.

Lemma everyone_named (ls : list label) :
  forallb (λ l, if l is Spawn (Http r) then negb (bool_decide (cookie r = Some "")) else true) ls = true →
  ∀ r c, Spawn (Http r) ∈ ls → claims_of "key" r = Some c → PlayerID c ≠ parse ("nil" : uuid) "".
Proof.
  rewrite forallb_forall. intros H r c Hl Hc. apply list_elem_of_In, H, negb_true_iff, bool_decide_eq_false in Hl.
  unfold claims_of in Hc. destruct (cookie r) as [p|]; [|done]. cbn in Hc. injection Hc as <-. cbn. congruence.
Qed.

Lemma started_with_consent_witness :
  started (drive agreed) = [(ben, ann)] ∧
  ∃ m q, (m, q) ∈ proposals (drive agreed) ∧ ben = parse ("nil" : uuid) q.1 ∧
    ann = parse ("nil" : uuid) q.2 ∧ accepts "key" agreed ben m ∧ accepts "key" agreed ann m.
Proof.
  assert (Hs : started (drive agreed) = [(ben, ann)]) by (vm_compute; reflexivity).
  split; [exact Hs|].
  assert (Hin : (ben, ann) ∈ started (drive agreed)).
  { revert Hs. generalize (started (drive agreed)). intros l ->. by left. }
  refine (started_with_consent id_of ("nil" : uuid) nobody_rated DefaultQueueConfig DefaultBackfillConfig "key" false
    agreed id_of_inj _ ben ann Hin).
  apply everyone_named. vm_compute. reflexivity.
Defined.

(** What the rules do not exclude: when both players send their acceptance twice, the
    repeated ones put the record of the match, which the first session has removed,
    back, and a second session is started. *)
Definition accepted_twice : list label :=
  matched ++
  [Spawn (Call_Accept ann first_match); Run 3; Spawn (Call_Accept ben first_match); Run 4] ++
  whole 5 (Call_Accept ann first_match) ++ whole 6 (Call_Accept ben first_match) ++
  replicate 30 (Run 3) ++ replicate 30 (Run 4).

Theorem one_match_two_sessions :
  length (proposals (drive accepted_twice)) = 1 ∧
  started (drive accepted_twice) = [(ben, ann); (ben, ann)].
Proof. vm_compute. by split. Qed.

(** The expiry of a match does not look at whether its session is being started. *)
Definition accepted_late : list label :=
  matched ++ whole 3 (Call_Accept ann first_match) ++
  [Event (Wait (29 * Second)); Spawn (Call_Accept ben first_match); Run 4; Run 4; Run 4; Run 4;
   Event (Wait Second); Spawn (Call_Expiry first_match); Run 5] ++ replicate 30 (Run 4) ++ replicate 30 (Run 5).

Theorem cancelled_and_started :
  started (drive accepted_late) = [(ben, ann)] ∧
  (ann, "match_cancelled: timeout") ∈ sent (drive accepted_late) ∧
  (ann, "match_ready") ∈ sent (drive accepted_late).
Proof. split_and!; [vm_compute; done|apply (bool_decide_unpack _); vm_compute; done..]. Qed.

(** A matched player who does not confirm can join the queue again meanwhile. *)
Theorem enqueued_while_matched :
  ann ∈ dom (queued (drive (matched ++ whole 3 (Call_Enqueue ann)))) ∧
  is_Some (pending (drive (matched ++ whole 3 (Call_Enqueue ann))) !! first_match).
Proof. split; apply (bool_decide_unpack _); vm_compute; done. Qed.

(** Ann declines for the third time within the hour. *)
Definition declined_twice : redis :=
  set_declines (<[ann := mkKey [0; 60 * Second]%Z (Some (3660 * Second)%Z)]> ∅)
    (set_now (120 * Second)%Z initial).

Lemma recordDecline_bans_witness :
  bans (alone (recordDecline ann) declined_twice).2 !! ann =
  Some (mkKey tt (Some (7 * Minute)%Z)).
Proof.
  assert (H : recent (now declined_twice) (slate ann declined_twice) = 2) by (vm_compute; reflexivity).
  pose proof (recordDecline_bans ann declined_twice ltac:(rewrite H; lia)) as HH.
  destruct (alone (recordDecline ann) declined_twice) as [r s'].
  destruct HH as (_ & _ & _ & HH). rewrite H in HH. destruct HH as [_ HH].
  cbn [snd]. rewrite HH. apply lookup_insert_eq.
Defined.

(** A ban takes a player out of the queue, once: nothing keeps the player, whose cookie is
    still valid, from joining again. *)
Definition banning : list label :=
  whole 0 (Call_Enqueue ann) ++ whole 1 (Ban (Some (Events.mkPlayerBanned "e1" ann "b1" "boss" "cheating" None))).

Theorem banned_player_queues :
  queued (drive banning) = ∅ ∧ dom (queued (drive (banning ++ whole 2 (Call_Enqueue ann)))) = {[ann : string]}.
Proof. vm_compute. done. Qed.

(** The ban is marked as seen before the player is taken out: when that fails, the
    delivery that is tried again is skipped, and the player stays in the queue. *)
Theorem banned_player_stays :
  let evt := Ban (Some (Events.mkPlayerBanned "e1" ann "b1" "boss" "cheating" None)) in
  dom (queued (drive (whole 0 (Call_Enqueue ann) ++ Spawn evt :: [Run 1; Break 1] ++ whole 2 evt))) = {[ann : string]}.
Proof. vm_compute. done. Qed.
