(* ===== verification/BackfillSpec.v ===== *)
(** What a backfill scan does: it activates at most one bot, the one with the closest
    MMR, for a single human who has waited; and what happens when two instances scan
    at the same time. *)
From S2P Require Import Prelude Json Float64 Backend Demo Programs Matchmaking MatchmakingSpec.
From S2P Require Import Queue Backfill Middleware Web Ranked QueueSpec.
From Stdlib Require Import Floats.SpecFloat.
Import Demo Programs Float64 Matchmaking Queue Backfill Middleware Ranked.

Section Backfill.
Context `{U : UUID} (Nil : uuid) (GetRating : uuid → option f64).

Lemma alone_clock (s : redis) : alone clock_now s = (now s, s).
Proof. done. Qed.

(** ** Picking the closest *)

(** The distance of a rated bot from the target. *)
Definition distance (target : f64) (mmr : f64) : f64 := SFabs (fsub mmr target).

Definition rated (target : f64) (idStr : string) (b : uuid * f64) : Prop :=
  uuid_Parse idStr = Some b.1 ∧ ∃ mmr, GetRating b.1 = Some mmr ∧ b.2 = distance target mmr.

Definition consider (target : f64) (best : uuid * f64) (idStr : string) : uuid * f64 :=
  match uuid_Parse idStr with
  | Some id => closest target id (GetRating id) best
  | None => best
  end.

Lemma pickLoop_alone t l best s :
  alone (pickLoop GetRating t l best) s = ((foldl (consider t) best l).1, s).
Proof.
  revert best. induction l as [|x l IH]; intros best; [done|]. cbn [pickLoop foldl]. unfold consider at 2.
  destruct (uuid_Parse x) as [id|]; [|apply IH]. rewrite alone_bind. unfold botMMR.
  rewrite alone_bind, alone_read, alone_ret. apply IH.
Qed.

Lemma consider_spec t best x :
  consider t best x = best ∧ (∀ b, rated t x b → flt b.2 best.2 = false) ∨
  rated t x (consider t best x) ∧ flt (consider t best x).2 best.2 = true.
Proof.
  unfold consider, closest, rated, distance. destruct (uuid_Parse x) as [id|]; [|by left; naive_solver].
  destruct (GetRating id) as [mmr|] eqn:E; [|by left; split; [done|]; intros b ([= <-] & ? & ? & _); congruence].
  destruct (flt (SFabs (fsub mmr t)) best.2) eqn:F.
  - right. cbn. eauto.
  - left. split; [done|]. intros b ([= <-] & ? & ? & ->). congruence.
Qed.

Lemma fold_consider t l best :
  let r := foldl (consider t) best l in
  (r = best ∨ flt r.2 best.2 = true ∧ ∃ x, x ∈ l ∧ rated t x r) ∧
  ∀ x b, x ∈ l → rated t x b → flt b.2 r.2 = false.
Proof.
  revert best. induction l as [|x l IH]; intros best r.
  { split; [by left|]. by intros ?? []%not_elem_of_nil. }
  subst r. cbn [foldl]. destruct (IH (consider t best x)) as [H1 H2].
  set (r := foldl (consider t) (consider t best x) l) in *.
  destruct (consider_spec t best x) as [[E Hx]|[Hr Hlt]].
  - rewrite E in *. split.
    + destruct H1 as [?|(? & y & Hy & ?)]; [by left|right]. split; [done|]. exists y. split; [by right|done].
    + intros y b [->|Hy]%elem_of_cons Hb; [|by eapply H2].
      destruct H1 as [->|[Hf _]]; [by apply Hx|].
      apply not_true_iff_false. intros Hb'. specialize (Hx b Hb). by rewrite (flt_trans _ _ _ Hb' Hf) in Hx.
  - assert (Hr' : flt r.2 best.2 = true ∧ ∃ y, y ∈ x :: l ∧ rated t y r).
    { destruct H1 as [->|(Hf & y & Hy & ?)].
      - split; [done|]. exists x. split; [by left|done].
      - split; [by eapply flt_trans|]. exists y. split; [by right|done]. }
    split; [by right|]. intros y b [->|Hy]%elem_of_cons Hb; [|by eapply H2].
    assert (b = consider t best x) as ->.
    { destruct Hb as (Hp & m & Hm & Hd), Hr as (Hp' & m' & Hm' & Hd'). destruct b, (consider t best x).
      cbn in *. congruence. }
    destruct H1 as [->|[Hf _]]; [|by apply flt_asym]. apply not_true_iff_false. intros Hb'.
    pose proof (flt_asym _ _ Hb'). congruence.
Qed.

Lemma rated_canonical t x b : rated t x b → rated t (uuid_String b.1) b.
Proof. intros [_ H]. split; [apply uuid_Parse_String|done]. Qed.

(** ** A scan on its own *)

(** The lone human whom a bot may be activated for. *)
Definition lonely (cfg : BackfillConfig) (s : redis) (human : string) (mmr : f64) : Prop :=
  Enabled cfg = true ∧ humans (bot_known s) (map_to_list (queued s)) = [(human, mmr)] ∧
  botsInQueue (bot_known s) (map_to_list (queued s)) = 0 ∧
  (∃ id e, uuid_Parse human = Some id ∧ get_key (now s) (uuid_String id) (metas s) = Some e ∧
     (Threshold cfg ≤ now s - (content e).1)%Z) ∧
  (0 < size (bot_available s))%nat ∧
  (Z.of_nat (size (bot_known s)) - Z.of_nat (size (bot_available s)) < MaxActive cfg)%Z.

Definition activated (bot : uuid) (s : redis) : redis :=
  set_activations (activations s ++ [bot]) (set_available (bot_available s ∖ {[uuid_String bot]}) s).

Lemma BackfillScan_lonely cfg s human mmr : lonely cfg s human mmr →
  alone (BackfillScan Nil GetRating cfg true) s =
  (let bot := (foldl (consider mmr) (Nil, MaxFloat64) (elements (bot_available s))).1 in
   if decide (bot = Nil) then (tt, s) else alone (activate true bot) s).
Proof.
  intros (He & Hh & Hb & (id & e & Hid & Hm & Ht) & Hs & Hc). unfold BackfillScan. rewrite He. cbn [negb].
  rewrite alone_bind, alone_read. cbv zeta.
  destruct (map_to_list (queued s)) as [|z l] eqn:Hq; [done|]. rewrite alone_bind, alone_read. cbv zeta.
  rewrite Hh, Hb. cbn [Nat.ltb Nat.leb fst snd]. rewrite Hid. unfold humanWaitedLongEnough.
  rewrite !alone_bind, alone_read, Hm, alone_bind, alone_clock, alone_ret. rewrite (proj2 (Z.leb_le _ _) Ht).
  rewrite alone_bind, alone_read. cbv zeta. destruct (Z.of_nat (size (bot_available s))) eqn:Hn; [lia| |lia].
  rewrite (proj2 (Z.leb_gt _ _)) by lia. rewrite alone_bind. unfold pickClosestBot.
  rewrite alone_bind, alone_read. cbv zeta. rewrite alone_bind, pickLoop_alone, alone_ret.
  by case_decide.
Qed.

Lemma BackfillScan_idle cfg s :
  alone (BackfillScan Nil GetRating cfg true) s = (tt, s) ∨ ∃ human mmr, lonely cfg s human mmr.
Proof.
  unfold BackfillScan. destruct (Enabled cfg) eqn:He; [|by left]. cbn [negb].
  rewrite alone_bind, alone_read. cbv zeta.
  destruct (map_to_list (queued s)) as [|z l] eqn:Hq; [by left|]. rewrite alone_bind, alone_read. cbv zeta.
  destruct (humans (bot_known s) (z :: l)) as [|[human mmr] [|]] eqn:Hh; [by left| |by left].
  destruct (botsInQueue (bot_known s) (z :: l)) eqn:Hb; [|by left]. cbn [Nat.ltb Nat.leb fst snd].
  destruct (uuid_Parse human) as [id|] eqn:Hid; [|by left]. unfold humanWaitedLongEnough.
  rewrite !alone_bind, alone_read. destruct (get_key (now s) (uuid_String id) (metas s)) as [e|] eqn:Hm; [|by left].
  rewrite alone_bind, alone_clock, alone_ret.
  destruct (Z.leb_spec (Threshold cfg) (now s - (content e).1)); [|by left].
  rewrite alone_bind, alone_read. cbv zeta. destruct (Z.of_nat (size (bot_available s))) eqn:Hn; [by left| |lia].
  destruct (Z.leb_spec (MaxActive cfg) (Z.of_nat (size (bot_known s)) - Z.pos p)); [by left|].
  right. exists human, mmr. unfold lonely. rewrite Hq. split_and!; eauto; lia.
Qed.

Lemma activate_alone bot s :
  alone (activate true bot) s =
  (tt, if decide (uuid_String bot ∈ bot_available s) then activated bot s else s).
Proof.
  unfold activate. rewrite alone_bind, alone_cmd. cbn [fst snd]. case_decide.
  - rewrite bool_decide_true by done. cbn [negb]. by rewrite alone_bind, alone_write.
  - rewrite bool_decide_false by done. cbn. f_equal. destruct s. unfold set_available. cbn. f_equal.
    set_solver.
Qed.

(** C20 A scan that runs on its own changes nothing, or claims and activates exactly one
    bot: then a single human waits, long enough and without a bot in the queue, fewer
    bots than the maximum are active, and no available bot with a known rating is
    closer in MMR than the one chosen. It does activate one whenever all that holds
    and some available bot has a rating at a finite distance. *)
Theorem BackfillScan_spec (cfg : BackfillConfig) (s : redis) :
  let s' := (alone (BackfillScan Nil GetRating cfg true) s).2 in
  (s' = s ∨ ∃ human mmr bot d, lonely cfg s human mmr ∧ s' = activated bot s ∧
     uuid_String bot ∈ bot_available s ∧ rated mmr (uuid_String bot) (bot, d) ∧
     ∀ x b, x ∈ bot_available s → rated mmr x b → flt b.2 d = false) ∧
  (∀ human mmr x b, lonely cfg s human mmr → x ∈ bot_available s → rated mmr x b →
     flt b.2 MaxFloat64 = true → (∀ y, y ∈ bot_available s → ∃ u, u ≠ Nil ∧ y = uuid_String u) →
     ∃ bot, s' = activated bot s).
Proof.
  intros s'. subst s'.
  assert (Hcases : ∀ human mmr, lonely cfg s human mmr →
    let r := foldl (consider mmr) (Nil, MaxFloat64) (elements (bot_available s)) in
    (alone (BackfillScan Nil GetRating cfg true) s).2 =
    (if decide (r.1 = Nil) then s else if decide (uuid_String r.1 ∈ bot_available s) then activated r.1 s else s)).
  { intros human mmr Hl r. rewrite (BackfillScan_lonely cfg s human mmr Hl). fold r. cbv zeta.
    case_decide; [done|]. by rewrite activate_alone. }
  split.
  - destruct (BackfillScan_idle cfg s) as [->|(human & mmr & Hl)]; [by left|].
    rewrite (Hcases human mmr Hl).
    destruct (fold_consider mmr (elements (bot_available s)) (Nil, MaxFloat64)) as [H1 H2].
    set (r := foldl _ _ _) in *. repeat case_decide; [by left| |by left].
    right. exists human, mmr, r.1, r.2. split_and!; [done..| |].
    + destruct H1 as [E|(_ & x & _ & Hr)]; [by rewrite E in *|]. by apply rated_canonical in Hr.
    + intros x b Hx. apply H2. by apply elem_of_elements.
  - intros human mmr x b Hl Hx Hb Hf Hcan. rewrite (Hcases human mmr Hl).
    destruct (fold_consider mmr (elements (bot_available s)) (Nil, MaxFloat64)) as [H1 H2].
    set (r := foldl _ _ _) in *. exists r.1.
    destruct H1 as [E|(_ & y & Hy & Hr & _)].
    { specialize (H2 x b ltac:(by apply elem_of_elements) Hb). rewrite E in H2. cbn in H2. congruence. }
    apply elem_of_elements in Hy. destruct (Hcan y Hy) as (u & Hu & ->).
    rewrite uuid_Parse_String in Hr. injection Hr as <-. by rewrite decide_False, decide_True.
Qed.
End Backfill.

(** ** Two instances *)

#[local] Existing Instance insertion_SortSlice.
#[local] Existing Instance owner_JWT.

Definition lone_human : uuid := "ann".
Definition first_bot : uuid := "bot-1".
Definition second_bot : uuid := "bot-2".
Definition nil_id : uuid := "nil".
Definition all_rated (p : uuid) : option f64 := Some (f_of_Z 1500).
Definition one_bot : BackfillConfig := mkBackfillConfig true (15 * Second) 1.

Definition waiting : list (label (U := _)) :=
  [Event (BotRegisters first_bot); Event (BotIdle first_bot);
   Event (BotRegisters second_bot); Event (BotIdle second_bot); Spawn (Call_Enqueue lone_human)] ++
  replicate 20 (Run 0) ++ [Event (Wait (20 * Second))].

Abbreviation operate ls := (run id_of nil_id all_rated DefaultQueueConfig one_bot "key" false ls (initial, [])).1.

(** A scan does not hold the lock of the queue. When a second instance has counted the
    idle bots before the first one claims its bot, and lists them after, both activate
    a bot for the same human, and two are active where one is the maximum. *)
Definition two_scans : list (label (U := _)) :=
  waiting ++ [Spawn Call_BackfillScan; Spawn Call_BackfillScan] ++ replicate 5 (Run 1) ++
  replicate 20 (Run 2) ++ replicate 20 (Run 1).

Theorem two_bots_for_one_human :
  MaxActive one_bot = 1%Z ∧ dom (queued (operate two_scans)) = {[lone_human : string]} ∧
  activations (operate two_scans) = [first_bot; second_bot] ∧ bot_available (operate two_scans) = ∅.
Proof. split; [done|]. split_and!; (apply (bool_decide_unpack _); vm_compute; done). Qed.

Lemma waiting_lonely : lonely one_bot (operate waiting) lone_human (f_of_Z 1500).
Proof.
  unfold lonely. split; [reflexivity|]. split; [vm_compute; reflexivity|]. split; [vm_compute; reflexivity|].
  assert (Hs : size (bot_available (operate waiting)) = 2) by (vm_compute; reflexivity).
  assert (Hk : size (bot_known (operate waiting)) = 2) by (vm_compute; reflexivity).
  assert (Hm : get_key (now (operate waiting)) lone_human (metas (operate waiting)) =
    Some (mkKey (0%Z, f_of_Z 1500) (Some QueueMetaTTL))) by (vm_compute; reflexivity).
  assert (Hn : now (operate waiting) = (20 * Second)%Z) by (vm_compute; reflexivity).
  rewrite Hs, Hk. split; [|split; [lia|reflexivity]].
  exists lone_human, (mkKey (0%Z, f_of_Z 1500) (Some QueueMetaTTL)).
  split; [reflexivity|]. split; [exact Hm|]. rewrite Hn. cbn. unfold Second. lia.
Qed.

Lemma BackfillScan_spec_witness :
  ∃ bot, (alone (BackfillScan nil_id all_rated one_bot true) (operate waiting)).2 =
    activated bot (operate waiting).
Proof.
  assert (Ha : bot_available (operate waiting) = {[first_bot : string]} ∪ {[second_bot : string]})
    by (apply (bool_decide_unpack _); vm_compute; done).
  refine (proj2 (BackfillScan_spec nil_id all_rated one_bot (operate waiting))
    lone_human (f_of_Z 1500) (first_bot : string) (first_bot, distance (f_of_Z 1500) (f_of_Z 1500))
    waiting_lonely _ _ _ _).
  - rewrite Ha. apply elem_of_union_l. by apply elem_of_singleton.
  - split; [reflexivity|]. exists (f_of_Z 1500). split; reflexivity.
  - vm_compute. reflexivity.
  - rewrite Ha. intros y [->%elem_of_singleton| ->%elem_of_singleton]%elem_of_union;
      eexists; (split; [|reflexivity]); by intros [=].
Defined.
