(* ===== verification/UsersApi.v ===== *)
(** The HTTP and gRPC interface of the user service (services/user-service/internal/api,
    internal/grpc). Path parameters and queries are strings; a body is what it decodes
    to, [None] when it does not. *)
From S2P Require Import Prelude Json Float64 Backend Programs Middleware Users.
From S2P Require Lobby.
Import Programs Middleware Users.

Module UsersApi.

(** [time.Parse(time.RFC3339, s)], in the unit of the database. *)
Class RFC3339 := { ParseRFC3339 : string → option Z; FormatRFC3339 : Z → string }.

Section Api.
Context `{HU : UUID} `{!Postgres} `{!JWT} `{!RFC3339}.

Inductive body : Type :=
  | B_error (msg : string)
  | B_failure (e : error)          (* the text of an error *)
  | B_empty
  | B_friendship (f : Friendship)
  | B_views (l : list FriendshipView)
  | B_mutes (l : list PlayerMute)
  | B_ban (b : Ban)
  | B_bans (l : list Ban)
  | B_report (r : PlayerReport)
  | B_reports (l : list PlayerReport)
  | B_profile (p : PlayerProfile)
  | B_settings (s : PlayerSettings)
  | B_player (p : Player)
  | B_players (l : list Player)
  | B_email (e : AllowedEmail)
  | B_emails (l : list AllowedEmail)
  | B_logs (l : list AuditLog).

Definition handler : Type := prog tables (response body).

Definition writeJSON (status : Z) (b : body) : handler := mret (mkResponse status b).
Definition writeError (status : Z) (msg : string) : handler :=
  Middleware.writeError (M := prog tables) B_error status msg.
Definition noContent : handler := mret (mkResponse StatusNoContent B_empty).
Definition forbidden : handler := writeError StatusForbidden "forbidden".

(** ** Roles *)

(** A role that is not in the table has the zero rank, that of a player. *)
Definition role_rank (role : string) : Z :=
  if decide (role = RoleManager) then 1 else if decide (role = RoleOwner) then 2 else 0.
Definition hasRole (callerRole required : string) : bool := (role_rank required <=? role_rank callerRole)%Z.

(** Behind [Require] the context always has a role. *)
Definition requireRole (role : string) (next : Claims → handler) (c : Claims) : handler :=
  if hasRole (ClaimRole c) role then next c else forbidden.

(** ** Steps that the handlers share *)

(** [id, err := uuid.Parse(chi.URLParam(...))] *)
Definition parse_id (raw msg : string) (k : uuid → handler) : handler :=
  match uuid_Parse raw with Some u => k u | None => writeError StatusBadRequest msg end.

(** [if callerID != playerID] *)
Definition own (c : Claims) (p : uuid) (k : handler) : handler :=
  if decide (PlayerID c = p) then k else forbidden.

Definition decode {A} (b : option A) (k : A → handler) : handler :=
  match b with Some x => k x | None => writeError StatusBadRequest "invalid request body" end.

(** [if err != nil { 500 }] *)
Definition or_500 {A} (p : prog tables (result error A)) (msg : string) (k : A → handler) : handler :=
  r ← p;
  match r with Ok x => k x | Err _ => writeError StatusInternalServerError msg end.

(** [ErrNotFound] is answered with 404 and another message. *)
Definition or_404 {A} (p : prog tables (result error A)) (missing msg : string) (k : A → handler) : handler :=
  r ← p;
  match r with
  | Ok x => k x
  | Err e => if errors_Is e ErrNotFound then writeError StatusNotFound missing
             else writeError StatusInternalServerError msg
  end.

(** ** Friendships *)

Definition handleSearchPlayer (username : string) (c : Claims) : handler :=
  if decide (username = "") then writeError StatusBadRequest "username query param required"
  else
    r ← FindPlayerByUsername username;
    match r with
    | Err _ => writeError StatusNotFound "player not found"
    | Ok p => writeJSON StatusOK (B_player p)
    end.

Definition handleListFriends (playerID : string) (c : Claims) : handler :=
  parse_id playerID "invalid player id" (λ p, own c p (
    or_500 (ListFriends p) "failed to list friends" (λ l, writeJSON StatusOK (B_views l)))).

Definition handleListPendingRequests (playerID : string) (c : Claims) : handler :=
  parse_id playerID "invalid player id" (λ p, own c p (
    or_500 (ListPendingFriendRequests p) "failed to list pending requests" (λ l,
    writeJSON StatusOK (B_views l)))).

Definition handleSendFriendRequest (playerID targetID : string) (c : Claims) : handler :=
  parse_id playerID "invalid player id" (λ requesterID,
  parse_id targetID "invalid target id" (λ target, own c requesterID (
    if decide (requesterID = target) then
      writeError StatusBadRequest "cannot send friend request to yourself"
    else
      or_500 (SendFriendRequest requesterID target) "failed to send friend request" (λ f,
      send (FriendshipRequested requesterID (ClaimUsername c) target);;
      writeJSON StatusCreated (B_friendship f))))).

Definition handleAcceptFriendRequest (playerID requesterID : string) (c : Claims) : handler :=
  parse_id playerID "invalid player id" (λ addressee,
  parse_id requesterID "invalid requester id" (λ requester, own c addressee (
    or_404 (AcceptFriendRequest requester addressee) "friend request not found"
      "failed to accept friend request" (λ f,
    send (FriendshipAccepted (RequesterID f) (AddresseeID f));;
    writeJSON StatusOK (B_friendship f))))).

Definition handleDeclineFriendRequest (playerID requesterID : string) (c : Claims) : handler :=
  parse_id playerID "invalid player id" (λ addressee,
  parse_id requesterID "invalid requester id" (λ requester, own c addressee (
    or_404 (DeclineFriendRequest requester addressee) "friend request not found"
      "failed to decline friend request" (λ _, noContent)))).

Definition handleRemoveFriend (playerID friendID : string) (c : Claims) : handler :=
  parse_id playerID "invalid player id" (λ p,
  parse_id friendID "invalid friend id" (λ friend, own c p (
    or_404 (RemoveFriend p friend) "friendship not found" "failed to remove friend" (λ _, noContent)))).

Definition handleBlockPlayer (playerID targetID : string) (c : Claims) : handler :=
  parse_id playerID "invalid player id" (λ p,
  parse_id targetID "invalid target id" (λ target, own c p (
    if decide (p = target) then writeError StatusBadRequest "cannot block yourself"
    else or_500 (BlockPlayer p target) "failed to block player" (λ f, writeJSON StatusOK (B_friendship f))))).

Definition handleUnblockPlayer (playerID targetID : string) (c : Claims) : handler :=
  parse_id playerID "invalid player id" (λ p,
  parse_id targetID "invalid target id" (λ target, own c p (
    or_404 (UnblockPlayer p target) "block not found" "failed to unblock player" (λ _, noContent)))).

(** ** Mutes *)

Definition handleMutePlayer (playerID : string) (req : option string) (c : Claims) : handler :=
  parse_id playerID "invalid player id" (λ muter, decode req (λ raw,
  parse_id raw "invalid muted_id" (λ muted, own c muter (
    if decide (muter = muted) then writeError StatusBadRequest "cannot mute yourself"
    else or_500 (MutePlayer muter muted) "failed to mute player" (λ _, noContent))))).

Definition handleUnmutePlayer (playerID mutedID : string) (c : Claims) : handler :=
  parse_id playerID "invalid player id" (λ muter,
  parse_id mutedID "invalid muted id" (λ muted, own c muter (
    or_500 (UnmutePlayer muter muted) "failed to unmute player" (λ _, noContent)))).

Definition handleGetMutes (playerID : string) (c : Claims) : handler :=
  parse_id playerID "invalid player id" (λ p,
    if decide (PlayerID c ≠ p ∧ hasRole (ClaimRole c) RoleManager = false) then forbidden
    else or_500 (GetMutedPlayers p) "failed to get muted players" (λ l, writeJSON StatusOK (B_mutes l))).

(** ** Profiles and settings *)

Definition handleGetProfile (playerID : string) (c : Claims) : handler :=
  parse_id playerID "invalid player id" (λ p,
    or_500 (GetProfile p) "failed to get profile" (λ x, writeJSON StatusOK (B_profile x))).

Definition handleUpsertProfile (playerID : string) (req : option (option string * option string)) (c : Claims) : handler :=
  parse_id playerID "invalid player id" (λ p, own c p (decode req (λ x,
    or_500 (UpsertProfile p x.1 x.2) "failed to update profile" (λ x, writeJSON StatusOK (B_profile x))))).

Definition handleGetPlayerSettings (playerID : string) (c : Claims) : handler :=
  parse_id playerID "invalid player_id" (λ p, own c p (
    or_500 (GetPlayerSettings p) "failed to get settings" (λ x, writeJSON StatusOK (B_settings x)))).

Definition handleUpsertPlayerSettings (playerID : string) (req : option PlayerSettingMap) (c : Claims) : handler :=
  parse_id playerID "invalid player_id" (λ p, own c p (decode req (λ x,
    or_500 (UpsertPlayerSettings p x) "failed to save settings" (λ x, writeJSON StatusOK (B_settings x))))).

(** ** Bans *)

(** [_ = st.LogAction(...)] *)
Definition log_action (c : Claims) (action targetType targetID : string)
    (details : option (list (string * option string))) : prog tables unit :=
  ignore (LogAction (PlayerID c) action targetType targetID details).

(** An absent time is no limit, a malformed one is refused. *)
Definition parse_time {A} (raw : option string) (bad : A) (k : option Z → A) : A :=
  match raw with
  | None => k None
  | Some s => match ParseRFC3339 s with Some t => k (Some t) | None => bad end
  end.

Definition handleIssueBan (playerID : string) (req : option (option string * option string)) (c : Claims) : handler :=
  parse_id playerID "invalid player id" (λ p, decode req (λ x,
  parse_time x.2 (writeError StatusBadRequest "invalid expires_at format, expected RFC3339") (λ expiresAt,
  or_500 (IssueBan (mkIssueBanParams p (PlayerID c) x.1 expiresAt)) "failed to issue ban" (λ ban,
  send (PlayerBanned ban);;
  log_action c "ban_issued" "player" (uuid_String p)
    (Some [("ban_id", Some (uuid_String (BanID ban))); ("reason", x.1)]);;
  writeJSON StatusCreated (B_ban ban))))).

Definition handleLiftBan (banID : string) (c : Claims) : handler :=
  parse_id banID "invalid ban id" (λ id,
  r ← GetBan id;
  match r with
  | Err _ => writeError StatusNotFound "ban not found"
  | Ok ban =>
      or_404 (LiftBan id (PlayerID c)) "ban not found or already lifted" "failed to lift ban" (λ _,
      send (PlayerUnbanned id (Ban_PlayerID ban) (PlayerID c));;
      log_action c "ban_lifted" "ban" (uuid_String id) (Some [("player_id", Some (uuid_String (Ban_PlayerID ban)))]);;
      noContent)
  end).

Definition handleListBans (playerID : string) (c : Claims) : handler :=
  parse_id playerID "invalid player id" (λ p,
    or_500 (ListBans p) "failed to list bans" (λ l, writeJSON StatusOK (B_bans l))).

(** ** Reports *)

(** The context of a report is kept as its text, [{}] without one. *)
Definition handleCreateReport (playerID : string) (req : option (string * string * option string)) (c : Claims)
    : handler :=
  parse_id playerID "invalid player id" (λ p, own c p (decode req (λ x,
    let '(reportedID, reason, context) := x in
    if decide (reason = "") then writeError StatusBadRequest "reason is required"
    else
      parse_id reportedID "invalid reported_id" (λ reported,
      if decide (reported = p) then writeError StatusBadRequest "cannot report yourself"
      else or_500 (CreateReport p reported reason (default "{}" context)) "failed to create report" (λ r,
           writeJSON StatusCreated (B_report r)))))).

(** [limit] and [offset] of a query; what is malformed or out of range is ignored. *)
Definition query_limit (v : string) : Z :=
  match Lobby.Lobby.Atoi v with
  | Some n => if ((0 <? n) && (n <=? 200))%Z then n else 50%Z
  | None => 50%Z
  end.
Definition query_offset (v : string) : Z :=
  match Lobby.Lobby.Atoi v with Some n => if (0 <=? n)%Z then n else 0%Z | None => 0%Z end.

Definition handleListPendingReports (limit offset : string) (c : Claims) : handler :=
  or_500 (ListPendingReports (query_limit limit) (query_offset offset)) "failed to list reports" (λ l,
  writeJSON StatusOK (B_reports l)).

Definition handleListReportsByPlayer (playerID : string) (c : Claims) : handler :=
  parse_id playerID "invalid player id" (λ p,
    or_500 (ListReportsByPlayer p) "failed to list reports" (λ l, writeJSON StatusOK (B_reports l))).

Definition handleReviewReport (reportID : string) (req : option (option string * option string)) (c : Claims)
    : handler :=
  parse_id reportID "invalid report id" (λ id, decode req (λ x,
    let review banID :=
      or_404 (ReviewReport id (PlayerID c) x.1 banID) "report not found or already reviewed"
        "failed to review report" (λ _,
      log_action c "report_reviewed" "report" (uuid_String id) (Some [("resolution", x.1)]);;
      noContent) in
    match x.2 with
    | None => review None
    | Some raw => parse_id raw "invalid ban_id" (λ b, review (Some b))
    end)).

(** ** Administration *)

Definition handleBroadcast (req : option (string * string)) (c : Claims) : handler :=
  decode req (λ x,
    let type_ := if decide (x.2 = "") then "info" else x.2 in
    if decide (x.1 = "") then writeError StatusBadRequest "message is required"
    else if decide (type_ ≠ "info" ∧ type_ ≠ "warning") then
      writeError StatusBadRequest "type must be info or warning"
    else send (AdminBroadcastSent x.1 type_ (PlayerID c));; noContent).

Definition handleListAllowedEmails (c : Claims) : handler :=
  or_500 ListAllowedEmails "failed to list allowed emails" (λ l, writeJSON StatusOK (B_emails l)).

Definition handleAddAllowedEmail (req : option (string * string)) (c : Claims) : handler :=
  decode req (λ x,
    let role := if decide (x.2 = "") then Users.RolePlayer else x.2 in
    if decide (x.1 = "") then writeError StatusBadRequest "email is required"
    else if decide (ClaimRole c = RoleManager ∧ role ≠ RolePlayer) then
      writeError StatusForbidden "managers can only invite players"
    else
      or_500 (AddAllowedEmail x.1 role (PlayerID c)) "failed to add email" (λ e,
      log_action c "email_added" "allowed_email" x.1 (Some [("role", Some role)]);;
      writeJSON StatusCreated (B_email e))).

Definition handleRemoveAllowedEmail (email : string) (c : Claims) : handler :=
  if decide (email = "") then writeError StatusBadRequest "email is required"
  else
    r ← RemoveAllowedEmail email;
    match r with
    | Err _ => writeError StatusNotFound "email not found"
    | Ok _ => log_action c "email_removed" "allowed_email" email None;; noContent
    end.

Definition handleListPlayers (limit offset : string) (c : Claims) : handler :=
  or_500 (ListPlayers (query_limit limit) (query_offset offset)) "failed to list players" (λ l,
  writeJSON StatusOK (B_players l)).

(** The text of the error is the answer. *)
Definition handleSetPlayerRole (playerID : string) (req : option string) (c : Claims) : handler :=
  parse_id playerID "invalid player_id" (λ p, decode req (λ role,
    if decide (role = "") then writeError StatusBadRequest "role is required"
    else if decide (PlayerID c = p ∧ ClaimRole c = RoleOwner ∧ role ≠ RoleOwner) then
      writeError StatusForbidden "cannot demote yourself"
    else
      r ← SetPlayerRole p role;
      match r with
      | Err e => writeJSON StatusInternalServerError (B_failure e)
      | Ok _ =>
          log_action c "role_changed" "player" (uuid_String p) (Some [("new_role", Some role)]);;
          noContent
      end)).

(** The filters of a query, the empty string where there is none. *)
Record audit_query := mkAuditQuery {
  q_actor : string; q_action : string; q_target_type : string;
  q_from : string; q_to : string; q_limit : string; q_offset : string
}.

Definition given (v : string) : option string := if decide (v = "") then None else Some v.

(** A parameter that is given has to parse. *)
Definition optional {A} (parse : string → option A) (v msg : string) (k : option A → handler) : handler :=
  match given v with
  | None => k None
  | Some v => match parse v with Some x => k (Some x) | None => writeError StatusBadRequest msg end
  end.

Definition natural (v : string) : option Z :=
  n ← Lobby.Lobby.Atoi v; if (n <? 0)%Z then None else Some n.

Definition handleListAuditLogs (q : audit_query) (c : Claims) : handler :=
  optional uuid_Parse (q_actor q) "invalid actor UUID" (λ actor,
  optional ParseRFC3339 (q_from q) "invalid from date, expected RFC3339" (λ from,
  optional ParseRFC3339 (q_to q) "invalid to date, expected RFC3339" (λ to,
  optional natural (q_limit q) "invalid limit" (λ limit,
  optional natural (q_offset q) "invalid offset" (λ offset,
  or_500 (ListAuditLogs (mkAuditFilter actor (given (q_action q)) (given (q_target_type q)) from to
            (default 0%Z limit) (default 0%Z offset))) "failed to list audit logs" (λ l,
  writeJSON StatusOK (B_logs l))))))).

(** ** The router *)

Inductive route : Type :=
  | GetProfile_ (playerID : string)
  | PutProfile (playerID : string) (req : option (option string * option string))
  | SearchPlayer (username : string)
  | GetFriends (playerID : string)
  | GetPending (playerID : string)
  | PostFriend (playerID targetID : string)
  | PutAccept (playerID requesterID : string)
  | DeleteDecline (playerID requesterID : string)
  | DeleteFriend (playerID friendID : string)
  | PostBlock (playerID targetID : string)
  | DeleteBlock (playerID targetID : string)
  | PostMute (playerID : string) (req : option string)
  | DeleteMute (playerID mutedID : string)
  | GetMutes_ (playerID : string)
  | GetSettings (playerID : string)
  | PutSettings (playerID : string) (req : option PlayerSettingMap)
  | PostBan (playerID : string) (req : option (option string * option string))
  | DeleteBan (banID : string)
  | GetBans (playerID : string)
  | GetReports (limit offset : string)
  | GetPlayerReports (playerID : string)
  | PutReview (reportID : string) (req : option (option string * option string))
  | PostBroadcast (req : option (string * string))
  | GetEmails
  | PostEmail (req : option (string * string))
  | DeleteEmail (email : string)
  | GetPlayers (limit offset : string)
  | PutRole (playerID : string) (req : option string)
  | GetAuditLogs (q : audit_query)
  | PostReport (playerID : string) (req : option (string * string * option string)).

(** The cookie, and whether the body passes the schema of the route, if it has one. *)
Record request := mkRequest { cookie : option string; schema_ok : bool; to : route }.

(** [ValidateBody]: the schemas are checked by a library. *)
Definition validate (r : request) (next : handler) : handler :=
  if schema_ok r then next else writeError StatusBadRequest "validation failed".

Definition route_handler (r : request) : Claims → handler :=
  let manager := requireRole RoleManager in
  match to r with
  | GetProfile_ p => handleGetProfile p
  | PutProfile p b => λ c, validate r (handleUpsertProfile p b c)
  | SearchPlayer u => handleSearchPlayer u
  | GetFriends p => handleListFriends p
  | GetPending p => handleListPendingRequests p
  | PostFriend p t => handleSendFriendRequest p t
  | PutAccept p q => handleAcceptFriendRequest p q
  | DeleteDecline p q => handleDeclineFriendRequest p q
  | DeleteFriend p f => handleRemoveFriend p f
  | PostBlock p t => handleBlockPlayer p t
  | DeleteBlock p t => handleUnblockPlayer p t
  | PostMute p b => λ c, validate r (handleMutePlayer p b c)
  | DeleteMute p m => handleUnmutePlayer p m
  | GetMutes_ p => handleGetMutes p
  | GetSettings p => handleGetPlayerSettings p
  | PutSettings p b => λ c, validate r (handleUpsertPlayerSettings p b c)
  | PostBan p b => manager (λ c, validate r (handleIssueBan p b c))
  | DeleteBan b => manager (handleLiftBan b)
  | GetBans p => manager (handleListBans p)
  | GetReports l o => manager (handleListPendingReports l o)
  | GetPlayerReports p => manager (handleListReportsByPlayer p)
  | PutReview i b => manager (λ c, validate r (handleReviewReport i b c))
  | PostBroadcast b => manager (λ c, validate r (handleBroadcast b c))
  | GetEmails => manager handleListAllowedEmails
  | PostEmail b => manager (λ c, validate r (handleAddAllowedEmail b c))
  | DeleteEmail e => manager (handleRemoveAllowedEmail e)
  | GetPlayers l o => manager (handleListPlayers l o)
  | PutRole p b => manager (requireRole RoleOwner (λ c, validate r (handleSetPlayerRole p b c)))
  | GetAuditLogs q => manager (handleListAuditLogs q)
  | PostReport p b => λ c, validate r (handleCreateReport p b c)
  end.

Definition NewRouter (secret : string) (r : request) : handler :=
  Require (M := prog tables) B_error secret (cookie r) (route_handler r).

(** ** gRPC: calls of the other services, which are not authenticated *)

Inductive grpc_code := InvalidArgument | Internal.
Inductive grpc_reply : Type :=
  | G_ban (isBanned : bool) (reason expiresAt : string)
  | G_friendship (status blockedBy : string)
  | G_accepted
  | G_mutes (ids : list string).
Inductive grpc_request : Type :=
  | CheckBan_ (playerID : string)
  | GetFriendship_ (playerA playerB : string)
  | AcceptFriendRequest_ (requesterID addresseeID : string)
  | GetMutes_of (playerID : string).

Definition rpc : Type := prog tables (result grpc_code grpc_reply).
Definition grpc_id (raw : string) (k : uuid → rpc) : rpc :=
  match uuid_Parse raw with Some u => k u | None => mret (Err InvalidArgument) end.
Definition or_internal {A} (p : prog tables (result error A)) (k : A → rpc) : rpc :=
  r ← p; match r with Ok x => k x | Err _ => mret (Err Internal) end.

Definition CheckBan (playerID : string) : rpc :=
  grpc_id playerID (λ p, or_internal (CheckActiveBan p) (λ b,
    mret (Ok match b with
             | None => G_ban false "" ""
             | Some b => G_ban true (default "" (Ban_Reason b))
                           (match ExpiresAt b with Some t => FormatRFC3339 t | None => "" end)
             end))).

Definition grpc_GetFriendship (a b : string) : rpc :=
  grpc_id a (λ a, grpc_id b (λ b, or_internal (GetFriendship a b) (λ f,
    mret (Ok match f with
             | None => G_friendship "none" ""
             | Some f => G_friendship (Status f)
                 (if String.eqb (Status f) FriendshipStatusBlocked then uuid_String (RequesterID f) else "")
             end)))).

Definition grpc_AcceptFriendRequest (requesterID addresseeID : string) : rpc :=
  grpc_id requesterID (λ requester, grpc_id addresseeID (λ addressee,
    or_internal (AcceptFriendRequest requester addressee) (λ _, mret (Ok G_accepted)))).

Definition GetMutes (playerID : string) : rpc :=
  grpc_id playerID (λ p, or_internal (GetMutedPlayers p) (λ l,
    mret (Ok (G_mutes ((λ m, uuid_String (MutedID m)) <$> l))))).

Definition grpc_serve (r : grpc_request) : rpc :=
  match r with
  | CheckBan_ p => CheckBan p
  | GetFriendship_ a b => grpc_GetFriendship a b
  | AcceptFriendRequest_ a b => grpc_AcceptFriendRequest a b
  | GetMutes_of p => GetMutes p
  end.

(** ** The service *)

Inductive call : Type :=
  | Http (r : request)
  | Grpc (r : grpc_request).

Definition serve (secret : string) (c : call) : prog tables unit :=
  match c with
  | Http r => ignore (NewRouter secret r)
  | Grpc r => ignore (grpc_serve r)
  end.

(** The clock of the database, and what the other services do to the players they share:
    a new player, a deleted one. *)
Inductive happening : Type :=
  | Clock (t : Z)
  | Joined (p : uuid) (x : Player)
  | Deleted (p : uuid) (t : Z).

Definition happen (e : happening) (s : tables) : tables :=
  match e with
  | Clock t => set_clock t s
  | Joined p x => match players s !! p with Some _ => s | None => set_players (<[p := x]> (players s)) s end
  | Deleted p t =>
      match players s !! p with
      | Some x => set_players (<[p := mkPlayer (Player_ID x) (Username x) (Role x) (AvatarURL x) (IsBot x)
                    (BotProfile x) (Player_CreatedAt x) (Some t)]> (players s)) s
      | None => s
      end
  end.

Definition run (secret : string) (ls : list (label call happening)) (s : tables) : tables :=
  (Programs.run (serve secret) happen ls (s, [])).1.
End Api.
End UsersApi.
