(* ===== verification/UsersSpec.v ===== *)
(** Who may do what in the user service: whatever requests interleave and whichever
    statements fail, every row of its tables is there because a caller who is entitled
    to it has asked for it, and what protects a player is only undone by those entitled. *)
From S2P Require Import Prelude Json Backend Store Demo Programs Middleware Users UsersApi.
Import Programs Middleware Users UsersApi.

Section Authorization.
Context `{HU : UUID} `{!Postgres} `{!JWT} `{!RFC3339}.
Context (secret : string) (s0 : tables) (ls : list (label call happening)).

(** ** What has been asked for *)

(** The claims that the middleware takes from a request. *)
Definition claims_of (r : request) : option Claims :=
  raw ← cookie r; match VerifyToken secret raw with Ok c => Some c | Err _ => None end.

(** A request of the run whose claims and route satisfy [Q]. *)
Definition asked (Q : Claims → route → Prop) : Prop :=
  ∃ r c, Spawn (Http r) ∈ ls ∧ claims_of r = Some c ∧ Q c (to r).

Definition names (raw : string) (u : uuid) : Prop := uuid_Parse raw = Some u.

Definition is_manager (c : Claims) : Prop := hasRole (ClaimRole c) RoleManager = true.
Definition is_owner (c : Claims) : Prop := hasRole (ClaimRole c) RoleOwner = true.

(** Requests of [a] that name [a] and [b] in their path. *)
Definition asked_by (a b : uuid) (t : string → string → route) : Prop :=
  asked (λ c r, PlayerID c = a ∧ ∃ p q, r = t p q ∧ names p a ∧ names q b).

Definition sent (k : uuid * uuid) : Prop := k.1 ≠ k.2 ∧ asked_by k.1 k.2 PostFriend.
Definition blocked (k : uuid * uuid) : Prop := k.1 ≠ k.2 ∧ asked_by k.1 k.2 PostBlock.
(** Over HTTP by the addressee, or by a service on its behalf. *)
Definition accepted (k : uuid * uuid) : Prop :=
  asked_by k.2 k.1 PutAccept ∨
  ∃ p q, Spawn (Grpc (AcceptFriendRequest_ p q)) ∈ ls ∧ names p k.1 ∧ names q k.2.
Definition unblocked (k : uuid * uuid) : Prop :=
  asked_by k.1 k.2 DeleteBlock ∨ asked_by k.1 k.2 DeleteFriend.

(** ** Tables *)

Definition initially (st : string) (k : uuid * uuid) : Prop :=
  ∃ f, friendships s0 !! k = Some f ∧ Status f = st.

Definition backed (st : string) (k : uuid * uuid) : Prop :=
  initially st k ∨
  (st = FriendshipStatusPending ∧ sent k) ∨
  (st = FriendshipStatusAccepted ∧ (initially FriendshipStatusPending k ∨ sent k) ∧ accepted k) ∨
  (st = FriendshipStatusBlocked ∧ blocked k).

Definition friendships_ok (m : gmap (uuid * uuid) Friendship) : Prop :=
  (∀ k f, m !! k = Some f → k = (RequesterID f, AddresseeID f) ∧ backed (Status f) k) ∧
  (∀ k, initially FriendshipStatusBlocked k →
     (∃ f, m !! k = Some f ∧ Status f = FriendshipStatusBlocked) ∨ unblocked k).

Definition mutes_ok (m : gmap (uuid * uuid) PlayerMute) : Prop :=
  (∀ k, is_Some (m !! k) → is_Some (player_mutes s0 !! k) ∨
     k.1 ≠ k.2 ∧ asked (λ c r, PlayerID c = k.1 ∧ ∃ p q, r = PostMute p (Some q) ∧ names p k.1 ∧ names q k.2)) ∧
  (∀ k, is_Some (player_mutes s0 !! k) → is_Some (m !! k) ∨ asked_by k.1 k.2 DeleteMute).

Definition ban_origin (id : uuid) (b : Ban) : Prop :=
  (∃ b0, bans s0 !! id = Some b0 ∧ Ban_PlayerID b0 = Ban_PlayerID b ∧ BannedBy b0 = BannedBy b ∧
     ExpiresAt b0 = ExpiresAt b) ∨
  asked (λ c r, is_manager c ∧ PlayerID c = BannedBy b ∧
    ∃ p reason expires, r = PostBan p (Some (reason, expires)) ∧ names p (Ban_PlayerID b) ∧
      (expires = None → ExpiresAt b = None)).
Definition lifted (id : uuid) (by_ : option uuid) : Prop :=
  asked (λ c r, is_manager c ∧ Some (PlayerID c) = by_ ∧ ∃ raw, r = DeleteBan raw ∧ names raw id).

(** A ban is issued and lifted by managers, and never deleted or changed otherwise. *)
Definition bans_ok (m : gmap uuid Ban) : Prop :=
  (∀ id b, m !! id = Some b → ban_origin id b ∧
     (is_Some (LiftedAt b) → (∃ b0, bans s0 !! id = Some b0 ∧ LiftedAt b0 = LiftedAt b) ∨ lifted id (LiftedBy b))) ∧
  (∀ id b0, bans s0 !! id = Some b0 → ∃ b, m !! id = Some b ∧ Ban_PlayerID b = Ban_PlayerID b0 ∧
     ExpiresAt b = ExpiresAt b0 ∧ (LiftedAt b = LiftedAt b0 ∨ LiftedAt b0 = None ∧ lifted id (LiftedBy b))).

Definition reports_ok (m : gmap uuid PlayerReport) : Prop :=
  ∀ id r, m !! id = Some r →
    ((∃ r0, player_reports s0 !! id = Some r0 ∧ ReporterID r0 = ReporterID r ∧ ReportedID r0 = ReportedID r) ∨
     ReporterID r ≠ ReportedID r ∧
     asked (λ c t, PlayerID c = ReporterID r ∧ ∃ p x, t = PostReport p (Some x) ∧ names p (ReporterID r) ∧
       names x.1.1 (ReportedID r) ∧ x.1.2 = Report_Reason r)) ∧
    (Report_Status r = ReportStatusPending ∨ (∃ r0, player_reports s0 !! id = Some r0 ∧ Report_Status r0 = Report_Status r) ∨
     asked (λ c t, is_manager c ∧ Some (PlayerID c) = ReviewedBy r ∧ ∃ raw x, t = PutReview raw (Some x) ∧ names raw id)).

(** Only owners invite anyone but players. *)
Definition emails_ok (m : gmap string AllowedEmail) : Prop :=
  ∀ e x, m !! e = Some x → (∃ x0, allowed_emails s0 !! e = Some x0 ∧ E_Role x0 = E_Role x) ∨
    asked (λ c t, is_manager c ∧ InvitedBy x = Some (PlayerID c) ∧ (E_Role x = RolePlayer ∨ is_owner c) ∧
      ∃ role, t = PostEmail (Some (e, role)) ∧ (role = E_Role x ∨ role = "" ∧ E_Role x = RolePlayer)).

(** Only owners give roles. *)
Definition players_ok (m : gmap uuid Player) : Prop :=
  ∀ p x, m !! p = Some x → (∃ x0, players s0 !! p = Some x0 ∧ Role x0 = Role x) ∨
    (∃ y, Event (Joined p y) ∈ ls ∧ Role y = Role x) ∨
    asked (λ c t, is_owner c ∧ ∃ raw, t = PutRole raw (Some (Role x)) ∧ names raw p).

Definition audit_ok (m : gmap uuid AuditLog) : Prop :=
  ∀ id l, m !! id = Some l → audit_logs s0 !! id = Some l ∨ asked (λ c _, is_manager c ∧ PlayerID c = ActorID l).

Definition profiles_ok (m : gmap uuid (option string * option string * Z)) : Prop :=
  ∀ p x, m !! p = Some x → player_profiles s0 !! p = Some x ∨
    asked (λ c t, PlayerID c = p ∧ ∃ raw, t = PutProfile raw (Some x.1) ∧ names raw p).
Definition settings_ok (m : gmap uuid (PlayerSettingMap * Z)) : Prop :=
  ∀ p x, m !! p = Some x → player_settings s0 !! p = Some x ∨
    asked (λ c t, PlayerID c = p ∧ ∃ raw, t = PutSettings raw (Some x.1) ∧ names raw p).

Record Entitled (s : tables) : Prop := {
  E_friendships : friendships_ok (friendships s);
  E_mutes : mutes_ok (player_mutes s);
  E_bans : bans_ok (bans s);
  E_reports : reports_ok (player_reports s);
  E_emails : emails_ok (allowed_emails s);
  E_players : players_ok (players s);
  E_audit : audit_ok (audit_logs s);
  E_profiles : profiles_ok (player_profiles s);
  E_settings : settings_ok (player_settings s)
}.

(** ** Statements *)

Abbreviation safe p := (wps Entitled (λ _, True) p (λ _, True)).

Lemma safe_sql {A} (c : tables → result error A * tables) :
  (∀ s, Entitled s → Entitled (c s).2) → safe (sql c).
Proof. intros Hc. apply wps_seq; [|done]. apply wps_cmd; [done|]. intros s HI _. by split; [apply Hc|]. Qed.

Lemma safe_query {A} (f : tables → result error A) : safe (query f).
Proof. by apply safe_sql. Qed.

Lemma safe_send e : safe (send e).
Proof. apply wps_seq; [|done]. apply wps_write; [|done]. by intros s []; split. Qed.

(** *** Friendships *)

Lemma friendships_put k f m : friendships_ok m →
  k = (RequesterID f, AddresseeID f) → backed (Status f) k →
  (∀ f0, m !! k = Some f0 → Status f0 = FriendshipStatusBlocked → Status f = FriendshipStatusBlocked) →
  friendships_ok (<[k := f]> m).
Proof.
  intros [Hrow Hkeep] Hk Hb Hst. split.
  - intros k' f'. rewrite lookup_insert_Some. intros [[<- <-]|[_ Hf]]; [done|by apply Hrow].
  - intros k' Hi. destruct (Hkeep k' Hi) as [(f' & Hf & Hs)|?]; [left|by right].
    destruct (decide (k = k')) as [<-|Hne]; [exists f; rewrite lookup_insert_eq; eauto|].
    exists f'. by rewrite lookup_insert_ne.
Qed.

Lemma friendships_drop m m' : friendships_ok m → m' ⊆ m →
  (∀ k f, m !! k = Some f → m' !! k = None → Status f = FriendshipStatusBlocked → unblocked k) →
  friendships_ok m'.
Proof.
  intros [Hrow Hkeep] Hsub Hdrop. split.
  - intros k f Hf. apply Hrow. by eapply lookup_weaken.
  - intros k Hi. destruct (Hkeep k Hi) as [(f & Hf & Hs)|?]; [|by right].
    destruct (m' !! k) as [f'|] eqn:E; [left|right; by eapply Hdrop].
    exists f'. split; [done|]. apply (lookup_weaken _ _ _ _ E) in Hsub. congruence.
Qed.

Lemma Entitled_friendships m s : Entitled s → friendships_ok m → Entitled (set_friendships m s).
Proof. by intros []; split. Qed.

Lemma has_status_Some st k s f : has_status st k s = Some f → friendships s !! k = Some f ∧ Status f = st.
Proof.
  unfold has_status. destruct (friendships s !! k) as [f'|]; cbn; [|done].
  destruct (decide _); [|done]. by intros [= <-].
Qed.

Lemma safe_SendFriendRequest a b : sent (a, b) → safe (SendFriendRequest a b).
Proof.
  intros Hs. apply safe_sql. intros s HI. destruct (_ && _); [|done].
  destruct (friendships s !! (a, b)) eqn:E; [done|]. apply Entitled_friendships; [done|].
  apply friendships_put; [apply HI|done| |by rewrite E]. right; left. by split.
Qed.

Lemma safe_AcceptFriendRequest a b : accepted (a, b) → safe (AcceptFriendRequest a b).
Proof.
  intros Ha. apply safe_sql. intros s HI. destruct (has_status _ _ s) as [f|] eqn:E; [|done].
  apply has_status_Some in E as [Hf Hst]. apply Entitled_friendships; [done|].
  destruct (E_friendships s HI) as [Hrow _]. destruct (Hrow _ _ Hf) as [Hk Hb].
  apply friendships_put; [apply HI|done| |rewrite Hf; intros ? [= <-]; by rewrite Hst].
  right; right; left. split_and!; [done| |done]. rewrite Hst in Hb.
  destruct Hb as [?|[[_ ?]|[[? _]|[? _]]]]; [by left|by right|done|done].
Qed.

Lemma safe_delete st k : (st = FriendshipStatusBlocked → unblocked k) → safe (delete_friendship st k).
Proof.
  intros Hu. apply safe_sql. intros s HI. destruct (has_status _ _ s) as [f|] eqn:E; [|done].
  apply has_status_Some in E as [Hf Hst]. apply Entitled_friendships; [done|].
  eapply friendships_drop; [apply HI|apply delete_subseteq|]. intros k' f' Hf' Hd Hb.
  destruct (decide (k = k')) as [<-|Hne]; [apply Hu; congruence|]. rewrite lookup_delete_ne in Hd; congruence.
Qed.

Lemma safe_BlockPlayer a b : blocked (a, b) → safe (BlockPlayer a b).
Proof.
  intros Hb. apply safe_sql. intros s HI. destruct (_ && _); [|done]. apply Entitled_friendships; [done|].
  assert (Hs : ∀ f, Status f = FriendshipStatusBlocked → backed (Status f) (a, b)).
  { intros f ->. right; right; right. by split. }
  destruct (friendships s !! (a, b)) as [f|] eqn:E; cbn; (apply friendships_put; [apply HI| |by apply Hs|done]).
  - by destruct (E_friendships s HI) as [Hrow _]; destruct (Hrow _ _ E) as [Hk _].
  - done.
Qed.

(** Only the caller's own block can go with the friendship. *)
Lemma safe_RemoveFriend a b : unblocked (a, b) → safe (RemoveFriend a b).
Proof.
  intros Hu. apply safe_sql. intros s HI. apply Entitled_friendships; [done|].
  eapply friendships_drop; [apply HI|apply map_filter_subseteq|]. intros k f Hf Hd Hb.
  destruct (E_friendships s HI) as [Hrow _]. destruct (Hrow _ _ Hf) as [Hk _].
  apply map_lookup_filter_None in Hd as [Hd|Hd]; [congruence|]. specialize (Hd f Hf). cbn in Hd.
  apply not_false_is_true in Hd. rewrite Hb in Hd.
  apply orb_true_iff in Hd as [Hd|Hd]; [|by rewrite andb_false_r in Hd].
  apply andb_true_iff in Hd as [Ha%bool_decide_eq_true Hb'%bool_decide_eq_true]. congruence.
Qed.

(** *** Mutes *)

Lemma safe_MutePlayer a b : a ≠ b →
  asked (λ c r, PlayerID c = a ∧ ∃ p q, r = PostMute p (Some q) ∧ names p a ∧ names q b) →
  safe (MutePlayer a b).
Proof.
  intros Hne Ha. apply safe_sql. intros s HI. destruct (_ && _); [|done]. cbn.
  destruct (player_mutes s !! (a, b)) eqn:E; [done|]. destruct HI as [? [Hrow Hkeep]]. split; try done. split.
  - intros k. cbn. destruct (decide (k = (a, b))) as [->|Hk]; [by right|].
    rewrite lookup_insert_ne by done. apply Hrow.
  - intros k Hk. destruct (Hkeep k Hk) as [?|?]; [left|by right]. by apply lookup_insert_is_Some'; right.
Qed.

Lemma safe_UnmutePlayer a b : asked_by a b DeleteMute → safe (UnmutePlayer a b).
Proof.
  intros Ha. apply safe_sql. intros s [? [Hrow Hkeep]]. split; try done. split; cbn.
  - intros k Hk. apply lookup_delete_is_Some in Hk as [_ Hk]. by apply Hrow.
  - intros k Hk. destruct (decide (k = (a, b))) as [->|Hne]; [by right|].
    destruct (Hkeep k Hk); [left|by right]. by rewrite lookup_delete_ne.
Qed.

(** *** Rows with generated ids *)

Lemma safe_insert_with_id {A V} (get : tables → gmap uuid V) mk put ok (ret : V → A) :
  (∀ s s' id, Entitled s' → get s' !! id = None → Entitled (put (<[id := mk s id]> (get s')) s')) →
  safe (sql (λ s, insert_with_id get (mk s) put ok ret s)).
Proof.
  intros Hput. apply safe_sql. intros s HI. unfold insert_with_id.
  assert (HI' : Entitled (set_generated (S (generated s)) s)) by (destruct HI; by split).
  destruct (_ && is_none _) eqn:E; [|done]. apply andb_true_iff in E as [_ E]. apply Hput; [done|].
  by destruct (get _ !! _).
Qed.

Lemma safe_IssueBan p :
  asked (λ c r, is_manager c ∧ PlayerID c = I_BannedBy p ∧
    ∃ raw reason expires, r = PostBan raw (Some (reason, expires)) ∧ names raw (I_PlayerID p) ∧
      (expires = None → I_ExpiresAt p = None)) →
  safe (IssueBan p).
Proof.
  intros Ha. apply safe_insert_with_id. intros s s' id [? ? [Hrow Hkeep]] Hid. split; try done. split; cbn.
  - intros id' b. rewrite lookup_insert_Some. intros [[<- <-]|[_ Hb]]; [|by apply Hrow].
    split; [by right|]. by intros [? ?].
  - intros id' b0 Hb0. destruct (Hkeep id' b0 Hb0) as (b & Hb & Hrest). exists b.
    rewrite lookup_insert_ne by congruence. done.
Qed.

Lemma safe_LiftBan id by_ : lifted id (Some by_) → safe (LiftBan id by_).
Proof.
  intros Hl. apply safe_sql. intros s HI. destruct (bans s !! id) as [b|] eqn:E; [|done].
  destruct (LiftedAt b) eqn:El; [done|]. destruct (player_exists by_ s); [|done].
  destruct HI as [? ? [Hrow Hkeep]]. split; try done. split; cbn.
  - intros id' b'. rewrite lookup_insert_Some. intros [[<- <-]|[_ Hb]]; [|by apply Hrow]. cbn.
    destruct (Hrow _ _ E) as [Ho _]. split; [done|]. intros _. by right.
  - intros id' b0 Hb0. destruct (Hkeep id' b0 Hb0) as (b' & Hb' & Hp & He & Hlift).
    destruct (decide (id = id')) as [<-|Hne]; [|exists b'; by rewrite lookup_insert_ne].
    rewrite E in Hb'. injection Hb' as <-. eexists. rewrite lookup_insert_eq. split; [done|]. cbn.
    split_and!; [done..|]. right. split; [|done]. destruct Hlift as [Hlift|[? _]]; congruence.
Qed.

Lemma safe_CreateReport a b reason context : a ≠ b →
  asked (λ c t, PlayerID c = a ∧ ∃ p x, t = PostReport p (Some x) ∧ names p a ∧
    names x.1.1 b ∧ x.1.2 = reason) →
  safe (CreateReport a b reason context).
Proof.
  intros Hne Ha. apply safe_insert_with_id. intros s s' id [? ? ? Hrow] Hid. split; try done.
  intros id' r. cbn. rewrite lookup_insert_Some. intros [[<- <-]|[_ Hr]]; [|by apply Hrow].
  split; [by right|by left].
Qed.

Lemma safe_ReviewReport id by_ resolution banID :
  asked (λ c t, is_manager c ∧ PlayerID c = by_ ∧ ∃ raw x, t = PutReview raw (Some x) ∧ names raw id) →
  safe (ReviewReport id by_ resolution banID).
Proof.
  intros (req & c & Hin & Hc & Hm & Hby & Hx). apply safe_sql. intros s HI.
  destruct (player_reports s !! id) as [r|] eqn:E; [|done]. destruct (decide _) as [Hst|]; [|done].
  destruct (_ && _); [|done]. destruct HI as [? ? ? Hrow]. split; try done.
  intros id' r'. cbn. rewrite lookup_insert_Some. intros [[<- <-]|[_ Hr]]; [|by apply Hrow].
  destruct (Hrow _ _ E) as [Ho _]. split; [done|]. right; right. exists req, c. cbn. by rewrite Hby.
Qed.

Lemma safe_LogAction a action ty id details : asked (λ c _, is_manager c ∧ PlayerID c = a) →
  safe (LogAction a action ty id details).
Proof.
  intros Ha. apply safe_insert_with_id. intros s s' i [] Hid. split; try done.
  intros i' l. cbn. rewrite lookup_insert_Some. intros [[<- <-]|[_ Hl]]; [by right|by auto].
Qed.

(** *** Single rows *)

Lemma safe_UpsertProfile p bio country :
  asked (λ c t, PlayerID c = p ∧ ∃ raw, t = PutProfile raw (Some (bio, country)) ∧ names raw p) →
  safe (UpsertProfile p bio country).
Proof.
  intros Ha. apply wps_seq.
  - apply safe_sql. intros s HI. destruct (_ && _); [|done]. destruct HI. split; try done.
    intros p' x. cbn. rewrite lookup_insert_Some. intros [[<- <-]|[_ Hx]]; [by right|by auto].
  - intros [[]|e]; [apply safe_query|done].
Qed.

Lemma safe_UpsertPlayerSettings p x :
  asked (λ c t, PlayerID c = p ∧ ∃ raw, t = PutSettings raw (Some x) ∧ names raw p) →
  safe (UpsertPlayerSettings p x).
Proof.
  intros Ha. apply safe_sql. intros s HI. destruct (player_exists p s); [|done]. destruct HI. split; try done.
  intros p' y. cbn. rewrite lookup_insert_Some. intros [[<- <-]|[_ Hy]]; [by right|by auto].
Qed.

Lemma safe_SetPlayerRole p role :
  asked (λ c t, is_owner c ∧ ∃ raw, t = PutRole raw (Some role) ∧ names raw p) →
  safe (SetPlayerRole p role).
Proof.
  intros Ha. apply wps_seq; [apply safe_query|]. intros [current|e]; [|done]. destruct (_ && _); [done|].
  apply wps_seq; [|done]. apply safe_sql. intros s HI. destruct (valid_role role); [|done].
  destruct (live_player p s); [|done]. destruct HI. split; try done.
  intros p' x. cbn. rewrite lookup_insert_Some. intros [[<- <-]|[_ Hx]]; [right; by right|by auto].
Qed.

Lemma safe_AddAllowedEmail email role by_ :
  asked (λ c t, is_manager c ∧ by_ = PlayerID c ∧ (role = RolePlayer ∨ is_owner c) ∧
    ∃ x, t = PostEmail (Some (email, x)) ∧ (x = role ∨ x = "" ∧ role = RolePlayer)) →
  safe (AddAllowedEmail email role by_).
Proof.
  intros (req & c & Hin & Hc & Hm & Hby & Hrest). apply safe_sql. intros s HI. destruct (_ && _); [|done].
  destruct HI. split; try done. intros e x. cbn. rewrite lookup_insert_Some.
  intros [[<- <-]|[_ Hx]]; [|by auto]. right. exists req, c. destruct (allowed_emails s !! email); cbn; by rewrite Hby.
Qed.

Lemma safe_RemoveAllowedEmail email : safe (RemoveAllowedEmail email).
Proof.
  apply safe_sql. intros s HI. destruct (allowed_emails s !! email); [|done]. destruct HI. split; try done.
  intros e x. cbn. rewrite lookup_delete_Some. intros [_ Hx]. auto.
Qed.

(** ** Handlers *)

Lemma safe_parse_id raw msg k : (∀ u, names raw u → safe (k u)) → safe (parse_id raw msg k).
Proof. intros Hk. unfold parse_id. destruct (uuid_Parse raw) eqn:E; [by apply Hk|done]. Qed.

Lemma safe_own c p k : (PlayerID c = p → safe k) → safe (own c p k).
Proof. intros Hk. unfold own. destruct (decide _); [by apply Hk|done]. Qed.

Lemma safe_decode {A} (b : option A) k : (∀ x, b = Some x → safe (k x)) → safe (decode b k).
Proof. intros Hk. destruct b; [by apply Hk|done]. Qed.

Lemma safe_or_500 {A} (p : prog tables (result error A)) msg k : safe p → (∀ x, safe (k x)) → safe (or_500 p msg k).
Proof. intros Hp Hk. apply wps_seq; [done|]. by intros []. Qed.

Lemma safe_or_404 {A} (p : prog tables (result error A)) missing msg k :
  safe p → (∀ x, safe (k x)) → safe (or_404 p missing msg k).
Proof. intros Hp Hk. apply wps_seq; [done|]. intros [x|e]; [done|]. by destruct (errors_Is e ErrNotFound). Qed.

Lemma safe_requireRole role next c : (hasRole (ClaimRole c) role = true → safe (next c)) → safe (requireRole role next c).
Proof. intros Hn. unfold requireRole. destruct (hasRole _ _) eqn:E; [by apply Hn|done]. Qed.

Lemma safe_validate r next : safe next → safe (validate r next).
Proof. unfold validate. by destruct (schema_ok r). Qed.

Lemma safe_optional {A} (parse : string → option A) v msg k : (∀ x, safe (k x)) → safe (optional parse v msg k).
Proof. intros Hk. unfold optional. destruct (given v) as [w|]; [|done]. by destruct (parse w). Qed.

Lemma owner_of_manager c : is_manager c → ClaimRole c ≠ RoleManager → is_owner c.
Proof.
  unfold is_manager, is_owner, hasRole, role_rank. intros Hm Hne.
  destruct (decide (ClaimRole c = RoleManager)); [done|]. by destruct (decide (ClaimRole c = RoleOwner)).
Qed.

Section Request.
Context (r : request) (c : Claims).
Hypothesis in_run : Spawn (Http r) ∈ ls.
Hypothesis authenticated : claims_of r = Some c.

Lemma asked_here (Q : Claims → route → Prop) : Q c (to r) → asked Q.
Proof. intros HQ. by exists r, c. Qed.

Lemma safe_log_action action ty id details : is_manager c → safe (log_action c action ty id details).
Proof. intros Hm. apply wps_seq; [|done]. apply safe_LogAction. by apply asked_here. Qed.

(** One step of a handler. *)
Ltac handler_step :=
  first
    [ done
    | apply safe_query | apply safe_send
    | apply safe_parse_id; intros ? ?
    | apply safe_own; intros ?
    | apply safe_decode; intros ? ?
    | apply safe_requireRole; intros ?
    | apply safe_validate
    | apply safe_or_500; [|intros ?]
    | apply safe_or_404; [|intros ?]
    | apply safe_optional; intros ?
    | apply safe_log_action
    | match goal with |- wps _ _ (_ ≫= _) _ => apply wps_seq; [|intros ?] end ].

Ltac walk :=
  repeat first [handler_step | case_decide
               | match goal with |- wps _ _ (match ?x with _ => _ end) _ => destruct x eqn:? end].
(** The request itself is what has been asked for. *)
Ltac requested := apply asked_here; match goal with E : to r = _ |- _ => rewrite E end; naive_solver.

Lemma friends_safe t : to r = t →
  match t with
  | PostFriend _ _ | PutAccept _ _ | DeleteDecline _ _ | DeleteFriend _ _ | PostBlock _ _ | DeleteBlock _ _ =>
      safe (route_handler r c)
  | _ => True
  end.
Proof.
  intros Et. destruct t; try done; unfold route_handler; rewrite Et; cbn beta iota.
  - unfold handleSendFriendRequest. walk. apply safe_SendFriendRequest. split; [done|]. requested.
  - unfold handleAcceptFriendRequest. walk. apply safe_AcceptFriendRequest. left. requested.
  - unfold handleDeclineFriendRequest. walk. by apply safe_delete.
  - unfold handleRemoveFriend. walk. apply safe_RemoveFriend. right. requested.
  - unfold handleBlockPlayer. walk. apply safe_BlockPlayer. split; [done|]. requested.
  - unfold handleUnblockPlayer. walk. apply safe_delete. intros _. left. requested.
Qed.

Lemma own_rows_safe t : to r = t →
  match t with
  | PutProfile _ _ | PutSettings _ _ | PostMute _ _ | DeleteMute _ _ | PostReport _ _ => safe (route_handler r c)
  | _ => True
  end.
Proof.
  intros Et. destruct t; try done; unfold route_handler; rewrite Et; cbn beta iota.
  - unfold handleUpsertProfile. walk. subst. apply safe_UpsertProfile. destruct x. requested.
  - unfold handleMutePlayer. walk. subst. apply safe_MutePlayer; [done|]. requested.
  - unfold handleUnmutePlayer. walk. apply safe_UnmutePlayer. requested.
  - unfold handleUpsertPlayerSettings. walk. subst. apply safe_UpsertPlayerSettings. requested.
  - unfold handleCreateReport. walk. subst. apply safe_CreateReport; [done|]. requested.
Qed.

Lemma admin_safe t : to r = t →
  match t with
  | PostBan _ _ | DeleteBan _ | PutReview _ _ | PostBroadcast _ | PostEmail _ | DeleteEmail _ | PutRole _ _ =>
      safe (route_handler r c)
  | _ => True
  end.
Proof.
  intros Et. destruct t; try done; unfold route_handler; rewrite Et; cbn beta iota.
  - unfold handleIssueBan, parse_time. walk. all: apply safe_IssueBan; destruct x as [reason expires]; cbn in *; requested.
  - unfold handleLiftBan. walk. apply safe_LiftBan. requested.
  - unfold handleReviewReport. walk. all: apply safe_ReviewReport; requested.
  - unfold handleBroadcast. walk.
  - unfold handleAddAllowedEmail. walk. all: apply safe_AddAllowedEmail; destruct x as [email role]; cbn in *.
    + requested.
    + assert (role = RolePlayer ∨ is_owner c).
      { destruct (decide (role = RolePlayer)); [by left|right]. apply owner_of_manager; [done|]. tauto. }
      requested.
  - unfold handleRemoveAllowedEmail. walk. apply safe_RemoveAllowedEmail.
  - unfold handleSetPlayerRole. walk. subst. apply safe_SetPlayerRole. requested.
Qed.

Lemma reads_safe t : to r = t →
  match t with
  | GetProfile_ _ | SearchPlayer _ | GetFriends _ | GetPending _ | GetMutes_ _ | GetSettings _ | GetBans _
  | GetReports _ _ | GetPlayerReports _ | GetEmails | GetPlayers _ _ | GetAuditLogs _ => safe (route_handler r c)
  | _ => True
  end.
Proof.
  intros Et. destruct t; try done; unfold route_handler; rewrite Et; cbn beta iota;
    unfold handleGetProfile, handleSearchPlayer, handleListFriends, handleListPendingRequests,
      handleGetMutes, handleGetPlayerSettings, handleListBans, handleListPendingReports,
      handleListReportsByPlayer, handleListAllowedEmails, handleListPlayers, handleListAuditLogs; walk.
Qed.

Lemma route_safe : safe (route_handler r c).
Proof.
  pose proof (friends_safe _ eq_refl). pose proof (own_rows_safe _ eq_refl).
  pose proof (admin_safe _ eq_refl). pose proof (reads_safe _ eq_refl). by destruct (to r).
Qed.
End Request.

Lemma safe_serve cl : Spawn cl ∈ ls → safe (serve secret cl).
Proof.
  intros Hin. destruct cl as [r|r]; (apply wps_seq; [|done]).
  - unfold NewRouter, Require. destruct (cookie r) as [raw|] eqn:Ek; [|done].
    destruct (VerifyToken secret raw) as [c|e] eqn:Ev; [|by case_decide].
    apply (route_safe r c); [done|]. unfold claims_of. rewrite Ek. cbn. by rewrite Ev.
  - assert (Hid : ∀ raw k, (∀ u, names raw u → safe (k u)) → safe (grpc_id raw k)).
    { intros raw k Hk. unfold grpc_id. destruct (uuid_Parse raw) eqn:E; [by apply Hk|done]. }
    assert (Hor : ∀ A (p : prog tables (result error A)) k, safe p → (∀ x, safe (k x)) → safe (or_internal p k)).
    { intros A p k Hp Hk. apply wps_seq; [done|]. by intros []. }
    destruct r as [p|a b|a b|p]; cbn [grpc_serve];
      unfold CheckBan, grpc_GetFriendship, grpc_AcceptFriendRequest, GetMutes;
      repeat first [done | apply Hid; intros ? ? | apply Hor; [|intros ?] | apply safe_query].
    apply safe_AcceptFriendRequest. right. eauto 10.
Qed.

Lemma happen_Entitled e s : Event e ∈ ls → Entitled s → Entitled (happen e s).
Proof.
  intros Hin []. destruct e as [t|p x|p t]; cbn [happen]; [by split|..].
  - destruct (players s !! p) eqn:E; [done|]. split; try done. intros p' x'. cbn. rewrite lookup_insert_Some.
    intros [[<- <-]|[_ Hx]]; [right; left; by exists x|by auto].
  - destruct (players s !! p) as [y|] eqn:E; [|done]. split; try done. intros p' x'. cbn. rewrite lookup_insert_Some.
    intros [[<- <-]|[_ Hx]]; [|by auto]. cbn. by apply E_players0.
Qed.

Lemma initially_Entitled : (∀ k f, friendships s0 !! k = Some f → k = (RequesterID f, AddresseeID f)) → Entitled s0.
Proof.
  intros Hk. split.
  - split.
    + intros k f Hf. split; [by apply Hk|]. left. by exists f.
    + intros k (f & Hf & Hs). left. by exists f.
  - split; by left.
  - split.
    + intros id b Hb. split; [left; by exists b|]. intros _. left. by exists b.
    + intros id b Hb. exists b. by split_and!; [..|left].
  - intros id r Hr. split; [left; by exists r|]. right; left. by exists r.
  - intros e x Hx. left. by exists x.
  - intros p x Hx. left. by exists x.
  - by left.
  - by left.
  - by left.
Qed.

(** C26 From tables whose friendships are keyed by their players, whatever requests and
    calls of other services interleave, whichever statements fail and whatever happens
    to the players meanwhile: a friendship was there, or was requested by the one and
    accepted by the other; a block was there or was placed by the blocker, and one that
    was there is only lifted by the blocker; mutes, reports, profiles and settings are
    those their owners asked for; bans are only issued and lifted, and reports reviewed,
    by managers; roles other than a player's are only given, and others than players
    only invited, by owners; and only managers write to the audit log. *)
Theorem users_entitled :
  (∀ k f, friendships s0 !! k = Some f → k = (RequesterID f, AddresseeID f)) →
  Entitled (run secret ls s0).
Proof.
  intros Hk. unfold run.
  apply (run_invariant Entitled (λ _, True) (serve secret) happen (λ _ _, True) ls (s0, [])); try done.
  - intros cl. generalize (serve secret cl). intros p. induction p as [a|R b c k IH]; by split.
  - intros e s He HI _. by apply happen_Entitled.
  - intros cl Hin. by apply safe_serve.
  - by apply initially_Entitled.
Qed.
End Authorization.

(** ** A concrete service *)

Import Demo.
Import Programs Middleware Users UsersApi.

(** A token names its owner, who is also the role. *)
Definition open_JWT : JWT.
Proof.
  refine (Build_JWT (λ _ raw, Ok (true, mkClaims raw raw
    (if String.eqb raw "boss" || String.eqb raw "chief" then RoleOwner else RolePlayer)))).
Defined.
#[export] Existing Instance open_JWT.

Definition plain_Postgres : Postgres := Build_Postgres _ id_of (λ s, s).
#[export] Existing Instance plain_Postgres.

Definition no_dates : RFC3339 := Build_RFC3339 (λ _, None) (λ _, "").
#[export] Existing Instance no_dates.

Definition user (name role : string) : Player := mkPlayer name name role None false None 0 None.

Definition four_players : tables :=
  mkTables 0 0
    (<["ann" := user "ann" RolePlayer]> (<["ben" := user "ben" RolePlayer]>
      (<["boss" := user "boss" RoleOwner]> {["chief" := user "chief" RoleOwner]})))
    ∅ ∅ ∅ ∅ ∅ ∅ ∅ ∅ [].

Definition by_ (who : string) (t : route) : call := Http (mkRequest (Some who) true t).

(** Requests one after the other. *)
Definition in_turn (cs : list call) : list (label call happening) :=
  concat (imap (λ i c, Spawn c :: replicate 20 (Run i)) cs).

Definition status_of (a b : string) (s : tables) : option string := Status <$> friendships s !! (a, b).

Definition befriended : list call := [by_ "ann" (PostFriend "ann" "ben"); by_ "ben" (PutAccept "ben" "ann")].

Lemma befriended_status :
  status_of "ann" "ben" (run "key" (in_turn befriended) four_players) = Some FriendshipStatusAccepted.
Proof. vm_compute. reflexivity. Qed.

Lemma no_friendships k f : friendships four_players !! k = Some f → False.
Proof.
  change (friendships four_players) with (∅ : gmap (uuid * uuid) Friendship). by rewrite lookup_empty.
Qed.

(** In a service that started without friendships. *)
Lemma accepted_row ls s a b : Entitled "key" four_players ls s →
  status_of a b s = Some FriendshipStatusAccepted → accepted "key" ls (a, b).
Proof.
  intros [[Hrow _] _ _ _ _ _ _ _ _]. unfold status_of. destruct (friendships s !! (a, b)) as [f|] eqn:E; [|done].
  intros [= Hs]. destruct (Hrow _ _ E) as [_ Hb]. rewrite Hs in Hb.
  destruct Hb as [(f0 & Hf0 & _)|[[Hx _]|[(_ & _ & Ha)|[Hx _]]]]; [|done..].
  by apply no_friendships in Hf0.
Qed.

Lemma users_entitled_witness : accepted "key" (in_turn befriended) ("ann", "ben").
Proof.
  eapply accepted_row; [|exact befriended_status]. apply users_entitled.
  intros k f Hf. by apply no_friendships in Hf.
Defined.

(** A block is placed beside the friendship, in the other direction: the two stay
    friends. *)
Theorem blocked_friends_stay_friends :
  let s := run "key" (in_turn (befriended ++ [by_ "ben" (PostBlock "ben" "ann")])) four_players in
  status_of "ann" "ben" s = Some FriendshipStatusAccepted ∧
  status_of "ben" "ann" s = Some FriendshipStatusBlocked ∧
  match (alone (ListFriends "ben") s).1 with Ok l => FriendUsername <$> l | Err _ => [] end = ["ann"].
Proof. vm_compute. by split_and!. Qed.

(** Who removes a friend removes their own block: AND binds stronger than OR. *)
Theorem removing_a_friend_unblocks :
  let s := run "key" (in_turn [by_ "ann" (PostBlock "ann" "ben")]) four_players in
  status_of "ann" "ben" s = Some FriendshipStatusBlocked ∧
  code (alone (NewRouter "key" (mkRequest (Some "ann") true (DeleteFriend "ann" "ben"))) s).1 = StatusNoContent ∧
  status_of "ann" "ben" (alone (NewRouter "key" (mkRequest (Some "ann") true (DeleteFriend "ann" "ben"))) s).2 = None.
Proof. vm_compute. by split_and!. Qed.

(** An owner can be demoted: the role is checked by one statement and written by another. *)
Definition promoted_meanwhile : list (label call happening) :=
  [Spawn (by_ "boss" (PutRole "ben" (Some RoleManager))); Run 0;
   Spawn (by_ "chief" (PutRole "ben" (Some RoleOwner)))] ++ replicate 2 (Run 1) ++ [Run 0].

Theorem owner_demoted :
  Role <$> players (run "key" (take 5 promoted_meanwhile) four_players) !! "ben" = Some RoleOwner ∧
  Role <$> players (run "key" promoted_meanwhile four_players) !! "ben" = Some RoleManager.
Proof. vm_compute. by split. Qed.
