(* ===== verification/Bot.v ===== *)
(** The bots of the game server (services/game-server/internal/bot): moves as JSON
    texts, the adapter interface of a game, personalities and configuration, and the
    decision of a bot player, which delegates to an injected search. *)
From S2P Require Import Prelude Json Float64 Engine Randutil.
Import Float64.

Module Bot.

(** ** Sources of randomness *)

(** The process-wide generator of math/rand. *)
Class Rand := {
  rand : Type;
  rand_Intn : rand → Z → Z * rand;
  rand_Float64 : rand → f64 * rand;
  rand_Intn_range : ∀ r n, (0 < n)%Z → (0 ≤ (rand_Intn r n).1 < n)%Z
}.

Section Bots.
Context `{R : Rand} `{E : Entropy}.

Definition sources : Type := rand * entropy.

(** ** Moves and states (state.go) *)

(** The text of a JSON object, by what it decodes to; [None] is the empty string. *)
Definition BotMove : Type := option data.

Definition MoveFromPayload (payload : data) : result gerror BotMove :=
  if json_ok (Map payload) then Ok (Some (json_rt <$> payload))
  else Err (GErr "bot: MoveFromPayload: %w" []).

Definition MovePayload (m : BotMove) : result gerror data :=
  match m with
  | Some payload => Ok payload
  | None => Err (GErr "bot: BotMove.Payload: %w" [])
  end.

(** [concreteState], the only [BotGameState], wraps an engine state. *)
Definition Clone (s : GameState) : result gerror GameState :=
  if json_ok (Map (Data s)) then Ok (reload s) else Err (GPanic "bot: Clone: marshal: %v").

(** ** The adapter of a game (game.go) *)

Record BotAdapter := mkAdapter {
  ValidMoves : GameState → list BotMove;
  ApplyMove : GameState → BotMove → result gerror GameState;
  IsTerminal : GameState → bool;
  Result : GameState → string → f64;
  CurrentPlayer : GameState → string;
  Determinize : GameState → string → sources → result gerror GameState * sources;
  RolloutPolicy : GameState → list BotMove → sources → result gerror BotMove * sources
}.

(** ** Personalities (config.go) *)

Definition Millisecond : Z := 1000000.

Record PersonalityProfile := mkProfile {
  Name : string;
  Profile_Iterations : Z;
  Profile_Determinizations : Z;
  Profile_ExplorationC : f64;
  Aggressiveness : f64;
  RiskAversion : f64;
  MinMoveDelay : Z;
  MoveDelayJitter : Z
}.

Definition zeroProfile : PersonalityProfile :=
  mkProfile "" 0 0 (f_of_Z 0) (f_of_Z 0) (f_of_Z 0) 0 0.

Definition Profiles : gmap string PersonalityProfile :=
  <["easy" := mkProfile "easy" 100 5 (f_dec 20 1) (f_dec 3 1) (f_dec 7 1)
                (900 * Millisecond) (1200 * Millisecond)]>
  (<["medium" := mkProfile "medium" 500 10 (f_dec 141 2) (f_dec 5 1) (f_dec 5 1)
                (1500 * Millisecond) (1500 * Millisecond)]>
  (<["hard" := mkProfile "hard" 2000 30 (f_dec 10 1) (f_dec 7 1) (f_dec 3 1)
                (2200 * Millisecond) (1800 * Millisecond)]>
  (<["aggressive" := mkProfile "aggressive" 1000 20 (f_dec 8 1) (f_dec 10 1) (f_dec 1 1)
                (500 * Millisecond) (500 * Millisecond)]> ∅))).

Record BotConfig := mkBotConfig {
  Iterations : Z;
  Determinizations : Z;
  MaxThinkTime : Z;
  ExplorationC : f64;
  Personality : PersonalityProfile
}.

(** The environment, each variable by what it parses to, if it is set and parses. *)
Record BotEnv := mkBotEnv {
  BOT_ITERATIONS : option Z;
  BOT_DETERMINIZATIONS : option Z;
  BOT_MAX_THINK_TIME : option Z;
  BOT_EXPLORATION_C : option f64
}.

Definition positive (v : option Z) (d : Z) : Z :=
  match v with Some n => if (0 <? n)%Z then n else d | None => d end.

Definition DefaultConfig (env : BotEnv) : BotConfig :=
  let profile := default zeroProfile (Profiles !! "medium") in
  mkBotConfig
    (positive (BOT_ITERATIONS env) (Profile_Iterations profile))
    (positive (BOT_DETERMINIZATIONS env) (Profile_Determinizations profile))
    (positive (BOT_MAX_THINK_TIME env) (2000 * Millisecond))
    (match BOT_EXPLORATION_C env with
     | Some f => if flt (f_of_Z 0) f then f else Profile_ExplorationC profile
     | None => Profile_ExplorationC profile
     end)
    profile.

Definition ConfigFromProfile (env : BotEnv) (profileName : string) : result gerror BotConfig :=
  match Profiles !! profileName with
  | None => Err (GErr "bot: unknown personality profile %q" [profileName])
  | Some profile =>
      Ok (mkBotConfig (Profile_Iterations profile) (Profile_Determinizations profile)
        (positive (BOT_MAX_THINK_TIME env) (2000 * Millisecond))
        (Profile_ExplorationC profile) profile)
  end.

(** ** The registry of adapters (adapter/registry.go) *)

Record Factory := mkFactory {
  New_ : option BotAdapter;                                  (* [None]: a nil function *)
  New_WithProfile : option (PersonalityProfile → BotAdapter)
}.

Abbreviation adapters := (gmap string Factory).

Definition Register (gameID : string) (f : Factory) (registry : adapters) : result gerror adapters :=
  match New_ f with
  | None => Err (GPanic "bot/adapter: Factory.New is nil for %q")
  | Some _ =>
      match registry !! gameID with
      | Some _ => Err (GPanic "bot/adapter: duplicate registration for game %q")
      | None => Ok (<[gameID := f]> registry)
      end
  end.

Definition New (gameID : string) (registry : adapters) : result gerror BotAdapter :=
  match registry !! gameID with
  | None => Err (GErr "bot/adapter: no adapter registered for game %q" [gameID])
  | Some f =>
      match New_ f with Some a => Ok a | None => Err (GPanic "nil function") end
  end.

Definition NewWithProfile (gameID : string) (profile : PersonalityProfile) (registry : adapters)
    : result gerror BotAdapter :=
  match registry !! gameID with
  | None => Err (GErr "bot/adapter: no adapter registered for game %q" [gameID])
  | Some f =>
      match New_WithProfile f with
      | Some new => Ok (new profile)
      | None => match New_ f with Some a => Ok a | None => Err (GPanic "nil function") end
      end
  end.

(** ** A bot's decision (player.go) *)

(** How a search ends without a move: no legal move, a panic, or the bound on the
    steps of the model is used up. *)
Inductive search_error : Type :=
  | ErrNoMoves
  | Crash (e : gerror)
  | OutOfFuel.

(** The context, by whether it is done at its [i]th inspection. *)
Definition context : Type := nat → bool.

Definition SearchFunc : Type :=
  context → GameState → string → BotAdapter → BotConfig → sources →
  result search_error BotMove.

Record BotPlayer := mkBotPlayer {
  BP_ID : string;
  BP_GameID : string;
  BP_Adapter : BotAdapter;
  BP_Config : BotConfig;
  BP_Search : SearchFunc
}.

(** The deadline is part of the context. A move of the search is a payload. *)
Definition DecideMove (bp : BotPlayer) (ctx : context) (state : GameState) (src : sources)
    : result search_error data :=
  move ← BP_Search bp ctx state (BP_ID bp) (BP_Adapter bp) (BP_Config bp) src;
  match MovePayload move with
  | Ok payload => Ok payload
  | Err e => Err (Crash e)
  end.

End Bots.
End Bot.
