(* ===== verification/Mcts.v ===== *)
(** The tree search of the bots (services/game-server/internal/bot/mcts): IS-MCTS with
    UCB1 over a tree of nodes linked by pointers. The tree is the list of its nodes in
    the order of their allocation, a pointer is an index into it. *)
From S2P Require Import Prelude Json Float64 Engine Randutil Bot.
Import Float64 Bot.

Module Mcts.

(** [math.Log], whose rounding Go leaves to the implementation. *)
Class MathLog := { Log : f64 → f64 }.

(** ** Nodes (node.go) *)

Record node := mkNode {
  n_move : BotMove;
  n_player : string;
  n_parent : option nat;
  n_children : list nat;
  n_visits : Z;
  n_wins : f64;
  n_untriedMoves : list BotMove
}.

Abbreviation tree := (list node).

Section Search.
Context `{R : Rand} `{E : Entropy} `{L : MathLog}.

Definition nil_pointer : search_error := Crash (GPanic "nil pointer dereference").

(** Dereference. *)
Definition node_at (t : tree) (p : nat) : result search_error node :=
  match t !! p with Some n => Ok n | None => Err nil_pointer end.

Definition newNode (t : tree) (parent : option nat) (move : BotMove) (player : string)
    (untriedMoves : list BotMove) : tree * nat :=
  (t ++ [mkNode move player parent [] 0 (f_of_Z 0) untriedMoves], length t).

Definition UCB1 (t : tree) (p : nat) (explorationC : f64) : result search_error f64 :=
  n ← node_at t p;
  if (n_visits n =? 0)%Z then Ok f_inf
  else
    let exploitation := fdiv (n_wins n) (f_of_Z (n_visits n)) in
    match n_parent n with
    | None => Err nil_pointer
    | Some q =>
        parent ← node_at t q;
        let exploration := fmul explorationC
          (fsqrt (fdiv (Log (f_of_Z (n_visits parent))) (f_of_Z (n_visits n)))) in
        Ok (fadd exploitation exploration)
    end.

(** The loop over the other children: the first one with the highest score. *)
Fixpoint bestOf (t : tree) (explorationC : f64) (best : nat) (bestScore : f64) (cs : list nat)
    : result search_error nat :=
  match cs with
  | [] => Ok best
  | c :: cs =>
      s ← UCB1 t c explorationC;
      if flt bestScore s then bestOf t explorationC c s cs
      else bestOf t explorationC best bestScore cs
  end.

Definition bestChild (t : tree) (p : nat) (explorationC : f64) : result search_error nat :=
  n ← node_at t p;
  match n_children n with
  | [] => Err (Crash index_out_of_range)
  | best :: cs => bestScore ← UCB1 t best explorationC; bestOf t explorationC best bestScore cs
  end.

Fixpoint mostVisitedOf (t : tree) (best : nat) (bestVisits : Z) (cs : list nat)
    : result search_error nat :=
  match cs with
  | [] => Ok best
  | c :: cs =>
      n ← node_at t c;
      if (bestVisits <? n_visits n)%Z then mostVisitedOf t c (n_visits n) cs
      else mostVisitedOf t best bestVisits cs
  end.

Definition mostVisited (t : tree) (p : nat) : result search_error nat :=
  n ← node_at t p;
  match n_children n with
  | [] => Err (Crash index_out_of_range)
  | best :: cs => b ← node_at t best; mostVisitedOf t best (n_visits b) cs
  end.

Definition isFullyExpanded (n : node) : bool :=
  match n_untriedMoves n with [] => true | _ => false end.

Definition popUntried (n : node) : node :=
  mkNode (n_move n) (n_player n) (n_parent n) (n_children n) (n_visits n) (n_wins n)
    (take (length (n_untriedMoves n) - 1) (n_untriedMoves n)).

Definition addChild (c : nat) (n : node) : node :=
  mkNode (n_move n) (n_player n) (n_parent n) (n_children n ++ [c]) (n_visits n) (n_wins n)
    (n_untriedMoves n).

(** The method [expand] of a node. *)
Definition node_expand (t : tree) (p : nat) (move : BotMove) (childPlayer : string)
    (untriedInChild : list BotMove) : tree * nat :=
  let t := alter popUntried p t in
  let '(t, child) := newNode t (Some p) move childPlayer untriedInChild in
  (alter (addChild child) p t, child).

Definition credit (score : f64) (playerID : string) (n : node) : node :=
  mkNode (n_move n) (n_player n) (n_parent n) (n_children n) (n_visits n + 1)
    (fadd (n_wins n) (if decide (n_player n = playerID) then score else fsub (f_of_Z 1) score))
    (n_untriedMoves n).

(** The walk to the root; a node has a smaller index than its children. *)
Fixpoint backpropagate (fuel : nat) (t : tree) (p : option nat) (score : f64) (playerID : string)
    : result search_error tree :=
  match p with
  | None => Ok t
  | Some p =>
      match fuel with
      | O => Err OutOfFuel
      | S fuel =>
          n ← node_at t p;
          backpropagate fuel (alter (credit score playerID) p t) (n_parent n) score playerID
      end
  end.

(** ** The search (mcts.go) *)

Context (adapter : BotAdapter).

Definition game_call {A} (r : result gerror A) : result search_error A :=
  match r with Ok a => Ok a | Err e => Err (Crash e) end.

Definition expand (t : tree) (p : nat) (state : GameState)
    : result search_error (tree * nat * GameState) :=
  n ← node_at t p;
  let actingPlayer := CurrentPlayer adapter state in
  match last (n_untriedMoves n) with
  | None => Err (Crash index_out_of_range)
  | Some move =>
      nextState ← game_call (ApplyMove adapter state move);
      let childMoves := ValidMoves adapter nextState in
      let '(t, child) := node_expand t p move actingPlayer childMoves in
      Ok (t, child, nextState)
  end.

(** Down the tree; a child has a greater index than its parent. *)
Fixpoint selectAndExpand (fuel : nat) (t : tree) (p : nat) (state : GameState) (explorationC : f64)
    : result search_error (tree * nat * GameState) :=
  match fuel with
  | O => Err OutOfFuel
  | S fuel =>
      if IsTerminal adapter state then Ok (t, p, state)
      else
        match ValidMoves adapter state with
        | [] => Ok (t, p, state)
        | _ =>
            n ← node_at t p;
            if negb (isFullyExpanded n) then expand t p state
            else
              match n_children n with
              | [] => Ok (t, p, state)
              | _ =>
                  best ← bestChild t p explorationC;
                  b ← node_at t best;
                  state ← game_call (ApplyMove adapter state (n_move b));
                  selectAndExpand fuel t best state explorationC
              end
        end
  end.

(** The playout; [fuel] bounds the moves of a game. *)
Fixpoint rollout (fuel : nat) (state : GameState) (playerID : string) (src : sources)
    : result search_error (f64 * sources) :=
  if IsTerminal adapter state then Ok (Result adapter state playerID, src)
  else
    match ValidMoves adapter state with
    | [] => Ok (Result adapter state playerID, src)
    | moves =>
        match fuel with
        | O => Err OutOfFuel
        | S fuel =>
            let '(move, src) := RolloutPolicy adapter state moves src in
            move ← game_call move;
            state ← game_call (ApplyMove adapter state move);
            rollout fuel state playerID src
        end
    end.

(** One iteration of the loop. *)
Definition iteration (fuel : nat) (root : GameState) (playerID : string) (cfg : BotConfig)
    (t : tree) (src : sources) : result search_error (tree * sources) :=
  clone ← game_call (Clone root);
  let '(det, src) := Determinize adapter clone playerID src in
  det ← game_call det;
  '(t, n, state) ← selectAndExpand (S (length t)) t 0 det (ExplorationC cfg);
  '(score, src) ← rollout fuel state playerID src;
  t ← backpropagate (length t) t (Some n) score playerID;
  Ok (t, src).

(** The loop, from its [i]th iteration on; also how many iterations were made. *)
Fixpoint iterate (k : nat) (i : nat) (fuel : nat) (ctx : context) (root : GameState)
    (playerID : string) (cfg : BotConfig) (t : tree) (src : sources)
    : result search_error (tree * nat) :=
  match k with
  | O => Ok (t, i)
  | S k =>
      if ctx i then Ok (t, i)
      else
        '(t, src) ← iteration fuel root playerID cfg t src;
        iterate k (S i) fuel ctx root playerID cfg t src
  end.

(** The tree before the first iteration. *)
Definition rootTree (rootMoves : list BotMove) : tree := (newNode [] None None "" rootMoves).1.

(** The move of the finished tree. *)
Definition choose (t : tree) (rootMoves : list BotMove) : result search_error BotMove :=
  rootNode ← node_at t 0;
  match n_children rootNode with
  | [] => match rootMoves with m :: _ => Ok m | [] => Err (Crash index_out_of_range) end
  | _ => best ← mostVisited t 0; b ← node_at t best; Ok (n_move b)
  end.

Definition Search (fuel : nat) (ctx : context) (root : GameState) (playerID : string)
    (cfg : BotConfig) (src : sources) : result search_error BotMove :=
  let rootMoves := ValidMoves adapter root in
  match rootMoves with
  | [] => Err ErrNoMoves
  | _ =>
      '(t, _) ← iterate (Z.to_nat (Iterations cfg)) 0 fuel ctx root playerID cfg
                  (rootTree rootMoves) src;
      choose t rootMoves
  end.

End Search.

(** [RandomRolloutPolicy] *)
Definition RandomRolloutPolicy `{Rand} `{Entropy} (s : GameState) (moves : list BotMove) (src : sources)
    : result gerror BotMove * sources :=
  let '(i, r) := rand_Intn src.1 (Z.of_nat (length moves)) in
  (index moves (Z.to_nat i), (r, src.2)).

End Mcts.
