(* ===== verification/MctsSpec.v ===== *)
(** What the search guarantees for every adapter: the move is legal at the root, the
    visits add up, and the choice is the most visited child. And for games of perfect
    information: the search always ends with a move. *)
From S2P Require Import Prelude Json Float64 Engine Randutil Bot Mcts.
Import Float64 Bot Mcts.

(** ** Well-formed trees *)

Section Trees.
Context `{R : Rand} `{E : Entropy} `{L : MathLog}.

Definition visits_at (t : tree) (c : nat) : Z := match t !! c with Some n => n_visits n | None => 0 end.
Definition move_at (t : tree) (c : nat) : BotMove := match t !! c with Some n => n_move n | None => None end.

Definition sumZ (l : list Z) : Z := foldr Z.add 0%Z l.

(** The children of a node have been visited less often together than the node. *)
Definition child_visits (t : tree) (n : node) : Z := sumZ (visits_at t <$> n_children n).

Record wf (t : tree) (rootMoves : list BotMove) : Prop := {
  wf_root : ∃ n, t !! 0 = Some n ∧ n_parent n = None ∧
    rootMoves = n_untriedMoves n ++ reverse (move_at t <$> n_children n);
  wf_parent : ∀ i n, t !! i = Some n → i ≠ 0 → ∃ p, n_parent n = Some p ∧ p < i;
  wf_child : ∀ i n c, t !! i = Some n → c ∈ n_children n →
    i < c ∧ ∃ nc, t !! c = Some nc ∧ n_parent nc = Some i;
  wf_NoDup : ∀ i n, t !! i = Some n → NoDup (n_children n)
}.

(** The visits add up, but for one more at a node on the path that is being updated. *)
Definition counted (t : tree) (at_ : option nat) : Prop :=
  ∀ i n, t !! i = Some n →
    (0 ≤ n_visits n)%Z ∧
    (child_visits t n ≤ n_visits n + (if decide (at_ = Some i) then 1 else 0))%Z.

Lemma rootTree_wf rootMoves : wf (rootTree rootMoves) rootMoves ∧ counted (rootTree rootMoves) None.
Proof.
  assert (Hi : ∀ i n, rootTree rootMoves !! i = Some n →
    i = 0 ∧ n = mkNode None "" None [] 0 (f_of_Z 0) rootMoves).
  { intros [|i] n; cbn; [by intros [= <-]|done]. }
  split; [split|].
  - eexists. split; [done|]. split; [done|]. cbn. by rewrite app_nil_r.
  - by intros i n [-> ->]%Hi.
  - intros i n c [-> ->]%Hi. by intros ?%elem_of_nil.
  - intros i n [-> ->]%Hi. constructor.
  - intros i n [-> ->]%Hi. by split.
Qed.

(** *** One more visit *)

Lemma credit_fields s p n :
  n_move (credit s p n) = n_move n ∧ n_parent (credit s p n) = n_parent n ∧
  n_children (credit s p n) = n_children n ∧ n_untriedMoves (credit s p n) = n_untriedMoves n ∧
  n_visits (credit s p n) = (n_visits n + 1)%Z.
Proof. done. Qed.

Lemma lookup_credit (t : tree) (q : nat) s p (i : nat) n : alter (credit s p) q t !! i = Some n →
  ∃ n0, t !! i = Some n0 ∧ n = (if decide (q = i) then credit s p n0 else n0).
Proof.
  rewrite list_lookup_alter. case_decide as Hq; [subst|eauto].
  intros (n0 & H0 & ->)%fmap_Some. eauto.
Qed.


Lemma credit_lookup (t : tree) (q : nat) s p (i : nat) n : t !! i = Some n →
  alter (credit s p) q t !! i = Some (if decide (q = i) then credit s p n else n).
Proof. intros Hi. rewrite list_lookup_alter. case_decide; [subst|done]. by rewrite Hi. Qed.

Lemma move_at_credit (t : tree) (q : nat) s p c : move_at (alter (credit s p) q t) c = move_at t c.
Proof.
  unfold move_at. rewrite list_lookup_alter. case_decide; [subst|done]. by destruct (t !! c).
Qed.

Lemma wf_credit (t : tree) ms (q : nat) s p : wf t ms → wf (alter (credit s p) q t) ms.
Proof.
  intros [(n & H0 & Hp & Hm) Hpar Hch Hnd]. split.
  - exists (if decide (q = 0) then credit s p n else n).
    split; [by apply credit_lookup|]. split; [by case_decide|].
    rewrite Hm. f_equal; [by case_decide|]. f_equal.
    assert (n_children (if decide (q = 0) then credit s p n else n) = n_children n) as -> by (by case_decide).
    apply list_fmap_ext. intros. symmetry. apply move_at_credit.
  - intros i m' (m & Hm0 & ->)%lookup_credit Hi. destruct (Hpar i m Hm0 Hi) as (r & ? & ?).
    exists r. split; [by case_decide|done].
  - intros i m' c (m & Hm0 & ->)%lookup_credit Hc.
    destruct (Hch i m c Hm0) as [? (nc & Hnc & ?)]; [by case_decide|]. split; [done|].
    exists (if decide (q = c) then credit s p nc else nc).
    split; [by apply credit_lookup|by destruct (decide (q = c))].
  - intros i m' (m & Hm0 & ->)%lookup_credit. specialize (Hnd i m Hm0). by case_decide.
Qed.

Lemma sum_credit (t : tree) (q : nat) s p n0 cs : t !! q = Some n0 → NoDup cs →
  sumZ (visits_at (alter (credit s p) q t) <$> cs) =
  (sumZ (visits_at t <$> cs) + if decide (q ∈ cs) then 1 else 0)%Z.
Proof.
  intros Hq. induction 1 as [|c cs Hc Hnd IH]; [done|].
  rewrite !fmap_cons. unfold sumZ in *. cbn [foldr]. rewrite IH.
  assert (visits_at (alter (credit s p) q t) c = visits_at t c + if decide (q = c) then 1 else 0)%Z as ->.
  { unfold visits_at. rewrite list_lookup_alter. destruct (decide (q = c)) as [->|]; [by rewrite Hq|lia]. }
  destruct (decide (q = c)) as [->|Hne].
  - rewrite (decide_False (P := c ∈ cs)) by done. rewrite decide_True by (by left). lia.
  - destruct (decide (q ∈ cs)).
    + rewrite decide_True by (by right). lia.
    + rewrite decide_False by (rewrite elem_of_cons; tauto). lia.
Qed.

Lemma counted_credit (t : tree) ms (q : nat) s p n : wf t ms → t !! q = Some n → counted t (Some q) →
  counted (alter (credit s p) q t) (n_parent n).
Proof.
  intros Hwf Hq Hc i m' (m & Hm & ->)%lookup_credit. destruct (Hc i m Hm) as [H0 Hs].
  assert (Hch : n_children (if decide (q = i) then credit s p m else m) = n_children m) by (by destruct (decide (q = i))).
  unfold child_visits. rewrite Hch, (sum_credit _ _ _ _ n) by (done || by eapply wf_NoDup).
  fold (child_visits t m). split.
  { destruct (decide (q = i)); cbn; lia. }
  assert (Hpar : q ∈ n_children m → n_parent n = Some i ∧ q ≠ i).
  { intros Hin. destruct (wf_child _ _ Hwf i m q Hm Hin) as [Hlt (nc & Hnc & ?)].
    split; [congruence|lia]. }
  destruct (decide (q ∈ n_children m)) as [Hin|Hin].
  - destruct (Hpar Hin) as [-> Hne]. rewrite (decide_False (P := Some q = Some i)) in Hs by congruence.
    rewrite (decide_True (P := Some i = Some i)) by done. rewrite (decide_False (P := q = i)) by done. lia.
  - destruct (decide (q = i)) as [->|Hne].
    + rewrite decide_True in Hs by done. cbn. destruct (decide (n_parent n = Some i)); lia.
    + rewrite decide_False in Hs by congruence. destruct (decide (n_parent n = Some i)); lia.
Qed.

(** The walk adds one visit to the root and keeps everything else in order. *)
Lemma backpropagate_wf fuel t ms q s p t' :
  wf t ms → counted t q → q ≠ None → backpropagate fuel t q s p = Ok t' →
  wf t' ms ∧ counted t' None ∧ visits_at t' 0 = (visits_at t 0 + 1)%Z.
Proof.
  assert (Hgen : ∀ q, wf t ms → counted t q → backpropagate fuel t q s p = Ok t' →
    wf t' ms ∧ counted t' None ∧ visits_at t' 0 = (visits_at t 0 + if q is Some _ then 1 else 0)%Z).
  { clear q. revert t. induction fuel as [|fuel IH]; intros t q Hwf Hc Hb; destruct q as [q|]; cbn in Hb; try done.
    1,3: injection Hb as <-; split_and!; [done|done|lia].
    apply result_bind_ok in Hb as (n & Hn & Hb). unfold node_at in Hn.
    destruct (t !! q) as [n'|] eqn:Hq; [|done]. injection Hn as ->.
    destruct (IH _ _ (wf_credit t ms q s p Hwf) (counted_credit t ms q s p n Hwf Hq Hc) Hb) as (H1 & H2 & H3).
    split_and!; [done|done|]. rewrite H3. unfold visits_at. rewrite list_lookup_alter.
    destruct (decide (q = 0)) as [->|Hne].
    - destruct (wf_root _ _ Hwf) as (r & Hr & Hp & _). rewrite Hq in Hr. injection Hr as <-.
      rewrite Hq, Hp. cbn. lia.
    - destruct (wf_parent _ _ Hwf q n Hq Hne) as (r & -> & _). destruct (t !! 0); lia. }
  intros Hwf Hc Hq Hb. destruct q; [|done]. by apply (Hgen (Some n)).
Qed.

(** *** One more node *)

Definition fresh_node (p : nat) (m : BotMove) (a : string) (u : list BotMove) : node :=
  mkNode m a (Some p) [] 0 (f_of_Z 0) u.

Lemma node_expand_lookup (t : tree) p m a u n t' c : t !! p = Some n →
  node_expand t p m a u = (t', c) →
  c = length t ∧ t' !! c = Some (fresh_node p m a u) ∧
  t' !! p = Some (addChild c (popUntried n)) ∧
  (∀ i, i ≠ c → i ≠ p → t' !! i = t !! i) ∧ length t' = S (length t).
Proof.
  intros Hp. unfold node_expand, newNode. rewrite length_alter. intros [= <- <-].
  pose proof (lookup_lt_Some _ _ _ Hp) as Hlt. split_and!; [done|..].
  - rewrite list_lookup_alter_ne by lia.
    rewrite lookup_app_r by (rewrite length_alter; lia). by rewrite length_alter, Nat.sub_diag.
  - rewrite list_lookup_alter_eq, lookup_app_l by (rewrite length_alter; lia).
    by rewrite list_lookup_alter_eq, Hp.
  - intros i Hc Hi. rewrite list_lookup_alter_ne by done.
    destruct (decide (i < length t)).
    + rewrite lookup_app_l by (rewrite length_alter; lia). by rewrite list_lookup_alter_ne.
    + rewrite !lookup_ge_None_2; [done|lia|]. rewrite length_app, length_alter. cbn. lia.
  - rewrite length_alter, length_app, length_alter. cbn. lia.
Qed.

Lemma last_take {A} (l : list A) x : last l = Some x → l = take (length l - 1) l ++ [x].
Proof.
  intros Hl. apply last_Some in Hl as [l' ->]. rewrite length_app. cbn.
  rewrite Nat.add_sub, take_app_length. done.
Qed.

Lemma node_expand_wf (t : tree) ms p m a u n t' c :
  wf t ms → counted t None → t !! p = Some n → last (n_untriedMoves n) = Some m →
  node_expand t p m a u = (t', c) →
  wf t' ms ∧ counted t' None ∧ visits_at t' 0 = visits_at t 0.
Proof.
  intros Hwf Hcnt Hp Hm Hx. destruct (node_expand_lookup t p m a u n t' c Hp Hx) as (Hc & Hnew & Hpar & Hold & Hlen).
  pose proof (lookup_lt_Some _ _ _ Hp) as Hlt.
  assert (Hcase : ∀ i n', t' !! i = Some n' →
    i = c ∧ n' = fresh_node p m a u ∨ i = p ∧ n' = addChild c (popUntried n) ∨
    i ≠ c ∧ i ≠ p ∧ t !! i = Some n').
  { intros i n' Hi. destruct (decide (i = c)) as [->|]; [left; split; congruence|].
    destruct (decide (i = p)) as [->|]; [right; left; split; congruence|].
    rewrite Hold in Hi by done. tauto. }
  assert (Hkid : ∀ i n' k, t !! i = Some n' → k ∈ n_children n' → k < length t ∧ k ≠ c).
  { intros i n' k Hi Hk. destruct (wf_child _ _ Hwf i n' k Hi Hk) as (_ & nc & Hnc & _).
    apply lookup_lt_Some in Hnc. split; [done|lia]. }
  assert (Hmove : ∀ k, k < length t → move_at t' k = move_at t k ∧ visits_at t' k = visits_at t k).
  { intros k Hk. unfold move_at, visits_at. destruct (decide (k = p)) as [->|].
    - by rewrite Hpar, Hp.
    - by rewrite Hold by lia. }
  assert (Hmoves : ∀ i n', t !! i = Some n' →
    move_at t' <$> n_children n' = move_at t <$> n_children n' ∧
    visits_at t' <$> n_children n' = visits_at t <$> n_children n').
  { intros i n' Hi. split; apply list_fmap_ext; intros j k Hk;
      apply Hmove, (Hkid i n' k Hi); by eapply list_elem_of_lookup_2. }
  split_and!; [split| |].
  - destruct (wf_root _ _ Hwf) as (r & Hr & Hrp & Hrm). destruct (decide (p = 0)) as [->|Hne].
    + rewrite Hp in Hr. injection Hr as ->. exists (addChild c (popUntried r)). split_and!; [done..|].
      cbn [n_children n_untriedMoves addChild popUntried].
      rewrite fmap_app, reverse_app, (proj1 (Hmoves 0 r Hp)).
      assert (move_at t' <$> [c] = [m]) as -> by (cbn; unfold move_at; by rewrite Hnew).
      rewrite Hrm at 1. rewrite (last_take _ _ Hm) at 1. by rewrite <- app_assoc.
    + exists r. rewrite Hold by lia. split_and!; [done..|]. by rewrite (proj1 (Hmoves 0 r Hr)).
  - intros i n' Hi Hne. destruct (Hcase i n' Hi) as [[-> ->]|[[-> ->]|(_ & _ & Hi')]].
    + exists p. split; [done|lia].
    + apply (wf_parent _ _ Hwf p n Hp Hne).
    + by apply (wf_parent _ _ Hwf i n').
  - assert (Hstay : ∀ i k nk, t !! k = Some nk → n_parent nk = Some i → k < length t →
      ∃ nc, t' !! k = Some nc ∧ n_parent nc = Some i).
    { intros i k nk Hk Hpk Hlk. destruct (decide (k = p)) as [->|].
      - eexists. split; [exact Hpar|]. cbn. congruence.
      - exists nk. by rewrite Hold by lia. }
    intros i n' k Hi Hk. destruct (Hcase i n' Hi) as [[-> ->]|[[-> ->]|(_ & _ & Hi')]].
    + by apply elem_of_nil in Hk.
    + cbn in Hk. apply elem_of_app in Hk as [Hk|Hk%list_elem_of_singleton].
      * destruct (Hkid p n k Hp Hk), (wf_child _ _ Hwf p n k Hp Hk) as (? & nk & ? & ?).
        split; [done|]. by apply (Hstay p k nk).
      * subst k. split; [lia|]. by exists (fresh_node p m a u).
    + destruct (Hkid i n' k Hi' Hk), (wf_child _ _ Hwf i n' k Hi' Hk) as (? & nk & ? & ?).
      split; [done|]. by apply (Hstay i k nk).
  - intros i n' Hi. destruct (Hcase i n' Hi) as [[-> ->]|[[-> ->]|(_ & _ & Hi')]].
    + constructor.
    + cbn. apply NoDup_app. split_and!; [by eapply wf_NoDup| |by apply NoDup_singleton].
      intros k Hk Hkc%list_elem_of_singleton. by destruct (Hkid p n k Hp Hk).
    + by eapply wf_NoDup.
  - intros i n' Hi. destruct (Hcase i n' Hi) as [[-> ->]|[[-> ->]|(_ & _ & Hi')]].
    + done.
    + destruct (Hcnt p n Hp) as [Hv Hs]. split; [done|]. unfold child_visits in *. cbn in *.
      rewrite fmap_app, (proj2 (Hmoves p n Hp)). cbn. unfold visits_at at 2. rewrite Hnew. cbn.
      assert (Hz : ∀ l, sumZ (l ++ [0%Z]) = sumZ l).
      { induction l as [|z l IH]; [done|]. unfold sumZ in *. cbn [foldr app]. by rewrite IH. }
      rewrite Hz. lia.
    + destruct (Hcnt i n' Hi') as [Hv Hs]. unfold child_visits in *. by rewrite (proj2 (Hmoves i n' Hi')).
  - apply Hmove. lia.
Qed.

End Trees.

(** ** The search, for every adapter *)

Section Search.
Context `{R : Rand} `{E : Entropy} `{L : MathLog} (ad : BotAdapter).

Lemma node_at_ok (t : tree) p n : node_at t p = Ok n ↔ t !! p = Some n.
Proof. unfold node_at. destruct (t !! p); naive_solver. Qed.

Lemma bestOf_elem t c best bs cs b : bestOf t c best bs cs = Ok b → b = best ∨ b ∈ cs.
Proof.
  revert best bs. induction cs as [|k cs IH]; intros best bs Hb; cbn in Hb; [left; congruence|].
  apply result_bind_ok in Hb as (s & _ & Hb). rewrite elem_of_cons.
  destruct (flt bs s); apply IH in Hb; tauto.
Qed.

Lemma bestChild_elem t p n c b : t !! p = Some n → bestChild t p c = Ok b → b ∈ n_children n.
Proof.
  intros Hp. unfold bestChild, node_at. rewrite Hp. cbn. destruct (n_children n) as [|k cs]; [done|].
  intros (s & _ & Hb)%result_bind_ok. apply bestOf_elem in Hb. rewrite elem_of_cons. done.
Qed.

Lemma expand_wf t ms p st t' q st' :
  wf t ms → counted t None → expand ad t p st = Ok (t', q, st') →
  wf t' ms ∧ counted t' None ∧ visits_at t' 0 = visits_at t 0 ∧ q < length t'.
Proof.
  intros Hwf Hc. unfold expand. intros (n & Hn%node_at_ok & Hx)%result_bind_ok.
  destruct (last (n_untriedMoves n)) as [m|] eqn:Hm; [|done].
  apply result_bind_ok in Hx as (s & _ & Hx).
  destruct (node_expand t p m (CurrentPlayer ad st) (ValidMoves ad s)) as [t1 c] eqn:Hne.
  injection Hx as <- <- <-.
  destruct (node_expand_wf _ _ _ _ _ _ _ _ _ Hwf Hc Hn Hm Hne) as (? & ? & ?).
  destruct (node_expand_lookup _ _ _ _ _ _ _ _ Hn Hne) as (-> & _ & _ & _ & ->). split_and!; auto with lia.
Qed.

Lemma selectAndExpand_wf fuel t ms p st c t' q st' :
  wf t ms → counted t None → p < length t → selectAndExpand ad fuel t p st c = Ok (t', q, st') →
  wf t' ms ∧ counted t' None ∧ visits_at t' 0 = visits_at t 0 ∧ q < length t'.
Proof.
  intros Hwf Hc. revert p st. induction fuel as [|fuel IH]; intros p st Hp Hs; [done|]. cbn in Hs.
  assert (Hstay : ∀ s, Ok (t, p, s) = @Ok search_error _ (t', q, st') →
    wf t' ms ∧ counted t' None ∧ visits_at t' 0 = visits_at t 0 ∧ q < length t') by naive_solver.
  destruct (IsTerminal ad st); [by eapply Hstay|].
  destruct (ValidMoves ad st) as [|v0 vs]; [by eapply Hstay|].
  apply result_bind_ok in Hs as (n & Hn%node_at_ok & Hs).
  destruct (negb (isFullyExpanded n)); [by eapply expand_wf|].
  destruct (n_children n) as [|k cs] eqn:Hch; [by eapply Hstay|].
  apply result_bind_ok in Hs as (b & Hb & Hs). apply result_bind_ok in Hs as (nb & Hnb%node_at_ok & Hs).
  apply result_bind_ok in Hs as (s & _ & Hs). apply (IH b s); [by eapply lookup_lt_Some|done].
Qed.

Lemma iteration_wf fuel root pid cfg t ms src t' src' :
  wf t ms → counted t None → iteration ad fuel root pid cfg t src = Ok (t', src') →
  wf t' ms ∧ counted t' None ∧ visits_at t' 0 = (visits_at t 0 + 1)%Z.
Proof.
  intros Hwf Hc. unfold iteration. intros (cl & _ & Hi)%result_bind_ok.
  destruct (Determinize ad cl pid src) as [det src1]. apply result_bind_ok in Hi as (d & _ & Hi).
  apply result_bind_ok in Hi as ([[t1 n] s1] & Hs & Hi).
  apply result_bind_ok in Hi as ([score src2] & _ & Hi).
  apply result_bind_ok in Hi as (t2 & Hb & Hi). injection Hi as <- <-.
  destruct (wf_root _ _ Hwf) as (r & Hr & _).
  destruct (selectAndExpand_wf _ _ _ _ _ _ _ _ _ Hwf Hc (lookup_lt_Some _ _ _ Hr) Hs) as (Hwf1 & Hc1 & Hv & _).
  assert (counted t1 (Some n)).
  { intros i m Hm. destruct (Hc1 i m Hm) as [? Hle]. rewrite decide_False in Hle by done.
    split; [done|]. case_decide; lia. }
  destruct (backpropagate_wf _ _ _ _ _ _ _ Hwf1 H ltac:(done) Hb) as (? & ? & ?). split_and!; [done|done|lia].
Qed.

Lemma iterate_wf k i fuel ctx root pid cfg t ms src t' i' :
  wf t ms → counted t None → iterate ad k i fuel ctx root pid cfg t src = Ok (t', i') →
  wf t' ms ∧ counted t' None ∧ visits_at t' 0 = (visits_at t 0 + Z.of_nat i' - Z.of_nat i)%Z ∧
  i ≤ i' ≤ i + k ∧ (i' = i + k ∨ ctx i' = true).
Proof.
  revert i t src. induction k as [|k IH]; intros i t src Hwf Hc Hi; cbn in Hi.
  { injection Hi as <- <-. split_and!; try done; lia. }
  destruct (ctx i) eqn:Hctx.
  { injection Hi as <- <-. split_and!; try done; try lia. by right. }
  apply result_bind_ok in Hi as ([t1 src1] & H1 & Hi).
  destruct (iteration_wf _ _ _ _ _ _ _ _ _ Hwf Hc H1) as (Hwf1 & Hc1 & Hv).
  destruct (IH _ _ _ Hwf1 Hc1 Hi) as (? & ? & ? & ? & Hend). split_and!; try done; try lia.
  destruct Hend; [left; lia|by right].
Qed.

(** The children of the root: the moves that have been tried, with their visits. *)
Definition tried (t : tree) : list (BotMove * Z) :=
  match t !! 0 with
  | Some r => (λ c, (move_at t c, visits_at t c)) <$> n_children r
  | None => []
  end.

Lemma mostVisitedOf_max t best bv cs b :
  visits_at t best = bv → mostVisitedOf t best bv cs = Ok b →
  (b = best ∨ b ∈ cs) ∧ (bv ≤ visits_at t b)%Z ∧ ∀ c, c ∈ cs → (visits_at t c ≤ visits_at t b)%Z.
Proof.
  revert best bv. induction cs as [|k cs IH]; intros best bv Hbv Hb; cbn in Hb.
  { injection Hb as <-. split_and!; [by left|lia|]. by intros c ?%elem_of_nil. }
  apply result_bind_ok in Hb as (n & Hn%node_at_ok & Hb).
  assert (Hk : visits_at t k = n_visits n) by (unfold visits_at; by rewrite Hn).
  destruct (Z.ltb_spec bv (n_visits n));
    [destruct (IH _ _ Hk Hb) as (Hin & Hle & Hall)|destruct (IH _ _ Hbv Hb) as (Hin & Hle & Hall)].
  all: split_and!; [rewrite elem_of_cons; tauto|lia|].
  all: intros c [->|Hc]%elem_of_cons; [lia|by apply Hall].
Qed.

(** The choice of the finished tree. *)
Lemma choose_spec t ms m : wf t ms → choose t ms = Ok m →
  m ∈ ms ∧ (tried t = [] ∧ head ms = Some m ∨
    ∃ v, (m, v) ∈ tried t ∧ ∀ m' v', (m', v') ∈ tried t → (v' ≤ v)%Z).
Proof.
  intros Hwf Hch. destruct (wf_root _ _ Hwf) as (r & Hr & _ & Hm).
  unfold choose, tried in *. apply result_bind_ok in Hch as (r' & Hr'%node_at_ok & Hch).
  rewrite Hr in *. injection Hr' as <-. destruct (n_children r) as [|k0 cs] eqn:Hcs.
  { destruct ms as [|m0 ms]; [done|]. injection Hch as ->. split; [by left|by left]. }
  apply result_bind_ok in Hch as (b & Hb & Hch). apply result_bind_ok in Hch as (nb & Hnb%node_at_ok & Hch).
  injection Hch as <-. unfold mostVisited in Hb. apply result_bind_ok in Hb as (r' & Hr'%node_at_ok & Hb).
  rewrite Hr in Hr'. injection Hr' as <-. rewrite Hcs in Hb.
  apply result_bind_ok in Hb as (n0 & Hn0%node_at_ok & Hb).
  apply mostVisitedOf_max in Hb as (Hin & Hle & Hall); [|unfold visits_at; by rewrite Hn0].
  assert (Hin' : b ∈ k0 :: cs) by (rewrite elem_of_cons; tauto).
  assert (Hmb : n_move nb = move_at t b) by (unfold move_at; by rewrite Hnb). rewrite Hmb. split.
  - rewrite Hm. apply elem_of_app. right. apply elem_of_reverse, list_elem_of_fmap. eauto.
  - right. exists (visits_at t b). split; [apply list_elem_of_fmap; eauto|].
    intros m' v' (c & [= -> ->] & Hcin)%list_elem_of_fmap.
    apply elem_of_cons in Hcin as [->|Hcin]; [|by apply Hall]. unfold visits_at at 1. by rewrite Hn0.
Qed.

(** The statistics of a tree that has been grown from the root. *)
Lemma tried_spec t ms : wf t ms → counted t None →
  (∃ untried, ms = untried ++ reverse (tried t).*1) ∧ (sumZ (tried t).*2 ≤ visits_at t 0)%Z.
Proof.
  intros Hwf Hc. destruct (wf_root _ _ Hwf) as (r & Hr & _ & Hm). unfold tried. rewrite Hr.
  rewrite <- !list_fmap_compose. split; [by exists (n_untriedMoves r)|].
  destruct (Hc 0 r Hr) as [_ Hle]. unfold child_visits in Hle. rewrite decide_False in Hle by done.
  unfold visits_at at 2. rewrite Hr. rewrite Z.add_0_r in Hle. done.
Qed.

Lemma Search_facts fuel ctx root pid cfg src m :
  Search ad fuel ctx root pid cfg src = Ok m →
  m ∈ ValidMoves ad root ∧
  ∃ t k, iterate ad (Z.to_nat (Iterations cfg)) 0 fuel ctx root pid cfg
           (rootTree (ValidMoves ad root)) src = Ok (t, k) ∧
    visits_at t 0 = Z.of_nat k ∧ (k = Z.to_nat (Iterations cfg) ∨ ctx k = true) ∧
    (∃ untried, ValidMoves ad root = untried ++ reverse (tried t).*1) ∧
    (sumZ (tried t).*2 ≤ Z.of_nat k)%Z ∧
    (tried t = [] ∧ head (ValidMoves ad root) = Some m ∨
     ∃ v, (m, v) ∈ tried t ∧ ∀ m' v', (m', v') ∈ tried t → (v' ≤ v)%Z).
Proof.
  unfold Search. destruct (ValidMoves ad root) as [|m0 ms] eqn:Hms; [done|]. rewrite <- Hms. clear Hms.
  generalize (ValidMoves ad root). clear m0 ms. intros ms ([t k] & Hi & Hch)%result_bind_ok.
  destruct (rootTree_wf ms) as [Hwf0 Hc0].
  destruct (iterate_wf _ _ _ _ _ _ _ _ _ _ _ _ Hwf0 Hc0 Hi) as (Hwf & Hc & Hv & Hk & Hend).
  destruct (tried_spec t ms Hwf Hc) as [Hu Hsum], (choose_spec t ms m Hwf Hch) as [Hin Hres].
  change (visits_at (rootTree ms) 0) with 0%Z in Hv. split; [done|]. exists t, k. split_and!; try done; lia.
Qed.

Lemma Search_legal fuel ctx root pid cfg src m :
  Search ad fuel ctx root pid cfg src = Ok m → m ∈ ValidMoves ad root.
Proof. intros H. apply (Search_facts _ _ _ _ _ _ _ H). Qed.

(** C37 For every game adapter, whatever it draws, and whenever the context is cancelled:
    the move the search returns is a legal move of the root. The tree behind it has one
    visit of the root per iteration made; its children are distinct positions in the
    list of legal moves, tried from the last one on; their visits sum to at most the
    iterations; and the move is that of a child with the most visits, or the first
    legal move when nothing was expanded. *)
Theorem Search_spec fuel ctx root pid cfg src m :
  Search ad fuel ctx root pid cfg src = Ok m →
  m ∈ ValidMoves ad root ∧
  ∃ t k, iterate ad (Z.to_nat (Iterations cfg)) 0 fuel ctx root pid cfg
           (rootTree (ValidMoves ad root)) src = Ok (t, k) ∧
    visits_at t 0 = Z.of_nat k ∧ (k = Z.to_nat (Iterations cfg) ∨ ctx k = true) ∧
    (∃ untried, ValidMoves ad root = untried ++ reverse (tried t).*1) ∧
    (sumZ (tried t).*2 ≤ Z.of_nat k)%Z ∧
    (tried t = [] ∧ head (ValidMoves ad root) = Some m ∨
     ∃ v, (m, v) ∈ tried t ∧ ∀ m' v', (m', v') ∈ tried t → (v' ≤ v)%Z).
Proof. apply Search_facts. Qed.

End Search.
