(* ===== verification/MctsTotal.v ===== *)
(** Games of perfect information: the search never panics, its loops end, and it
    returns a move. Every node of the tree stands for one state of the game. *)
From S2P Require Import Prelude Json Float64 Engine Randutil Bot Mcts MctsSpec.
Import Float64 Bot Mcts.

Section Total.
Context `{R : Rand} `{E : Entropy} `{L : MathLog} (ad : BotAdapter).

(** What a game and its adapter promise, for the states that are [good]: nothing is
    hidden, legal moves can be played and bring the end nearer, the policy of the
    playouts picks one of the moves it is given. *)
Class PerfectInformation (good : GameState → Prop) (rank : GameState → nat) : Prop := {
  pi_determinize : ∀ s p src, good s → Determinize ad s p src = (Ok s, src);
  pi_step : ∀ s m, good s → IsTerminal ad s = false → m ∈ ValidMoves ad s →
    ∃ s', ApplyMove ad s m = Ok s' ∧ good s' ∧ rank s' < rank s;
  pi_policy : ∀ s ms src, ms ≠ [] → ∃ m src', RolloutPolicy ad s ms src = (Ok m, src') ∧ m ∈ ms
}.

Context (good : GameState → Prop) (rank : GameState → nat) `{PI : !PerfectInformation good rank}.

(** [sts] are the states of the nodes. *)
Record mirrors (t : tree) (sts : list GameState) : Prop := {
  mir_length : length sts = length t;
  mir_good : ∀ i s, sts !! i = Some s → good s;
  mir_untried : ∀ i n s m, t !! i = Some n → sts !! i = Some s →
    m ∈ n_untriedMoves n → m ∈ ValidMoves ad s;
  mir_child : ∀ i n s c, t !! i = Some n → sts !! i = Some s → c ∈ n_children n →
    ∃ sc, sts !! c = Some sc ∧ move_at t c ∈ ValidMoves ad s ∧ ApplyMove ad s (move_at t c) = Ok sc
}.

Lemma mirrors_root s : good s → mirrors (rootTree (ValidMoves ad s)) [s].
Proof.
  intros Hs. split; [done|..].
  - intros [|i] s'; cbn; [by intros [= <-]|done].
  - intros [|i] n s' m; cbn; [|done]. by intros [= <-] [= <-].
  - intros [|i] n s' c; cbn; [|done]. intros [= <-] [= <-] []%elem_of_nil.
Qed.

Lemma mirrors_credit t sts q s p : mirrors t sts → mirrors (alter (credit s p) q t) sts.
Proof.
  intros [Hl Hg Hu Hc]. split; [by rewrite length_alter|done|..].
  - intros i n st m (n0 & Hn & ->)%lookup_credit Hs Hm. eapply Hu; [done..|]. by destruct (decide (q = i)).
  - intros i n st c (n0 & Hn & ->)%lookup_credit Hs Hm. rewrite move_at_credit.
    eapply Hc; [done..|]. by destruct (decide (q = i)).
Qed.

Lemma mirrors_expand t sts ms p n m a s s' :
  wf t ms → mirrors t sts → t !! p = Some n → sts !! p = Some s →
  m ∈ ValidMoves ad s → ApplyMove ad s m = Ok s' → good s' →
  mirrors (node_expand t p m a (ValidMoves ad s')).1 (sts ++ [s']).
Proof.
  intros Hwf [Hl Hg Hu Hc] Hp Hs Hm Ha Hs'.
  destruct (node_expand t p m a (ValidMoves ad s')) as [t' c] eqn:Hx.
  destruct (node_expand_lookup _ _ _ _ _ _ _ _ Hp Hx) as (Ec & Hnew & Hpar & Hold & Hlen). cbn [fst].
  pose proof (lookup_lt_Some _ _ _ Hp) as Hlt.
  assert (Hlast : (sts ++ [s']) !! c = Some s') by (subst c; rewrite <- Hl; by apply list_lookup_middle).
  assert (Hprev : ∀ i x, i < length t → (sts ++ [s']) !! i = Some x → sts !! i = Some x).
  { intros i x Hi Hx'. by rewrite lookup_app_l in Hx' by lia. }
  assert (Hkeep : ∀ i x, sts !! i = Some x → (sts ++ [s']) !! i = Some x) by (intros; by apply lookup_app_l_Some).
  assert (Hmove : ∀ k, k < length t → move_at t' k = move_at t k).
  { intros k Hk. unfold move_at. destruct (decide (k = p)) as [->|]; [by rewrite Hpar, Hp|].
    by rewrite Hold by lia. }
  assert (Hchild : ∀ i n0 x k, t !! i = Some n0 → sts !! i = Some x → k ∈ n_children n0 →
    ∃ sc, (sts ++ [s']) !! k = Some sc ∧ move_at t' k ∈ ValidMoves ad x ∧ ApplyMove ad x (move_at t' k) = Ok sc).
  { intros i n0 x k Hi Hx' Hk. destruct (Hc i n0 x k Hi Hx' Hk) as (sc & ? & ?). exists sc.
    destruct (wf_child _ _ Hwf i n0 k Hi Hk) as (_ & nk & Hnk & _).
    rewrite Hmove by by eapply lookup_lt_Some. auto. }
  split.
  - rewrite length_app, Hlen, Hl. cbn. lia.
  - intros i x [Hx'|[_ Hx']]%lookup_app_Some; [by eapply Hg|].
    destruct (i - length sts) as [|j]; [|done]. cbn in *. congruence.
  - intros i n0 x m0 Hi Hx' Hm0. destruct (decide (i = c)) as [->|Hic].
    { rewrite Hnew in Hi. injection Hi as <-. rewrite Hlast in Hx'. by injection Hx' as <-. }
    destruct (decide (i = p)) as [->|Hip].
    + rewrite Hpar in Hi. injection Hi as <-. apply Hprev in Hx'; [|done]. cbn in Hm0.
      eapply Hu; [exact Hp|done|]. by eapply elem_of_take in Hm0 as (? & ? & _); apply list_elem_of_lookup; eauto.
    + rewrite Hold in Hi by done. eapply Hu; [done| |done]. apply Hprev; [by eapply lookup_lt_Some|done].
  - intros i n0 x k Hi Hx' Hk. destruct (decide (i = c)) as [->|Hic].
    { rewrite Hnew in Hi. injection Hi as <-. by apply elem_of_nil in Hk. }
    destruct (decide (i = p)) as [->|Hip].
    + rewrite Hpar in Hi. injection Hi as <-. apply Hprev in Hx'; [|done].
      rewrite Hs in Hx'. injection Hx' as <-. cbn in Hk.
      apply elem_of_app in Hk as [Hk| ->%list_elem_of_singleton]; [by eapply Hchild|].
      exists s'. unfold move_at. rewrite Hnew. done.
    + rewrite Hold in Hi by done. eapply Hchild; [done| |done]. apply Hprev; [by eapply lookup_lt_Some|done].
Qed.

(** *** The loops end *)

Lemma UCB1_ok t ms i n c x : wf t ms → t !! i = Some n → c ∈ n_children n → is_ok (UCB1 t c x) = true.
Proof.
  intros Hwf Hi Hc. destruct (wf_child _ _ Hwf i n c Hi Hc) as (_ & nc & Hnc & Hp).
  unfold UCB1, node_at. rewrite Hnc. cbn. destruct (n_visits nc =? 0)%Z; [done|]. rewrite Hp, Hi. done.
Qed.

Lemma bestOf_ok t ms i n x best bs cs : wf t ms → t !! i = Some n → cs ⊆ n_children n →
  is_ok (bestOf t x best bs cs) = true.
Proof.
  intros Hwf Hi. revert best bs. induction cs as [|c cs IH]; intros best bs Hcs; [done|]. cbn.
  pose proof (UCB1_ok t ms i n c x Hwf Hi ltac:(apply Hcs; by left)) as Hu.
  destruct (UCB1 t c x) as [u|]; [|done]. cbn. destruct (flt bs u); apply IH; set_solver.
Qed.

Lemma bestChild_ok t ms i n x : wf t ms → t !! i = Some n → n_children n ≠ [] →
  ∃ b, bestChild t i x = Ok b ∧ b ∈ n_children n.
Proof.
  intros Hwf Hi Hne. assert (Hok : is_ok (bestChild t i x) = true).
  { unfold bestChild, node_at. rewrite Hi. cbn. destruct (n_children n) as [|c cs] eqn:Hcs; [done|].
    pose proof (UCB1_ok t ms i n c x Hwf Hi ltac:(rewrite Hcs; by left)) as Hu.
    destruct (UCB1 t c x) as [u|]; [|done]. cbn. eapply bestOf_ok; [done..|]. rewrite Hcs. set_solver. }
  destruct (bestChild t i x) as [b|] eqn:Hb; [|done]. exists b. split; [done|]. by eapply bestChild_elem.
Qed.

Lemma selectAndExpand_total fuel t ms sts p st x :
  wf t ms → mirrors t sts → sts !! p = Some st → length t < p + fuel →
  ∃ t' q st' sts', selectAndExpand ad fuel t p st x = Ok (t', q, st') ∧
    mirrors t' sts' ∧ sts' !! 0 = sts !! 0 ∧ good st' ∧ rank st' ≤ rank st.
Proof.
  intros Hwf Hm. revert p st. induction fuel as [|fuel IH]; intros p st Hp Hf.
  { apply lookup_lt_Some in Hp. rewrite (mir_length _ _ Hm) in Hp. lia. }
  cbn. pose proof (mir_good _ _ Hm p st Hp) as Hg.
  assert (Hstay : ∃ t' q st' sts', Ok (t, p, st) = @Ok search_error _ (t', q, st') ∧
    mirrors t' sts' ∧ sts' !! 0 = sts !! 0 ∧ good st' ∧ rank st' ≤ rank st) by (exists t, p, st, sts; auto).
  destruct (IsTerminal ad st) eqn:Ht; [done|]. destruct (ValidMoves ad st) as [|v vs]; [done|].
  pose proof (lookup_lt_Some _ _ _ Hp) as Hlt. rewrite (mir_length _ _ Hm) in Hlt.
  destruct (lookup_lt_is_Some_2 t p Hlt) as [n Hn]. rewrite (proj2 (node_at_ok t p n) Hn). cbn.
  destruct (isFullyExpanded n) eqn:Hfull; cbn.
  - destruct (n_children n) as [|c cs] eqn:Hcs; [done|].
    assert (Hne : n_children n ≠ []) by (by rewrite Hcs). clear Hcs c cs.
    destruct (bestChild_ok t ms p n x Hwf Hn Hne) as (b & -> & Hb). cbn.
    destruct (mir_child _ _ Hm p n st b Hn Hp Hb) as (sb & Hsb & Hv & Ha).
    destruct (wf_child _ _ Hwf p n b Hn Hb) as (Hpb & nb & Hnb & _).
    assert (Hmb : move_at t b = n_move nb) by (unfold move_at; by rewrite Hnb). rewrite Hmb in *.
    rewrite (proj2 (node_at_ok t b nb) Hnb). cbn. rewrite Ha. cbn.
    destruct (pi_step _ _ Hg Ht Hv) as (s2 & Ha2 & _ & Hr). rewrite Ha in Ha2. injection Ha2 as <-.
    destruct (IH b sb Hsb ltac:(lia)) as (t' & q & st' & sts' & ? & ? & ? & ? & ?).
    exists t', q, st', sts'. split_and!; auto with lia.
  - unfold expand. rewrite (proj2 (node_at_ok t p n) Hn). cbn.
    destruct (last (n_untriedMoves n)) as [m|] eqn:Hl.
    2:{ apply last_None in Hl. unfold isFullyExpanded in Hfull. by rewrite Hl in Hfull. }
    assert (Hmem : m ∈ n_untriedMoves n).
    { apply last_Some in Hl as [l' ->]. apply elem_of_app. right. by left. }
    pose proof (mir_untried _ _ Hm p n st m Hn Hp Hmem) as Hv.
    destruct (pi_step _ _ Hg Ht Hv) as (s2 & Ha & Hg2 & Hr). rewrite Ha. cbn.
    pose proof (mirrors_expand t sts ms p n m (CurrentPlayer ad st) st s2 Hwf Hm Hn Hp Hv Ha Hg2) as Hm2.
    destruct (node_expand _ _ _ _ _) as [t' c] eqn:Hx. eexists t', c, s2, (sts ++ [s2]).
    unfold node_expand, newNode in Hx. injection Hx as <- <-.
    split_and!; [done|done| |done|lia]. rewrite lookup_app_l; [done|]. rewrite (mir_length _ _ Hm). lia.
Qed.

Lemma rollout_total fuel st p src : good st → rank st ≤ fuel →
  is_ok (rollout ad fuel st p src) = true.
Proof.
  revert st src. induction fuel as [|fuel IH]; intros st src Hg Hr; cbn;
    destruct (IsTerminal ad st) eqn:Ht; try done;
    destruct (ValidMoves ad st) as [|v vs] eqn:Hv; try done.
  - destruct (pi_step st v Hg Ht) as (s' & _ & _ & Hlt); [rewrite Hv; by left|lia].
  - destruct (pi_policy st (v :: vs) src ltac:(done)) as (m & src' & -> & Hm). cbn.
    destruct (pi_step st m Hg Ht) as (s' & -> & Hg' & Hlt); [by rewrite Hv|]. cbn. apply IH; [done|lia].
Qed.

Lemma backpropagate_total fuel t ms sts p s pid :
  wf t ms → mirrors t sts → p < length t → p < fuel →
  ∃ t', backpropagate fuel t (Some p) s pid = Ok t' ∧ mirrors t' sts.
Proof.
  revert t p. induction fuel as [|fuel IH]; intros t p Hwf Hm Hp Hf; [lia|]. cbn.
  destruct (lookup_lt_is_Some_2 t p Hp) as [n Hn]. rewrite (proj2 (node_at_ok t p n) Hn). cbn.
  destruct (n_parent n) as [q|] eqn:Hq.
  - destruct (decide (p = 0)) as [->|Hne].
    { destruct (wf_root _ _ Hwf) as (r & Hr & Hpr & _). congruence. }
    destruct (wf_parent _ _ Hwf p n Hn Hne) as (q' & Hq' & Hlt). rewrite Hq in Hq'. injection Hq' as <-.
    apply IH; [by apply wf_credit|by apply mirrors_credit|rewrite length_alter; lia|lia].
  - eexists. split; [by destruct fuel|by apply mirrors_credit].
Qed.

Lemma iteration_total fuel root det pid cfg t ms sts src :
  Clone root = Ok det → good det → rank det ≤ fuel → sts !! 0 = Some det →
  wf t ms → counted t None → mirrors t sts →
  ∃ t' src' sts', iteration ad fuel root pid cfg t src = Ok (t', src') ∧
    mirrors t' sts' ∧ sts' !! 0 = Some det.
Proof.
  intros Hcl Hg Hr H0 Hwf Hc Hm. unfold iteration. rewrite Hcl. cbn [game_call mbind result_bind].
  rewrite pi_determinize by done. cbn [game_call mbind result_bind].
  destruct (selectAndExpand_total (S (length t)) t ms sts 0 det (ExplorationC cfg) Hwf Hm H0 ltac:(lia))
    as (t1 & q & st' & sts' & Hs & Hm1 & H01 & Hg1 & Hr1). rewrite Hs. cbn [mbind result_bind].
  pose proof (lookup_lt_Some _ _ _ H0) as Hl0. rewrite (mir_length _ _ Hm) in Hl0.
  destruct (selectAndExpand_wf ad _ _ _ _ _ _ _ _ _ Hwf Hc Hl0 Hs) as (Hwf1 & _ & _ & Hq).
  pose proof (rollout_total fuel st' pid src Hg1 ltac:(lia)) as Hro.
  destruct (rollout ad fuel st' pid src) as [[score src2]|]; [|done]. cbn [mbind result_bind].
  destruct (backpropagate_total (length t1) t1 ms sts' q score pid Hwf1 Hm1 Hq Hq) as (t2 & -> & Hm2).
  exists t2, src2, sts'. cbn. split_and!; [done|done|congruence].
Qed.

Lemma mostVisitedOf_ok t ms i n best bv cs : wf t ms → t !! i = Some n → cs ⊆ n_children n →
  best ∈ n_children n → ∃ b, mostVisitedOf t best bv cs = Ok b ∧ b ∈ n_children n.
Proof.
  intros Hwf Hi. revert best bv. induction cs as [|c cs IH]; intros best bv Hcs Hb; [eauto|]. cbn.
  destruct (wf_child _ _ Hwf i n c Hi ltac:(apply Hcs; by left)) as (_ & nc & Hnc & _).
  rewrite (proj2 (node_at_ok t c nc) Hnc). cbn. destruct (bv <? n_visits nc)%Z; apply IH; set_solver.
Qed.

Lemma choose_total t ms : wf t ms → ms ≠ [] → ∃ m, choose t ms = Ok m.
Proof.
  intros Hwf Hne. destruct (wf_root _ _ Hwf) as (r & Hr & _ & _).
  unfold choose, mostVisited. rewrite (proj2 (node_at_ok t 0 r) Hr). cbn.
  destruct (n_children r) as [|c cs] eqn:Hcs; [destruct ms; [done|eauto]|].
  destruct (wf_child _ _ Hwf 0 r c Hr ltac:(rewrite Hcs; by left)) as (_ & nc & Hnc & _).
  rewrite (proj2 (node_at_ok t c nc) Hnc). cbn.
  destruct (mostVisitedOf_ok t ms 0 r c (n_visits nc) cs Hwf Hr) as (b & -> & Hb);
    [rewrite Hcs; set_solver|rewrite Hcs; by left|]. cbn.
  destruct (wf_child _ _ Hwf 0 r b Hr Hb) as (_ & nb & Hnb & _). rewrite (proj2 (node_at_ok t b nb) Hnb). cbn. eauto.
Qed.

Lemma Search_progress fuel ctx root det pid cfg src :
  Clone root = Ok det → good det → ValidMoves ad det = ValidMoves ad root →
  ValidMoves ad root ≠ [] → rank det ≤ fuel →
  ∃ m, Search ad fuel ctx root pid cfg src = Ok m.
Proof.
  intros Hcl Hg Hv Hne Hr. unfold Search. destruct (ValidMoves ad root) as [|v vs] eqn:Hvs; [done|].
  rewrite <- Hv. clear Hne.
  assert (Hloop : ∀ k i t sts src, wf t (ValidMoves ad det) → counted t None → mirrors t sts →
    sts !! 0 = Some det →
    ∃ t' i', iterate ad k i fuel ctx root pid cfg t src = Ok (t', i')).
  { induction k as [|k IH]; intros i t sts src' Hwf Hc Hm H0; cbn; [eauto|].
    destruct (ctx i); [eauto|].
    destruct (iteration_total fuel root det pid cfg t _ sts src' Hcl Hg Hr H0 Hwf Hc Hm) as (t1 & src1 & sts1 & Hi & Hm1 & H01).
    destruct (iteration_wf ad _ _ _ _ _ _ _ _ _ Hwf Hc Hi) as (Hwf1 & Hc1 & _). rewrite Hi. cbn. by eapply IH. }
  destruct (rootTree_wf (ValidMoves ad det)) as [Hwf0 Hc0].
  destruct (Hloop (Z.to_nat (Iterations cfg)) 0 _ [det] src Hwf0 Hc0 (mirrors_root det Hg) eq_refl) as (t & k & Hi).
  rewrite Hi. cbn [mbind result_bind].
  destruct (iterate_wf ad _ _ _ _ _ _ _ _ _ _ _ _ Hwf0 Hc0 Hi) as (Hwf & _).
  apply choose_total; [done|]. by rewrite Hv.
Qed.

(** C38 A search in a game of perfect information ends with a move whenever there is a
    legal one: no step of it panics, the descent, the playout and the walk back end,
    and the playouts need no more steps than the rank of the position. *)
Theorem Search_total fuel ctx root det pid cfg src :
  Clone root = Ok det → good det → ValidMoves ad det = ValidMoves ad root →
  ValidMoves ad root ≠ [] → rank det ≤ fuel →
  ∃ m, Search ad fuel ctx root pid cfg src = Ok m.
Proof. apply Search_progress. Qed.

End Total.
