(* ===== verification/TicTacToeBot.v ===== *)
(** The bot adapter of Tic-tac-toe (services/game-server/games/tictactoe/adapter.go),
    and that a bot on turn always finds a move the game accepts. *)
From S2P Require Import Prelude Json Float64 Engine Randutil Bot Mcts MctsSpec MctsTotal.
From S2P Require Import TicTacToe TicTacToeSpec.
Import Float64 Bot Mcts.

Module TicTacToeBot.

Section Adapter.
Context `{R : Rand} `{E : Entropy} `{L : MathLog}.

(** The move to the [i]th cell, when the cell is free. *)
Definition cellMove (i : nat) (cell : string) : option BotMove :=
  if decide (cell = "") then
    match MoveFromPayload {["cell" := Int (Z.of_nat i)]} with Ok m => Some m | Err _ => None end
  else None.

Definition ValidMoves (s : GameState) : list BotMove :=
  if (TicTacToe.IsOver s).1 then []
  else
    match TicTacToe.getBoard s with
    | Err _ => []
    | Ok board => omap id (imap cellMove board)
    end.

Definition ApplyMove (s : GameState) (m : BotMove) : result gerror GameState :=
  match MovePayload m with
  | Err _ => Err (GPanic "tictactoe adapter: malformed BotMove")
  | Ok payload =>
      match TicTacToe.ApplyMove s (mkMove (CurrentPlayerID s) payload 0) with
      | Ok next => Ok next
      | Err _ => Err (GPanic "tictactoe adapter: ApplyMove failed")
      end
  end.

Definition IsTerminal (s : GameState) : bool := (TicTacToe.IsOver s).1.

Definition Result (s : GameState) (playerID : string) : f64 :=
  match WinnerID (TicTacToe.IsOver s).2 with
  | None => f_dec 5 1
  | Some w => if decide (w = playerID) then f_dec 10 1 else f_dec 0 1
  end.

Definition CurrentPlayer (s : GameState) : string := CurrentPlayerID s.

Definition Determinize (s : GameState) (observer : string) (src : sources)
    : result gerror GameState * sources := (Ok s, src).

Definition RolloutPolicy (s : GameState) (moves : list BotMove) (src : sources)
    : result gerror BotMove * sources := RandomRolloutPolicy s moves src.

Definition NewAdapter : BotAdapter :=
  mkAdapter ValidMoves ApplyMove IsTerminal Result CurrentPlayer Determinize RolloutPolicy.

End Adapter.
End TicTacToeBot.

(** ** The adapter plays by the rules *)

Section Play.
Context `{R : Rand} `{E : Entropy} `{L : MathLog}.
Import TicTacToeBot.

(** The payload that the move to the [i]th cell carries. *)
Definition cell_payload (i : nat) : data := {["cell" := Float (float64_of_int (Z.of_nat i))]}.

Lemma cellMove_spec i cell :
  cellMove i cell = if decide (cell = "") then Some (Some (cell_payload i)) else None.
Proof.
  unfold cellMove. case_decide; [|done]. unfold MoveFromPayload.
  assert (json_ok (Map {["cell" := Int (Z.of_nat i)]}) = true) as ->.
  { apply json_ok_map. intros k v [<- <-]%lookup_singleton_Some. done. }
  by rewrite map_fmap_singleton.
Qed.

Lemma elem_of_cellMoves board m :
  m ∈ omap id (imap cellMove board) ↔ ∃ i, board !! i = Some "" ∧ m = Some (cell_payload i).
Proof.
  rewrite list_elem_of_omap. split.
  - intros (o & Ho & Hid). cbn in Hid. subst o. apply list_elem_of_lookup in Ho as [i Hi]. rewrite list_lookup_imap in Hi.
    apply fmap_Some in Hi as (cell & Hc & Ho). rewrite cellMove_spec in Ho. cbn in *.
    case_decide; [subst|done]. injection Ho as ->. eauto.
  - intros (i & Hi & ->). exists (Some (Some (cell_payload i))). split; [|done].
    apply list_elem_of_lookup. exists i. rewrite list_lookup_imap, Hi. cbn. by rewrite cellMove_spec.
Qed.

Lemma getCell_cell p i t : i < 9 → TicTacToe.getCell (mkMove p (cell_payload i) t) = Ok (Z.of_nat i).
Proof.
  intros Hi. unfold TicTacToe.getCell, cell_payload. cbn [Payload]. rewrite lookup_singleton_eq.
  rewrite int_float64_int by lia. rewrite (proj2 (Z.ltb_ge _ 0)), (proj2 (Z.ltb_ge 8 _)) by lia. done.
Qed.

(** A position in which nobody has forfeited, as the search meets them. *)
Definition good (st : GameState) : Prop := ∃ pos, represents st pos ∧ forfeited pos = None.

Definition rank (st : GameState) : nat :=
  match TicTacToe.getBoard st with Ok b => occ "" b | Err _ => 0 end.

(** A move the adapter offers is one the game accepts. *)
Lemma ValidMoves_accepted st pos m t : represents st pos → m ∈ ValidMoves st →
  ∃ i, m = Some (cell_payload i) ∧ i < 9 ∧ cells pos !! i = Some "" ∧
    TicTacToe.ValidateMove st (mkMove (CurrentPlayerID st) (cell_payload i) t) = Ok tt.
Proof.
  intros Hr. unfold ValidMoves. destruct (TicTacToe.IsOver st).1; [by intros ?%elem_of_nil|].
  rewrite (rep_board _ _ Hr). intros (i & Hi & ->)%elem_of_cellMoves. exists i.
  assert (Hl : i < 9). { rewrite <- (sane_length _ (rep_sane _ _ Hr)). by eapply lookup_lt_Some. }
  split_and!; [done|done|done|]. unfold TicTacToe.ValidateMove. cbn [Move_PlayerID].
  rewrite decide_False by tauto. unfold cell_payload at 1. cbn [Payload].
  rewrite lookup_singleton_ne by done. rewrite getCell_cell by done. cbn [mbind result_bind].
  rewrite (rep_board _ _ Hr). cbn [mbind result_bind]. unfold index.
  rewrite Nat2Z.id, Hi. cbn [mbind result_bind]. by rewrite decide_False by tauto.
Qed.

Lemma cell_step st m : good st → m ∈ ValidMoves st →
  ∃ st', ApplyMove st m = Ok st' ∧ good st' ∧ rank st' < rank st.
Proof.
  intros (pos & Hr & Hf) Hm. destruct (ValidMoves_accepted st pos m 0 Hr Hm) as (i & -> & Hi & Hc & Hv).
  destruct (ApplyMove_refines st pos _ Hr Hv) as (a & pos' & st' & Hd & Ha & Happ & Hr').
  { unfold proper, cell_payload. cbn [Payload]. by rewrite lookup_singleton_ne by done. }
  unfold decode in Hd. unfold cell_payload at 1 in Hd. cbn [Payload] in Hd.
  rewrite lookup_singleton_ne in Hd by done. rewrite getCell_cell in Hd by done.
  rewrite Nat2Z.id in Hd. injection Hd as <-. exists st'. split_and!.
  - unfold ApplyMove. cbn [MovePayload]. by rewrite Happ.
  - exists pos'. split; [done|]. cbn in Ha. case_decide; [|done]. by injection Ha as <-.
  - unfold rank. rewrite (rep_board _ _ Hr), (rep_board _ _ Hr').
    pose proof (act_empties _ _ _ Ha) as He. unfold empties in He. cbn in He. lia.
Qed.

#[export] Instance tictactoe_perfect : PerfectInformation NewAdapter good rank.
Proof.
  split.
  - done.
  - intros s m Hg _ Hm. by apply cell_step.
  - intros s ms src Hne. cbn. unfold RolloutPolicy, RandomRolloutPolicy.
    destruct (rand_Intn src.1 (Z.of_nat (length ms))) as [i r] eqn:Ei.
    assert (Hlen : 0 < length ms) by (destruct ms; [done|cbn; lia]).
    pose proof (rand_Intn_range src.1 (Z.of_nat (length ms)) ltac:(lia)) as Hr. rewrite Ei in Hr. cbn in Hr.
    destruct (lookup_lt_is_Some_2 ms (Z.to_nat i)) as [m Hm]; [lia|].
    exists m, (r, src.2). unfold index. rewrite Hm. split; [done|]. by eapply list_elem_of_lookup_2.
Qed.

Lemma IsOver_copy st pos : represents st pos → forfeited pos = None →
  (TicTacToe.IsOver (copy st)).1 = (TicTacToe.IsOver st).1.
Proof.
  intros Hr Hf. pose proof (IsOver_outcome st pos Hr) as H1.
  pose proof (IsOver_outcome _ pos (copy_represents st pos Hr)) as H2.
  unfold outcome in *. rewrite Hf in *.
  destruct H1 as [(p & _ & Hp & ->)|[Hn ->]], H2 as [(q & _ & Hq & ->)|[Hn' ->]]; try done.
  - by destruct (Hn' p).
  - by destruct (Hn q).
Qed.

Lemma ValidMoves_copy st pos : represents st pos → forfeited pos = None →
  ValidMoves (copy st) = ValidMoves st.
Proof.
  intros Hr Hf. unfold ValidMoves. rewrite (IsOver_copy st pos Hr Hf).
  by rewrite (rep_board _ _ Hr), (rep_board _ _ (copy_represents st pos Hr)).
Qed.

(** A running game has a free cell. *)
Lemma ValidMoves_running st pos : represents st pos → forfeited pos = None →
  (TicTacToe.IsOver st).1 = false → ValidMoves st ≠ [].
Proof.
  intros Hr Hf Ho. pose proof (IsOver_outcome st pos Hr) as H1. unfold outcome in H1. rewrite Hf in H1.
  destruct H1 as [(p & _ & _ & H1)|[_ H1]]; [by rewrite H1 in Ho|].
  assert (Hin : "" ∈ cells pos).
  { destruct (decide ("" ∈ cells pos)) as [|Hfull]; [done|]. rewrite H1, decide_True in Ho by done. done. }
  apply list_elem_of_lookup in Hin as [i Hi]. intros Hnil.
  assert (Some (cell_payload i) ∈ ValidMoves st) as Hm; [|rewrite Hnil in Hm; by apply elem_of_nil in Hm].
  unfold ValidMoves. rewrite Ho, (rep_board _ _ Hr). apply elem_of_cellMoves. eauto.
Qed.

Lemma rank_le st pos : represents st pos → rank st ≤ 9.
Proof.
  intros Hr. unfold rank. rewrite (rep_board _ _ Hr), <- (sane_length _ (rep_sane _ _ Hr)).
  apply length_filter.
Qed.

(** A bot on turn in a stored, running game of Tic-tac-toe always decides on a move,
    whatever is drawn and whenever its time is up, within nine moves per playout; and
    the game accepts the payload of that move. *)
Theorem tictactoe_bot_moves fuel bp ctx st pos src t :
  represents st pos → forfeited pos = None → (TicTacToe.IsOver st).1 = false →
  json_ok (Map (Data st)) = true → 9 ≤ fuel →
  BP_Adapter bp = NewAdapter →
  BP_Search bp = (λ ctx root pid ad cfg src, Search ad fuel ctx root pid cfg src) →
  ∃ payload, DecideMove bp ctx st src = Ok payload ∧
    TicTacToe.ValidateMove st (mkMove (CurrentPlayerID st) payload t) = Ok tt.
Proof.
  intros Hr Hf Ho Hj Hfuel Had Hse. unfold DecideMove. rewrite Hse, Had. cbv beta.
  pose proof (copy_represents st pos Hr) as Hrc.
  assert (Hclone : Clone st = Ok (copy st)) by (unfold Clone, copy, DeepCopyData; by rewrite Hj).
  pose proof (ValidMoves_copy st pos Hr Hf) as Hv. pose proof (ValidMoves_running st pos Hr Hf Ho) as Hne.
  assert (Hrank : rank (copy st) ≤ fuel) by (pose proof (rank_le _ _ Hrc); lia).
  destruct (Search_progress NewAdapter good rank fuel ctx st (copy st) (BP_ID bp) (BP_Config bp) src
    Hclone (ex_intro _ pos (conj Hrc Hf)) Hv Hne Hrank) as [m Hm].
  pose proof (Search_legal NewAdapter fuel ctx st (BP_ID bp) (BP_Config bp) src m Hm) as Hin.
  destruct (ValidMoves_accepted st pos m t Hr Hin) as (i & -> & _ & _ & Hacc).
  exists (cell_payload i). rewrite Hm. done.
Qed.

End Play.

(** ** A bot opens a game *)

Section Opening.
Import TicTacToeBot.

Definition counting_Rand : Rand.
Proof.
  refine (Build_Rand Z (λ r n, (r mod n, r + 1)%Z) (λ r, (f_dec 5 1, r)) _).
  intros r n Hn. by apply Z.mod_pos_bound.
Defined.

Definition counting_Entropy : Entropy.
Proof.
  refine (Build_Entropy Z (λ e n, (Some (e mod n), e + 1)%Z) _).
  intros e n v Hn [= <-]. by apply Z.mod_pos_bound.
Defined.

#[local] Existing Instance counting_Rand.
#[local] Existing Instance counting_Entropy.
#[local] Instance identity_Log : MathLog := Build_MathLog (λ x, x).

Definition empty_game : GameState :=
  mkState "x" (<["board" := Arr9 TicTacToe.emptyBoard]>
    (<["marks" := MapStr (<["o" := "O"]> {["x" := "X"]})]> {["players" := Strs ["x"; "o"]]})).

Lemma empty_game_represents : represents empty_game (start "x" "o").
Proof. split; try done; [by eexists|by apply start_sane]. Qed.

Definition never : context := λ _, false.

Definition quick : BotConfig := mkBotConfig 12 1 0 (f_dec 141 2) zeroProfile.

Definition bot_x : BotPlayer :=
  mkBotPlayer "x" "tictactoe" NewAdapter quick (λ ctx root pid ad cfg src, Search ad 9 ctx root pid cfg src).

Definition seeds : sources := (7%Z, 0%Z).

Lemma empty_game_json : json_ok (Map (Data empty_game)) = true.
Proof. reflexivity. Qed.

Lemma Search_spec_witness :
  ∃ m, Search NewAdapter 9 never empty_game "x" quick seeds = Ok m ∧ m ∈ ValidMoves empty_game.
Proof.
  assert (Hok : is_ok (Search NewAdapter 9 never empty_game "x" quick seeds) = true) by (vm_compute; reflexivity).
  destruct (Search NewAdapter 9 never empty_game "x" quick seeds) as [m|e] eqn:Hm; [|discriminate].
  exists m. split; [reflexivity|]. apply (Search_spec NewAdapter 9 never empty_game "x" quick seeds m Hm).
Defined.

Lemma Search_total_witness : ∃ m, Search NewAdapter 9 never empty_game "x" quick seeds = Ok m.
Proof.
  apply (Search_total NewAdapter good rank 9 never empty_game (reload empty_game) "x" quick seeds).
  - reflexivity.
  - exists (start "x" "o"). split; [|reflexivity]. apply (copy_represents _ _ empty_game_represents).
  - apply (ValidMoves_copy _ _ empty_game_represents). reflexivity.
  - apply (ValidMoves_running _ _ empty_game_represents); reflexivity.
  - vm_compute. lia.
Defined.

Lemma tictactoe_bot_moves_witness :
  ∃ payload, DecideMove bot_x never empty_game seeds = Ok payload ∧
    TicTacToe.ValidateMove empty_game (mkMove (CurrentPlayerID empty_game) payload 0) = Ok tt.
Proof.
  apply (tictactoe_bot_moves 9 bot_x never empty_game (start "x" "o") seeds 0 empty_game_represents
    eq_refl eq_refl empty_game_json); [lia|reflexivity|reflexivity].
Defined.

End Opening.
