(* ===== verification/RootAccessBot.v ===== *)
(** The bot adapter of Root Access (services/game-server/games/rootaccess/adapter.go):
    determinization of the hidden cards, move generation, evaluation and the policy of
    the playouts. *)
From S2P Require Import Prelude Json Float64 Engine Randutil Bot Mcts RootAccess.
Import Float64 Bot.

Module RootAccessBot.
Import RootAccess.

Section Adapter.
Context `{P : PRNG} `{R : Rand} `{E : Entropy}.

(** ** Determinization *)

Definition isEliminated (playerID : string) (eliminated : list string) : bool :=
  bool_decide (playerID ∈ eliminated).

Definition isProtected (playerID : string) (protected : list string) : bool :=
  bool_decide (playerID ∈ protected).

(** What the player can see; the piles come in the order of the map. *)
Definition collectVisible (s : GameState) (playerID : string) : list string :=
  handOf (getHands (Data s)) playerID
  ++ concat (map_to_list (getDiscardPiles (Data s))).*2
  ++ getStringSlice (Data s) "set_aside_visible"
  ++ (if decide (CurrentPlayerID s = playerID) then getStringSlice (Data s) "debugger_choices" else []).

(** [counts[c]] of a map of ints. *)
Definition count (counts : gmap string Z) (c : string) : Z := default 0%Z (counts !! c).

Definition countUp (counts : gmap string Z) (c : string) : gmap string Z :=
  <[c := (count counts c + 1)%Z]> counts.

Definition countDown (counts : gmap string Z) (c : string) : gmap string Z :=
  if (0 <? count counts c)%Z then <[c := (count counts c - 1)%Z]> counts else counts.

Fixpoint takeCounted (counts : gmap string Z) (cards : list string) : list string :=
  match cards with
  | [] => []
  | c :: cards =>
      if (0 <? count counts c)%Z
      then c :: takeCounted (<[c := (count counts c - 1)%Z]> counts) cards
      else takeCounted counts cards
  end.

Definition buildUnknownPool (visible : list string) : list string :=
  takeCounted (foldl countDown (foldl countUp ∅ deckComposition) visible) deckComposition.

(** One card for every other player who is not eliminated, until the pool is empty. *)
Fixpoint dealOpponents (players : list string) (playerID : string) (eliminated : list string)
    (hands : gmap string (list string)) (pool : list string)
    : gmap string (list string) * list string :=
  match players with
  | [] => (hands, pool)
  | pid :: players =>
      if decide (pid = playerID) then dealOpponents players playerID eliminated hands pool
      else if isEliminated pid eliminated then dealOpponents players playerID eliminated hands pool
      else
        match pool with
        | [] => (hands, pool)
        | c :: pool => dealOpponents players playerID eliminated (<[pid := [c]]> hands) pool
        end
  end.

Definition Determinize (state : GameState) (playerID : string) (src : sources)
    : result gerror GameState * sources :=
  let pool := buildUnknownPool (collectVisible state playerID) in
  let '(shuffled, e) := Shuffle pool src.2 in
  let pool := match shuffled with Ok l => l | Err _ => pool end in
  (cs ← Clone state;
   let players := getStringSlice (Data cs) "players" in
   let eliminated := getStringSlice (Data cs) "eliminated" in
   let '(hands, pool) := dealOpponents players playerID eliminated (getHands (Data cs)) pool in
   Ok (setData "deck" (Strs pool) (setData "hands" (handsToAny hands) cs)),
   (src.1, e)).

(** ** Moves *)

(** A move, or the empty text when the payload cannot be written. *)
Definition makeMove (payload : data) : BotMove :=
  match MoveFromPayload payload with Ok m => m | Err _ => None end.

Definition makeMoveNoTarget (card : string) : BotMove := makeMove {["card" := Str card]}.

Definition makeMoveWithTarget (card target : string) : BotMove :=
  makeMove (<["target_player_id" := Str target]> {["card" := Str card]}).

Definition makeGuardMove (target guess : string) : BotMove :=
  makeMove (<["guess" := Str guess]>
    (<["target_player_id" := Str target]> {["card" := Str CardPing]})).

(** The players that can be targeted. *)
Definition targetsOf (s : GameState) : list string :=
  let playerID := CurrentPlayerID s in
  let eliminated := getStringSlice (Data s) "eliminated" in
  let protected := getStringSlice (Data s) "protected" in
  filter (λ pid, pid ≠ playerID ∧ isEliminated pid eliminated = false ∧ isProtected pid protected = false)
    (getStringSlice (Data s) "players").

(** The moves with one card of the hand. *)
Definition cardMoves (playerID : string) (targets : list string) (c : string) : list BotMove :=
  if decide (c = CardPing) then
    match targets with
    | [] => [makeMoveNoTarget c]
    | _ => t ← targets; guess ← allNonPingCards; [makeGuardMove t guess]
    end
  else if decide (c ∈ [CardSniffer; CardBufferOverflow; CardSwap]) then
    match targets with
    | [] => [makeMoveNoTarget c]
    | _ => makeMoveWithTarget c <$> targets
    end
  else if decide (c = CardReboot) then makeMoveWithTarget c <$> (playerID :: targets)
  else [makeMoveNoTarget c].

Definition mustPlayEncryptedKey (hand : list string) : bool :=
  containsCard hand CardEncryptedKey && (containsCard hand CardSwap || containsCard hand CardReboot).

Definition standardMoves (s : GameState) : list BotMove :=
  let playerID := CurrentPlayerID s in
  let hand := handOf (getHands (Data s)) playerID in
  let moves := card ← hand;
    if mustPlayEncryptedKey hand && bool_decide (card ≠ CardEncryptedKey) then []
    else cardMoves playerID (targetsOf s) card in
  match moves, hand with
  | [], c :: _ => [makeMoveNoTarget c]
  | _, _ => moves
  end.

(** The move that keeps the [i]th choice and returns the others. *)
Definition resolveMove (choices : list string) (i : nat) (keep : string) : option BotMove :=
  match MoveFromPayload (<["return" := Strs (delete i choices)]>
          (<["keep" := Str keep]> {["card" := Str "debugger_resolve"]})) with
  | Ok m => Some m
  | Err _ => None
  end.

Definition debuggerResolveMoves (s : GameState) : list BotMove :=
  let choices := getStringSlice (Data s) "debugger_choices" in
  if decide (length choices ≠ 3) then [] else omap id (imap (resolveMove choices) choices).

Definition ValidMoves (s : GameState) : list BotMove :=
  let phase := getString (Data s) "phase" in
  if decide (phase = phaseDebuggerPending) then debuggerResolveMoves s
  else if decide (phase = phasePlaying) then standardMoves s
  else [].

(** An error leaves the state as it was; a panic is not caught. *)
Definition ApplyMove (s : GameState) (m : BotMove) : result gerror GameState :=
  match MovePayload m with
  | Err _ => Ok s
  | Ok payload =>
      match RootAccess.ApplyMove s (mkMove (CurrentPlayerID s) payload 0) with
      | Ok s' => Ok s'
      | Err e => if is_panic e then Err e else Ok s
      end
  end.

Definition IsTerminal (s : GameState) : bool :=
  bool_decide (getString (Data s) "phase" = phaseGameOver).

(** ** Evaluation *)

Definition Result (s : GameState) (pid : string) : f64 :=
  let target := f_of_Z (tokensToWin (Z.of_nat (length (getStringSlice (Data s) "players")))) in
  let tokens := getTokens (Data s) in
  if decide (getString (Data s) "phase" = phaseGameOver) then
    let winner := getString (Data s) "game_winner_id" in
    if decide (winner = "") then f_dec 5 1
    else if decide (winner = pid) then f_dec 10 1 else f_dec 0 1
  else
    let tokenResult := fmul (fdiv (f_of_Z (count tokens pid)) target) (f_dec 7 1) in
    if isEliminated pid (getStringSlice (Data s) "eliminated") then tokenResult
    else
      let score := fadd tokenResult (f_dec 1 1) in
      match handOf (getHands (Data s)) pid with
      | [] => score
      | hand =>
          let maxVal := foldl (λ m c, if (m <? cardValue c)%Z then cardValue c else m) 0%Z hand in
          fadd score (fmul (fdiv (f_of_Z maxVal) (f_dec 90 1)) (f_dec 2 1))
      end.

(** ** Playouts *)

Definition rolloutEpsilon : f64 := f_dec 3 1.

Definition scoreMove (personality : PersonalityProfile) (m : BotMove) : f64 :=
  match MovePayload m with
  | Err _ => f_of_Z 0
  | Ok payload =>
      let card := match payload !! "card" with Some (Str s) => s | _ => "" end in
      let score := f_dec 5 1 in
      let score := match payload !! "target_player_id" with
                   | Some _ => fadd score (fmul (f_dec 5 1) (Aggressiveness personality))
                   | None => fsub score (fmul (f_dec 3 1) (Aggressiveness personality))
                   end in
      if decide (card = CardFirewall) then fadd score (fmul (f_dec 4 1) (RiskAversion personality))
      else if decide (card = CardEncryptedKey) then fsub score (fmul (f_dec 4 1) (RiskAversion personality))
      else score
  end.

(** The first move with the highest score. *)
Definition bestMove (personality : PersonalityProfile) (m : BotMove) (moves : list BotMove) : BotMove :=
  (foldl (λ '(best, bestScore) m,
     let s := scoreMove personality m in if flt bestScore s then (m, s) else (best, bestScore))
   (m, scoreMove personality m) moves).1.

Definition is_zero (f : f64) : bool :=
  match SpecFloat.SFcompare f (f_of_Z 0) with Some Eq => true | _ => false end.

Definition RolloutPolicy (personality : PersonalityProfile) (s : GameState) (moves : list BotMove)
    (src : sources) : result gerror BotMove * sources :=
  if is_zero (Aggressiveness personality) && is_zero (RiskAversion personality)
  then Mcts.RandomRolloutPolicy s moves src
  else
    let '(f, r) := rand_Float64 src.1 in
    if flt f rolloutEpsilon then Mcts.RandomRolloutPolicy s moves (r, src.2)
    else
      match moves with
      | [] => (Err index_out_of_range, (r, src.2))
      | m :: moves => (Ok (bestMove personality m moves), (r, src.2))
      end.

Definition NewWithProfile (profile : PersonalityProfile) : BotAdapter :=
  mkAdapter ValidMoves ApplyMove IsTerminal Result (λ s, CurrentPlayerID s) Determinize
    (RolloutPolicy profile).

Definition New : BotAdapter := NewWithProfile zeroProfile.

End Adapter.
End RootAccessBot.
