(* ===== verification/RootAccessBotSpec.v ===== *)
(** What the bot adapter of Root Access keeps: every move it offers is legal and fair,
    and it offers one whenever the game waits for a playable decision. *)
From S2P Require Import Prelude Json Float64 Engine Randutil Bot Mcts MctsSpec RootAccess.
From S2P Require Import RootAccessFacts RootAccessInv RootAccessMoves RootAccessCodec.
From S2P Require Import RootAccessTyped.
From S2P Require Import RootAccessPlay RootAccessGame RootAccessSpec RootAccessFindings RootAccessBot.
From S2P Require Import TicTacToeBot.
Import Bot RootAccess RootAccessBot.

(** ** The payloads of the moves *)

Lemma makeMove_strings (p : data) :
  json_ok (Map p) = true → makeMove p = Some (json_rt <$> p).
Proof. intros H. unfold makeMove, MoveFromPayload. by rewrite H. Qed.

Lemma makeMoveNoTarget_eq c : makeMoveNoTarget c = Some {["card" := Str c]}.
Proof.
  unfold makeMoveNoTarget. rewrite makeMove_strings, map_fmap_singleton; [done|].
  apply json_ok_map. intros k v [<- <-]%lookup_singleton_Some. done.
Qed.

Lemma makeMoveWithTarget_eq c t :
  makeMoveWithTarget c t = Some (<["target_player_id" := Str t]> {["card" := Str c]}).
Proof.
  unfold makeMoveWithTarget. rewrite makeMove_strings, fmap_insert, map_fmap_singleton; [done|].
  apply json_ok_map, map_Forall_insert_2; [done|].
  intros k v [<- <-]%lookup_singleton_Some. done.
Qed.

Lemma makeGuardMove_eq t g :
  makeGuardMove t g = Some (<["guess" := Str g]>
    (<["target_player_id" := Str t]> {["card" := Str CardPing]})).
Proof.
  unfold makeGuardMove. rewrite makeMove_strings, !fmap_insert, map_fmap_singleton; [done|].
  apply json_ok_map. do 2 (apply map_Forall_insert_2; [done|]).
  intros k v [<- <-]%lookup_singleton_Some. done.
Qed.

Lemma resolveMove_eq ch i k :
  resolveMove ch i k = Some (Some (<["return" := Slice (Str <$> delete i ch)]>
    (<["keep" := Str k]> {["card" := Str "debugger_resolve"]}))).
Proof.
  unfold resolveMove, MoveFromPayload.
  assert (json_ok (Map (<["return" := Strs (delete i ch)]>
    (<["keep" := Str k]> {["card" := Str "debugger_resolve"]}))) = true) as ->.
  { apply json_ok_map. do 2 (apply map_Forall_insert_2; [done|]).
    intros x v [<- <-]%lookup_singleton_Some. done. }
  by rewrite !fmap_insert, map_fmap_singleton.
Qed.

Section Contract.
Implicit Types (st : GameState) (m : Move).

(** ** The contract *)

Lemma targetsOf_spec st t : t ∈ targetsOf st ↔ targetable st (CurrentPlayerID st) t.
Proof.
  unfold targetsOf, targetable. rewrite list_elem_of_filter, active_spec.
  unfold isEliminated, isProtected. rewrite !bool_decide_eq_false.
  unfold players, elim, prot. tauto.
Qed.

(** A move that is accepted, is not the penalty, and keeps the cards together. *)
Definition acceptable st (p : data) : Prop :=
  ∀ t, let m := mkMove (CurrentPlayerID st) p t in
    ValidateMove st m = Ok tt ∧ card_of m ≠ CardPenaltyLose ∧ fair st m.

Lemma mustPlay_true h : CardEncryptedKey ∈ h → CardSwap ∈ h ∨ CardReboot ∈ h → mustPlayEncryptedKey h = true.
Proof.
  intros Hk Hs. unfold mustPlayEncryptedKey, containsCard. rewrite (bool_decide_eq_true_2 _ Hk). cbn.
  apply orb_true_iff. rewrite !bool_decide_eq_true. done.
Qed.

Lemma cardMoves_acceptable st c bm :
  live st → phase st = phasePlaying → c ∈ hand st (CurrentPlayerID st) →
  (mustPlayEncryptedKey (hand st (CurrentPlayerID st)) = true → c = CardEncryptedKey) →
  bm ∈ cardMoves (CurrentPlayerID st) (targetsOf st) c →
  ∃ p, bm = Some p ∧ acceptable st p.
Proof.
  intros Hl Hph Hc Hkey Hbm. pose proof (proj1 (active_spec _ _) (live_cur _ Hl)) as [Hcp Hce].
  pose proof (card_in_deck st _ c (live_cards _ Hl) Hcp Hc) as Hd.
  assert (Hpen : c ∉ [CardPenaltyLose; ""]).
  { intros Hx. rewrite !elem_of_cons, elem_of_nil in Hx.
    destruct Hx as [->|[->|[]]]; revert Hd; apply (bool_decide_unpack _); vm_compute; exact I. }
  assert (Hgoal : ∀ p, getCardFromPayload p "card" = c →
    (c ∈ [CardPing; CardSniffer; CardBufferOverflow; CardSwap] →
      getStringFromPayload p "target_player_id" = "" ∨
      targetable st (CurrentPlayerID st) (getStringFromPayload p "target_player_id")) →
    (c = CardReboot → getStringFromPayload p "target_player_id" = "" ∨
      getStringFromPayload p "target_player_id" = CurrentPlayerID st ∨
      targetable st (CurrentPlayerID st) (getStringFromPayload p "target_player_id")) →
    (c = CardPing → getStringFromPayload p "target_player_id" ≠ "" →
      getCardFromPayload p "guess" ∈ allNonPingCards) →
    acceptable st p).
  { intros p Hpc Ht Hr Hg t m. assert (Em : card_of m = c) by exact Hpc.
    split; [apply ValidateMove_standard; rewrite ?Em; try done; intros; by apply Hkey, mustPlay_true|].
    rewrite Em. split; [intros ->; apply Hpen; by left|]. unfold fair. rewrite Em.
    rewrite decide_False by (intros ->; apply Hpen; by left). by rewrite Hph. }
  assert (Hno : (c ∈ [CardPing; CardSniffer; CardBufferOverflow; CardSwap] → True) →
    acceptable st {["card" := Str c]}).
  { intros _. apply Hgoal; try (left; unfold getStringFromPayload; by rewrite lookup_singleton_ne).
    - unfold getCardFromPayload. by rewrite lookup_singleton_eq.
    - intros _ []. unfold getStringFromPayload. by rewrite lookup_singleton_ne. }
  assert (Hto : ∀ t, c ≠ CardPing →
    (targetable st (CurrentPlayerID st) t ∨ c = CardReboot ∧ t = CurrentPlayerID st) →
    acceptable st (<["target_player_id" := Str t]> {["card" := Str c]})).
  { intros t Hnp Ht. apply Hgoal; unfold getStringFromPayload, getCardFromPayload; rewrite ?lookup_insert_eq.
    - by rewrite lookup_insert_ne, lookup_singleton_eq by done.
    - intros Hx. destruct Ht as [Ht|[-> _]]; [by right|]. exfalso. revert Hx.
      apply (bool_decide_unpack _). vm_compute. exact I.
    - intros _. tauto.
    - done. }
  unfold cardMoves in Hbm. destruct (decide (c = CardPing)) as [Ep|Ep];
    [|destruct (decide (c ∈ [CardSniffer; CardBufferOverflow; CardSwap])) as [Et|Et];
      [|destruct (decide (c = CardReboot)) as [Er|Er]]].
  - destruct (targetsOf st) as [|t0 ts] eqn:Ets.
    { apply list_elem_of_singleton in Hbm as ->. exists {["card" := Str c]}.
      rewrite makeMoveNoTarget_eq. auto. }
    apply list_elem_of_bind in Hbm as (t & Hbm & Ht). apply list_elem_of_bind in Hbm as (g & Hbm & Hg).
    apply list_elem_of_singleton in Hbm as ->. rewrite makeGuardMove_eq. eexists. split; [done|].
    rewrite <- Ets, targetsOf_spec in Ht.
    apply Hgoal; unfold getStringFromPayload, getCardFromPayload.
    + rewrite !lookup_insert_ne, lookup_singleton_eq by done. done.
    + intros _. rewrite lookup_insert_ne, lookup_insert_eq by done. by right.
    + by rewrite Ep.
    + intros _ _. by rewrite lookup_insert_eq.
  - destruct (targetsOf st) as [|t0 ts] eqn:Ets.
    { apply list_elem_of_singleton in Hbm as ->. exists {["card" := Str c]}.
      rewrite makeMoveNoTarget_eq. auto. }
    apply list_elem_of_fmap in Hbm as (t & -> & Ht). rewrite <- Ets, targetsOf_spec in Ht.
    rewrite makeMoveWithTarget_eq. eexists. split; [done|]. apply Hto; [done|by left].
  - apply list_elem_of_fmap in Hbm as (t & -> & Ht). rewrite elem_of_cons, targetsOf_spec in Ht.
    rewrite makeMoveWithTarget_eq. eexists. split; [done|]. apply Hto; [done|tauto].
  - apply list_elem_of_singleton in Hbm as ->. rewrite makeMoveNoTarget_eq. eauto.
Qed.

Lemma cardMoves_ne p ts c : cardMoves p ts c ≠ [].
Proof.
  unfold cardMoves. destruct (decide (c = CardPing)); [|case_decide; [|by case_decide]]; by destruct ts.
Qed.

Lemma bind_ne {A B} (f : A → list B) l x : x ∈ l → f x ≠ [] → l ≫= f ≠ [].
Proof.
  intros Hx Hf. apply list_elem_of_split in Hx as (l1 & l2 & ->). rewrite bind_app. cbn.
  intros [_ H]%app_eq_nil. apply app_eq_nil in H as [H _]. done.
Qed.

Lemma standardMoves_acceptable st bm : live st → phase st = phasePlaying →
  bm ∈ standardMoves st → ∃ p, bm = Some p ∧ acceptable st p.
Proof.
  intros Hl Hph. unfold standardMoves. fold (hand st (CurrentPlayerID st)).
  set (h := hand st (CurrentPlayerID st)). set (moves := _ ≫= _).
  assert (Hmoves : ∀ x, x ∈ moves → ∃ p, x = Some p ∧ acceptable st p).
  { intros x (c & Hx & Hc)%list_elem_of_bind.
    destruct (mustPlayEncryptedKey h && bool_decide (c ≠ CardEncryptedKey)) eqn:Hk; [by apply elem_of_nil in Hx|].
    apply (cardMoves_acceptable st c); try done. fold h. intros Hm. rewrite Hm in Hk. cbn in Hk.
    apply bool_decide_eq_false in Hk. by destruct (decide (c = CardEncryptedKey)). }
  destruct moves as [|x xs] eqn:Em; [|intros; by apply Hmoves].
  destruct h as [|c h'] eqn:Eh; [by intros ?%elem_of_nil|]. exfalso. revert Em.
  unfold moves. destruct (mustPlayEncryptedKey (c :: h')) eqn:Hk.
  - apply (bind_ne _ _ CardEncryptedKey).
    + unfold mustPlayEncryptedKey, containsCard in Hk. apply andb_true_iff in Hk as [Hk _].
      by apply bool_decide_eq_true in Hk.
    + rewrite bool_decide_eq_false_2 by (intros Hx; by apply Hx). apply cardMoves_ne.
  - apply (bind_ne _ _ c); [by left|apply cardMoves_ne].
Qed.

Lemma standardMoves_ne st : hand st (CurrentPlayerID st) ≠ [] → standardMoves st ≠ [].
Proof.
  intros Hh. unfold standardMoves. fold (hand st (CurrentPlayerID st)).
  destruct (hand st (CurrentPlayerID st)) as [|c h]; [done|]. by destruct (_ ≫= _).
Qed.

Lemma choice_in_deck st c : conserved st → phase st = phaseDebuggerPending → c ∈ choices st →
  c ∈ deckComposition.
Proof.
  intros Hc Hph Hin. destruct (decide (c ∈ deckComposition)) as [|Hn]; [done|].
  apply occ_not_elem in Hn. rewrite <- Hc in Hn. unfold total in Hn. rewrite decide_True in Hn by done.
  apply list_elem_of_split in Hin as (h1 & h2 & Hh). rewrite Hh, occ_app, occ_cons in Hn.
  rewrite decide_True in Hn by done. lia.
Qed.

Lemma elem_of_resolveMoves st bm : bm ∈ debuggerResolveMoves st ↔
  length (choices st) = 3 ∧ ∃ i k, choices st !! i = Some k ∧ resolveMove (choices st) i k = Some bm.
Proof.
  unfold debuggerResolveMoves. fold (choices st). case_decide as Hc.
  { split; [by intros ?%elem_of_nil|]. intros [? _]. done. }
  rewrite list_elem_of_omap. split.
  - intros (o & Ho & Hid). cbn in Hid. subst o. split; [lia|].
    apply list_elem_of_lookup in Ho as [i Hi]. rewrite list_lookup_imap in Hi.
    apply fmap_Some in Hi as (k & Hk & Ho). eauto.
  - intros (_ & i & k & Hk & Hm). exists (Some bm). split; [|done].
    apply list_elem_of_lookup. exists i. rewrite list_lookup_imap, Hk. cbn. by rewrite Hm.
Qed.

Lemma resolveMoves_acceptable st bm : live st → phase st = phaseDebuggerPending →
  bm ∈ debuggerResolveMoves st → ∃ p, bm = Some p ∧ acceptable st p.
Proof.
  intros Hl Hph (Hlen & i & k & Hk & Hm)%elem_of_resolveMoves.
  pose proof (proj1 (active_spec _ _) (live_cur _ Hl)) as [_ Hce].
  assert (Hkin : k ∈ choices st) by by eapply list_elem_of_lookup_2.
  assert (Hkne : k ≠ "").
  { intros ->. pose proof (choice_in_deck st "" (live_cards _ Hl) Hph Hkin) as Hd. revert Hd.
    apply (bool_decide_unpack _). vm_compute. exact I. }
  rewrite resolveMove_eq in Hm. injection Hm as <-. eexists. split; [done|]. intros t m.
  assert (Ec : card_of m = "debugger_resolve").
  { unfold card_of, getCardFromPayload. cbn [Payload m].
    rewrite !lookup_insert_ne, lookup_singleton_eq by done. done. }
  assert (Ek : keep_of m = k).
  { unfold keep_of, getCardFromPayload. cbn [Payload m]. by rewrite lookup_insert_ne, lookup_insert_eq by done. }
  assert (Er : return_of m = delete i (choices st)).
  { unfold return_of, getCardSliceFromPayload. cbn [Payload m]. rewrite lookup_insert_eq. apply stringItems_Str. }
  assert (Hperm : k :: delete i (choices st) ≡ₚ choices st) by (symmetry; by apply delete_Permutation).
  split_and!.
  - unfold ValidateMove. fold (card_of m) (phase st) (elim st). rewrite Ec, Hph.
    rewrite !decide_False by (done || tauto). rewrite decide_True by done.
    unfold validateDebuggerResolve. fold (card_of m) (keep_of m) (return_of m) (choices st). cbv zeta.
    rewrite Ec, Ek, Er. rewrite !decide_False; [|lia| |done|tauto].
    + destruct (list_find _ _) as [[j c]|] eqn:Hf; [|done].
      apply list_find_Some in Hf as (Hj & Hc & _). apply list_elem_of_lookup_2 in Hj.
      rewrite Hperm in Hj. unfold containsString in Hc. by apply bool_decide_eq_false in Hc.
    + rewrite length_delete by by exists k. lia.
  - by rewrite Ec.
  - unfold fair. rewrite Ec, decide_False by done. intros _. by rewrite Ek, Er.
Qed.

Lemma ValidMoves_acceptable st bm : live st → bm ∈ ValidMoves st → ∃ p, bm = Some p ∧ acceptable st p.
Proof.
  intros Hl. unfold ValidMoves. fold (phase st). case_decide; [by apply resolveMoves_acceptable|].
  case_decide; [by apply standardMoves_acceptable|by intros ?%elem_of_nil].
Qed.

(** C39 In every state of a game in which a player is to move, each move the bot adapter
    offers is accepted by the game, is not the penalty and returns exactly the cards of
    the Debugger; and it offers none only when the Debugger found fewer than three
    cards to choose from. So whatever a search over it decides is accepted. *)
Theorem rootaccess_bot_moves `{P : PRNG} `{R : Rand} `{E : Entropy} `{L : Mcts.MathLog} st :
  live st →
  (∀ bm, bm ∈ ValidMoves st → ∃ p, bm = Some p ∧ acceptable st p) ∧
  (ValidMoves st = [] ↔ phase st = phaseDebuggerPending ∧ length (choices st) ≠ 3) ∧
  (∀ profile fuel ctx pid cfg src bm,
    Mcts.Search (NewWithProfile profile) fuel ctx st pid cfg src = Ok bm →
    ∃ p, bm = Some p ∧ acceptable st p).
Proof.
  intros Hl. split_and!.
  - intros bm. by apply ValidMoves_acceptable.
  - unfold ValidMoves. fold (phase st). destruct (live_phase _ Hl) as [[Hph H2]|[Hph _]].
    + rewrite Hph. rewrite decide_False, decide_True by done. split; [|by intros [? _]].
      intros Hx. exfalso. revert Hx. apply standardMoves_ne. by destruct (hand st (CurrentPlayerID st)).
    + rewrite Hph, decide_True by done. split.
      * intros Hx. split; [done|]. intros H3. destruct (choices st) as [|k ks] eqn:Ech; [done|].
        assert (Hin : Some (<["return" := Slice (Str <$> delete 0 (choices st))]>
          (<["keep" := Str k]> {["card" := Str "debugger_resolve"]})) ∈ debuggerResolveMoves st).
        { apply elem_of_resolveMoves. rewrite Ech. split; [done|]. exists 0, k. by rewrite resolveMove_eq. }
        rewrite Hx in Hin. by apply elem_of_nil in Hin.
      * intros [_ H3]. unfold debuggerResolveMoves. fold (choices st). by rewrite decide_True.
  - intros profile fuel ctx pid cfg src bm Hs. apply ValidMoves_acceptable; [done|].
    by apply (Search_legal (NewWithProfile profile) fuel ctx st pid cfg src).
Qed.
(** ** A bot that sees its own cards only *)

(** The view a server sends to the player who is to move, as the player reads it. *)
Definition own_view st : GameState := reload (FilterState st (CurrentPlayerID st)).

Lemma ValidMoves_ext st st' :
  CurrentPlayerID st' = CurrentPlayerID st → phase st' = phase st →
  (∀ k, k ∈ ["players"; "eliminated"; "protected"; "debugger_choices"] →
    getStringSlice (Data st') k = getStringSlice (Data st) k) →
  hand st' (CurrentPlayerID st) = hand st (CurrentPlayerID st) →
  ValidMoves st' = ValidMoves st.
Proof.
  intros Hc Hp Hs Hh. unfold ValidMoves, debuggerResolveMoves, standardMoves, targetsOf.
  fold (phase st') (phase st) (hand st' (CurrentPlayerID st')) (hand st (CurrentPlayerID st)).
  rewrite Hp, Hc, Hh, !Hs by (rewrite !elem_of_cons; tauto). done.
Qed.

Lemma FilterState_cur st p : CurrentPlayerID (FilterState st p) = CurrentPlayerID st.
Proof.
  unfold FilterState. destruct (decide (p = "")); destruct (decide _);
    destruct (Data st !! "private_reveals") as [[]|]; cbn; try done; by destruct (_ !! p).
Qed.

(** The player who is to move is shown every entry but the hands of the others, and at most
    its own reveal. *)
Lemma FilterState_own st : CurrentPlayerID st ≠ "" →
  let p := CurrentPlayerID st in
  let v := setData "hands" (handsToAny
    (map_imap (λ id h, Some (if decide (id = p) then h else [])) (getHands (Data st)))) st in
  FilterState st p = v ∨ FilterState st p = delData "private_reveals" v ∨
  ∃ reveals r, Data st !! "private_reveals" = Some (Map reveals) ∧ reveals !! p = Some r ∧
    FilterState st p = setData "private_reveals" (Map {[p := r]}) v.
Proof.
  intros Hne. cbv zeta. unfold FilterState. rewrite !(decide_False (P := CurrentPlayerID st = "")) by done.
  rewrite (decide_False (P := _ ∨ _)) by tauto. destruct st as [p d]. cbn.
  destruct (d !! "private_reveals") as [[]|] eqn:E; auto. case_match; eauto 10.
Qed.

Lemma FilterState_kept st k : CurrentPlayerID st ≠ "" → k ≠ "hands" → k ≠ "private_reveals" →
  Data (FilterState st (CurrentPlayerID st)) !! k = Data st !! k.
Proof.
  intros Hne Hk Hr. destruct (FilterState_own st Hne) as [->|[->|(rs & r & _ & _ & ->)]]; cbn;
    rewrite ?lookup_delete_ne, ?lookup_insert_ne by done; try done; by rewrite lookup_insert_ne.
Qed.

Lemma getHands_eq d d' : d' !! "hands" = d !! "hands" → getHands d' = getHands d.
Proof. intros H. unfold getHands. by rewrite H. Qed.

Lemma FilterState_hand st : CurrentPlayerID st ≠ "" →
  hand (FilterState st (CurrentPlayerID st)) (CurrentPlayerID st) = hand st (CurrentPlayerID st).
Proof.
  intros Hne. transitivity (handOf (map_imap (λ id h, Some (if decide (id = CurrentPlayerID st) then h else []))
    (getHands (Data st))) (CurrentPlayerID st)).
  - unfold hand. f_equal. rewrite <- (getHands_insert (Data st)). apply getHands_eq.
    destruct (FilterState_own st Hne) as [->|[->|(rs & r & _ & _ & ->)]]; cbn; [done| |];
      by rewrite ?lookup_delete_ne, ?(lookup_insert_ne _ "private_reveals") by done.
  - unfold hand, handOf. rewrite map_lookup_imap. destruct (getHands (Data st) !! CurrentPlayerID st); [|done].
    cbn. by rewrite decide_True.
Qed.

(** What the codec demands of a state holds of the view. *)
Lemma FilterState_entries (Q : any → Prop) st : CurrentPlayerID st ≠ "" →
  (∀ h, Q (handsToAny h)) → (∀ (m : data) p r, m !! p = Some r → Q (Map m) → Q (Map {[p := r]})) →
  map_Forall (λ _ v, Q v) (Data st) → map_Forall (λ _ v, Q v) (Data (FilterState st (CurrentPlayerID st))).
Proof.
  intros Hne Hh Hm Hd.
  destruct (FilterState_own st Hne) as [->|[->|(rs & r & Hrs & Hr & ->)]]; cbn.
  - by apply map_Forall_insert_2.
  - by apply map_Forall_delete, map_Forall_insert_2.
  - apply map_Forall_insert_2; [|by apply map_Forall_insert_2]. apply (Hm rs); [done|]. by apply (Hd "private_reveals").
Qed.

Lemma typed_FilterState st : CurrentPlayerID st ≠ "" → typed (Data st) →
  typed (Data (FilterState st (CurrentPlayerID st))).
Proof.
  intros Hne. apply FilterState_entries; [done|apply slot_ok_hands|].
  intros m p r Hr Hm. apply slot_ok_map. apply slot_ok_map in Hm.
  intros k v [<- <-]%lookup_singleton_Some. by apply (Hm p).
Qed.

Lemma json_ok_FilterState st : CurrentPlayerID st ≠ "" → json_ok (Map (Data st)) = true →
  json_ok (Map (Data (FilterState st (CurrentPlayerID st)))) = true.
Proof.
  intros Hne Hj. apply json_ok_map. apply json_ok_map in Hj. revert Hj. apply (FilterState_entries (λ v, json_ok v = true)); [done| |].
  - intros h. apply json_ok_map. intros k v Hv. rewrite lookup_fmap in Hv. by apply fmap_Some in Hv as (l & _ & ->).
  - intros m p r Hr Hm. apply json_ok_map. intros k v [<- <-]%lookup_singleton_Some.
    by apply (proj1 (json_ok_map m) Hm p).
Qed.

(** The moves of a player are the same in its view. *)
Lemma ValidMoves_own_view st : CurrentPlayerID st ≠ "" → typed (Data st) → json_ok (Map (Data st)) = true →
  ValidMoves (own_view st) = ValidMoves st.
Proof.
  intros Hne Ht Hj. unfold own_view. set (v := FilterState st (CurrentPlayerID st)).
  assert (typed (Data v)) as Hv by by apply typed_FilterState.
  assert (CurrentPlayerID v = CurrentPlayerID st) as Hc by apply FilterState_cur.
  assert (∀ k, k ≠ "hands" → k ≠ "private_reveals" → Data v !! k = Data st !! k) as Hk
    by (intros; by apply FilterState_kept).
  rewrite (reload_copied v) by by apply json_ok_FilterState. apply ValidMoves_ext.
  - done.
  - unfold phase. cbn [copied Data]. rewrite copy_getString. unfold getString. by rewrite Hk.
  - intros k Hin. rewrite copied_strings by done. unfold getStringSlice. rewrite Hk; [done|intros ->..];
      revert Hin; apply (bool_decide_unpack _); vm_compute; exact I.
  - rewrite copied_hand by done. by apply FilterState_hand.
Qed.

(** What a bot chooses from the view of its own player is a move of the game. *)
Lemma own_view_acceptable st bm : CurrentPlayerID st ≠ "" → typed (Data st) → json_ok (Map (Data st)) = true →
  live st → bm ∈ ValidMoves (own_view st) → ∃ p, bm = Some p ∧ acceptable st p.
Proof. intros Hne Ht Hj Hl. rewrite ValidMoves_own_view by done. by apply ValidMoves_acceptable. Qed.

End Contract.

(** ** Determinization *)

Section Pool.
Implicit Types (c : string) (counts : gmap string Z).

Lemma count_insert counts c n c' : count (<[c := n]> counts) c' = if decide (c = c') then n else count counts c'.
Proof.
  unfold count. case_decide; [subst; by rewrite lookup_insert_eq|by rewrite lookup_insert_ne].
Qed.

Lemma count_up l counts c : count (foldl countUp counts l) c = (count counts c + Z.of_nat (occ c l))%Z.
Proof.
  revert counts. induction l as [|x l IH]; intros counts; [cbn; lia|]. cbn [foldl].
  rewrite IH. unfold countUp. rewrite count_insert, occ_cons. destruct (decide (x = c)) as [->|]; lia.
Qed.

Lemma count_down l counts c : (0 ≤ count counts c)%Z →
  count (foldl countDown counts l) c = Z.max 0 (count counts c - Z.of_nat (occ c l)).
Proof.
  revert counts. induction l as [|x l IH]; intros counts Hc; [cbn; lia|]. cbn [foldl]. rewrite occ_cons.
  assert (Hd : count (countDown counts x) c =
    if decide (x = c) then Z.max 0 (count counts c - 1) else count counts c).
  { unfold countDown. destruct (Z.ltb_spec 0 (count counts x)).
    - rewrite count_insert. destruct (decide (x = c)) as [->|]; lia.
    - destruct (decide (x = c)) as [->|]; lia. }
  rewrite IH, Hd by (rewrite Hd; case_decide; lia). case_decide; lia.
Qed.

Lemma occ_takeCounted l counts c : (0 ≤ count counts c)%Z →
  Z.of_nat (occ c (takeCounted counts l)) = Z.min (count counts c) (Z.of_nat (occ c l)).
Proof.
  revert counts. induction l as [|x l IH]; intros counts Hc; [cbn; lia|]. cbn [takeCounted].
  rewrite (occ_cons c x l). destruct (Z.ltb_spec 0 (count counts x)).
  - rewrite occ_cons, Nat2Z.inj_add, IH; rewrite count_insert; destruct (decide (x = c)) as [->|]; lia.
  - rewrite IH by done. destruct (decide (x = c)) as [->|]; lia.
Qed.

Lemma occ_difference d visible c :
  occ c (takeCounted (foldl countDown (foldl countUp ∅ d) visible) d) = occ c d - occ c visible.
Proof.
  assert (H0 : count (foldl countUp ∅ d) c = Z.of_nat (occ c d)) by (rewrite count_up; unfold count; by rewrite lookup_empty).
  pose proof (occ_takeCounted d (foldl countDown (foldl countUp ∅ d) visible) c) as H.
  rewrite count_down, H0 in H by lia. lia.
Qed.

(** The pool holds the copies of a card that are not visible. *)
Lemma occ_pool visible c : occ c (buildUnknownPool visible) = occ c deckComposition - occ c visible.
Proof. apply occ_difference. Qed.

(** The other players who are still in the round. *)
Definition opponents (l : list string) (pid : string) (el : list string) : list string :=
  filter (λ p, p ≠ pid ∧ p ∉ el) l.

Lemma opponents_sum (f : string → nat) l pid el : NoDup l → pid ∈ l →
  (∀ p, p ∈ l → p ∈ el → f p = 0) → sumf f l = f pid + sumf f (opponents l pid el).
Proof.
  intros Hnd. induction Hnd as [|x l Hx Hnd IH]; intros Hin Hel; [by apply elem_of_nil in Hin|].
  unfold opponents in *. rewrite filter_cons, sumf_cons. destruct (decide (x = pid)) as [->|Hne].
  - rewrite decide_False by tauto. f_equal. clear IH Hin. induction l as [|y l IHl]; [done|].
    rewrite filter_cons, sumf_cons. rewrite not_elem_of_cons in Hx. inversion_clear Hnd.
    rewrite IHl; [|tauto|done|intros; apply Hel; set_solver]. case_decide as Hy; [done|].
    rewrite (Hel y); [done|set_solver|]. destruct (decide (y ∈ el)); [done|]. destruct Hy. split; [|done].
    intros ->. tauto.
  - apply elem_of_cons in Hin as [?|Hin]; [congruence|].
    rewrite IH by (done || (intros; apply Hel; set_solver)). destruct (decide (x ∈ el)) as [He|He].
    + rewrite decide_False by tauto. rewrite (Hel x); [lia|by left|done].
    + rewrite decide_True by done. rewrite sumf_cons. lia.
Qed.

Lemma dealOpponents_spec l pid el hs pool hs' pool' : NoDup l →
  length (opponents l pid el) ≤ length pool → dealOpponents l pid el hs pool = (hs', pool') →
  (∀ p, p ∉ opponents l pid el → handOf hs' p = handOf hs p) ∧
  (∀ p, p ∈ opponents l pid el → length (handOf hs' p) = 1) ∧
  ∀ c, sumf (λ p, occ c (handOf hs' p)) (opponents l pid el) + occ c pool' = occ c pool.
Proof.
  intros Hnd. revert hs pool. induction Hnd as [|x l Hx Hnd IH]; intros hs pool Hlen Hd; cbn in Hd.
  { injection Hd as <- <-. split_and!; [done| |done]. by intros p ?%elem_of_nil. }
  unfold opponents in *. rewrite filter_cons in *. unfold isEliminated in Hd.
  destruct (decide (x = pid)) as [->|Hne].
  { rewrite decide_False in * by tauto. by apply IH. }
  case_bool_decide as Hel.
  { rewrite decide_False in * by tauto. by apply IH. }
  rewrite decide_True in * by tauto. destruct pool as [|k pool]; [cbn in Hlen; lia|].
  destruct (IH _ _ (le_S_n _ _ Hlen) Hd) as (H1 & H2 & H3).
  assert (Hxn : x ∉ filter (λ p, p ≠ pid ∧ p ∉ el) l) by (rewrite list_elem_of_filter; tauto).
  assert (Hh : handOf hs' x = [k]) by (rewrite H1 by done; apply handOf_insert). split_and!.
  - intros p Hp. rewrite elem_of_cons in Hp. rewrite H1 by tauto. apply handOf_insert_ne. intros ->. tauto.
  - intros p [->|Hp]%elem_of_cons; [by rewrite Hh|by apply H2].
  - intros c. rewrite sumf_cons, Hh. rewrite (occ_cons c k pool), <- (H3 c), occ_cons, occ_nil. lia.
Qed.
End Pool.

Section Determinization.
Context `{P : PRNG} `{R : Rand} `{E : Entropy}.
Implicit Types (st : GameState) (c p : string).

Lemma occ_concat_perm c (l l' : list (list string)) : l ≡ₚ l' → occ c (concat l) = occ c (concat l').
Proof. induction 1; cbn [concat]; rewrite ?occ_app; lia. Qed.

(** The cards of all piles, in the order of the map. *)
Lemma occ_piles (m : gmap string (list string)) l c : NoDup l → (∀ k, k ∉ l → handOf m k = []) →
  occ c (concat (map_to_list m).*2) = sumf (λ p, occ c (handOf m p)) l.
Proof.
  intros Hnd. induction m as [|i x m Hi IH] using fin_maps.map_ind; intros Hl.
  { rewrite map_to_list_empty. cbn. rewrite (sumf_ext _ (λ _, 0)); [by rewrite sumf_zero|].
    intros. by rewrite handOf_empty. }
  assert (Hmi : handOf m i = []) by (unfold handOf; by rewrite Hi).
  assert (Hm : ∀ k, k ∉ l → handOf m k = []).
  { intros k Hk. destruct (decide (k = i)) as [->|]; [done|].
    rewrite <- (Hl k Hk). symmetry. by apply handOf_insert_ne. }
  assert (Hp : (map_to_list (<[i:=x]> m)).*2 ≡ₚ x :: (map_to_list m).*2).
  { by rewrite map_to_list_insert. }
  rewrite (occ_concat_perm c _ _ Hp). cbn [concat]. rewrite occ_app, IH by done. destruct (decide (i ∈ l)) as [Hin|Hin].
  - assert (H : sumf (λ p, occ c (handOf (<[i:=x]> m) p)) l + occ c (handOf m i) =
      sumf (λ p, occ c (handOf m p)) l + occ c (handOf (<[i:=x]> m) i)).
    { apply (sumf_update (λ p, occ c (handOf (<[i:=x]> m) p)) (λ p, occ c (handOf m p)) i l Hnd Hin). intros k _ Hk. by rewrite handOf_insert_ne. }
    rewrite handOf_insert, Hmi, occ_nil in H. lia.
  - specialize (Hl i Hin). rewrite handOf_insert in Hl. subst x. rewrite occ_nil. cbn.
    apply sumf_ext. intros k Hk. rewrite handOf_insert_ne; [done|]. by intros ->.
Qed.

(** The cards that a player to move does not see: the deck, the hands of the opponents
    and the card that was set aside. *)
Lemma pool_hidden st c : live st → (phase st = phasePlaying → choices st = []) →
  (∀ p, p ∉ players st → pile st p = []) →
  occ c (buildUnknownPool (collectVisible st (CurrentPlayerID st))) =
  occ c (deck st) + sumf (λ p, occ c (hand st p)) (opponents (players st) (CurrentPlayerID st) (elim st))
  + occ c (faceDown st).
Proof.
  intros Hl Hch Hpile. rewrite occ_pool. unfold collectVisible.
  rewrite decide_True by done. fold (hand st (CurrentPlayerID st)) (faceUp st) (choices st).
  rewrite !occ_app.
  pose proof (seated_nodup _ (live_seated _ Hl)) as Hnd.
  rewrite (occ_piles _ (players st) c Hnd Hpile).
  change (λ p, occ c (handOf (getDiscardPiles (Data st)) p)) with (λ p, occ c (pile st p)).
  assert (Hhands : sumf (λ p, occ c (hand st p)) (players st) =
    occ c (hand st (CurrentPlayerID st)) +
    sumf (λ p, occ c (hand st p)) (opponents (players st) (CurrentPlayerID st) (elim st))).
  { pose proof (proj1 (active_spec _ _) (live_cur _ Hl)) as [Hin _].
    apply (opponents_sum (λ p, occ c (hand st p))); [done|done|]. intros p Hp He. by rewrite (live_elim _ Hl p). }
  pose proof (live_cards _ Hl c) as Ht. unfold total in Ht. rewrite Hhands in Ht.
  destruct (live_phase _ Hl) as [[Hph _]|[Hph _]].
  - rewrite decide_False in Ht by by rewrite Hph. rewrite (Hch Hph), occ_nil. lia.
  - rewrite decide_True in Ht by done. lia.
Qed.

(** The players who are still hidden from each other hold one card each. *)
Lemma opponents_active st p : p ∈ opponents (players st) (CurrentPlayerID st) (elim st) ↔
  p ∈ active st ∧ p ≠ CurrentPlayerID st.
Proof. unfold opponents. rewrite list_elem_of_filter, active_spec. tauto. Qed.

Lemma pool_length st l : live st → (phase st = phasePlaying → choices st = []) →
  (∀ p, p ∉ players st → pile st p = []) →
  l ≡ₚ buildUnknownPool (collectVisible st (CurrentPlayerID st)) →
  length (opponents (players st) (CurrentPlayerID st) (elim st)) ≤ length l.
Proof.
  intros Hl Hch Hpile Hperm.
  set (os := opponents (players st) (CurrentPlayerID st) (elim st)).
  transitivity (length (concat (hand st <$> os))).
  - assert (Hone : ∀ p, p ∈ os → length (hand st p) = 1).
    { intros p [Ha Hne]%opponents_active. by apply (live_others _ Hl). }
    clear -Hone. induction os as [|p os IH]; [done|]. rewrite fmap_cons. cbn [concat].
    rewrite length_app, length_cons, (Hone p) by by left. cbn. apply le_n_S, IH. intros; apply Hone; by right.
  - apply occ_submultiset. intros c. rewrite (occ_perm c _ _ Hperm), pool_hidden by done.
    rewrite occ_concat. fold os. lia.
Qed.

(** Dealing the pool adds the card that is set aside to the cards of the table. *)
Lemma determinized_total st st' c : live st → typed (Data st) →
  (phase st = phasePlaying → choices st = []) → (∀ p, p ∉ players st → pile st p = []) →
  frame ["hands"; "deck"] (copied st) st' →
  (∀ p, p ∉ opponents (players st) (CurrentPlayerID st) (elim st) → hand st' p = hand st p) →
  occ c (deck st') + sumf (λ p, occ c (hand st' p)) (opponents (players st) (CurrentPlayerID st) (elim st)) =
    occ c (buildUnknownPool (collectVisible st (CurrentPlayerID st))) →
  total c st' = occ c deckComposition + occ c (faceDown st).
Proof.
  intros Hl Ht Hch Hpile F Hold Hpool. rewrite pool_hidden in Hpool by done.
  rewrite <- (live_cards _ Hl c). unfold total.
  assert (players st' = players st) as ->.
  { unfold players. rewrite (frame_getStringSlice F) by key. by apply copied_strings. }
  assert (phase st' = phase st) as ->.
  { unfold phase. rewrite (frame_getString F) by key. apply copy_getString. }
  assert (faceDown st' = faceDown st) as ->.
  { unfold faceDown. rewrite (frame_getString F) by key. cbn [copied Data]. by rewrite copy_getString. }
  assert (faceUp st' = faceUp st) as ->.
  { unfold faceUp. rewrite (frame_getStringSlice F) by key. by apply copied_strings. }
  assert (choices st' = choices st) as ->.
  { unfold choices. rewrite (frame_getStringSlice F) by key. by apply copied_strings. }
  rewrite (sumf_ext (λ p, occ c (pile st' p)) (λ p, occ c (pile st p))).
  2:{ intros p _. unfold pile at 1. rewrite (frame_getDiscardPiles F) by key. by rewrite <- (copied_pile st p Ht). }
  pose proof (seated_nodup _ (live_seated _ Hl)) as Hnd.
  pose proof (proj1 (active_spec _ _) (live_cur _ Hl)) as [Hin Hce].
  assert (Hcur : hand st' (CurrentPlayerID st) = hand st (CurrentPlayerID st)).
  { apply Hold. rewrite opponents_active. tauto. }
  rewrite (opponents_sum (λ p, occ c (hand st' p)) _ _ (elim st) Hnd Hin).
  2:{ intros p Hp He. rewrite Hold by (rewrite opponents_active, active_spec; tauto).
      by rewrite (live_elim _ Hl p). }
  rewrite (opponents_sum (λ p, occ c (hand st p)) _ _ (elim st) Hnd Hin).
  2:{ intros p Hp He. by rewrite (live_elim _ Hl p). }
  rewrite Hcur. lia.
Qed.

(** C40 Determinizing for the player on turn always succeeds, in a state in which a game is
    live, whether the player is to play a card or to resolve a Debugger. It keeps the own hand
    and gives every opponent in the round one card, drawn from what the player has not
    seen; it leaves everything but hands and deck alone. But the card that was set
    aside is dealt as well and stays set aside: the world that is searched has one
    more copy of it than the game. When the player is to play a card, there must be no choices
    of an earlier Debugger left, which a timeout during a Debugger can leave behind
    ([determinized_from_stale_choices]); and there are no piles but those of the players. *)
Theorem Determinize_spec st src :
  live st → typed (Data st) → json_ok (Map (Data st)) = true →
  (phase st = phasePlaying → choices st = []) → (∀ p, p ∉ players st → pile st p = []) →
  ∃ st' src', Determinize st (CurrentPlayerID st) src = (Ok st', src') ∧
    frame ["hands"; "deck"] (copied st) st' ∧
    hand st' (CurrentPlayerID st) = hand st (CurrentPlayerID st) ∧
    (∀ p, p ∈ active st → p ≠ CurrentPlayerID st → length (hand st' p) = 1) ∧
    (∀ c, occ c (deck st') + sumf (λ p, occ c (hand st' p))
             (opponents (players st) (CurrentPlayerID st) (elim st)) =
          occ c (buildUnknownPool (collectVisible st (CurrentPlayerID st)))) ∧
    (∀ c, total c st' = occ c deckComposition + occ c (faceDown st)).
Proof.
  intros Hl Ht Hj Hch Hpile. unfold Determinize.
  set (pool0 := buildUnknownPool (collectVisible st (CurrentPlayerID st))).
  destruct (Shuffle pool0 src.2) as [shuffled e] eqn:Hsh.
  set (pool := match shuffled with Ok l => l | Err _ => pool0 end).
  assert (Hperm : pool ≡ₚ pool0).
  { unfold pool. destruct shuffled; [|done]. by eapply Shuffle_perm. }
  pose proof (pool_length st pool Hl Hch Hpile Hperm) as Hlen.
  assert (Hclone : Clone st = Ok (copied st)).
  { unfold Clone, reload, copied, DeepCopyData. by rewrite Hj. }
  rewrite Hclone. cbn [mbind result_bind].
  fold (players (copied st)) (elim (copied st)).
  destruct (copied_settled_eq st Ht) as (Epl & Eel & _ & _ & _ & Eph & _). rewrite Epl, Eel.
  destruct (dealOpponents _ _ _ _ _) as [hs pool'] eqn:Hd.
  pose proof (seated_nodup _ (live_seated _ Hl)) as Hnd.
  destruct (dealOpponents_spec _ _ _ _ _ _ _ Hnd Hlen Hd) as (Hkeep & Hone & Hsum).
  set (st' := setData "deck" (Strs pool') (setData "hands" (handsToAny hs) (copied st))).
  assert (Hhand : ∀ p, hand st' p = handOf hs p) by (intros; unfold hand, st'; by ra).
  assert (Hdeck : deck st' = pool') by (unfold deck, st'; by ra).
  assert (F : frame ["hands"; "deck"] (copied st) st').
  { eapply frame_trans; [apply frame_setData; by left|apply frame_setData; right; by left]. }
  assert (Hold : ∀ p, p ∉ opponents (players st) (CurrentPlayerID st) (elim st) → hand st' p = hand st p).
  { intros p Hp. rewrite Hhand, Hkeep by done. by apply copied_hand. }
  exists st', (src.1, e). split_and!; try done.
  - apply Hold. rewrite opponents_active. tauto.
  - intros p Ha Hne. rewrite Hhand. apply Hone. by apply opponents_active.
  - intros c. rewrite <- (occ_perm c _ _ Hperm), <- (Hsum c), Hdeck.
    rewrite (sumf_ext _ (λ p, occ c (handOf hs p))) by (intros; by rewrite Hhand). lia.
  - intros c. apply determinized_total; try done. fold pool0.
    rewrite <- (occ_perm c _ _ Hperm), <- (Hsum c), Hdeck.
    rewrite (sumf_ext _ (λ p, occ c (handOf hs p))) by (intros; by rewrite Hhand). lia.
Qed.
End Determinization.

(** ** At the opening of a game *)

#[local] Existing Instance zeroPRNG.
#[local] Existing Instance counting_Rand.
#[local] Existing Instance counting_Entropy.
#[local] Existing Instance identity_Log.

Lemma rootaccess_bot_moves_witness :
  ∃ bm, bm ∈ ValidMoves opening ∧ ∃ p, bm = Some p ∧ acceptable opening p.
Proof.
  assert (Hlen : length (ValidMoves opening) = 18) by (vm_compute; reflexivity).
  destruct (ValidMoves opening) as [|bm bms] eqn:Hms; [discriminate|].
  exists bm. split; [by left|]. apply (proj1 (rootaccess_bot_moves opening (proj2 opening_ok)) bm).
  rewrite Hms. by left.
Defined.

Lemma opening_piles p : p ∉ players opening → pile opening p = [].
Proof.
  assert (getDiscardPiles (Data opening) = ∅) as H by (vm_compute; reflexivity).
  intros _. unfold pile. rewrite H. apply handOf_empty.
Qed.

Lemma opening_choices : choices opening = [].
Proof. vm_compute. reflexivity. Qed.

Lemma opening_json : json_ok (Map (Data opening)) = true.
Proof. vm_compute. reflexivity. Qed.

Lemma Determinize_spec_witness :
  ∃ st' src', Determinize opening (CurrentPlayerID opening) seeds = (Ok st', src') ∧
    ∃ c, faceDown opening = [c] ∧ total c st' = S (occ c deckComposition).
Proof.
  destruct (Determinize_spec opening seeds (proj2 opening_ok) (proj1 opening_ok) opening_json
    (λ _, opening_choices) opening_piles) as (st' & src' & Hd & _ & _ & _ & _ & Ht).
  exists st', src'. split; [exact Hd|].
  assert (Hf : exists c, faceDown opening = [c]) by (vm_compute; eexists; reflexivity).
  destruct Hf as [c Hf]. exists c. split; [exact Hf|]. rewrite Ht, Hf, occ_cons.
  destruct (decide (c = c)) as [_|n]; [rewrite occ_nil; lia|destruct (n eq_refl)].
Defined.


(** ** After a timeout during a Debugger *)

(** In a game of two, a timeout during a Debugger ends the round, and its choices are left in
    the next one. A bot that is to play takes them for cards it sees: the world it searches
    has lost two Pings and a Sniffer. *)
Definition after_timeout : GameState :=
  state_or_empty (@RootAccess.ApplyMove (debuggerPRNG 2) (debugging 2) ana_times_out).

Lemma after_timeout_live : typed (Data after_timeout) ∧ live after_timeout.
Proof.
  destruct debugging_live as [Ht Hl].
  assert (@RootAccess.ApplyMove (debuggerPRNG 2) (debugging 2) ana_times_out = Ok after_timeout) as Ha
    by (apply is_ok_state; vm_compute; reflexivity).
  destruct (@ApplyMove_step (debuggerPRNG 2) (debugging 2) ana_times_out Ht Hl)
    as (st' & Ha' & Ht' & _ & _ & Hcase).
  - vm_compute. reflexivity.
  - vm_compute. reflexivity.
  - unfold fair. rewrite decide_True by done. right. vm_compute. reflexivity.
  - rewrite Ha in Ha'. apply Ok_inj in Ha'. subst st'. split; [done|].
    destruct Hcase as [(Hp & _)|[Hl' _]]; [|done]. exfalso. revert Hp.
    assert (phase after_timeout = phasePlaying) as -> by (vm_compute; reflexivity). done.
Qed.

Theorem determinized_from_stale_choices : let st := after_timeout in
  ValidateMove (debugging 2) ana_times_out = Ok tt ∧ live st ∧ phase st = phasePlaying ∧ length (choices st) = 3 ∧
  ∃ w src, Determinize st (CurrentPlayerID st) seeds = (Ok w, src) ∧
    total CardPing st = 6 ∧ total CardPing w = 4 ∧ total CardSniffer st = 2 ∧ total CardSniffer w = 1.
Proof.
  cbv zeta. split; [vm_compute; reflexivity|]. split; [exact (proj2 after_timeout_live)|].
  split; [vm_compute; reflexivity|]. split; [vm_compute; reflexivity|].
  exists (state_or_empty (Determinize after_timeout (CurrentPlayerID after_timeout) seeds).1),
    (Determinize after_timeout (CurrentPlayerID after_timeout) seeds).2.
  split; [|vm_compute; done].
  rewrite <-(is_ok_state (Determinize after_timeout (CurrentPlayerID after_timeout) seeds).1); [apply surjective_pairing|].
  vm_compute. reflexivity.
Qed.
