(* ===== verification/Entitled.v ===== *)
(** What a caller of the game server may change in the database: the relation, and that
    every statement and every operation made on behalf of a caller respects it. *)
From S2P Require Import Prelude Json Engine Randutil Backend Store BackendLogic Lobby Runtime.
From S2P Require Import Consistency Requests Serving.

(** ** What a caller may change *)

Section Entitled.
Context `{U : UUID} (p : uuid) (manager : bool) (robots : list uuid).

(** The room is the caller's, if there is one. *)
Definition mine (d : DB) (room : uuid) : Prop := ∀ x, rooms d !! room = Some x → R_OwnerID x = p.
Definition seated (d : DB) (room : uuid) : Prop := is_Some (room_players d !! (room, p)).
Definition to_move (s : GameSession) : Prop :=
  ∃ st, GS_State s = Some st ∧ CurrentPlayerID st = uuid_String p.
Definition robot (d : DB) (q : uuid) : Prop :=
  q ∈ robots ∨ ∃ x, players d !! q = Some x ∧ P_IsBot x = true.

(** The caller takes part in the session. *)
Definition takes_part (d : DB) (s : GameSession) : Prop := seated d (GS_RoomID s) ∨ to_move s.

Definition in_reach (d : DB) (room : uuid) : Prop :=
  mine d room ∨ seated d room ∨ (∀ q, room_players d !! (room, q) = None) ∨
  ∃ k s, game_sessions d !! k = Some s ∧ GS_RoomID s = room ∧ to_move s.

Record entitled (d d' : DB) : Prop := {
  e_players : players d ⊆ players d';
  e_moves k m : moves d' !! k = Some m → moves d !! k = Some m ∨ M_PlayerID m = p;
  e_joined r q x : room_players d' !! (r, q) = Some x →
    room_players d !! (r, q) = Some x ∨ q = p ∨ mine d r ∧ players d !! q = None;
  e_left r q : is_Some (room_players d !! (r, q)) →
    is_Some (room_players d' !! (r, q)) ∨ q = p ∨ mine d r ∧ robot d q;
  e_settings k v : room_settings d' !! k = Some v → room_settings d !! k = Some v ∨ mine d k.1;
  e_rooms r x : rooms d !! r = Some x → rooms d' !! r = Some x ∨ is_Some (rooms d' !! r) ∧ in_reach d r;
  e_owner r : (∃ x, rooms d' !! r = Some x ∧ R_OwnerID x = p) → mine d r;
  e_kept : dom (game_sessions d) ⊆ dom (game_sessions d');
  e_sessions k s' : game_sessions d' !! k = Some s' →
    match game_sessions d !! k with
    | Some s => s' = s ∨ takes_part d s ∨ manager = true
    | None => mine d (GS_RoomID s')
    end;
  e_state k s s' : game_sessions d !! k = Some s → game_sessions d' !! k = Some s' →
    GS_State s' = GS_State s ∨ to_move s;
  e_results k r : game_results d' !! k = Some r → game_results d !! k = Some r ∨
    ∃ s, game_sessions d !! G_SessionID r = Some s ∧ takes_part d s;
  e_rematch s q : is_Some (rematch_votes d' !! (s, q)) →
    is_Some (rematch_votes d !! (s, q)) ∨ q = p ∨ robot d' q;
  e_pause s q v : is_Some (session_pause_votes d' !! (s, q, v)) →
    is_Some (session_pause_votes d !! (s, q, v)) ∨ q = p
}.
End Entitled.

Section Statements.
Context `{U : UUID} `{E : Entropy} `{S : !Server} (reg : registry).
Variables (p : uuid) (manager : bool) (robots : list uuid) (d0 : DB).

Abbreviation ent := (entitled p manager robots d0).
Abbreviation mine := (mine p).
Abbreviation seated := (seated p).
Abbreviation takes_part := (takes_part p).
Abbreviation in_reach := (in_reach p).

Lemma entitled_refl : ent d0.
Proof.
  split; intros *; try naive_solver.
  all: try (intros Hs; rewrite Hs; by left).
  all: try (intros H1 H2; left; congruence).
  all: try (intros (x & Hx & Ho) y Hy; congruence).
Qed.

(** The statements, by the table they change. *)
Lemma ent_players d m : ent d → players d ⊆ m → ent (set_players m d).
Proof.
  intros [] Hm. split; cbn; try done; [by etrans|]. intros s q Hs.
  destruct (e_rematch0 s q Hs) as [|[|[|(x & Hx & Hb)]]]; [by left|by right; left|by right; right; left|].
  right. right. right. exists x. split; [|done]. by eapply lookup_weaken.
Qed.

Lemma ent_moves d k m : ent d → M_PlayerID m = p → ent (set_moves (<[k := m]> (moves d)) d).
Proof.
  intros [] Hm. split; cbn; try done. intros k' m'.
  destruct (decide (k = k')) as [->|Hne]; [rewrite lookup_insert_eq; intros [= <-]; by right|].
  rewrite lookup_insert_ne by done. eauto.
Qed.

Lemma ent_join d r q x : ent d → q = p ∨ mine d0 r ∧ players d0 !! q = None →
  ent (set_room_players (<[(r, q) := x]> (room_players d)) d).
Proof.
  intros [] Hq. split; cbn; try done.
  - intros r' q' x'. destruct (decide ((r, q) = (r', q'))) as [[= <- <-]|Hne]; [by right|].
    rewrite lookup_insert_ne by done. eauto.
  - intros r' q' Hx. destruct (decide ((r, q) = (r', q'))) as [[= <- <-]|Hne];
      [left; by rewrite lookup_insert_eq|]. rewrite lookup_insert_ne by done. eauto.
Qed.

Lemma ent_leave d m : ent d → m ⊆ room_players d →
  (∀ r q x, room_players d !! (r, q) = Some x → m !! (r, q) = None →
     q = p ∨ mine d0 r ∧ robot robots d0 q) →
  ent (set_room_players m d).
Proof.
  intros [] Hm Hq. split; cbn; try done.
  - intros r q x Hx. apply e_joined0. by eapply lookup_weaken.
  - intros r q Hx. destruct (e_left0 r q Hx) as [[x' Hx']|]; [|by right].
    destruct (m !! (r, q)) eqn:Hr; [left; eauto|]. right. by eapply Hq.
Qed.

Lemma ent_settings d k v : ent d → mine d0 k.1 →
  ent (set_room_settings (<[k := v]> (room_settings d)) d).
Proof.
  intros [] Hk. split; cbn; try done. intros k' v'.
  destruct (decide (k = k')) as [<-|Hne]; [by right|]. rewrite lookup_insert_ne by done. eauto.
Qed.

Lemma ent_room_new d r x : ent d → rooms d !! r = None → rooms d0 !! r = None →
  ent (set_rooms (<[r := x]> (rooms d)) d).
Proof.
  intros [] Hr H0. split; cbn; try done.
  - intros r' y Hy. destruct (decide (r = r')) as [<-|Hne]; [congruence|].
    rewrite lookup_insert_ne by done. eauto.
  - intros r' (y & Hy & Ho). destruct (decide (r = r')) as [<-|Hne]; [intros z Hz; congruence|].
    rewrite lookup_insert_ne in Hy by done. eauto.
Qed.

Lemma ent_room d r f : ent d → in_reach d0 r →
  (∀ x, rooms d !! r = Some x → R_OwnerID (f x) = R_OwnerID x ∨ mine d0 r) →
  ent (set_rooms (alter f r (rooms d)) d).
Proof.
  intros [] Hr Ho. split; cbn; try done.
  - intros r' y Hy. destruct (decide (r = r')) as [<-|Hne].
    + right. split; [|done]. rewrite lookup_alter_eq. destruct (e_rooms0 _ _ Hy) as [->|[[z ->] _]]; eauto.
    + rewrite lookup_alter_ne by done. eauto.
  - intros r' (y & Hy & Hp). destruct (decide (r = r')) as [<-|Hne].
    + rewrite lookup_alter_eq in Hy. destruct (rooms d !! r) as [x|] eqn:Hx; [|done].
      injection Hy as <-. destruct (Ho x eq_refl) as [E1|]; [|done]. apply e_owner0. exists x. by rewrite <- E1.
    + rewrite lookup_alter_ne in Hy by done. eauto.
Qed.

(** A change of a session the caller takes part in, or of one it has just made. *)
Definition touches (k : uuid) : Prop := ∀ s, game_sessions d0 !! k = Some s → takes_part d0 s ∨ manager = true.

Lemma ent_session d k f : ent d → touches k →
  (∀ s, GS_RoomID (f s) = GS_RoomID s) →
  (∀ s s0, game_sessions d0 !! k = Some s0 → GS_State (f s) = GS_State s ∨ to_move p s0) →
  ent (set_sessions (alter f k (game_sessions d)) d).
Proof.
  intros [] Hk Hroom Hstate. split; cbn; try done.
  - by rewrite dom_alter.
  - intros k' s'. destruct (decide (k = k')) as [<-|Hne].
    + rewrite lookup_alter_eq. destruct (game_sessions d !! k) as [s|] eqn:Hs; [|done].
      intros [= <-]. specialize (e_sessions0 _ _ Hs). destruct (game_sessions d0 !! k) as [s0|] eqn:H0.
      * right. by apply Hk.
      * by rewrite Hroom.
    + rewrite lookup_alter_ne by done. apply e_sessions0.
  - intros k' s s' H0. destruct (decide (k = k')) as [<-|Hne].
    + rewrite lookup_alter_eq. destruct (game_sessions d !! k) as [s1|] eqn:Hs; [|done].
      intros [= <-]. destruct (Hstate s1 _ H0) as [->|]; [eauto|by right].
    + rewrite lookup_alter_ne by done. eauto.
Qed.

Lemma ent_session_new d k s : ent d → game_sessions d !! k = None → mine d0 (GS_RoomID s) →
  ent (set_sessions (<[k := s]> (game_sessions d)) d).
Proof.
  intros [] Hk Hr.
  assert (game_sessions d0 !! k = None) as H0.
  { apply not_elem_of_dom. intros Hin. apply e_kept0, elem_of_dom in Hin as [? ?]. congruence. }
  split; cbn; try done.
  - rewrite dom_insert. set_solver.
  - intros k' s'. destruct (decide (k = k')) as [<-|Hne].
    + rewrite lookup_insert_eq, H0. by intros [= <-].
    + rewrite lookup_insert_ne by done. apply e_sessions0.
  - intros k' s1 s' H1. rewrite lookup_insert_ne by congruence. eauto.
Qed.

Lemma ent_result d k r : ent d →
  (∃ s, game_sessions d0 !! G_SessionID r = Some s ∧ takes_part d0 s) →
  ent (set_results (<[k := r]> (game_results d)) d).
Proof.
  intros [] Hr. split; cbn; try done. intros k' r'.
  destruct (decide (k = k')) as [<-|Hne]; [rewrite lookup_insert_eq; intros [= <-]; by right|].
  rewrite lookup_insert_ne by done. eauto.
Qed.

Lemma ent_rematch d s q t : ent d → q = p ∨ robot robots d q →
  ent (set_rematch_votes (<[(s, q) := t]> (rematch_votes d)) d).
Proof.
  intros [] Hq. split; cbn; try done. intros s' q'.
  destruct (decide ((s, q) = (s', q'))) as [[= <- <-]|Hne]; [by right|].
  rewrite lookup_insert_ne by done. eauto.
Qed.

Lemma ent_unrematch d m : ent d → m ⊆ rematch_votes d → ent (set_rematch_votes m d).
Proof.
  intros [] Hm. split; cbn; try done. intros s' q' [x Hx]. apply e_rematch0. exists x.
  by eapply lookup_weaken.
Qed.

Lemma ent_pause d s v t : ent d → ent (set_pause_votes (<[(s, p, v) := t]> (session_pause_votes d)) d).
Proof.
  intros []. split; cbn; try done. intros s' q' v'.
  destruct (decide ((s, p, v) = (s', q', v'))) as [[= <- <- <-]|Hne]; [by right|].
  rewrite lookup_insert_ne by done. eauto.
Qed.

Lemma ent_unpause d m : ent d → m ⊆ session_pause_votes d → ent (set_pause_votes m d).
Proof.
  intros [] Hm. split; cbn; try done. intros s' q' v' [x Hx]. apply e_pause0. exists x.
  by eapply lookup_weaken.
Qed.

(** The statements of the store, as [keeps]. *)
Lemma keeps_SetSession f k : touches k → (∀ t s, GS_RoomID (f t s) = GS_RoomID s) →
  (∀ t s s0, game_sessions d0 !! k = Some s0 → GS_State (f t s) = GS_State s ∨ to_move p s0) →
  keeps ent (SetSession f k).
Proof. intros Hk Hr Hs. apply keeps_update. intros t d Hd. apply ent_session; eauto. Qed.

(** The state is not touched. *)
Ltac session := intros; apply keeps_wrap || idtac; apply keeps_SetSession; eauto.

Lemma keeps_FinishSession k : touches k → keeps ent (FinishSession k).
Proof. session. Qed.
Lemma keeps_SuspendSession k r : touches k → keeps ent (SuspendSession k r).
Proof. session. Qed.
Lemma keeps_ResumeSession k : touches k → keeps ent (ResumeSession k).
Proof. session. Qed.
Lemma keeps_ClearReadyVotes k : touches k → keeps ent (ClearReadyVotes k).
Proof. session. Qed.
Lemma keeps_TouchLastMoveAt k : touches k → keeps ent (TouchLastMoveAt k).
Proof. intros. apply keeps_SetSession; eauto. Qed.

Lemma keeps_Store_VoteReady k q : touches k → keeps ent (Store_VoteReady k q).
Proof.
  intros Hk. unfold Store_VoteReady. apply keeps_bind; [|intros; keep].
  apply keeps_wrap, keeps_SetSession; [done|intros; by case_decide..|].
  intros t s s0 _. left. by case_decide.
Qed.

Lemma keeps_ForceCloseSession k : manager = true → keeps ent (ForceCloseSession k).
Proof.
  intros Hm. unfold ForceCloseSession. apply keeps_bind; [|intros; keep].
  apply keeps_wrap, keeps_exec. intros t id d a d' Hd.
  destruct (game_sessions d !! k) as [s|] eqn:Hs; [|by intros [= <- <-]].
  destruct (is_none _); intros [= <- <-]; [|done].
  rewrite (insert_alter _ k s (λ s, session_set_finished (Some t)
    (session_suspension None None (GS_SuspendCount s) s))) by done.
  apply ent_session; [done|by right|done|by left].
Qed.

Lemma keeps_UpdateSessionState k raw s : game_sessions d0 !! k = Some s → to_move p s →
  keeps ent (UpdateSessionState k raw).
Proof.
  intros Hk Hm. apply keeps_wrap, keeps_SetSession; [|done|].
  - intros s' Hs'. left. right. congruence.
  - intros _ s1 s' Hs'. right. congruence.
Qed.

Lemma keeps_UpdateRoomStatus r x : in_reach d0 r → keeps ent (UpdateRoomStatus r x).
Proof.
  intros Hr. apply keeps_wrap, keeps_exec. intros t id d a d' Hd. case_match; [|done].
  intros [= <- <-]. apply ent_room; [done|done|by left].
Qed.

Lemma keeps_UpdateRoomOwner r o : in_reach d0 r → mine d0 r → keeps ent (UpdateRoomOwner r o).
Proof.
  intros Hr Hm. apply keeps_wrap, keeps_exec. intros t id d a d' Hd. case_match; [done|].
  intros [= <- <-]. apply ent_room; [done|done|by right].
Qed.

Lemma keeps_SetRoomSetting r k v : mine d0 r → keeps ent (SetRoomSetting r k v).
Proof.
  intros Hm. apply keeps_wrap, keeps_exec. intros t id d a d' Hd. case_match; [done|].
  intros [= <- <-]. by apply ent_settings.
Qed.

Lemma keeps_insert_setting r kv : mine d0 r → keeps ent (insert_setting r kv).
Proof.
  intros Hm. apply keeps_wrap, keeps_exec. intros t id d a d' Hd. case_match; [|done].
  intros [= <- <-]. by apply ent_settings.
Qed.

Lemma keeps_AddPlayerToRoom r q n : q = p ∨ mine d0 r ∧ players d0 !! q = None →
  keeps ent (AddPlayerToRoom r q n).
Proof.
  intros Hq. apply keeps_wrap, keeps_exec. intros t id d a d' Hd. case_match; [|done].
  intros [= <- <-]. by apply ent_join.
Qed.

Lemma keeps_RemovePlayerFromRoom r q : q = p ∨ mine d0 r ∧ robot robots d0 q →
  keeps ent (RemovePlayerFromRoom r q).
Proof.
  intros Hq. apply keeps_wrap, keeps_update. intros t d Hd.
  apply ent_leave; [done|apply delete_subseteq|].
  intros r' q' x Hx. rewrite lookup_delete_None. intros [[= <- <-]|]; [done|congruence].
Qed.

Lemma keeps_RecordMove params : RM_PlayerID params = p → keeps ent (RecordMove params).
Proof.
  intros Hp. apply keeps_wrap, keeps_exec. intros t id d a d' Hd. case_match; [|done].
  intros [= <- <-]. by apply ent_moves.
Qed.

Lemma keeps_insert_result_player k q : keeps ent (insert_result_player k q).
Proof.
  apply keeps_wrap, keeps_exec. intros t id d a d' Hd. case_match; [|done]. intros [= <- <-].
  destruct Hd. by split.
Qed.

Lemma keeps_create_result params s :
  game_sessions d0 !! GR_SessionID params = Some s → takes_part d0 s → keeps ent (create_result params).
Proof.
  intros Hs Ht. unfold create_result. apply keeps_bind; [keep|intros dur].
  apply keeps_bind; [|intros gr; apply keeps_bind; [|intros; keep];
    apply keeps_mapM_; intros; apply keeps_insert_result_player].
  apply keeps_wrap, keeps_exec. intros t id d a d' Hd. case_match; [|done].
  intros [= <- <-]. apply ent_result; eauto.
Qed.

Lemma keeps_CreateGameResult params s :
  game_sessions d0 !! GR_SessionID params = Some s → takes_part d0 s → keeps ent (CreateGameResult params).
Proof.
  intros Hs Ht d Hd w Hw. unfold CreateGameResult. pose proof (keeps_create_result params s Hs Ht) as Hk.
  destruct (tx_time w); revert w Hw; [exact (Hk d Hd)|exact (keeps_with_tx _ _ _ Hk d Hd)].
Qed.

Lemma keeps_CreateGameSession r g raw n m : mine d0 r → keeps ent (CreateGameSession r g raw n m).
Proof.
  intros Hr. apply keeps_exec. intros t id d a d' Hd.
  destruct (game_sessions d !! id) eqn:Hid; cbn; [done|]. case_match; [|done].
  intros [= <- <-]. by apply ent_session_new.
Qed.

Lemma keeps_UpsertRematchVote k q (Φ : result error unit → DB → Prop) d :
  ent d → q = p ∨ robot robots d q → (∀ r d', ent d' → Φ r d') → wpd (UpsertRematchVote k q) Φ d.
Proof.
  intros Hd Hq HΦ. apply wpd_wrap, wpd_exec; [by intros; apply HΦ|]. intros t id a d'.
  case_match; [intros [= <- <-]; by apply HΦ|]. case_match; [done|]. intros [= <- <-].
  by apply HΦ, ent_rematch.
Qed.

Lemma keeps_DeleteRematchVotes k : keeps ent (DeleteRematchVotes k).
Proof. apply keeps_wrap, keeps_update. intros. apply ent_unrematch; [done|]. apply map_filter_subseteq. Qed.

Lemma keeps_store_vote c v k : keeps ent (store_vote c v k p).
Proof.
  unfold store_vote, allPlayersVoted. apply keeps_bind; [|intros; keep]. apply keeps_wrap, keeps_exec.
  intros t id d a d' Hd. case_match; [by intros [= <- <-]|]. case_match; [done|].
  intros [= <- <-]. by apply ent_pause.
Qed.

Lemma keeps_clear_votes c v k : keeps ent (clear_votes c v k).
Proof. apply keeps_wrap, keeps_update. intros. apply ent_unpause; [done|]. apply map_filter_subseteq. Qed.

Lemma keeps_insert_player n b : keeps ent (insert_player n b).
Proof.
  apply keeps_exec. intros t id d a d' Hd. destruct (players d !! id) eqn:Hid; cbn; [done|].
  case_match; [|done]. intros [= <- <-]. apply ent_players; [done|]. by apply insert_subseteq.
Qed.
End Statements.

#[export] Hint Resolve keeps_FinishSession keeps_SuspendSession keeps_ResumeSession
  keeps_ClearReadyVotes keeps_TouchLastMoveAt keeps_Store_VoteReady keeps_UpdateRoomStatus
  keeps_UpdateRoomOwner keeps_SetRoomSetting keeps_insert_setting keeps_RecordMove
  keeps_DeleteRematchVotes keeps_store_vote keeps_clear_votes keeps_insert_player
  keeps_ForceCloseSession keeps_CreateGameSession : recess.

(** ** The operations *)

Section Operations.
Context `{U : UUID} `{E : Entropy} `{S : !Server} (reg : registry).
Hypothesis reg_players : ∀ id g, reg !! id = Some g → (2 ≤ MaxPlayers g)%Z.
Variables (p : uuid) (manager : bool) (robots : list uuid) (d0 : DB).
Hypothesis C : consistent reg d0.

Abbreviation ent := (entitled p manager robots d0).

(** An operation on the database of the start. *)
Definition stays {A} (m : M A) : Prop := wpd m (λ _ d', ent d') d0.

Lemma stays_keeps {A} (m : M A) : keeps ent m → stays m.
Proof. intros H. apply H, entitled_refl. Qed.

Lemma ent_refl : ent d0.
Proof. apply entitled_refl. Qed.

(** A read in front. *)
Lemma stays_read {A B} (m : M A) (f : A → M B) :
  keeps (λ d, d = d0) m → (∀ a, stays (f a)) → stays (m ≫= f).
Proof.
  intros Hm Hf. apply (wpd_keeps (λ d, d = d0)); [done|done|intros ? ? ->; apply ent_refl|].
  intros a ? ->. apply Hf.
Qed.

Lemma stays_session {B} k e (f : GameSession → M B) :
  (∀ s, game_sessions d0 !! k = Some s → GS_ID s = k → stays (f s)) →
  stays (orElse (GetGameSession k) e ≫= f).
Proof.
  intros Hf. apply wpd_bind, wpd_orElse, wpd_GetGameSession; [intros; apply ent_refl|].
  intros s Hs. apply Hf; [done|]. apply (session_key _ _ C _ _ Hs).
Qed.

Lemma stays_room {B} r e (f : Room → M B) :
  (∀ x, rooms d0 !! r = Some x → stays (f x)) → stays (orElse (GetRoom r) e ≫= f).
Proof.
  intros Hf. apply wpd_bind, wpd_orElse, wpd_GetRoom; [intros; apply ent_refl|auto].
Qed.

Lemma stays_players {B} c r (f : list RoomPlayer → M B) :
  stays (f (players_of d0 r)) → stays (wrap c (ListRoomPlayers r) ≫= f).
Proof. intros Hf. apply wpd_bind, wpd_wrap, wpd_ListRoomPlayers; [intros; apply ent_refl|done]. Qed.

Lemma players_of_seated r : Runtime.callerFound p (players_of d0 r) = true → seated p d0 r.
Proof.
  unfold Runtime.callerFound, players_of, order_by. rewrite existsb_exists.
  intros (x & Hx & He). apply bool_decide_eq_true in He. apply list_elem_of_In in Hx.
  rewrite merge_sort_Permutation in Hx. apply list_elem_of_fmap in Hx as ([[r' q] [s t]] & -> & Hx).
  apply elem_of_rows in Hx as [Hx Hr]. cbn in *. apply bool_decide_eq_true in Hr. subst. by exists (s, t).
Qed.

Lemma mine_of r x : rooms d0 !! r = Some x → R_OwnerID x = p → mine p d0 r.
Proof. intros Hx Ho y Hy. congruence. Qed.

Lemma touches_of k s : game_sessions d0 !! k = Some s → takes_part p d0 s → touches p manager d0 k.
Proof. intros Hs Ht s' Hs'. left. congruence. Qed.

Lemma in_reach_part k s : game_sessions d0 !! k = Some s → takes_part p d0 s → in_reach p d0 (GS_RoomID s).
Proof. intros Hs [Hr|Hm]; [right; by left|]. right. right. right. by exists k, s. Qed.

Lemma stays_ApplyMove k payload : stays (Runtime.ApplyMove reg k p payload).
Proof.
  unfold Runtime.ApplyMove. apply stays_session. intros s Hs Hk.
  destruct (Runtime.is_some (GS_FinishedAt s)); [apply wpd_throw, ent_refl|].
  destruct (Runtime.is_some (GS_SuspendedAt s)); [apply wpd_throw, ent_refl|].
  apply stays_read; [unfold Runtime.registry_Get; keep|]. intros g.
  apply wpd_bind, wpd_lift. unfold Unmarshal_state. destruct (GS_State s) as [st|] eqn:Hst; [|apply ent_refl].
  apply stays_read; [keep|]. intros ts. case_decide as Hcur; [apply wpd_throw, ent_refl|].
  assert (to_move p s) as Hm by (exists st; cbn in Hcur; by split).
  assert (takes_part p d0 s) as Ht by by right.
  pose proof (touches_of _ _ Hs Ht). pose proof (in_reach_part _ _ Hs Ht).
  pose proof keeps_game_call. pose proof keeps_Schedule.
  apply stays_keeps. apply keeps_bind; [unfold Runtime.game_call; keep|intros _].
  apply keeps_bind; [unfold Runtime.game_call; keep|intros st'].
  apply keeps_bind; [keep|intros pj]. apply keeps_bind; [keep|intros sj].
  destruct (Runtime.over_result g st') as [over res].
  apply keeps_bind.
  { apply keeps_wrap, keeps_with_tx. unfold Runtime.persistMove.
    apply keeps_bind; [by apply keeps_wrap, keeps_RecordMove|intros _].
    apply keeps_bind; [by eapply keeps_wrap, keeps_UpdateSessionState|intros _].
    apply keeps_bind; [keep|intros _]. destruct over; [|keep].
    apply keeps_bind; [keep|intros _]. apply keeps_bind; [keep|intros _].
    apply keeps_bind; [unfold ListRoomPlayers; keep|intros ps].
    apply keeps_bind; [|intros; keep]. apply keeps_wrap. eapply keeps_CreateGameResult; [|done].
    cbn. by rewrite Hk. }
  intros gr. apply keeps_bind; [unfold GetGameSession; keep|intros s'].
  unfold Runtime.Cancel, Runtime.publishGameFinished, ListRoomPlayers. destruct over; keep.
Qed.

(** The caller is one of the players of the session. *)
Lemma stays_participant {B} k s c (f : list RoomPlayer → M B) (e : error) :
  game_sessions d0 !! k = Some s →
  (takes_part p d0 s → touches p manager d0 k → in_reach p d0 (GS_RoomID s) → stays (f (players_of d0 (GS_RoomID s)))) →
  stays (ps ← wrap c (ListRoomPlayers (GS_RoomID s));
         if negb (Runtime.callerFound p ps) then throw e else f ps).
Proof.
  intros Hs Hf. apply stays_players. destruct (Runtime.callerFound p _) eqn:Hp; cbn; [|apply wpd_throw, ent_refl].
  assert (takes_part p d0 s) as Ht by (left; by apply players_of_seated).
  apply Hf; [done|by eapply touches_of|by eapply in_reach_part].
Qed.

Lemma stays_Surrender k : stays (Runtime.Surrender k p).
Proof.
  unfold Runtime.Surrender. apply stays_session. intros s Hs Hk.
  destruct (Runtime.is_some _); [apply wpd_throw, ent_refl|].
  apply (stays_participant k); [done|]. intros Ht Hto Hin.
  apply stays_keeps. unfold Runtime.Cancel, Runtime.publishGameFinished.
  apply keeps_bind; [keep|intros _]. apply keeps_bind; [keep|intros _].
  apply keeps_bind; [keep|intros t]. apply keeps_bind; [keep|intros r].
  apply keeps_bind; [|intros; keep]. apply keeps_try. eapply keeps_CreateGameResult; [|done].
  cbn. by rewrite Hk.
Qed.

Lemma wpd_isBot q (Φ : result error bool → DB → Prop) d :
  (∀ b, (b = true → robot robots d q) → Φ (Ok b) d) → wpd (Runtime.isBot robots q) Φ d.
Proof.
  intros HΦ. unfold Runtime.isBot. case_decide as Hq; [apply wpd_ret, HΦ; intros _; by left|].
  apply wpd_bind, wpd_try, wpd_queryRow; [intros e; by apply wpd_ret, HΦ|].
  intros _ x Hx. apply wpd_ret, HΦ. intros Hb. right. exists x. split; [|done].
  destruct (players d !! q) as [y|]; [|done]. revert Hx. cbn. destruct (guard _); [|done]. by intros [= ->].
Qed.

Lemma keeps_forBots k ps : keeps ent (Runtime.forBots robots (UpsertRematchVote k) ps).
Proof.
  apply keeps_mapM_. intros x d Hd. apply wpd_bind, wpd_isBot. intros b Hb.
  destruct b; [|by apply wpd_ret]. apply wpd_bind, wpd_try.
  eapply keeps_UpsertRematchVote; [exact Hd|auto|]. intros r d' Hd'. by apply wpd_ret.
Qed.

Lemma stays_VoteRematch k : stays (Runtime.VoteRematch robots k p).
Proof.
  unfold Runtime.VoteRematch. apply stays_session. intros s Hs Hk.
  destruct (is_none _); [apply wpd_throw, ent_refl|]. case_decide; [apply wpd_throw, ent_refl|].
  apply (stays_participant k); [done|]. intros Ht Hto Hin.
  apply stays_keeps. apply keeps_bind.
  { intros d Hd. apply wpd_wrap. eapply keeps_UpsertRematchVote; [exact Hd|auto|done]. }
  intros _. pose proof keeps_forBots. unfold ListRematchVotes, Runtime.Cancel. keep.
Qed.

Lemma stays_VotePause bots k : stays (Runtime.VotePause bots k p).
Proof.
  unfold Runtime.VotePause. apply stays_session. intros s Hs Hk.
  destruct (Runtime.is_some _); [apply wpd_throw, ent_refl|].
  destruct (Runtime.is_some _); [apply wpd_throw, ent_refl|].
  apply stays_players, stays_read; [apply keeps_humanCount|]. intros n.
  destruct (Runtime.callerFound p _) eqn:Hp; cbn; [|apply wpd_throw, ent_refl].
  apply players_of_seated in Hp. assert (touches p manager d0 k) by (eapply touches_of; [done|by left]).
  apply stays_keeps.
  unfold Runtime.Cancel, Store_VotePause, ClearPauseVotes, CountPauseVotes. keep.
Qed.

Lemma stays_VoteResume bots k : stays (Runtime.VoteResume bots k p).
Proof.
  unfold Runtime.VoteResume. apply stays_session. intros s Hs Hk.
  destruct (Runtime.is_some _); [apply wpd_throw, ent_refl|].
  destruct (is_none _); [apply wpd_throw, ent_refl|].
  apply stays_players, stays_read; [apply keeps_humanCount|]. intros n.
  destruct (Runtime.callerFound p _) eqn:Hp; cbn; [|apply wpd_throw, ent_refl].
  apply players_of_seated in Hp. assert (touches p manager d0 k) by (eapply touches_of; [done|by left]).
  apply stays_keeps.
  unfold Runtime.scheduleResumed, Runtime.ScheduleIn, Runtime.enqueue, GetGameSession,
    Store_VoteResume, ClearResumeVotes, CountResumeVotes. keep.
Qed.

Lemma keeps_confirmBots bots k ps b : touches p manager d0 k → keeps ent (Runtime.confirmBots bots k ps b).
Proof.
  intros Hk. revert b. induction ps as [|q ps IH]; intros b; cbn [Runtime.confirmBots]; [keep|].
  pose proof keeps_isBot. keep.
Qed.

Lemma wpd_VoteReady bots k : wpd (Runtime.VoteReady bots k p)
  (λ r d', ent d' ∧ ∀ a, r = Ok a → touches p manager d0 k) d0.
Proof.
  pose proof ent_refl. unfold Runtime.VoteReady.
  apply wpd_bind, wpd_orElse, wpd_GetGameSession; [done|]. intros s Hs.
  destruct (Runtime.is_some _); [by apply wpd_throw|].
  apply wpd_bind, wpd_wrap, wpd_ListRoomPlayers; [done|].
  destruct (Runtime.callerFound p _) eqn:Hp; cbn; [|by apply wpd_throw]. apply players_of_seated in Hp.
  assert (touches p manager d0 k) by (eapply touches_of; [done|by left]).
  eapply wpd_conseq; [apply stays_keeps|by split].
  unfold GetGameSession. pose proof keeps_confirmBots. keep.
Qed.

Lemma keeps_OnAllReady bots s : touches p manager d0 (GS_ID s) → keeps ent (Runtime.OnAllReady bots s).
Proof. intros Hs. unfold Runtime.OnAllReady, Runtime.CancelReady. pose proof keeps_Schedule. keep. Qed.

Lemma keeps_StartSession bots s t : touches p manager d0 (GS_ID s) → keeps ent (Runtime.StartSession bots s t).
Proof.
  intros Hs. unfold Runtime.StartSession, Runtime.ScheduleReady, Runtime.enqueue, ListRoomPlayers.
  assert (∀ ps b, keeps ent (Runtime.startBots bots (GS_ID s) ps b)).
  { induction ps as [|q ps IH]; intros b; cbn [Runtime.startBots]; [keep|]. pose proof keeps_isBot. keep. }
  pose proof keeps_OnAllReady. keep.
Qed.

(** Rooms. *)
Lemma stays_Lobby_CreateRoom g t : stays (Lobby.Lobby_CreateRoom reg g p t).
Proof.
  unfold Lobby.Lobby_CreateRoom. apply stays_read; [unfold IsPlayerInActiveRoom; keep|]. intros [].
  { apply wpd_throw, ent_refl. }
  apply stays_read; [unfold Lobby.registry_Get; keep|]. intros game.
  apply stays_read; [apply keeps_wrap, keeps_generateRoomCode|]. intros code.
  assert (∀ x d, keeps ent (AddPlayerToRoom x p d)) as Hadd by (intros; apply keeps_AddPlayerToRoom; by left).
  apply (wpd_keeps ent); [|apply ent_refl|done|].
  2:{ intros x d Hd. apply (keeps_bind ent); [keep|intros; apply keeps_getRoomView|done]. }
  apply keeps_wrap. unfold CreateRoom. intros d Hd. apply wpd_with_tx; [done|].
  apply wpd_bind, wpd_wrap, wpd_exec; [done|]. intros t' id x d'.
  destruct (rooms d !! id) eqn:Hid; cbn; [done|]. case_match; [|done]. intros [= Hx <-].
  assert (rooms d0 !! id = None) as H0.
  { destruct (rooms d0 !! id) as [y|] eqn:Hy; [|done]. exfalso.
    destruct (e_rooms _ _ _ _ _ Hd id y Hy) as [|[[z ?] _]]; congruence. }
  rewrite Hx. assert (mine p d0 (R_ID x)) by (intros y Hy; subst x; cbn in Hy; congruence).
  eapply wpd_conseq; [apply (keeps_bind ent); [keep|intros; keep|]|by intros []].
  by apply ent_room_new.
Qed.

Lemma stays_JoinRoom c : stays (Lobby.JoinRoom c p).
Proof.
  unfold Lobby.JoinRoom. apply stays_read; [unfold GetRoomByCode; keep|]. intros r.
  case_decide; [apply wpd_throw, ent_refl|].
  apply stays_read; [unfold IsPlayerInActiveRoom; keep|]. intros []; [apply wpd_throw, ent_refl|].
  apply stays_read; [unfold ListRoomPlayers; keep|]. intros ps.
  destruct (_ <=? _)%Z; [apply wpd_throw, ent_refl|]. destruct (existsb _ _); [apply wpd_throw, ent_refl|].
  apply stays_keeps. apply keeps_bind; [apply keeps_wrap, keeps_AddPlayerToRoom; by left|].
  intros _. apply keeps_getRoomView.
Qed.

(** A room without players can be closed by anybody. *)
Lemma players_of_nil d r q : players_of d r = [] → room_players d !! (r, q) = None.
Proof.
  intros Hr. destruct (room_players d !! (r, q)) as [x|] eqn:Hx; [|done]. exfalso.
  assert (mkRoomPlayer r q x.1 x.2 ∈ players_of d r) as Hin.
  { unfold players_of, order_by. rewrite merge_sort_Permutation. apply list_elem_of_fmap.
    exists (r, q, x). split; [done|]. apply elem_of_rows. split; [done|]. by apply bool_decide_eq_true. }
  rewrite Hr in Hin. by apply elem_of_nil in Hin.
Qed.

Lemma keeps_DeleteRoom r d : ent d → players_of d r = [] → in_reach p d0 r →
  wpd (DeleteRoom r) (λ _ d', ent d') d.
Proof.
  intros Hd Hr Hin. unfold DeleteRoom. apply wpd_bind, wpd_wrap, wpd_update; [done|]. intros t.
  assert (filter (λ kv : uuid * uuid * (Z * Z), kv.1.1 ≠ r) (room_players d) = room_players d) as ->.
  { apply map_eq. intros [r' q]. destruct (decide (r' = r)) as [->|Hne].
    - rewrite (players_of_nil d r q Hr). apply map_lookup_filter_None. by left; apply players_of_nil.
    - destruct (room_players d !! (r', q)) as [x|] eqn:Hx.
      + by apply map_lookup_filter_Some.
      + apply map_lookup_filter_None. by left. }
  apply wpd_wrap, wpd_update; [by destruct d|]. intros t'.
  replace (set_room_players (room_players d) d) with d by by destruct d.
  apply ent_room; [done|done|by left].
Qed.

Lemma stays_LeaveRoom r : stays (Lobby.LeaveRoom r p).
Proof.
  unfold Lobby.LeaveRoom. apply stays_room. intros x Hx. case_decide; [apply wpd_throw, ent_refl|].
  apply wpd_bind, wpd_wrap. apply wpd_wrap, wpd_update; [intros; apply ent_refl|]. intros t.
  set (d1 := set_room_players _ _).
  assert (ent d1) as H1.
  { apply ent_leave; [apply ent_refl|apply delete_subseteq|].
    intros r' q' y Hy. rewrite lookup_delete_None. intros [[= <- <-]|]; [by left|congruence]. }
  apply wpd_bind, wpd_wrap, wpd_ListRoomPlayers; [done|].
  destruct (players_of d1 r) as [|o l] eqn:Hl.
  - assert (in_reach p d0 r) as Hin.
    { destruct (room_players d0 !! (r, p)) as [y|] eqn:Hy; [right; left; by exists y|].
      right. right. left. intros q. apply (players_of_nil _ _ q) in Hl. subst d1. cbn in Hl.
      rewrite lookup_delete_None in Hl. destruct Hl as [[= <-]|]; done. }
    apply wpd_bind, wpd_wrap. eapply wpd_conseq; [by apply keeps_DeleteRoom|].
    intros [u|e] d' Hd'; [by apply wpd_ret|done].
  - case_decide as Ho; [|by apply wpd_ret]. assert (mine p d0 r) as Hm by by eapply mine_of.
    assert (in_reach p d0 r) by by left.
    apply (keeps_bind ent); [keep|intros; keep|done].
Qed.

Lemma stays_UpdateRoomSetting r k v : stays (Lobby.UpdateRoomSetting reg r p k v).
Proof.
  unfold Lobby.UpdateRoomSetting. apply stays_room. intros x Hx. case_decide; [apply wpd_throw, ent_refl|].
  case_decide as Ho; [apply wpd_throw, ent_refl|].
  assert (mine p d0 r) as Hm by by eapply mine_of.
  apply stays_keeps. unfold Lobby.registry_Get, Lobby.of_result. keep.
Qed.

(** From any database on the way: the room is the caller's. *)
Lemma keeps_StartGame r m d : ent d →
  wpd (Lobby.StartGame reg r p m) (λ res d', ent d' ∧ ∀ s, res = Ok s → touches p manager d0 (GS_ID s)) d.
Proof.
  intros Hd. unfold Lobby.StartGame.
  apply wpd_bind, wpd_orElse, wpd_GetRoom; [done|]. intros room Hr.
  case_decide; [by apply wpd_throw|]. case_decide as Ho; [by apply wpd_throw|].
  assert (mine p d0 r) as Hm.
  { eapply (e_owner _ _ _ _ _ Hd). by exists room. }
  assert (in_reach p d0 r) by by left.
  set (I := λ d', d' = d).
  assert (∀ (e : error) d', I d' → ent d' ∧ ∀ s, Err e = Ok s → touches p manager d0 (GS_ID s)) as HI by by intros ? ? ->.
  apply (wpd_keeps I); [unfold ListRoomPlayers; keep|done|done|]. intros ps ? ->.
  apply (wpd_keeps I); [unfold Lobby.registry_Get; keep|done|done|]. intros g ? ->.
  case_match; [by apply wpd_throw|].
  apply (wpd_keeps I); [unfold GetRoomSettings; keep|done|done|]. intros settings ? ->.
  apply (wpd_keeps I); [unfold Lobby.resolveTimeout, GetGameConfig; keep|done|done|]. intros timeout ? ->.
  apply (wpd_keeps I); [apply keeps_seatPlayers|done|done|]. intros ps1 ? ->.
  apply (wpd_keeps I); [apply keeps_firstSeatOf|done|done|]. intros seat ? ->.
  apply (wpd_keeps I); [unfold Lobby.of_result; keep|done|done|]. intros ps' ? ->.
  apply (wpd_keeps I); [unfold Lobby.run_Init; keep|done|done|]. intros st ? ->.
  apply wpd_bind, wpd_lift. destruct (Marshal_state st) as [raw|] eqn:Hms; [|done].
  apply wpd_bind, wpd_wrap, wpd_exec; [done|]. intros t id s d' Hf.
  destruct (game_sessions d !! id) eqn:Hid; cbn in Hf; [done|].
  destruct (negb _ && _) in Hf; [|done]. injection Hf as Hs <-. rewrite Hs.
  assert (ent (set_sessions (<[id := s]> (game_sessions d)) d)) as Hnew.
  { apply ent_session_new; [done|done|]. by subst s. }
  assert (touches p manager d0 (GS_ID s)) as Ht.
  { subst s. cbn. intros s' Hs'. exfalso.
    assert (id ∈ dom (game_sessions d)) as Hin by (apply (e_kept _ _ _ _ _ Hd), elem_of_dom; eauto).
    apply elem_of_dom in Hin as [? ?]. congruence. }
  apply wpd_bind, wpd_wrap. eapply wpd_conseq; [by eapply (keeps_UpdateRoomStatus p manager robots d0)|].
  intros [[]|e] d' Hd'; [|done]. apply wpd_ret. split; [done|]. by intros s' [= <-].
Qed.
End Operations.
