(* ===== verification/Api.v ===== *)
(** The HTTP interface of the game server (internal/platform/api): the handlers of rooms,
    sessions, bots and statistics over the services, behind the session cookie, and the
    router. Path parameters and queries are strings; a body is what it decodes to. The
    metrics, which nothing here reads back, and the scenario fixtures are left out. *)
From S2P Require Import Prelude Json Float64 Engine Randutil Backend Store Lobby Runtime.
From S2P Require Import Middleware Bot Mcts EventLog.
Import Float64 Middleware.

Module Api.

(** What ends a handler early, through its callers: a run-time panic. *)
Fixpoint panics (e : error) : bool :=
  match e with
  | Panic _ => true
  | Game_error g => is_panic g
  | Wrap _ e => panics e
  | _ => false
  end.

(** A request body: what the schema validator objects to, and what it decodes to. *)
Record upload (A : Type) := mkUpload { objections : option (list string); content : option A }.
Arguments mkUpload {A} _ _.
Arguments objections {A} _.
Arguments content {A} _.

(** The verdict of the rate limiter on a request. *)
Inductive verdict : Type := Allowed | Limited (reset : Z) | Unavailable.

Section Api.
Context `{U : UUID} `{E : Entropy} `{S : !Server} `{R : Bot.Rand} `{L : Mcts.MathLog} `{J : !JWT}.

(** [uuid.Nil], and [uuid.New()] from the random source of the process. *)
Variable Nil : uuid.
Variable uuid_New : nat → uuid.

Variable reg : registry.
Variable adapters : gmap string Bot.Factory.
Variable env : Bot.BotEnv.

(** The fuel of a bot's search. *)
Variable fuel : nat.

(** ** Events of the hub (shared/ws, internal/platform/ws/hub.go) *)

Definition EventMoveApplied : string := "move_applied".
Definition EventGameOver : string := "game_over".
Definition EventPlayerJoined : string := "player_joined".
Definition EventPlayerLeft : string := "player_left".
Definition EventOwnerChanged : string := "owner_changed".
Definition EventRoomClosed : string := "room_closed".
Definition EventGameStarted : string := "game_started".
Definition EventRematchVote : string := "rematch_vote".
Definition EventGameReady : string := "game_ready".
Definition EventPlayerReady : string := "player_ready".
Definition EventRematchReady : string := "rematch_ready".
Definition EventSettingUpdated : string := "setting_updated".
Definition EventPauseVoteUpdate : string := "pause_vote_update".
Definition EventSessionSuspended : string := "session_suspended".
Definition EventResumeVoteUpdate : string := "resume_vote_update".
Definition EventSessionResumed : string := "session_resumed".

Inductive payload : Type :=
  | P_null
  | P_view (v : Lobby.RoomView)
  | P_move (r : Runtime.MoveResult)
  | P_session (s : GameSession)
  | P_owner (p : uuid)
  | P_player (p : uuid)
  | P_setting (key value : string)
  | P_ready (r : Runtime.ReadyVoteResult)
  | P_room (r : uuid)
  | P_ready_session (s : uuid)
  | P_rematch (player : uuid) (votes total : Z)
  | P_votes (votes required : Z)
  | P_suspended_at (t : option Z)
  | P_resumed_at (t : Z).

Record Event := mkEvent { Type_ : string; Payload : payload }.

(** ** The state of the process *)

(** The registered bots, what the hub has published, and the bots that were woken: the
    session they look at and their id. *)
Record Srv := mkSrv {
  bots : gmap uuid Bot.BotPlayer;
  sent : list (Runtime.delivery Event);
  woken : list (uuid * uuid * Bot.BotPlayer)
}.

Definition registered (s : Srv) : list uuid := (map_to_list (bots s)).*1.

(** A handler: a call that also reads and changes the state of the process. *)
Definition H (A : Type) : Type := Srv → M (A * Srv).

#[global] Instance H_ret : MRet H := λ A a s, mret (a, s).
#[global] Instance H_bind : MBind H := λ A B f h s, r ← h s; f r.1 r.2.

Definition with_bots {A} (m : list uuid → M A) : H (result error A) := λ s,
  r ← try (m (registered s));
  match r with
  | Err e => if panics e then throw e else mret (r, s)
  | Ok _ => mret (r, s)
  end.

Definition call {A} (m : M A) : H (result error A) := with_bots (λ _, m).

Definition send (ms : list (Runtime.delivery Event)) : H unit := λ s,
  mret (tt, mkSrv (bots s) (sent s ++ ms) (woken s)).
Definition RegisterBot (id : uuid) (b : Bot.BotPlayer) : H unit := λ s,
  mret (tt, mkSrv (<[id := b]> (bots s)) (sent s) (woken s)).
Definition UnregisterBot (id : uuid) : H unit := λ s,
  mret (tt, mkSrv (delete id (bots s)) (sent s) (woken s)).

(** The goroutine it starts is [bot_turn]. *)
Definition MaybeFireBot (session currentPlayer : uuid) : H unit := λ s,
  mret (tt, match bots s !! currentPlayer with
            | Some b => mkSrv (bots s) (sent s) (woken s ++ [(session, currentPlayer, b)])
            | None => s
            end).

Definition new_uuid : M uuid := λ w, (Ok (uuid_New (stmts w)), w).

(** [hub.Broadcast], which reaches everybody in the room. *)
Definition Broadcast (room : uuid) (type : string) (p : payload) : H unit :=
  send [Runtime.ToRoom _ room (mkEvent type p)].

Definition deliver {A} (f : A → Event) (m : Runtime.delivery A) : Runtime.delivery Event :=
  match m with
  | Runtime.ToPlayer _ p a => Runtime.ToPlayer _ p (f a)
  | Runtime.ToSpectators _ r a => Runtime.ToSpectators _ r (f a)
  | Runtime.ToRoom _ r a => Runtime.ToRoom _ r (f a)
  end.

(** ** Responses (api_session_types.go, dto.go) *)

Record GameSessionDTO := mkSessionDTO {
  SD_ID : uuid; SD_RoomID : uuid; SD_GameID : string; SD_Name : option string; SD_Mode : string;
  SD_MoveCount : Z; SD_SuspendCount : Z; SD_SuspendedAt : option Z; SD_SuspendedReason : option string;
  SD_ReadyPlayers : list string; SD_TurnTimeoutSecs : option Z; SD_LastMoveAt : Z; SD_StartedAt : Z;
  SD_FinishedAt : option Z
}.

(** The state of the game is left out. *)
Definition sessionToDTO (s : GameSession) : GameSessionDTO :=
  mkSessionDTO (GS_ID s) (GS_RoomID s) (GS_GameID s) (GS_Name s) (GS_Mode s) (GS_MoveCount s)
    (GS_SuspendCount s) (GS_SuspendedAt s) (GS_SuspendedReason s) (GS_ReadyPlayers s)
    (GS_TurnTimeoutSecs s) (GS_LastMoveAt s) (GS_StartedAt s) (GS_FinishedAt s).

(** The state after the move is the base64 text of its JSON. *)
Record MoveDTO := mkMoveDTO {
  MD_ID : uuid; MD_SessionID : uuid; MD_PlayerID : uuid; MD_Payload : data; MD_StateAfter : stateJSON;
  MD_MoveNumber : Z; MD_AppliedAt : Z
}.

Definition moveToDTO (m : StoreMove) : MoveDTO :=
  mkMoveDTO (M_ID m) (M_SessionID m) (M_PlayerID m) (M_Payload m) (M_StateAfter m) (M_MoveNumber m)
    (M_AppliedAt m).

Record SessionEventDTO := mkEventDTO {
  ED_ID : EventLog.entry_id; ED_SessionID : uuid; ED_EventType : string; ED_PlayerID : option uuid;
  ED_Payload : option string; ED_OccurredAt : Z
}.

Definition sessionEventToDTO (e : EventLog.Event) : SessionEventDTO :=
  mkEventDTO (EventLog.ID e) (EventLog.SessionID e) (EventLog.Event_Type e) (EventLog.PlayerID e)
    (EventLog.Payload e) (EventLog.OccurredAt e).

Record SessionResponse := mkSessionResponse {
  SR_Session : GameSessionDTO; SR_State : GameState; SR_Result : option GameResult
}.
Record MoveAckResponse := mkMoveAck { MA_MoveNumber : Z; MA_IsOver : bool }.
Record RematchResponse := mkRematchResponse { RM_Votes : Z; RM_TotalPlayers : Z }.
Record gameInfo := mkGameInfo {
  GI_ID : string; GI_Name : string; GI_MinPlayers : Z; GI_MaxPlayers : Z; GI_Settings : list LobbySetting
}.
Record profileResponse := mkProfileResponse {
  PR_Name : string; PR_Iterations : Z; PR_Determinizations : Z; PR_ExplorationC : f64;
  PR_Aggressiveness : f64; PR_RiskAversion : f64
}.
Record systemStatsResponse := mkSystemStats {
  OnlinePlayers : Z; ActiveRooms : Z; ActiveSessions : Z; TotalPlayers : Z; TotalSessionsToday : Z
}.

Inductive body : Type :=
  | B_error (msg : string)
  | B_failure (e : error)                              (* the text of an error *)
  | B_validation (details : list string)
  | B_rate (reset : Z)
  | B_active_session (session : string)                (* "active session exists" *)
  | B_empty
  | B_status (s : string)
  | B_games (l : list gameInfo)
  | B_profiles (l : list profileResponse)
  | B_room (v : Lobby.RoomView)
  | B_rooms (l : list Lobby.RoomView) (total : Z)
  | B_raw_session (s : GameSession)
  | B_raw_sessions (l : list GameSession)
  | B_session (r : SessionResponse)
  | B_stats (s : PlayerStats)
  | B_matches (l : list MatchHistoryEntry) (total : Z)
  | B_moves (l : list MoveDTO)
  | B_events (l : list SessionEventDTO)
  | B_ack (a : MoveAckResponse)
  | B_rematch (r : RematchResponse)
  | B_pause (r : Runtime.PauseVoteResult)
  | B_ready (r : Runtime.ReadyVoteResult)
  | B_player (p : StorePlayer)
  | B_system (s : systemStatsResponse).

Definition handler : Type := H (response body).

Definition writeJSON (status : Z) (b : body) : handler := mret (mkResponse status b).
Definition writeError (status : Z) (msg : string) : handler :=
  Middleware.writeError (M := H) B_error status msg.
Definition writeFailure (status : Z) (e : error) : handler := writeJSON status (B_failure e).
Definition noContent : handler := writeJSON StatusNoContent B_empty.

(** The status of the first error of the table that [errors.Is] finds. *)
Fixpoint status_of (table : list (error * Z)) (e : error) : option Z :=
  match table with
  | [] => None
  | (target, status) :: table => if errors_Is e target then Some status else status_of table e
  end.

Definition write_error (table : list (error * Z)) (e : error) : handler :=
  match status_of table e with
  | Some status => writeFailure status e
  | None => writeError StatusInternalServerError "internal error"
  end.

Definition writeLobbyError : error → handler := write_error [
  (Lobby.ErrRoomNotFound, StatusNotFound);
  (Lobby.ErrGameNotFound, StatusNotFound);
  (Lobby.ErrRoomFull, StatusConflict);
  (Lobby.ErrAlreadyInRoom, StatusConflict);
  (Lobby.ErrPlayerBusy, StatusConflict);
  (Lobby.ErrRoomNotWaiting, StatusConflict);
  (Lobby.ErrNotOwner, StatusForbidden);
  (Lobby.ErrNotEnoughPlayer, StatusBadRequest);
  (Lobby.ErrUnknownSetting, StatusBadRequest);
  (Lobby.ErrInvalidSettingVal, StatusBadRequest);
  (Runtime.ErrNotParticipant, StatusForbidden);
  (Runtime.ErrNotFinished, StatusConflict)].

Definition writeRuntimeError : error → handler := write_error [
  (Runtime.ErrSessionNotFound, StatusNotFound);
  (Runtime.ErrGameNotFound, StatusNotFound);
  (Runtime.ErrGameOver, StatusConflict);
  (Runtime.ErrSuspended, StatusConflict);
  (Runtime.ErrNotParticipant, StatusForbidden);
  (Runtime.ErrRematchNotAllowedRanked, StatusForbidden);
  (Runtime.ErrNotYourTurn, StatusForbidden);
  (Runtime.ErrInvalidMove, StatusBadRequest)].

(** ** Steps that the handlers share *)

(** [id, err := uuid.Parse(chi.URLParam(...))] *)
Definition parse_id (raw msg : string) (k : uuid → handler) : handler :=
  match uuid_Parse raw with Some u => k u | None => writeError StatusBadRequest msg end.

Definition decode {A} (b : upload A) (k : A → handler) : handler :=
  match content b with Some x => k x | None => writeError StatusBadRequest "invalid request body" end.

(** [sharedmw.PlayerIDFromContext], with and without the check. *)
Definition caller (ctx : option Claims) (k : uuid → handler) : handler :=
  match ctx with Some c => k (PlayerID c) | None => writeError StatusUnauthorized "unauthorized" end.
Definition caller_or_Nil (ctx : option Claims) : uuid := from_option PlayerID Nil ctx.

(** [if err != nil { ...; return }] *)
Definition checked {A B} (h : H (result error A)) (fail : error → H B) (k : A → H B) : H B :=
  r ← h;
  match r with Ok a => k a | Err e => fail e end.
Definition or_500 {A} (m : M A) (msg : string) (k : A → handler) : handler :=
  checked (call m) (λ _, writeError StatusInternalServerError msg) k.
Definition or_404 {A} (m : M A) (msg : string) (k : A → handler) : handler :=
  checked (call m) (λ _, writeError StatusNotFound msg) k.

(** [strconv.Atoi] of a query parameter within bounds, or the default. *)
Definition query_limit (max dflt : Z) (v : string) : Z :=
  match Lobby.Atoi v with
  | Some n => if ((0 <? n) && (n <=? max))%Z then n else dflt
  | None => dflt
  end.
Definition query_offset (v : string) : Z :=
  match Lobby.Atoi v with Some n => if (0 <=? n)%Z then n else 0%Z | None => 0%Z end.

(** [rt.BroadcastMove] to the players of the room. *)
Definition broadcast_move (result : Runtime.MoveResult) (type : string) : H unit :=
  ps ← call (ListRoomPlayers (GS_RoomID (Runtime.MR_Session result)));
  send (deliver (λ r, mkEvent type (P_move r)) <$>
    Runtime.BroadcastMove reg result (Runtime.players_or_none ps)).

(** The player to move is woken if it is a bot. *)
Definition wake_current (session : uuid) (st : GameState) : H unit :=
  match uuid_Parse (CurrentPlayerID st) with Some p => MaybeFireBot session p | None => mret tt end.

Definition wake (session : uuid) (b : option uuid) : H unit :=
  match b with Some b => MaybeFireBot session b | None => mret tt end.

(** [rt.OnAllReady] and [rt.StartSession] with what they broadcast. *)
Definition all_ready (session : GameSession) (b : option uuid) : H unit :=
  Broadcast (GS_RoomID session) EventGameReady (P_ready_session (GS_ID session));;
  wake (GS_ID session) b.

Definition OnAllReady (session : GameSession) : H unit :=
  r ← with_bots (λ bots, Runtime.OnAllReady bots session);
  match r with Ok b => all_ready session b | Err _ => mret tt end.

Definition DefaultReadyTimeout : Z := 60 * Runtime.second.

Definition StartSession (session : GameSession) : H unit :=
  r ← with_bots (λ bots, Runtime.StartSession bots session DefaultReadyTimeout);
  match r with Ok (Some b) => all_ready session b | _ => mret tt end.

Definition BroadcastSessionStarted (session : GameSession) : H unit :=
  ms ← call (Runtime.BroadcastSessionStarted reg session);
  match ms with
  | Ok ms => send (deliver (λ s, mkEvent EventGameStarted (P_session s)) <$> ms)
  | Err _ => mret tt
  end.

(** ** Sessions (api_session.go) *)

Definition handleListPlayerSessions (playerID : string) (ctx : option Claims) : handler :=
  parse_id playerID "invalid player_id" (λ p,
    or_500 (ListActiveSessions p) "failed to list sessions" (λ l, writeJSON StatusOK (B_raw_sessions l))).

Definition handleGetPlayerStats (playerID : string) (ctx : option Claims) : handler :=
  parse_id playerID "invalid player_id" (λ p,
    or_500 (GetPlayerStats p) "failed to get stats" (λ s, writeJSON StatusOK (B_stats s))).

Definition handleListPlayerMatches (playerID limit offset : string) (ctx : option Claims) : handler :=
  parse_id playerID "invalid player_id" (λ p,
    or_500 (ListPlayerMatches p (query_limit 100 20 limit) (query_offset offset))
      "failed to list matches" (λ l,
    or_500 (CountPlayerMatches p) "failed to count matches" (λ n, writeJSON StatusOK (B_matches l n)))).

Definition ack (result : Runtime.MoveResult) : handler :=
  writeJSON StatusOK (B_ack (mkMoveAck (GS_MoveCount (Runtime.MR_Session result)) (Runtime.MR_IsOver result))).

Definition handleMove (sessionID : string) (req : upload data) (ctx : option Claims) : handler :=
  parse_id sessionID "invalid session id" (λ s, decode req (λ payload, caller ctx (λ p,
    checked (call (Runtime.ApplyMove reg s p payload)) writeRuntimeError (λ result,
      broadcast_move result (if Runtime.MR_IsOver result then EventGameOver else EventMoveApplied);;
      (if Runtime.MR_IsOver result then mret tt else wake_current s (Runtime.MR_State result));;
      ack result)))).

(** The state is the caller's view. *)
Definition handleGetSession (sessionID : string) (ctx : option Claims) : handler :=
  parse_id sessionID "invalid session id" (λ s,
    checked (call (Runtime.GetSessionAndState s)) writeRuntimeError (λ '(session, state, result),
      writeJSON StatusOK (B_session (mkSessionResponse (sessionToDTO session)
        (Runtime.Svc_FilterState reg (GS_GameID session) state (caller_or_Nil ctx)) result)))).

(** What [events.Store.Read] answers is [EventLog.Read]. *)
Definition handleGetSessionEvents (sessionID : string)
    (Read : uuid → result error (list EventLog.Event)) (ctx : option Claims) : handler :=
  parse_id sessionID "invalid session id" (λ s,
    match Read s with
    | Err _ => writeError StatusInternalServerError "failed to get events"
    | Ok l => writeJSON StatusOK (B_events (sessionEventToDTO <$> l))
    end).

(** The nil id is answered with an empty 200. *)
Definition handlePlayerReady (sessionID : string) (ctx : option Claims) : handler :=
  parse_id sessionID "invalid sessionID" (λ s,
    if decide (s = Nil) then writeJSON StatusOK B_empty
    else
      checked (with_bots (λ bots, Runtime.VoteReady bots s (caller_or_Nil ctx))) writeRuntimeError (λ result,
        if Runtime.RV_AllReady result then
          or_500 (GetGameSession s) "internal error" (λ session,
            OnAllReady session;; writeJSON StatusOK (B_ready result))
        else
          session ← call (GetGameSession s);
          Broadcast (match session with Ok x => GS_RoomID x | Err _ => Nil end)
            EventPlayerReady (P_ready result);;
          writeJSON StatusOK (B_ready result))).

Definition handleSurrender (sessionID : string) (req : upload unit) (ctx : option Claims) : handler :=
  parse_id sessionID "invalid session id" (λ s, decode req (λ _, caller ctx (λ p,
    checked (call (Runtime.Surrender s p)) writeRuntimeError (λ result,
      broadcast_move result EventGameOver;; ack result)))).

(** The new session, announced; the error is logged and the players sent to the room. *)
Definition start_rematch (room player : uuid) (mode : string) : H unit :=
  checked (call (Lobby.StartGame reg room player mode))
    (λ _, Broadcast room EventRematchReady (P_room room)) (λ session,
      StartSession session;;
      BroadcastSessionStarted session;;
      match Unmarshal_state (GS_State session) with
      | Some st => wake_current (GS_ID session) st
      | None => mret tt
      end).

Definition handleRematch (sessionID : string) (req : upload unit) (ctx : option Claims) : handler :=
  parse_id sessionID "invalid session id" (λ s, decode req (λ _, caller ctx (λ p,
    checked (with_bots (λ bots, Runtime.VoteRematch bots s p)) writeRuntimeError (λ r,
      let votes := count (Runtime.RR_Votes r) in
      (if Runtime.RR_AllVoted r then start_rematch (Runtime.RR_RoomID r) p (Runtime.RR_Mode r)
       else Broadcast (Runtime.RR_RoomID r) EventRematchVote (P_rematch p votes (Runtime.RR_Total r)));;
      writeJSON StatusOK (B_rematch (mkRematchResponse votes (Runtime.RR_Total r))))))).

Definition handleGetSessionHistory (sessionID limit offset : string) (ctx : option Claims) : handler :=
  parse_id sessionID "invalid session id" (λ s,
    or_500 (ListSessionMoves s (query_limit 200 50 limit) (query_offset offset))
      "failed to get history" (λ l, writeJSON StatusOK (B_moves (moveToDTO <$> l)))).

Definition writePauseError : error → handler := write_error [
  (Runtime.ErrSessionNotFound, StatusNotFound);
  (Runtime.ErrGameOver, StatusConflict);
  (Runtime.ErrAlreadyPaused, StatusConflict);
  (Runtime.ErrNotParticipant, StatusForbidden)].

Definition writeResumeError : error → handler := write_error [
  (Runtime.ErrSessionNotFound, StatusNotFound);
  (Runtime.ErrGameOver, StatusConflict);
  (Runtime.ErrNotSuspended, StatusConflict);
  (Runtime.ErrNotParticipant, StatusForbidden)].

Definition handleVotePause (sessionID : string) (ctx : option Claims) : handler :=
  parse_id sessionID "invalid session id" (λ s, caller ctx (λ p,
    checked (with_bots (λ bots, Runtime.VotePause bots s p)) writePauseError (λ result,
      or_500 (Runtime.GetSessionAndState s) "internal error" (λ '(session, _, _),
        (if Runtime.PV_AllVoted result
         then Broadcast (GS_RoomID session) EventSessionSuspended (P_suspended_at (GS_SuspendedAt session))
         else Broadcast (GS_RoomID session) EventPauseVoteUpdate
                (P_votes (Runtime.PV_Votes result) (Runtime.PV_Required result)));;
        writeJSON StatusOK (B_pause result))))).

Definition handleVoteResume (sessionID : string) (ctx : option Claims) : handler :=
  parse_id sessionID "invalid session id" (λ s, caller ctx (λ p,
    checked (with_bots (λ bots, Runtime.VoteResume bots s p)) writeResumeError (λ result,
      or_500 (Runtime.GetSessionAndState s) "internal error" (λ '(session, _, _),
        (if Runtime.PV_AllVoted result
         then Broadcast (GS_RoomID session) EventSessionResumed (P_resumed_at (GS_LastMoveAt session))
         else Broadcast (GS_RoomID session) EventResumeVoteUpdate
                (P_votes (Runtime.PV_Votes result) (Runtime.PV_Required result)));;
        writeJSON StatusOK (B_pause result))))).

Definition handleForceCloseSession (sessionID : string) (ctx : option Claims) : handler :=
  parse_id sessionID "invalid session id" (λ s,
    or_404 (GetGameSession s) "session not found" (λ session,
    or_500 (ForceCloseSession s) "failed to close session" (λ _,
      Broadcast (GS_RoomID session) EventRoomClosed P_null;; noContent))).

(** ** Games and rooms (api_lobby.go) *)

Definition gameEnabledFlag (gameID : string) : string := "game-" +:+ gameID +:+ "-enabled".

(** The games whose flag is not off, in the order in which the registry lists them; the
    flag of a game nobody has set is on. *)
Definition handleListGames (flags : option (string → bool → bool)) (ctx : option Claims) : handler :=
  let shown g := match flags with Some isEnabled => isEnabled (gameEnabledFlag (ID g)) true | None => true end in
  writeJSON StatusOK (B_games ((λ g,
    mkGameInfo (ID g) (Name g) (MinPlayers g) (MaxPlayers g)
      (match LobbySettings g with
       | Some own => foldl Lobby.upsertSetting DefaultLobbySettings own
       | None => DefaultLobbySettings
       end)) <$> filter (λ g, shown g = true) (map_to_list reg).*2)).

(** Whether the player has an unfinished session; when that cannot be found out, it
    has none. *)
Definition hasActiveSession (p : uuid) : H (option string) :=
  r ← call (ListActiveSessions p);
  mret (match r with Ok (s :: _) => Some (uuid_String (GS_ID s)) | _ => None end).

(** [if blocked, sessionID := hasActiveSession(...); blocked] *)
Definition unless_active (p : uuid) (k : handler) : handler :=
  blocked ← hasActiveSession p;
  match blocked with
  | Some s => writeJSON StatusConflict (B_active_session s)
  | None => k
  end.

Definition handleCreateRoom (req : upload (string * option Z)) (ctx : option Claims) : handler :=
  decode req (λ '(gameID, timeout), caller ctx (λ p, unless_active p (
    checked (call (Lobby.Lobby_CreateRoom reg gameID p timeout)) writeLobbyError (λ view,
      writeJSON StatusCreated (B_room view))))).

Definition handleListRooms (limit offset : string) (ctx : option Claims) : handler :=
  or_500 (Lobby.Lobby_ListWaitingRooms (query_limit 100 20 limit) (query_offset offset))
    "failed to list rooms" (λ '(rooms, total), writeJSON StatusOK (B_rooms rooms total)).

Definition handleGetRoom (roomID : string) (ctx : option Claims) : handler :=
  parse_id roomID "invalid room id" (λ r,
    checked (call (Lobby.Lobby_GetRoom r)) writeLobbyError (λ view, writeJSON StatusOK (B_room view))).

Definition handleJoinRoom (req : upload string) (ctx : option Claims) : handler :=
  decode req (λ code, caller ctx (λ p, unless_active p (
    checked (call (Lobby.JoinRoom code p)) writeLobbyError (λ view,
      Broadcast (R_ID (Lobby.V_Room view)) EventPlayerJoined (P_view view);;
      writeJSON StatusOK (B_room view))))).

Definition handleLeaveRoom (roomID : string) (req : upload unit) (ctx : option Claims) : handler :=
  parse_id roomID "invalid room id" (λ r, decode req (λ _, caller ctx (λ p,
    checked (call (Lobby.LeaveRoom r p)) writeLobbyError (λ result,
      (if Lobby.RoomClosed result then Broadcast r EventRoomClosed P_null
       else match Lobby.NewOwnerID result with
            | Some o => Broadcast r EventOwnerChanged (P_owner o)
            | None => Broadcast r EventPlayerLeft (P_player p)
            end);;
      noContent)))).

Definition handleStartGame (roomID : string) (req : upload unit) (ctx : option Claims) : handler :=
  parse_id roomID "invalid room id" (λ r, decode req (λ _, caller ctx (λ p,
    checked (call (Lobby.StartGame reg r p SessionModeCasual)) writeLobbyError (λ session,
      StartSession session;;
      BroadcastSessionStarted session;;
      writeJSON StatusOK (B_raw_session session))))).

Definition handleUpdateRoomSetting (roomID key : string) (req : upload string) (ctx : option Claims)
    : handler :=
  parse_id roomID "invalid room id" (λ r,
    if decide (key = "") then writeError StatusBadRequest "setting key is required"
    else decode req (λ value, caller ctx (λ p,
      checked (call (Lobby.UpdateRoomSetting reg r p key value)) writeLobbyError (λ _,
        Broadcast r EventSettingUpdated (P_setting key value);; noContent)))).

(** ** Bots (api_bots.go) *)

Definition profile_order (name : string) : Z :=
  if decide (name = "medium") then 1 else if decide (name = "hard") then 2
  else if decide (name = "aggressive") then 3 else 0.

(** The order of the answer: a profile that is not in the table sorts with the first. *)
Definition profile_le (x y : profileResponse) : Prop :=
  (profile_order (PR_Name x) < profile_order (PR_Name y))%Z ∨
  profile_order (PR_Name x) = profile_order (PR_Name y) ∧
    String.leb (PR_Name x) (PR_Name y) = true.
#[export] Instance profile_le_dec x y : Decision (profile_le x y).
Proof. unfold profile_le. apply _. Defined.

Definition handleListBotProfiles (ctx : option Claims) : handler :=
  writeJSON StatusOK (B_profiles (merge_sort profile_le
    ((λ p, mkProfileResponse (Bot.Name p) (Bot.Profile_Iterations p) (Bot.Profile_Determinizations p)
       (Bot.Profile_ExplorationC p) (Bot.Aggressiveness p) (Bot.RiskAversion p))
     <$> (map_to_list Bot.Profiles).*2))).

Definition game_result {A} (r : result gerror A) : M A :=
  match r with Ok a => mret a | Err e => throw (Game_error e) end.

(** [mcts.Search], within the fuel. *)
Definition search : Bot.SearchFunc := λ ctx st p adapter cfg src,
  Mcts.Search adapter fuel ctx st p cfg src.

Definition handleAddBot (roomID : string) (req : upload string) (ctx : option Claims) : handler :=
  parse_id roomID "invalid room id" (λ r, decode req (λ asked,
    let profile := if decide (asked = "") then "medium" else asked in
    match Bot.ConfigFromProfile env profile with
    | Err _ => writeError StatusBadRequest ("unknown bot profile: " +:+ profile)
    | Ok cfg =>
    or_404 (GetRoom r) "room not found" (λ room, caller ctx (λ p,
    if decide (R_OwnerID room ≠ p) then writeError StatusForbidden "only the room owner can add bots"
    else
    checked (call (game_result (Bot.NewWithProfile (R_GameID room) (Bot.Personality cfg) adapters)))
      (λ _, writeError StatusBadRequest "no bot adapter for game") (λ adapter,
    or_500 (u ← new_uuid;
            CreateBotPlayer ("bot:" +:+ profile +:+ ":" +:+ String.substring 0 8 (uuid_String u)))
      "failed to create bot player" (λ botPlayer,
    or_500 (ListRoomPlayers r) "failed to list room players" (λ roomPlayers,
    or_500 (AddPlayerToRoom r (P_ID botPlayer) (count roomPlayers)) "failed to add bot to room" (λ _,
    RegisterBot (P_ID botPlayer)
      (Bot.mkBotPlayer (uuid_String (P_ID botPlayer)) (R_GameID room) adapter cfg search);;
    session ← call (GetActiveSessionByRoom r);
    match session with
    | Ok s => MaybeFireBot (GS_ID s) (P_ID botPlayer)
    | Err _ => mret tt
    end;;
    writeJSON StatusCreated (B_player botPlayer)))))))
    end)).

Definition handleRemoveBot (roomID botID : string) (req : upload unit) (ctx : option Claims) : handler :=
  parse_id roomID "invalid room id" (λ r, parse_id botID "invalid bot id" (λ b,
    or_404 (GetRoom r) "room not found" (λ room, caller ctx (λ p,
    if decide (R_OwnerID room ≠ p) then writeError StatusForbidden "only the room owner can remove bots"
    else
    or_404 (GetPlayer b) "bot not found" (λ botPlayer,
    if negb (P_IsBot botPlayer) then writeError StatusBadRequest "player is not a bot"
    else
    or_500 (ListRoomPlayers r) "failed to list room players" (λ roomPlayers,
    if negb (Runtime.callerFound b roomPlayers) then writeError StatusNotFound "bot is not in this room"
    else
    UnregisterBot b;;
    or_500 (RemovePlayerFromRoom r b) "failed to remove bot from room" (λ _,
    Broadcast r EventPlayerLeft (P_player b);; noContent))))))).

(** The turn of a bot that was woken (runtime_bot.go). A failed decision and a failed move
    are logged; a crash of the search takes the process down. *)
Definition bot_turn (s id : uuid) (b : Bot.BotPlayer) (ctx : Bot.context) (src : Bot.sources) : H unit :=
  session ← call (GetGameSession s);
  match session with
  | Err _ => mret tt
  | Ok x =>
    if Runtime.is_some (GS_FinishedAt x) || Runtime.is_some (GS_SuspendedAt x) then mret tt
    else match Unmarshal_state (GS_State x) with
    | None => mret tt
    | Some st =>
      if decide (CurrentPlayerID st ≠ uuid_String id) then mret tt
      else if Bot.IsTerminal (Bot.BP_Adapter b) st then mret tt
      else match Bot.DecideMove b ctx st src with
      | Err (Bot.Crash (GPanic what)) => λ _, throw (Panic what)
      | Err _ => mret tt
      | Ok payload =>
        call (rand_Intn 600);;
        result ← call (Runtime.ApplyMove reg s id payload);
        match result with
        | Err _ => mret tt
        | Ok result =>
          broadcast_move result (if Runtime.MR_IsOver result then EventGameOver else EventMoveApplied);;
          if Runtime.MR_IsOver result then mret tt else wake_current s (Runtime.MR_State result)
        end
      end
    end
  end.

(** ** Statistics (api_admin.go) *)

(** The loop over the pages of a SCAN, which ends with the last one or an error. *)
Fixpoint count_pages (pages : list (option (list string))) : Z :=
  match pages with
  | Some keys :: pages => (count keys + count_pages pages)%Z
  | _ => 0%Z
  end.

(** Without Redis nobody is online. *)
Definition countOnlinePlayers (rdb : option (list (option (list string)))) : Z :=
  from_option count_pages 0%Z rdb.

Definition handleGetSystemStats (rdb : option (list (option (list string)))) (ctx : option Claims) : handler :=
  let online := countOnlinePlayers rdb in
  or_500 CountActiveRooms "internal error" (λ activeRooms,
  or_500 CountActiveSessions "internal error" (λ activeSessions,
  or_500 CountTotalPlayers "internal error" (λ totalPlayers,
  or_500 CountSessionsToday "internal error" (λ sessionsToday,
  writeJSON StatusOK (B_system (mkSystemStats online activeRooms activeSessions totalPlayers sessionsToday)))))).

(** ** Loading a state (api_debug.go) *)

Definition applyLoadedState (s : uuid) (rawState : stateJSON) : handler :=
  checked (call (Runtime.LoadState s rawState)) writeRuntimeError (λ result,
    broadcast_move result EventMoveApplied;;
    wake_current s (Runtime.MR_State result);;
    ack result).

(** [Some None] is a body without a state. *)
Definition handleLoadState (sessionID : string) (req : upload (option stateJSON)) (ctx : option Claims)
    : handler :=
  parse_id sessionID "invalid session id" (λ s, decode req (λ state,
    match state with
    | None => writeError StatusBadRequest "state is required"
    | Some raw => applyLoadedState s raw
    end)).

(** ** The router (api.go) *)

Definition handleHealth : handler := writeJSON StatusOK (B_status "ok").

Definition role_rank (role : string) : Z :=
  if decide (role = RoleManager) then 1 else if decide (role = RoleOwner) then 2 else 0.

(** [RoleFromContext] finds the role wherever the id is found. *)
Definition requireRole (minimum : string) (next : option Claims → handler) (ctx : option Claims) : handler :=
  match ctx with
  | None => writeError StatusUnauthorized "unauthorized"
  | Some c =>
      if (role_rank (ClaimRole c) <? role_rank minimum)%Z then writeError StatusForbidden "forbidden"
      else next ctx
  end.

(** [schemas.ValidateBody] *)
Definition validate {A} (req : upload A) (next : option Claims → handler) (ctx : option Claims) : handler :=
  match objections req with
  | Some details => writeJSON StatusBadRequest (B_validation details)
  | None => next ctx
  end.

(** [Limiter.Middleware]: without an answer of Redis the request passes. *)
Definition limit (v : verdict) (next : option Claims → handler) (ctx : option Claims) : handler :=
  match v with
  | Limited reset => writeJSON 429 (B_rate reset)
  | Allowed | Unavailable => next ctx
  end.

(** The requests with their path parameters, queries, bodies, and what the log, the
    presence keys, the flags and the limiter have to say. *)
Inductive request : Type :=
  | GetHealth
  | GetGames (flags : option (string → bool → bool))
  | GetBotProfiles
  | GetPlayerSessions (p : string)
  | GetPlayerStats_ (p : string)
  | GetPlayerMatches (p limit offset : string)
  | PostRooms (req : upload (string * option Z))
  | GetRooms (limit offset : string)
  | GetRoom_ (r : string)
  | PostJoin (req : upload string)
  | PostLeave (r : string) (req : upload unit)
  | PostStart (r : string) (req : upload unit)
  | PutSetting (r key : string) (req : upload string)
  | PostBot (r : string) (req : upload string)
  | DeleteBot (r b : string) (req : upload unit)
  | GetSession (s : string)
  | PostReady (s : string)
  | GetEvents (s : string) (Read : uuid → result error (list EventLog.Event))
  | PostSurrender (s : string) (req : upload unit)
  | PostRematch (s : string) (req : upload unit)
  | PostPause (s : string) (req : upload unit)
  | PostResume (s : string) (req : upload unit)
  | GetAdminStats (rdb : option (list (option (list string))))
  | DeleteSession (s : string)
  | GetHistory (s limit offset : string)
  | PostMove (s : string) (req : upload data) (v : verdict)
  | PostLoadState (s : string) (req : upload (option stateJSON)).

Definition notFound : handler := writeError StatusNotFound "404 page not found".

(** The last route is only there when debugging is enabled. *)
Definition route (debug : bool) (r : request) : option Claims → handler :=
  match r with
  | GetHealth => λ _, handleHealth
  | GetGames flags => handleListGames flags
  | GetBotProfiles => handleListBotProfiles
  | GetPlayerSessions p => handleListPlayerSessions p
  | GetPlayerStats_ p => handleGetPlayerStats p
  | GetPlayerMatches p l o => handleListPlayerMatches p l o
  | PostRooms req => validate req (handleCreateRoom req)
  | GetRooms l o => handleListRooms l o
  | GetRoom_ r => handleGetRoom r
  | PostJoin req => validate req (handleJoinRoom req)
  | PostLeave r req => validate req (handleLeaveRoom r req)
  | PostStart r req => validate req (handleStartGame r req)
  | PutSetting r k req => validate req (handleUpdateRoomSetting r k req)
  | PostBot r req => validate req (handleAddBot r req)
  | DeleteBot r b req => validate req (handleRemoveBot r b req)
  | GetSession s => handleGetSession s
  | PostReady s => handlePlayerReady s
  | GetEvents s Read => handleGetSessionEvents s Read
  | PostSurrender s req => validate req (handleSurrender s req)
  | PostRematch s req => validate req (handleRematch s req)
  | PostPause s req => validate req (handleVotePause s)
  | PostResume s req => validate req (handleVoteResume s)
  | GetAdminStats rdb => requireRole RoleManager (handleGetSystemStats rdb)
  | DeleteSession s => requireRole RoleManager (handleForceCloseSession s)
  | GetHistory s l o => handleGetSessionHistory s l o
  | PostMove s req v => limit v (validate req (handleMove s req))
  | PostLoadState s req => if debug then handleLoadState s req else λ _, notFound
  end.

(** [NewRouter], without [Recoverer]: everything but the health check is behind the
    cookie, unless there is no secret. *)
Definition NewRouter (secret : option string) (debug : bool) (cookie : option string) (r : request) : handler :=
  match r, secret with
  | GetHealth, _ | _, None => route debug r None
  | _, Some secret => Middleware.Require (M := H) B_error secret cookie (λ c, route debug r (Some c))
  end.

(** [sharedmw.Recoverer]: a panic is answered with a 500; what it had done to the database
    stays. (The state of the process is that of the start: no handler panics after a change
    of it.) *)
Definition Recoverer (h : handler) : H (response body) := λ s w,
  match h s w with
  | (Ok r, w') => (Ok r, w')
  | (Err _, w') => (Ok (mkResponse StatusInternalServerError (B_error "internal error"), s), w')
  end.

Definition serve (secret : option string) (debug : bool) (cookie : option string) (r : request) : handler :=
  Recoverer (NewRouter secret debug cookie r).

End Api.
End Api.

(** The reaper of rooms (internal/domain/lobby/reaper.go): one tick. *)
Module Reaper.
Section Reaper.
Context `{U : UUID} `{E : Entropy} `{S : !Server}.

Definition waitingOrphanMaxAge : Z := 300 * 1000000.
Definition finishedRoomMaxAge : Z := 600 * 1000000.

Definition tick : M unit := try (CleanupOrphanRooms waitingOrphanMaxAge finishedRoomMaxAge);; mret tt.
End Reaper.
End Reaper.
