(* ===== verification/ApiSpec.v ===== *)
(** What the HTTP interface lets its callers do: everybody needs a session cookie, a
    caller only moves, joins, leaves and votes for itself, and the database stays sound. *)
From S2P Require Import Prelude Json Engine Randutil Backend Store BackendLogic Lobby Runtime.
From S2P Require Import Consistency Requests Serving Entitled Middleware Bot Mcts Api.
Import Middleware.

(** ** Handlers *)

Section Handlers.
Context `{U : UUID} `{E : Entropy} `{S : !Server} `{R : Bot.Rand} `{L : Mcts.MathLog} `{J : !JWT}.
Variable I : DB → Prop.

Definition keepsH {A} (h : Api.H A) : Prop := ∀ s, keeps I (h s).

Lemma keepsH_ret {A} (a : A) : keepsH (mret a).
Proof. intros s. apply keeps_ret. Qed.
Lemma keepsH_bind {A B} (h : Api.H A) (f : A → Api.H B) :
  keepsH h → (∀ a, keepsH (f a)) → keepsH (h ≫= f).
Proof. intros Hh Hf s. apply keeps_bind; [apply Hh|]. intros [a s']. apply Hf. Qed.
Lemma keepsH_with_bots {A} (m : list uuid → M A) : (∀ bots, keeps I (m bots)) → keepsH (Api.with_bots m).
Proof. intros Hm s. unfold Api.with_bots. apply keeps_bind; [by apply keeps_try|]. intros [a|e]; keep. Qed.
Lemma keepsH_call {A} (m : M A) : keeps I m → keepsH (Api.call m).
Proof. intros Hm. by apply keepsH_with_bots. Qed.
Lemma keepsH_send ms : keepsH (Api.send ms).
Proof. intros s. apply keeps_ret. Qed.
Lemma keepsH_RegisterBot i b : keepsH (Api.RegisterBot i b).
Proof. intros s. apply keeps_ret. Qed.
Lemma keepsH_UnregisterBot i : keepsH (Api.UnregisterBot i).
Proof. intros s. apply keeps_ret. Qed.
Lemma keepsH_MaybeFireBot i b : keepsH (Api.MaybeFireBot i b).
Proof. intros s. apply keeps_ret. Qed.
Lemma keepsH_Broadcast r t x : keepsH (Api.Broadcast r t x).
Proof. apply keepsH_send. Qed.
Lemma keepsH_writeJSON c b : keepsH (Api.writeJSON c b).
Proof. intros s. apply keeps_ret. Qed.
Lemma keepsH_writeError c m : keepsH (Api.writeError c m).
Proof. intros s. apply keeps_ret. Qed.
Lemma keepsH_write_error t e : keepsH (Api.write_error t e).
Proof. unfold Api.write_error. destruct (Api.status_of t e); intros s; apply keeps_ret. Qed.
Lemma keepsH_checked {A B} (h : Api.H (result error A)) (fail : error → Api.H B) k :
  keepsH h → (∀ e, keepsH (fail e)) → (∀ a, keepsH (k a)) → keepsH (Api.checked h fail k).
Proof. intros Hh Hf Hk. apply keepsH_bind; [done|]. intros [a|e]; auto. Qed.
(** A checked call, by what it leaves behind. *)
Lemma wpH_checked {A B} (Q : A → DB → Prop) (m : list uuid → M A) (fail : error → Api.H B) k s d :
  wpd (m (Api.registered s)) (λ r d', I d' ∧ ∀ a, r = Ok a → Q a d') d →
  (∀ e, keepsH (fail e)) → (∀ a d', Q a d' → I d' → wpd (k a s) (λ _ d'', I d'') d') →
  wpd (Api.checked (Api.with_bots m) fail k s) (λ _ d', I d') d.
Proof.
  intros Hm Hf Hk. unfold Api.checked, mbind, Api.H_bind.
  apply wpd_bind. unfold Api.with_bots. apply wpd_bind, wpd_try.
  eapply wpd_conseq; [exact Hm|]. intros [a|e] d' [Hd' HQ].
  - apply wpd_ret. cbn. by apply Hk, Hd'; apply HQ.
  - destruct (Api.panics e); [by apply wpd_throw|]. apply wpd_ret. by apply Hf.
Qed.

Lemma keepsH_wake i b : keepsH (Api.wake i b).
Proof. destruct b; [apply keepsH_MaybeFireBot|apply keepsH_ret]. Qed.
Lemma keepsH_wake_current i st : keepsH (Api.wake_current i st).
Proof. unfold Api.wake_current. destruct (uuid_Parse _); [apply keepsH_MaybeFireBot|apply keepsH_ret]. Qed.
End Handlers.

#[export] Hint Resolve keepsH_ret keepsH_bind keepsH_with_bots keepsH_call keepsH_send keepsH_RegisterBot
  keepsH_UnregisterBot keepsH_MaybeFireBot keepsH_Broadcast keepsH_writeJSON keepsH_writeError
  keepsH_write_error keepsH_checked keepsH_wake keepsH_wake_current : recess.

(** One step through a handler, like [keep_step] through a call. *)
Ltac keepH_step :=
  first
    [ solve [eauto 2 with recess]
    | apply keepsH_bind; [|intros ?]
    | apply keepsH_checked; [|intros ?|intros ?]
    | apply keepsH_call; solve [keep]
    | apply keepsH_with_bots; intros ?; solve [keep]
    | match goal with
      | |- keepsH _ (if ?b then _ else _) => destruct b
      | |- keepsH _ (match ?x with _ => _ end) => destruct x
      end ].
Ltac keepH := repeat keepH_step.

(** The structure of the handlers. *)
Ltac open_handler :=
  unfold Api.limit, Api.validate, Api.requireRole, Api.notFound, Api.handleHealth, Api.noContent,
    Api.or_500, Api.or_404, Api.parse_id, Api.decode, Api.caller, Api.writeFailure,
    Api.writeLobbyError, Api.writeRuntimeError, Api.writePauseError, Api.writeResumeError,
    Api.broadcast_move, Api.BroadcastSessionStarted, Api.ack, Api.unless_active, Api.hasActiveSession.

Section Routes.
Context `{U : UUID} `{E : Entropy} `{S : !Server} `{R : Bot.Rand} `{L : Mcts.MathLog} `{J : !JWT}.
Variables (Nil : uuid) (uuid_New : nat → uuid) (reg : registry) (adapters : gmap string Bot.Factory)
  (env : Bot.BotEnv) (fuel : nat).
Hypothesis reg_players : ∀ id g, reg !! id = Some g → (2 ≤ MaxPlayers g)%Z.

Abbreviation route := (Api.route Nil uuid_New reg adapters env fuel false).

(** ** Every request takes a sound step *)

#[local] Hint Resolve sound_OnAllReady sound_StartSession sound_ApplyMove sound_Surrender sound_VoteRematch
  sound_VotePause sound_VoteResume sound_VoteReady sound_StartGame sound_Lobby_CreateRoom sound_JoinRoom
  sound_LeaveRoom sound_UpdateRoomSetting sound_Lobby_ListWaitingRooms keeps_getRoomView : recess.

Lemma soundH_OnAllReady d0 s : keepsH (sound reg d0) (Api.OnAllReady s).
Proof. unfold Api.OnAllReady, Api.all_ready. keepH. Qed.

Lemma soundH_StartSession d0 s : keepsH (sound reg d0) (Api.StartSession s).
Proof. unfold Api.StartSession, Api.all_ready. keepH. Qed.

#[local] Hint Resolve soundH_OnAllReady soundH_StartSession : recess.

(** Reads that may fail. *)
Lemma keeps_ListPlayerMatches I q l o : keeps I (ListPlayerMatches q l o).
Proof.
  apply keeps_wrap, keeps_exec. intros t id d a d' Hd. case_match; [done|]. by intros [= <- <-].
Qed.
Lemma keeps_ListSessionMoves I q l o : keeps I (ListSessionMoves q l o).
Proof.
  apply keeps_wrap, keeps_exec. intros t id d a d' Hd. case_match; [done|]. by intros [= <- <-].
Qed.
#[local] Hint Resolve keeps_ListPlayerMatches keeps_ListSessionMoves : recess.

(** The calls of the handlers that only read. *)
Ltac open_reads :=
  unfold ListActiveSessions, GetPlayerStats, CountPlayerMatches, GetGameSession, GetRoom, GetPlayer,
    ListRoomPlayers, GetActiveSessionByRoom, CountActiveRooms, CountActiveSessions, CountTotalPlayers,
    CountSessionsToday, Runtime.GetSessionAndState, GetGameResult, Lobby.Lobby_GetRoom,
    Runtime.BroadcastSessionStarted.

(** The requests that only read. *)
Definition only_reads (r : Api.request) : bool :=
  match r with
  | Api.GetHealth | Api.GetGames _ | Api.GetBotProfiles | Api.GetPlayerSessions _ | Api.GetPlayerStats_ _
  | Api.GetPlayerMatches _ _ _ | Api.GetRooms _ _ | Api.GetRoom_ _ | Api.GetSession _ | Api.GetEvents _ _
  | Api.GetAdminStats _ | Api.GetHistory _ _ _ | Api.PostLoadState _ _ => true
  | _ => false
  end.

Lemma keeps_ListWaitingRooms I l o : keeps I (Lobby.Lobby_ListWaitingRooms l o).
Proof.
  unfold Lobby.Lobby_ListWaitingRooms, CountWaitingRooms, ListWaitingRooms. keep.
  apply keeps_exec. intros t id d x d' Hd. case_match; [done|]. by intros [= <- <-].
Qed.
#[local] Hint Resolve keeps_ListWaitingRooms : recess.

Lemma reads_route I r ctx : only_reads r = true → keepsH I (route r ctx).
Proof.
  intros Hr. destruct r; try done; cbn [Api.route];
    unfold Api.handleListGames, Api.handleListBotProfiles, Api.handleListPlayerSessions,
      Api.handleGetPlayerStats, Api.handleListPlayerMatches, Api.handleListRooms, Api.handleGetRoom,
      Api.handleGetSession, Api.handleGetSessionEvents, Api.handleGetSystemStats,
      Api.handleGetSessionHistory; open_handler; open_reads; keepH.
Qed.

Lemma soundH_AddBot d0 r req ctx : keepsH (sound reg d0) (Api.handleAddBot uuid_New adapters env fuel r req ctx).
Proof.
  unfold Api.handleAddBot, Api.parse_id, Api.decode, Api.caller.
  destruct (uuid_Parse r) as [room|]; [|keepH]. destruct (Api.content req) as [asked|]; [|keepH].
  destruct (Bot.ConfigFromProfile _ _) as [cfg|e]; [|keepH].
  unfold Api.or_404. apply keepsH_checked; [open_reads; keepH|intros; keepH|]. intros x.
  destruct ctx as [c|]; [|keepH]. case_decide; [keepH|].
  apply keepsH_checked; [unfold Api.game_result; keepH|intros; keepH|]. intros adapter.
  intros s d Hd. apply (wpH_checked _ (λ b d', is_bot d' (P_ID b) = true)); [|intros; keepH|].
  { intros w Hw. apply (wpd_exec _ (λ r d', sound reg d0 d' ∧ ∀ b, r = Ok b → is_bot d' (P_ID b) = true) d);
      [by split| |done].
    intros t id b d'. destruct (players d !! id) eqn:Hid; cbn; [done|]. case_match; [|done].
    intros [= Hb <-]. split; [|intros ? [= <-]; subst b; unfold is_bot; cbn; by rewrite lookup_insert_eq].
    eapply sound_trans; [exact Hd|]. apply sound_same; try done; [apply Hd|]. intros q. by apply bots_insert. }
  intros b d' Hb Hd'. apply (wpH_checked _ (λ _ d'', is_bot d'' (P_ID b) = true)); [|intros; keepH|].
  { apply wpd_ListRoomPlayers; by split. }
  clear d Hd d' Hb Hd'. intros ps d Hb Hd. apply (wpH_checked _ (λ _ _, True)); [|intros; keepH|].
  { apply wpd_wrap, wpd_exec; [by split|]. intros t id a d'.
    destruct (room_players d !! (room, P_ID b)) eqn:Hp; cbn; [done|].
    destruct (rooms d !! room) as [y|] eqn:Hy; cbn; [|done]. case_match; [|done]. intros [= <- <-].
    split; [|done]. eapply sound_trans; [exact Hd|]. eapply sound_member; [apply Hd|done|done|by right]. }
  clear d Hb Hd. intros [] d _ Hd. revert s d Hd.
  match goal with |- ∀ s d, _ → wpd (?h s) _ d => change (keepsH (sound reg d0) h) end.
  open_handler. open_reads. keepH.
Qed.
#[local] Hint Resolve soundH_AddBot : recess.

Lemma sound_route d0 r ctx : keepsH (sound reg d0) (route r ctx).
Proof.
  destruct (only_reads r) eqn:Ho; [by apply reads_route|].
  destruct r; try done; cbn [Api.route];
    unfold Api.handleCreateRoom, Api.handleJoinRoom, Api.handleLeaveRoom, Api.handleStartGame,
      Api.handleUpdateRoomSetting, Api.handleRemoveBot, Api.handlePlayerReady, Api.handleSurrender,
      Api.handleRematch, Api.handleVotePause, Api.handleVoteResume, Api.handleForceCloseSession,
      Api.handleMove, Api.start_rematch; open_handler; open_reads; keepH.
Qed.

(** ** What the requests of a caller change *)

Section Caller.
Variables (c : Claims) (robots : list uuid) (d0 : DB).
Hypothesis C : consistent reg d0.

Definition is_manager : bool := (Api.role_rank RoleManager <=? Api.role_rank (ClaimRole c))%Z.

Abbreviation p := (PlayerID c).
Abbreviation ent := (entitled p is_manager robots d0).

Definition fits {A} (h : Api.H A) (s : Api.Srv) (d : DB) : Prop := wpd (h s) (λ _ d', ent d') d.

Lemma fits_keeps {A} (h : Api.H A) s : keepsH ent h → fits h s d0.
Proof. intros H. apply H, entitled_refl. Qed.

Lemma fits_checked {A B} (Q : A → DB → Prop) (m : list uuid → M A) (fail : error → Api.H B) k s d :
  wpd (m (Api.registered s)) (λ r d', ent d' ∧ ∀ a, r = Ok a → Q a d') d →
  (∀ e, keepsH ent (fail e)) → (∀ a d', Q a d' → ent d' → fits (k a) s d') →
  fits (Api.checked (Api.with_bots m) fail k) s d.
Proof.
  apply (wpH_checked ent).
Qed.

(** A read of the database of the start, and a read of one of its rooms. *)
Lemma fits_read {A B} (m : list uuid → M A) (fail : error → Api.H B) k s :
  (∀ bots, keeps (λ d, d = d0) (m bots)) → (∀ e, keepsH ent (fail e)) → (∀ a, fits (k a) s d0) →
  fits (Api.checked (Api.with_bots m) fail k) s d0.
Proof.
  intros Hm Hf Hk. apply (fits_checked (λ _ d, d = d0)); [|done|by intros a ? -> _].
  eapply wpd_conseq; [by apply Hm|]. intros r ? ->. split; [apply entitled_refl|done].
Qed.

Lemma fits_room r msg k s : (∀ x, rooms d0 !! r = Some x → fits (k x) s d0) →
  fits (Api.or_404 (GetRoom r) msg k) s d0.
Proof.
  intros Hk. apply (fits_checked (λ x d, d = d0 ∧ rooms d0 !! r = Some x)).
  - apply wpd_GetRoom; [by split; [apply entitled_refl|]|]. intros x Hx.
    split; [apply entitled_refl|]. by intros ? [= <-].
  - intros. apply keepsH_writeError.
  - intros x d' [-> Hx] _. by apply Hk.
Qed.

(** An operation, and then only answers and messages. *)
Lemma fits_write {A B} (m : list uuid → M A) (fail : error → Api.H B) k s :
  stays p is_manager robots d0 (m (Api.registered s)) →
  (∀ e, keepsH ent (fail e)) → (∀ a, keepsH ent (k a)) →
  fits (Api.checked (Api.with_bots m) fail k) s d0.
Proof.
  intros Hm Hf Hk. apply (fits_checked (λ _ _, True)); [|done|intros; by apply Hk].
  eapply wpd_conseq; [exact Hm|]. done.
Qed.

Lemma keepsH_StartSession x : touches p is_manager d0 (GS_ID x) → keepsH ent (Api.StartSession x).
Proof.
  intros Hx. unfold Api.StartSession, Api.all_ready. pose proof (keeps_StartSession p is_manager robots d0). keepH.
Qed.

Lemma keepsH_OnAllReady x : touches p is_manager d0 (GS_ID x) → keepsH ent (Api.OnAllReady x).
Proof.
  intros Hx. unfold Api.OnAllReady, Api.all_ready. pose proof (keeps_OnAllReady p is_manager robots d0). keepH.
Qed.

Lemma keepsH_announce x : keepsH ent (Api.BroadcastSessionStarted reg x).
Proof. open_handler. open_reads. keepH. Qed.

(** The start of a game in a room of the caller, and what follows it. *)
Lemma fits_StartGame {B} r m (fail : error → Api.H B) k s d : ent d → (∀ e, keepsH ent (fail e)) →
  (∀ x, touches p is_manager d0 (GS_ID x) → keepsH ent (k x)) →
  fits (Api.checked (Api.call (Lobby.StartGame reg r p m)) fail k) s d.
Proof.
  intros Hd Hf Hk. apply (fits_checked (λ x _, touches p is_manager d0 (GS_ID x)));
    [by apply keeps_StartGame|done|]. intros x d' Hx Hd'. by apply Hk.
Qed.

Lemma keepsH_start_rematch room m : keepsH ent (Api.start_rematch reg room p m).
Proof.
  intros s d Hd. pose proof keepsH_announce. pose proof keepsH_StartSession.
  apply (fits_StartGame room m); [done| |]; intros; unfold Api.wake_current; keepH.
Qed.

Lemma fits_unless k s : fits k s d0 → fits (Api.unless_active p k) s d0.
Proof.
  intros Hk. unfold fits, Api.unless_active, Api.hasActiveSession, Api.call, Api.with_bots, mbind, Api.H_bind.
  apply wpd_bind, wpd_bind, wpd_bind, wpd_try, wpd_wrap, wpd_query.
  - intros e. cbn. destruct (Api.panics e); [apply wpd_throw, entitled_refl|]. by apply wpd_ret, wpd_ret.
  - intros _. apply wpd_ret. cbn. destruct (order_by _ _) as [|x l]; apply wpd_ret; [done|].
    apply keepsH_writeJSON, entitled_refl.
Qed.

Lemma fits_player b msg k s :
  (∀ x, players d0 !! b = Some x → fits (k x) s d0) → fits (Api.or_404 (GetPlayer b) msg k) s d0.
Proof.
  intros Hk. apply (fits_checked (λ x d, d = d0 ∧ players d0 !! b = Some x)).
  - apply wpd_queryRow; [by split; [apply entitled_refl|]|]. intros _ x Hx.
    split; [apply entitled_refl|]. intros ? [= <-]. split; [done|].
    destruct (players d0 !! b); [|done]. revert Hx. cbn. by destruct (guard _).
  - intros. apply keepsH_writeError.
  - intros x d' [-> Hx] _. by apply Hk.
Qed.

Lemma fits_CreateBot name msg k s :
  (∀ x d, players d0 !! P_ID x = None → ent d → fits (k x) s d) →
  fits (Api.or_500 (u ← Api.new_uuid uuid_New; CreateBotPlayer (name u)) msg k) s d0.
Proof.
  intros Hk. apply (fits_checked (λ x _, players d0 !! P_ID x = None)).
  - intros w Hw. unfold mbind, M_bind, Api.new_uuid. revert w Hw.
    intros w Hw. apply (wpd_exec _ (λ r d', ent d' ∧ ∀ a, r = Ok a → players d0 !! P_ID a = None) d0); [by split; [apply entitled_refl|]| |done].
    intros t id x d'. destruct (players d0 !! id) eqn:Hid; cbn; [done|]. case_match; [|done].
    intros [= <- <-]. split; [|by intros ? [= <-]].
    apply ent_players; [apply entitled_refl|by apply insert_subseteq].
  - intros. apply keepsH_writeError.
  - intros x d' Hx Hd'. by apply Hk.
Qed.

Lemma fits_AddBot r req s : fits (Api.handleAddBot uuid_New adapters env fuel r req (Some c)) s d0.
Proof.
  unfold Api.handleAddBot, Api.parse_id, Api.decode, Api.caller.
  destruct (uuid_Parse r) as [room|]; [|apply fits_keeps; keepH].
  destruct (Api.content req) as [asked|]; [|apply fits_keeps; keepH].
  destruct (Bot.ConfigFromProfile _ _) as [cfg|e]; [|apply fits_keeps; keepH].
  apply fits_room. intros x Hx. case_decide as Ho; [apply fits_keeps; keepH|].
  apply fits_read; [intros; unfold Api.game_result; keep|intros; keepH|]. intros adapter.
  apply (fits_CreateBot (λ u, _)). intros b d Hb Hd.
  assert (mine p d0 room) as Hm by by eapply mine_of.
  assert (∀ n, keeps ent (AddPlayerToRoom room (P_ID b) n)) by (intros; apply keeps_AddPlayerToRoom; auto).
  revert s d Hd. match goal with |- ∀ s d, ent d → fits ?h s d => change (keepsH ent h) end.
  open_handler. open_reads. keepH.
Qed.

Lemma fits_RemoveBot r b req s : Api.registered s = robots → fits (Api.handleRemoveBot r b req (Some c)) s d0.
Proof.
  intros Hs. unfold Api.handleRemoveBot, Api.parse_id, Api.caller.
  destruct (uuid_Parse r) as [room|]; [|apply fits_keeps; keepH].
  destruct (uuid_Parse b) as [bot|]; [|apply fits_keeps; keepH].
  apply fits_room. intros x Hx. case_decide as Ho; [apply fits_keeps; keepH|].
  apply fits_player. intros y Hy. destruct (P_IsBot y) eqn:Hbot; cbn; [|apply fits_keeps; keepH].
  assert (mine p d0 room) as Hm by by eapply mine_of.
  assert (keeps ent (RemovePlayerFromRoom room bot)).
  { apply keeps_RemovePlayerFromRoom. right. split; [done|]. right. by exists y. }
  apply fits_keeps. open_handler. open_reads. keepH.
Qed.

Lemma wpd_and {A} (m : M A) (Φ Ψ : result error A → DB → Prop) d :
  wpd m Φ d → wpd m Ψ d → wpd m (λ r d', Φ r d' ∧ Ψ r d') d.
Proof. intros H1 H2 w Hw. split; [by apply H1|by apply H2]. Qed.

Lemma fits_PlayerReady k s : fits (Api.handlePlayerReady Nil k (Some c)) s d0.
Proof.
  unfold Api.handlePlayerReady, Api.parse_id, Api.caller_or_Nil. cbn [from_option].
  destruct (uuid_Parse k) as [i|]; [|apply fits_keeps; keepH]. case_decide; [apply fits_keeps; keepH|].
  apply (fits_checked (λ _ d, consistent reg d ∧ touches p is_manager d0 i)).
  - eapply wpd_conseq; [apply wpd_and; [by eapply (wpd_VoteReady p is_manager robots)|
      apply (sound_VoteReady reg d0); by apply sound_refl]|].
    intros r d' [[Hd' Ht] [Cd' _]]. split; [done|]. intros a Ha. split; [done|eauto].
  - intros. open_handler. keepH.
  - intros a d' [C' Ht] Hd'. destruct (Runtime.RV_AllReady a).
    + apply (fits_checked (λ x d, touches p is_manager d0 (GS_ID x))).
      * apply wpd_GetGameSession; [done|]. intros x Hx. split; [done|]. intros ? [= <-].
        by rewrite (session_key _ _ C' _ _ Hx).
      * intros. keepH.
      * intros x d'' Hx Hd''. pose proof keepsH_OnAllReady.
        assert (keepsH ent (Api.OnAllReady x;; Api.writeJSON StatusOK (Api.B_ready a))) as Hk by keepH.
        by apply Hk.
    + revert s d' C' Hd'. open_reads.
      match goal with |- ∀ s d, _ → ent d → fits ?h s d => assert (keepsH ent h) as Hk by keepH end.
      intros s d' _ Hd'. by apply Hk.
Qed.

(** ** All requests *)

Ltac leave := solve [apply fits_keeps; open_handler; keepH].

Lemma fits_lobby r s : Api.registered s = robots →
  match r with
  | Api.PostRooms _ | Api.PostJoin _ | Api.PostLeave _ _ | Api.PostStart _ _ | Api.PutSetting _ _ _ => True
  | _ => False
  end → fits (route r (Some c)) s d0.
Proof.
  intros Hs Hr. destruct r; try done; cbn [Api.route];
    unfold Api.validate, Api.handleCreateRoom, Api.handleJoinRoom, Api.handleLeaveRoom, Api.handleStartGame,
      Api.handleUpdateRoomSetting, Api.parse_id, Api.decode, Api.caller;
    destruct (Api.objections req); try leave;
    try (destruct (uuid_Parse r) as [room|]; [|leave]);
    try (case_decide; [leave|]);
    (destruct (Api.content req) as [x|]; [|leave]).
  - destruct x as [g t]. apply fits_unless, fits_write; [by apply stays_Lobby_CreateRoom|intros; open_handler; keepH..].
  - apply fits_unless, fits_write; [apply stays_JoinRoom|intros; open_handler; keepH..].
  - apply fits_write; [apply stays_LeaveRoom|intros; open_handler; keepH..].
  - pose proof keepsH_StartSession. pose proof keepsH_announce.
    apply fits_StartGame; [apply entitled_refl|intros; open_handler; keepH|]. intros. keepH.
  - apply fits_write; [apply stays_UpdateRoomSetting|intros; open_handler; keepH..].
Qed.

Lemma fits_session r s : Api.registered s = robots →
  match r with
  | Api.PostSurrender _ _ | Api.PostRematch _ _ | Api.PostPause _ _ | Api.PostResume _ _
  | Api.DeleteSession _ | Api.PostMove _ _ _ => True
  | _ => False
  end → fits (route r (Some c)) s d0.
Proof.
  intros Hs Hr. destruct r; try done; cbn [Api.route];
    unfold Api.limit, Api.validate, Api.requireRole, Api.handleMove, Api.handleSurrender, Api.handleRematch,
      Api.handleVotePause, Api.handleVoteResume, Api.handleForceCloseSession, Api.parse_id, Api.decode,
      Api.caller;
    try (destruct v; try leave); try (destruct (Api.objections req); [leave|]);
    try (destruct (Api.role_rank _ <? _)%Z eqn:Hrank; [leave|]);
    (destruct (uuid_Parse s0) as [k|]; [|leave]); try (destruct (Api.content req) as [x|]; [|leave]).
  - apply fits_write; [by eapply stays_Surrender|intros; open_handler; open_reads; keepH..].
  - pose proof keepsH_start_rematch.
    apply fits_write; [rewrite Hs; by eapply stays_VoteRematch|intros; open_handler; keepH..].
  - apply fits_write; [by eapply stays_VotePause|intros; open_handler; open_reads; keepH..].
  - apply fits_write; [by eapply stays_VoteResume|intros; open_handler; open_reads; keepH..].
  - assert (is_manager = true) as Hm by by apply Z.leb_le, Z.ltb_ge.
    apply fits_keeps. open_handler. open_reads. keepH.
  - apply fits_write; [by eapply stays_ApplyMove|intros; open_handler; open_reads; keepH..].
  - apply fits_write; [by eapply stays_ApplyMove|intros; open_handler; open_reads; keepH..].
Qed.

Lemma fits_route r s : Api.registered s = robots → fits (route r (Some c)) s d0.
Proof.
  intros Hs. destruct (only_reads r) eqn:Ho; [by apply fits_keeps, reads_route|].
  destruct r; try done; try (by apply fits_lobby); try (by apply fits_session).
  - cbn [Api.route]. unfold Api.validate. destruct (Api.objections req); [leave|]. apply fits_AddBot.
  - cbn [Api.route]. unfold Api.validate. destruct (Api.objections req); [leave|]. by apply fits_RemoveBot.
  - apply fits_PlayerReady.
Qed.
End Caller.

(** ** The whole interface *)

(** The claims of the cookie of a request. *)
Definition claims_of (secret : string) (cookie : option string) : option Claims :=
  raw ← cookie; match VerifyToken secret raw with Ok c => Some c | Err _ => None end.

(** What a handler does to the database survives the recovery from its panics. *)
Lemma recovered (h : Api.handler) s w (P : DB → Prop) :
  wpd (h s) (λ _ d, P d) (db w) →
  let '(answer, w') := Api.Recoverer h s w in (∃ res s', answer = Ok (res, s')) ∧ P (db w').
Proof.
  intros Hh. specialize (Hh w eq_refl). unfold Api.Recoverer.
  destruct (h s w) as [[[res s']|e] w']; cbn in Hh; eauto.
Qed.

Lemma NewRouter_api secret cookie r : r ≠ Api.GetHealth →
  Api.NewRouter Nil uuid_New reg adapters env fuel (Some secret) false cookie r =
  Middleware.Require (M := Api.H) Api.B_error secret cookie (λ c, route r (Some c)).
Proof. by destruct r. Qed.

(** C27 Whatever a client sends and whatever statements fail, the server answers. Without a
    valid session cookie the answer is 401 and nothing happens, the health check apart.
    Otherwise the caller can only record moves of its own, take a seat for itself or fill
    one of its own room with a new bot, remove itself or a bot of its own room, set and
    start its own room, touch sessions it plays in (or, as a manager, close one), change
    the state of a game only when it is to move, and vote for itself and for bots; and
    every request takes a sound step of the database. *)
Theorem requests_entitled secret cookie r s w :
  consistent reg (db w) →
  let '(answer, w') := Api.serve Nil uuid_New reg adapters env fuel (Some secret) false cookie r s w in
  ∃ res s', answer = Ok (res, s') ∧
  match claims_of secret cookie with
  | None => r = Api.GetHealth ∧ code res = StatusOK ∧ w' = w ∨ code res = StatusUnauthorized ∧ w' = w ∧ s' = s
  | Some c =>
      entitled (PlayerID c) (is_manager c) (Api.registered s) (db w) (db w') ∧
      sound reg (db w) (db w')
  end.
Proof.
  intros C. unfold Api.serve. assert (r = Api.GetHealth ∨ r ≠ Api.GetHealth) as [->|Hr] by (destruct r; auto).
  { cbn. eexists _, _. split; [done|]. destruct (claims_of secret cookie); [|by left].
    split; [apply entitled_refl|by apply sound_refl]. }
  rewrite NewRouter_api by done. unfold claims_of, Middleware.Require. destruct cookie as [raw|]; cbn.
  2:{ eexists _, _. split; [done|]. by right. }
  destruct (VerifyToken secret raw) as [c|e].
  - pose proof (recovered (route r (Some c)) s w
      (λ d, entitled (PlayerID c) (is_manager c) (Api.registered s) (db w) d ∧
            sound reg (db w) d)) as Hrec.
    destruct (Api.Recoverer _ s w) as [answer w']. destruct Hrec as [(res & s' & ->) H]; [|by exists res, s'].
    apply wpd_and; [by apply fits_route|]. by apply (sound_route (db w)), sound_refl.
  - assert (∀ m, ∃ res s', (Api.Recoverer (Middleware.writeError (M := Api.H) Api.B_error StatusUnauthorized m) s w)
      = (Ok (res, s'), w) ∧ code res = StatusUnauthorized ∧ s' = s) as Hm by (intros m; by eexists _, _).
    case_decide; [destruct (Hm "token_expired") as (res & s' & -> & ? & ?)
      |destruct (Hm "unauthorized") as (res & s' & -> & ? & ?)]; exists res, s'; (split; [done|by right]).
Qed.
End Routes.
