(* ===== verification/ApiDemo.v ===== *)
(** The HTTP interface on the deployment of [Demo], where a cookie is the name of a player:
    a witness, and the runs that show what its handlers leave open. *)
From stdpp Require Import pretty.
From S2P Require Import Prelude Json Float64 Engine Randutil Backend Store Lobby Runtime.
From S2P Require Import Consistency Requests Serving Demo Middleware Bot Mcts MctsSpec.
From S2P Require Import TicTacToeBot.
From S2P Require Import Entitled Api ApiSpec.
Import Middleware Demo.


Definition no_Log : Mcts.MathLog := Mcts.Build_MathLog (λ x, x).
#[local] Existing Instance no_Log.
#[local] Existing Instance counting_Rand.

(** A token is a name; a manager's is marked. *)
Definition name_JWT : JWT :=
  Build_JWT (λ _ raw, Ok (true, mkClaims raw raw (if decide (raw = "root") then RoleManager else RolePlayer))).
#[local] Existing Instance name_JWT.

Definition Nil : uuid := "00000000-0000-0000-0000-000000000000".
Definition bots_of_tictactoe : gmap string Bot.Factory :=
  {["tictactoe" := Bot.mkFactory (Some TicTacToeBot.NewAdapter) None]}.
Definition nobody : Api.Srv := Api.mkSrv ∅ [] [].

Definition ask (cookie : string) (r : Api.request) (s : Api.Srv) (w : World) :
    result error (response Api.body * Api.Srv) * World :=
  Api.serve Nil id_of reg bots_of_tictactoe (Bot.mkBotEnv None None None None) 100 (Some "secret") false
    (Some cookie) r s w.

Definition with_body {A} (x : A) : Api.upload A := Api.mkUpload None (Some x).

(** A sequence of requests of clients. *)
Definition clients (l : list (string * Api.request)) (s : Api.Srv) (w : World) : Api.Srv * World :=
  foldl (λ sw cr, match ask cr.1 cr.2 sw.1 sw.2 with (Ok (_, s'), w') => (s', w') | (Err _, w') => (sw.1, w') end)
    (s, w) l.

Definition answer (cookie : string) (r : Api.request) (s : Api.Srv) (w : World) : option (Z * Api.body) :=
  match (ask cookie r s w).1 with Ok (res, _) => Some (code res, body res) | Err _ => None end.

Definition event_type (m : Runtime.delivery Api.Event) : string :=
  match m with Runtime.ToPlayer _ _ e | Runtime.ToSpectators _ _ e | Runtime.ToRoom _ _ e => Api.Type_ e end.

(** ** A request that is served *)

Definition opened : World := run opening.

Lemma opened_consistent : consistent reg (db opened).
Proof. apply (reachable_consistent reg reg_players), run_reachable. vm_compute. reflexivity. Qed.

Definition alice_moves : Api.request := Api.PostMove session (with_body (cell 0)) Api.Allowed.

Lemma alice_moved :
  answer alice alice_moves nobody opened = Some (200%Z, Api.B_ack (Api.mkMoveAck 1 false)).
Proof. vm_compute. reflexivity. Qed.

Lemma requests_entitled_witness :
  answer alice alice_moves nobody opened = Some (200%Z, Api.B_ack (Api.mkMoveAck 1 false)) ∧
  entitled alice false [] (db opened) (db (ask alice alice_moves nobody opened).2) ∧
  sound reg (db opened) (db (ask alice alice_moves nobody opened).2).
Proof.
  split; [exact alice_moved|].
  pose proof (requests_entitled Nil id_of reg bots_of_tictactoe (Bot.mkBotEnv None None None None) 100
    reg_players "secret" (Some alice) alice_moves nobody opened opened_consistent) as H.
  unfold ask. destruct (Api.serve _ _ _ _ _ _ _ _ _ _ _ _) as [a w'].
  destruct H as (res & s' & _ & He & Hs). split; [exact He|exact Hs].
Defined.

(** ** What the handlers leave open *)

(** The owner of a full room can add a bot: nobody checks the capacity. *)
Definition full_room : World :=
  run [Req_CreatePlayer "alice"; Req_CreatePlayer "bob"; Req_CreateRoom "tictactoe" alice None;
       Req_JoinRoom "abcdef" bob].

Lemma bots_overfill_rooms :
  let w := (clients [(alice, Api.PostBot room (with_body "easy"))] nobody full_room).2 in
  count (players_of (db w) room) = 3%Z ∧ R_MaxPlayers <$> rooms (db w) !! room = Some 2%Z.
Proof. vm_compute. done. Qed.

(** Anybody who is logged in reads the whole state of anybody's game, and after each of its
    moves: these answers are not filtered. *)
Lemma states_are_public :
  (match answer "eve" (Api.GetPlayerSessions alice) nobody opened with
   | Some (_, Api.B_raw_sessions [s]) => GS_State s | _ => None end) =
  (s ← game_sessions (db opened) !! session; GS_State s) ∧
  (match answer "eve" (Api.GetHistory session "" "") nobody (run_from opened [place alice 0]) with
   | Some (_, Api.B_moves [m]) => Api.MD_StateAfter m | _ => None end) =
  (s ← game_sessions (db (run_from opened [place alice 0])) !! session; GS_State s) ∧
  (s ← game_sessions (db opened) !! session; GS_State s) ≠ None.
Proof. vm_compute. split_and!; [reflexivity|reflexivity|discriminate]. Qed.

(** When somebody else than the owner of the room votes last, the rematch does not start. *)
Lemma rematch_needs_the_owner_last :
  let vote p := (p, Api.PostRematch session (with_body tt)) in
  let '(s, w) := clients [vote alice; vote bob] nobody (run finished) in
  let '(s', w') := clients [vote bob; vote alice] nobody (run finished) in
  event_type <$> Api.sent s = ["rematch_vote"; "rematch_ready"] ∧ size (game_sessions (db w)) = 1 ∧
  event_type <$> Api.sent s' = ["rematch_vote"; "game_started"] ∧ size (game_sessions (db w')) = 2.
Proof. vm_compute. done. Qed.

(** A bot that moves first is woken when everybody is ready, but by a rematch at once. *)
Definition lone_room : uuid := "id-3".
Definition lone_session : uuid := "id-32".
Definition against_a_bot : Api.Srv * World :=
  clients [(alice, Api.PutSetting lone_room "first_mover_policy" (with_body "fixed"));
           (alice, Api.PutSetting lone_room "first_mover_seat" (with_body "1"));
           (alice, Api.PutSetting lone_room "rematch_first_mover_policy" (with_body "fixed"));
           (alice, Api.PostBot lone_room (with_body "easy"));
           (alice, Api.PostStart lone_room (with_body tt))]
    nobody (run [Req_CreatePlayer "alice"; Req_CreateRoom "tictactoe" alice None]).

Lemma rematch_wakes_the_bot_early :
  let '(s, w) := against_a_bot in
  let '(s', w') := clients [(alice, Api.PostReady lone_session);
    (alice, Api.PostSurrender lone_session (with_body tt))] s w in
  let '(s2, _) := clients [(alice, Api.PostRematch lone_session (with_body tt))] s' w' in
  length (Api.woken s) = 0 ∧ length (Api.woken s') = 1 ∧
  event_type <$> drop 4 (Api.sent s') = ["game_ready"; "game_over"] ∧
  length (Api.woken s2) = 2 ∧ event_type <$> drop 6 (Api.sent s2) = ["game_started"].
Proof. vm_compute. done. Qed.

(** A ranked room seats its second player without asking whether it sits elsewhere. *)
Lemma ranked_room_seats_the_busy :
  let w := run [Req_CreatePlayer "alice"; Req_CreatePlayer "bob"; Req_CreateRoom "tictactoe" bob None;
                Req_CreateRankedRoom alice bob "tictactoe"] in
  length (filter (λ kv : uuid * uuid * (Z * Z), kv.1.2 = bob) (map_to_list (room_players (db w)))) = 2 ∧
  forallb room_active (map_to_list (rooms (db w))).*2 = true.
Proof. vm_compute. done. Qed.

