(* ===== verification/Ownership.v ===== *)
(** Two more logics for the programs of [Programs]. [Ownership] is rely and guarantee over
    a store of objects: a call owns the objects that it has allocated, and what it owns of
    them changes only by its own commands, whatever the other calls do meanwhile.
    [History] is for invariants that speak of the past. *)
From S2P Require Import Prelude Programs.
Import Programs.

Module Ownership.

Section Ownership.
Context {S I V : Type} `{Countable I}.
(** What always holds, how the store may change, its objects, and what of an object
    belongs to its owner. *)
Context (Inv : S → Prop) (P : S → S → Prop) (objects : S → gset I) (view : I → S → V).

(** What a call that owns [own] may rely on, and what it guarantees. *)
Definition others (own : gset I) (s s' : S) : Prop :=
  P s s' ∧ ∀ x, x ∈ own → view x s' = view x s.
Definition mine (own : gset I) (s s' : S) : Prop :=
  P s s' ∧ ∀ x, x ∈ objects s → x ∉ own → view x s' = view x s.

(** Owning [own], and then whatever its commands allocate, the call keeps its
    guarantee from the store [s], and its result satisfies [Φ]. *)
Fixpoint wpo {A} (p : prog S A) (own : gset I) (s : S) (Φ : A → gset I → S → Prop) : Prop :=
  match p with
  | Ret a => Φ a own s
  | Do R b c k => ∀ s', others own s s' → Inv s' →
      let '(r, s'') := c s' in
      let own' := own ∪ (objects s'' ∖ objects s') in
      Inv s'' ∧ mine own s' s'' ∧ wpo (k (Some r)) own' s'' Φ ∧
      (b = true → wpo (k None) own s' Φ ∧ wpo (k None) own' s'' Φ)
  end.

Lemma wpo_conseq {A} (p : prog S A) own s (Φ Ψ : A → gset I → S → Prop) :
  wpo p own s Φ → (∀ a own' s', Φ a own' s' → Ψ a own' s') → wpo p own s Ψ.
Proof.
  intros Hp HΨ. revert own s Hp. induction p as [a|R b c k IH]; cbn; intros own s Hp; [by apply HΨ|].
  intros s' HP HI. specialize (Hp s' HP HI). destruct (c s') as [r s'']. cbn in *.
  destruct Hp as (H1 & H2 & H3 & H4). split_and!; [done|done|by apply IH|].
  intros Hb. destruct (H4 Hb). split; by apply IH.
Qed.

Lemma wpo_bind {A B} (p : prog S A) (f : A → prog S B) own s Φ :
  wpo p own s (λ a own' s', wpo (f a) own' s' Φ) → wpo (p ≫= f) own s Φ.
Proof.
  revert own s. induction p as [a|R b c k IH]; intros own s Hp; [done|].
  intros s' HP HI. specialize (Hp s' HP HI). destruct (c s') as [r s'']. cbn in *.
  destruct Hp as (H1 & H2 & H3 & H4). split_and!; [done|done|by apply IH|].
  intros Hb. destruct (H4 Hb). split; by apply IH.
Qed.

Hypothesis P_refl : ∀ s, P s s.
Hypothesis P_trans : ∀ s s' s'', P s s' → P s' s'' → P s s''.
Hypothesis P_objects : ∀ s s', P s s' → objects s ⊆ objects s'.

Lemma others_refl own s : others own s s.
Proof. by split. Qed.

Lemma others_trans own s s' s'' : others own s s' → others own s' s'' → others own s s''.
Proof.
  intros [H1 H2] [H3 H4]. split; [by eapply P_trans|]. intros x Hx. by rewrite H4, H2.
Qed.

Lemma wpo_later {A} (p : prog S A) own s s' (Φ : A → gset I → S → Prop) :
  others own s s' → (∀ a s s', others own s s' → Φ a own s → Φ a own s') →
  wpo p own s Φ → wpo p own s' Φ.
Proof.
  intros Ho HΦ. destruct p as [a|R b c k]; cbn; [by apply HΦ|].
  intros Hp s'' Ho'. apply Hp. by eapply others_trans.
Qed.

(** A command that allocates nothing. *)
Lemma wpo_step {R} (b : bool) (c : S → R * S) {A} (k : option R → prog S A) own s Φ :
  (∀ s', others own s s' → Inv s' → objects (c s').2 = objects s' ∧ Inv (c s').2 ∧ mine own s' (c s').2 ∧
     wpo (k (Some (c s').1)) own (c s').2 Φ ∧
     (b = true → wpo (k None) own s' Φ ∧ wpo (k None) own (c s').2 Φ)) →
  wpo (Do R b c k) own s Φ.
Proof.
  clear P_refl P_trans P_objects.
  intros Hk s' Ho HI. specialize (Hk s' Ho HI). destruct (c s') as [r s'']. cbn in Hk.
  destruct Hk as (E & H1 & H2 & H3 & H4).
  assert (own ∪ (objects s'' ∖ objects s') = own) as -> by (rewrite E; set_solver). done.
Qed.

Lemma mine_refl own s : mine own s s.
Proof. by split. Qed.

Lemma wpo_read {R} (f : S → R) own s (Φ : option R → gset I → S → Prop) :
  (∀ s', others own s s' → Inv s' → Φ (Some (f s')) own s' ∧ Φ None own s') → wpo (read f) own s Φ.
Proof.
  intros HΦ. apply wpo_step. intros s' Ho HI. destruct (HΦ s' Ho HI).
  split_and!; [done|done|apply mine_refl|done|]. by intros _.
Qed.

Lemma wpo_local {R} (d : R) (c : S → R * S) own s (Φ : R → gset I → S → Prop) :
  (∀ s', others own s s' → Inv s' → objects (c s').2 = objects s' ∧ Inv (c s').2 ∧ mine own s' (c s').2 ∧
     Φ (c s').1 own (c s').2) → wpo (local d c) own s Φ.
Proof. intros HΦ. apply wpo_step. intros s' Ho HI. destruct (HΦ s' Ho HI) as (H1 & H2 & H3 & H4). done. Qed.

(** A predicate that the others keep is kept by a loop that keeps it. *)
Lemma wpo_each {A} (f : A → prog S unit) (l : list A) own s (Q : S → Prop) :
  (∀ x s, x ∈ l → Q s → wpo (f x) own s (λ _ own' s', own' = own ∧ Q s')) → Q s →
  wpo (each f l) own s (λ _ own' s', own' = own ∧ Q s').
Proof.
  revert s. induction l as [|x l IH]; intros s Hf HQ; [done|].
  apply wpo_bind. eapply wpo_conseq; [apply Hf; [by left|done]|].
  intros [] own' s' [-> HQ']. apply IH; [|done]. intros y s'' Hy. apply Hf. by right.
Qed.

Context {C En : Type} (body : C → prog S unit) (env : En → S → S).

(** The calls of a run own disjoint parts of the store. *)
Record owned (s : S) (ps : list (prog S unit)) (os : list (gset I)) : Prop := {
  O_wpo : Forall2 (λ p own, own ⊆ objects s ∧ wpo p own s (λ _ _ _, True)) ps os;
  O_disjoint : ∀ i j o o', os !! i = Some o → os !! j = Some o' → i ≠ j → o ## o'
}.

Lemma owned_later s s' ps os :
  (∀ o, o ∈ os → others o s s') → owned s ps os → owned s' ps os.
Proof.
  intros Ho [Hw Hd]. split; [|done]. apply Forall2_same_length_lookup_2.
  { by eapply Forall2_length. }
  intros i p o Hp Ho'. destruct (Forall2_lookup_lr _ _ _ _ _ _ Hw Hp Ho') as [H1 H2].
  assert (Hin : o ∈ os) by (by eapply list_elem_of_lookup_2). specialize (Ho o Hin). split.
  - etrans; [exact H1|]. apply P_objects, Ho.
  - by eapply wpo_later; [exact Ho| |exact H2].
Qed.

(** One call takes a step from [s] to [s'] and goes on as [p]. *)
Lemma owned_step s s' ps os i p o o' :
  owned s ps os → os !! i = Some o → mine o s s' → o' ⊆ o ∪ (objects s' ∖ objects s) →
  wpo p o' s' (λ _ _ _, True) → owned s' (<[i := p]> ps) (<[i := o']> os).
Proof.
  intros [Hw Hd] Ho [HP Hm] Ho' Hp.
  assert (Hsub : ∀ j q, os !! j = Some q → q ⊆ objects s).
  { intros j q Hj. destruct (Forall2_lookup_r _ _ _ _ _ Hw Hj) as (? & _ & ? & _). done. }
  pose proof (P_objects _ _ HP) as Hobj. pose proof (Hsub _ _ Ho) as Hso. split.
  - apply Forall2_same_length_lookup_2; [rewrite !length_insert; by eapply Forall2_length|].
    intros j q r Hq Hr. destruct (decide (i = j)) as [<-|Hne].
    + apply list_lookup_insert_Some in Hq as [(_ & -> & _)|[? _]]; [|done].
      apply list_lookup_insert_Some in Hr as [(_ & -> & _)|[? _]]; [|done].
      split; [set_solver|done].
    + rewrite list_lookup_insert_ne in Hq by done. rewrite list_lookup_insert_ne in Hr by done.
      destruct (Forall2_lookup_lr _ _ _ _ _ _ Hw Hq Hr) as [H1 H2]. split; [set_solver|].
      eapply wpo_later; [|done|exact H2]. split; [done|]. intros x Hx. apply Hm; [set_solver|].
      specialize (Hd i j o r Ho Hr Hne). set_solver.
  - intros a b q r Hq Hr Hne.
    apply list_lookup_insert_Some in Hq as [(<- & -> & _)|[Ha Hq]];
      apply list_lookup_insert_Some in Hr as [(<- & -> & _)|[Hb Hr]]; try done.
    + specialize (Hd i b o r Ho Hr Hb). specialize (Hsub _ _ Hr). set_solver.
    + specialize (Hd i a o q Ho Hq Ha). specialize (Hsub _ _ Hq). set_solver.
    + by eapply Hd.
Qed.

Lemma owned_spawn s ps os p : owned s ps os → wpo p ∅ s (λ _ _ _, True) → owned s (ps ++ [p]) (os ++ [∅]).
Proof.
  intros [Hw Hd] Hp. split; [apply Forall2_app; [done|]; by repeat constructor|].
  intros i j o o' Hi Hj Hne.
  apply lookup_app_Some in Hi as [Hi|[Hi Hi']]; apply lookup_app_Some in Hj as [Hj|[Hj Hj']].
  - by eapply Hd.
  - apply list_lookup_singleton_Some in Hj' as [_ <-]. set_solver.
  - apply list_lookup_singleton_Some in Hi' as [_ <-]. set_solver.
  - apply list_lookup_singleton_Some in Hi' as [_ <-]. set_solver.
Qed.

Lemma exec_owned (l : label C En) s ps os :
  (∀ e, l = Event e → Inv s → Inv (env e s) ∧ ∀ o, o ⊆ objects s → others o s (env e s)) →
  (∀ c, l = Spawn c → Inv s → wpo (body c) ∅ s (λ _ _ _, True)) →
  Inv s → owned s ps os →
  let '(s', ps') := exec body env l (s, ps) in Inv s' ∧ P s s' ∧ ∃ os', owned s' ps' os'.
Proof.
  intros Henv Hspawn HI Ho.
  assert (Hsame : Inv s ∧ P s s ∧ ∃ os', owned s ps os') by eauto.
  assert (Hstep : ∀ i R b c k, ps !! i = Some (Do R b c k) → ∃ o, os !! i = Some o ∧
    let '(r, s'') := c s in let own' := o ∪ (objects s'' ∖ objects s) in
    Inv s'' ∧ mine o s s'' ∧ wpo (k (Some r)) own' s'' (λ _ _ _, True) ∧
    (b = true → wpo (k None) o s (λ _ _ _, True) ∧ wpo (k None) own' s'' (λ _ _ _, True))).
  { intros i R b c k E. destruct (Forall2_lookup_l _ _ _ _ _ (O_wpo _ _ _ Ho) E) as (o & Eo & _ & Hw).
    exists o. split; [done|]. apply (Hw s); [apply others_refl|done]. }
  destruct l as [c|i|i|i|e]; cbn [exec].
  - split_and!; [done|done|]. eexists. apply owned_spawn; [done|]. by apply Hspawn.
  - destruct (ps !! i) as [[a|R b c k]|] eqn:E; [done| |done].
    destruct (Hstep _ _ _ _ _ E) as (o & Eo & Hw). destruct (c s) as [r s''] eqn:Ec.
    destruct Hw as (H1 & H2 & H3 & _). split_and!; [done|apply H2|].
    eexists. eapply owned_step; [done|exact Eo|done|done|done].
  - destruct (ps !! i) as [[a|R [|] c k]|] eqn:E; try done.
    destruct (Hstep _ _ _ _ _ E) as (o & Eo & Hw). destruct (c s) as [r s''] eqn:Ec.
    destruct Hw as (_ & _ & _ & H4). destruct (H4 eq_refl) as [H5 _]. split_and!; [done|done|].
    eexists. eapply owned_step; [done|exact Eo|apply mine_refl| |exact H5]. set_solver.
  - destruct (ps !! i) as [[a|R [|] c k]|] eqn:E; try done.
    destruct (Hstep _ _ _ _ _ E) as (o & Eo & Hw). destruct (c s) as [r s''] eqn:Ec.
    destruct Hw as (H1 & H2 & _ & H4). destruct (H4 eq_refl) as [_ H5]. split_and!; [done|apply H2|].
    eexists. eapply owned_step; [done|exact Eo|done|done|done].
  - destruct (Henv e eq_refl HI) as [H1 H2]. split_and!; [done|apply (H2 ∅); set_solver|].
    exists os. eapply owned_later; [|exact Ho]. intros o Hin. apply H2.
    apply list_elem_of_lookup_1 in Hin as [j Hj].
    by destruct (Forall2_lookup_r _ _ _ _ _ (O_wpo _ _ _ Ho) Hj) as (? & _ & ? & _).
Qed.

(** Along every run the invariant holds and the store changes by [P]. *)
Lemma run_owned (ls : list (label C En)) s ps os :
  (∀ e s, Event e ∈ ls → Inv s → Inv (env e s) ∧ ∀ o, o ⊆ objects s → others o s (env e s)) →
  (∀ c s, Spawn c ∈ ls → Inv s → wpo (body c) ∅ s (λ _ _ _, True)) →
  Inv s → owned s ps os →
  Inv (run body env ls (s, ps)).1 ∧ P s (run body env ls (s, ps)).1.
Proof.
  revert s ps os. induction ls as [|l ls IH]; intros s ps os Henv Hspawn HI Ho; [by split|].
  pose proof (exec_owned l s ps os) as Hx.
  change (run body env (l :: ls) (s, ps)) with (run body env ls (exec body env l (s, ps))).
  destruct (exec body env l (s, ps)) as [s' ps'].
  destruct Hx as (H1 & H2 & os' & H3); [| |done|done|].
  { intros e ->. apply Henv. by left. }
  { intros c ->. apply Hspawn. by left. }
  destruct (IH s' ps' os') as [H4 H5]; [| |done|done|].
  { intros e s0 He. apply Henv. by right. }
  { intros c s0 Hc. apply Hspawn. by right. }
  split; [done|by eapply P_trans].
Qed.
End Ownership.
End Ownership.

(** Along a run, what a command reads was the state of the store at some time of that run. *)
Module History.
Section History.
Context {S C En : Type} (body : C → prog S unit) (env : En → S → S).
Context (ls : list (label C En)) (x0 : S * list (prog S unit)).

(** [s] is the state at some time of the run. *)
Definition past (s : S) : Prop := ∃ n, s = (run body env (take n ls) x0).1.

Lemma past_start : past x0.1.
Proof. by exists 0. Qed.
Lemma past_end : past (run body env ls x0).1.
Proof. exists (length ls). by rewrite firstn_all. Qed.

Context (Inv : S → Prop).

(** Some command of the run has failed or has lost its reply. *)
Definition failed : Prop := ∃ i, Break i ∈ ls ∨ Lose i ∈ ls.

(** Every command starts in a state of the run and leads to one. *)
Fixpoint wpp {A} (p : prog S A) (Φ : A → Prop) : Prop :=
  match p with
  | Ret a => Φ a
  | Do R b c k => (b = true → failed → wpp (k None) Φ) ∧
      ∀ s, past s → Inv s → past (c s).2 → Inv (c s).2 ∧ wpp (k (Some (c s).1)) Φ
  end.

Lemma wpp_conseq {A} (p : prog S A) (Φ Ψ : A → Prop) : wpp p Φ → (∀ a, Φ a → Ψ a) → wpp p Ψ.
Proof.
  intros H HΨ. induction p as [a|R b c k IH]; cbn in *; [by apply HΨ|]. destruct H as [Hn Hs].
  split; [by auto|]. intros s HP HI HP'. destruct (Hs s HP HI HP'). by auto.
Qed.

Lemma wpp_bind {A B} (p : prog S A) (f : A → prog S B) Φ : wpp p (λ a, wpp (f a) Φ) → wpp (p ≫= f) Φ.
Proof.
  induction p as [a|R b c k IH]; [done|]. intros [Hn Hs]. split; [intros; by apply IH, Hn|].
  intros s HP HI HP'. destruct (Hs s HP HI HP'). split; [done|]. by apply IH.
Qed.

Lemma wpp_seq {A B} (p : prog S A) (f : A → prog S B) (Ψ : A → Prop) Φ :
  wpp p Ψ → (∀ a, Ψ a → wpp (f a) Φ) → wpp (p ≫= f) Φ.
Proof. intros Hp Hf. apply wpp_bind. by eapply wpp_conseq. Qed.

Lemma wpp_cmd {R} (c : S → R * S) (Φ : option R → Prop) :
  (failed → Φ None) → (∀ s, past s → Inv s → past (c s).2 → Inv (c s).2 ∧ Φ (Some (c s).1)) → wpp (cmd c) Φ.
Proof. intros Hn Hc. split; [by auto|exact Hc]. Qed.

Lemma wpp_local {R} (d : R) (c : S → R * S) (Φ : R → Prop) :
  (∀ s, past s → Inv s → past (c s).2 → Inv (c s).2 ∧ Φ (c s).1) → wpp (local d c) Φ.
Proof. intros Hc. split; [done|exact Hc]. Qed.

Abbreviation safe := (λ p : prog S unit, wpp p (λ _, True)).

Lemma exec_past l n :
  take (Datatypes.S n) ls = take n ls ++ [l] →
  (∀ e s, l = Event e → past s → Inv s → past (env e s) → Inv (env e s)) →
  (∀ c, l = Spawn c → safe (body c)) →
  let x := run body env (take n ls) x0 in
  Inv x.1 → Forall safe x.2 →
  let x' := run body env (take (Datatypes.S n) ls) x0 in Inv x'.1 ∧ Forall safe x'.2.
Proof.
  intros El Henv Hspawn x HI Hps x'.
  assert (E : x' = exec body env l x) by (unfold x', x, run; by rewrite El, foldl_app).
  assert (HP : past x.1) by by exists n. assert (HP' : past x'.1) by by exists (Datatypes.S n).
  rewrite E in *. clear E x'. destruct x as [s ps]. cbn [fst snd] in *.
  assert (Hl : l ∈ ls).
  { rewrite <-(take_drop (Datatypes.S n) ls), El, !elem_of_app. left. right. by left. }
  clear El. destruct l as [c|i|i|i|e]; cbn [exec] in *.
  - split; [done|]. apply Forall_app. split; [done|]. constructor; [by apply Hspawn|done].
  - destruct (ps !! i) as [[a|R b c k]|] eqn:E; [done| |done].
    pose proof (Forall_lookup_1 _ _ _ _ Hps E) as [_ Hc]. specialize (Hc s HP HI).
    destruct (c s) as [r s']. destruct (Hc HP') as [HI' Hk]. split; [done|by apply Forall_insert].
  - destruct (ps !! i) as [[a|R [|] c k]|] eqn:E; try done.
    pose proof (Forall_lookup_1 _ _ _ _ Hps E) as [Hn _]. split; [done|].
    apply Forall_insert; [done|]. apply Hn; [done|]. exists i. by left.
  - destruct (ps !! i) as [[a|R [|] c k]|] eqn:E; try done.
    pose proof (Forall_lookup_1 _ _ _ _ Hps E) as [Hn Hc].
    destruct (Hc s HP HI HP') as [HI' _]. split; [done|].
    apply Forall_insert; [done|]. apply Hn; [done|]. exists i. by right.
  - split; [by apply Henv|done].
Qed.

(** What every call keeps holds at the end. *)
Lemma run_past :
  (∀ e s, Event e ∈ ls → past s → Inv s → past (env e s) → Inv (env e s)) →
  (∀ c, Spawn c ∈ ls → safe (body c)) →
  Inv x0.1 → Forall safe x0.2 → Inv (run body env ls x0).1.
Proof.
  intros Henv Hspawn HI Hps.
  assert (Hn : ∀ n, n ≤ length ls →
    Inv (run body env (take n ls) x0).1 ∧ Forall safe (run body env (take n ls) x0).2).
  { induction n as [|n IH]; intros Hle; [done|]. destruct IH as [HI' Hps']; [lia|].
    destruct (lookup_lt_is_Some_2 ls n) as [l Hl]; [lia|].
    assert (Hin : l ∈ ls) by by eapply list_elem_of_lookup_2.
    apply (exec_past l); [by apply take_S_r| | |done|done].
    - intros e s ->. by apply Henv.
    - intros c ->. by apply Hspawn. }
  destruct (Hn (length ls)) as [H _]; [done|]. by rewrite firstn_all in H.
Qed.
End History.
End History.
