(* ===== verification/Gateway.v ===== *)
(** The websocket gateway (services/ws-gateway): connections, the hub that fans events
    out to them, presence, and the consumer of revocations and broadcasts. A goroutine
    that serves a connection or handles a message is a program of [Programs] over the
    memory of the process and Redis; what one lock protects is one step. The loops of
    the writers and listeners are events, one per round. *)
From stdpp Require Import strings.
From Stdlib Require Import Ascii.
From S2P Require Import Prelude Json Backend Programs Middleware.
Import Programs Middleware.

Module Gateway.

(** ** Events for clients (shared/ws/ws.go) *)

(** A text on Redis or on a websocket, by what it decodes to. *)
Inductive text : Type :=
  | Message (type : string) (payload : any)          (* {"type": .., "payload": ..} *)
  | Envelope (spectators : bool) (d : text)          (* {"s": .., "d": ..} *)
  | Nothing                                          (* nil *)
  | Other (raw : string).

Definition EventSpectatorJoined : string := "spectator_joined".
Definition EventSpectatorLeft : string := "spectator_left".
Definition EventPresenceUpdate : string := "presence_update".
Definition EventBroadcast : string := "broadcast".

Definition SpectatorBlocklist (type : string) : bool :=
  bool_decide (type ∈ ["rematch_vote"; "pause_vote_update"; "session_suspended";
                       "resume_vote_update"; "session_resumed"]).

(** [json.Unmarshal] into a [FilteredEnvelope]: an event has none of its fields. *)
Definition decode_envelope (t : text) : option (bool * text) :=
  match t with
  | Envelope s d => Some (s, d)
  | Message _ _ => Some (false, Nothing)
  | _ => None
  end.

(** The [type] of a header, empty when there is none. *)
Definition header_type (t : text) : string := match t with Message type _ => type | _ => "" end.

(** Channels of Redis: [ws:room:{id}] and [ws:player:{id}]. *)
Inductive channel `{UUID} : Type :=
  | RoomChannelKey (roomID : uuid)
  | PlayerChannelKey (playerID : uuid).

#[export] Instance channel_eq_dec `{UUID} : EqDecision channel.
Proof. solve_decision. Defined.
#[export] Instance channel_countable `{UUID} : Countable channel.
Proof.
  refine (inj_countable' (λ ch, match ch with RoomChannelKey r => inl r | PlayerChannelKey p => inr p end)
    (λ x, match x with inl r => RoomChannelKey r | inr p => PlayerChannelKey p end) _).
  by intros [].
Defined.

(** ** The other services *)

(** What the gateway asks over gRPC, of whatever the databases of the user service and
    of the game server hold; and what the answers mean. [None] is an error. *)
Class Peers `{UUID} := {
  outside : Type;
  CheckBan : outside → string → option bool;
  IsParticipant : outside → string → string → option (bool * bool);
  GetRoomPlayers : outside → string → option (list string);
  banned : outside → uuid → Prop;
  seated : outside → uuid → uuid → Prop;
  watchable : outside → uuid → Prop;
  CheckBan_banned : ∀ o p, CheckBan o (uuid_String p) = Some false → ¬ banned o p;
  IsParticipant_seated : ∀ o r p b,
    IsParticipant o (uuid_String r) (uuid_String p) = Some (true, b) → seated o r p;
  IsParticipant_watchable : ∀ o r p b,
    IsParticipant o (uuid_String r) (uuid_String p) = Some (b, true) → watchable o r
}.

Section Gateway.
Context `{U : UUID} `{!JWT} `{!Peers} (Nil : uuid).

(** ** The state *)

Inductive frame : Type := TextMessage (t : text) | CloseMessage.

(** The goroutine of [WritePump]: not started by the handler yet, started but not
    scheduled, in its loop with or without a heartbeat, returned. *)
Inductive writer : Type := Unstarted | Ready | Running (heartbeat : bool) | Stopped.

(** A connection. [OnRoom] says that the callbacks for control messages are set;
    [presence] that the pointer to the presence store is; [send], [chan_closed] are the
    buffered channel; [conn] says that the websocket is open, [written] what went out. *)
Record Client := mkClient {
  RoomID : uuid; PlayerID : uuid; Spectator : bool; OnRoom : bool; presence : bool;
  closed : bool; send : list text; chan_closed : bool;
  conn : bool; writing : writer; written : list frame
}.

Definition set_room (r : uuid) (sp : bool) (x : Client) : Client :=
  mkClient r (PlayerID x) sp (OnRoom x) (presence x) (closed x) (send x) (chan_closed x) (conn x) (writing x) (written x).
Definition SetPresence (ps : bool) (x : Client) : Client :=
  mkClient (RoomID x) (PlayerID x) (Spectator x) (OnRoom x) ps (closed x) (send x) (chan_closed x) (conn x) (writing x) (written x).
Definition set_closed (b : bool) (x : Client) : Client :=
  mkClient (RoomID x) (PlayerID x) (Spectator x) (OnRoom x) (presence x) b (send x) (chan_closed x) (conn x) (writing x) (written x).
Definition set_chan (l : list text) (b : bool) (x : Client) : Client :=
  mkClient (RoomID x) (PlayerID x) (Spectator x) (OnRoom x) (presence x) (closed x) l b (conn x) (writing x) (written x).
Definition set_conn (b : bool) (x : Client) : Client :=
  mkClient (RoomID x) (PlayerID x) (Spectator x) (OnRoom x) (presence x) (closed x) (send x) (chan_closed x) b (writing x) (written x).
Definition set_writing (v : writer) (x : Client) : Client :=
  mkClient (RoomID x) (PlayerID x) (Spectator x) (OnRoom x) (presence x) (closed x) (send x) (chan_closed x) (conn x) v (written x).
Definition set_written (l : list frame) (x : Client) : Client :=
  mkClient (RoomID x) (PlayerID x) (Spectator x) (OnRoom x) (presence x) (closed x) (send x) (chan_closed x) (conn x) (writing x) l.

(** A goroutine of [listenRoom] or [listenPlayer]: whether its context is cancelled,
    whether Redis has its subscription, what it has not read yet, and whether it is
    handling a message. *)
Record Listener := mkListener {
  L_channel : channel; cancelled : bool; subscribed : bool; inbox : list text; busy : bool
}.
Definition set_cancelled (b : bool) (l : Listener) : Listener :=
  mkListener (L_channel l) b (subscribed l) (inbox l) (busy l).
Definition set_subscribed (b : bool) (l : Listener) : Listener :=
  mkListener (L_channel l) (cancelled l) b (inbox l) (busy l).
Definition set_inbox (v : list text) (b : bool) (l : Listener) : Listener :=
  mkListener (L_channel l) (cancelled l) (subscribed l) v b.

(** The process, the presence keys of Redis with the time they expire, what has been
    published, the other services, and the panics that have occurred. The maps of rooms
    and of players are one map by channel. *)
Record gateway := mkGateway {
  now : Z; peers : outside; log : list (channel * text); online : gmap uuid Z;
  index : gmap channel (gset nat); cancels : gmap channel nat;
  clients : gmap nat Client; listeners : gmap nat Listener; fresh : nat; panics : list string
}.

Definition set_now v s := mkGateway v (peers s) (log s) (online s) (index s) (cancels s) (clients s) (listeners s) (fresh s) (panics s).
Definition set_peers v s := mkGateway (now s) v (log s) (online s) (index s) (cancels s) (clients s) (listeners s) (fresh s) (panics s).
Definition set_log v s := mkGateway (now s) (peers s) v (online s) (index s) (cancels s) (clients s) (listeners s) (fresh s) (panics s).
Definition set_online v s := mkGateway (now s) (peers s) (log s) v (index s) (cancels s) (clients s) (listeners s) (fresh s) (panics s).
Definition set_hub i k s := mkGateway (now s) (peers s) (log s) (online s) i k (clients s) (listeners s) (fresh s) (panics s).
Definition set_clients v s := mkGateway (now s) (peers s) (log s) (online s) (index s) (cancels s) v (listeners s) (fresh s) (panics s).
Definition set_listeners v s := mkGateway (now s) (peers s) (log s) (online s) (index s) (cancels s) (clients s) v (fresh s) (panics s).
Definition set_fresh v s := mkGateway (now s) (peers s) (log s) (online s) (index s) (cancels s) (clients s) (listeners s) v (panics s).
Definition panic (what : string) s := mkGateway (now s) (peers s) (log s) (online s) (index s) (cancels s) (clients s) (listeners s) (fresh s) (panics s ++ [what]).

Definition alter_client (f : Client → Client) (c : nat) (s : gateway) : gateway :=
  set_clients (alter f c (clients s)) s.
Definition alter_listener (f : Listener → Listener) (l : nat) (s : gateway) : gateway :=
  set_listeners (alter f l (listeners s)) s.

Definition members (ch : channel) (s : gateway) : gset nat := default ∅ (index s !! ch).

(** Steps of the process itself, which do not fail. *)
Definition act (f : gateway → gateway) : prog gateway unit := local tt (λ s, (tt, f s)).
Definition look {A} (d : A) (f : gateway → A) : prog gateway A := local d (λ s, (f s, s)).

(** [x] is read off the pointer [c]. *)
Definition with_client {A} (c : nat) (d : prog gateway A) (k : Client → prog gateway A) : prog gateway A :=
  x ← look None (λ s, clients s !! c);
  match x with Some x => k x | None => d end.

(** ** Clients (internal/hub/client.go) *)

Definition buffer : nat := 64.

(** [close(c.send)] *)
Definition close_chan (c : nat) (s : gateway) : gateway :=
  match clients s !! c with
  | Some x => if chan_closed x then panic "close of closed channel" s
              else alter_client (λ x, set_chan (send x) true x) c s
  | None => s
  end.

(** [c.send <- data], when there is room. *)
Definition push (c : nat) (m : text) (s : gateway) : gateway :=
  match clients s !! c with
  | Some x => if chan_closed x then panic "send on closed channel" s
              else alter_client (λ x, set_chan (send x ++ [m]) (chan_closed x) x) c s
  | None => s
  end.

Definition close_send (c : nat) (s : gateway) : gateway :=
  match clients s !! c with
  | Some x => if closed x then s else close_chan c (alter_client (set_closed true) c s)
  | None => s
  end.

Definition try_send (c : nat) (m : text) (s : gateway) : bool * gateway :=
  match clients s !! c with
  | Some x =>
      if closed x then (false, s)
      else if length (send x) <? buffer then (true, push c m s)
      else (false, close_chan c (alter_client (set_closed true) c s))
  | None => (false, s)
  end.

Definition try_send_or_drop (c : nat) (m : text) (s : gateway) : gateway :=
  match clients s !! c with
  | Some x => if closed x then s else if length (send x) <? buffer then push c m s else s
  | None => s
  end.

Definition closeSend (c : nat) : prog gateway unit := act (close_send c).
Definition trySend (c : nat) (m : text) : prog gateway bool := local false (try_send c m).
Definition trySendOrDrop (c : nat) (m : text) : prog gateway unit := act (try_send_or_drop c m).

Definition new_client (roomID playerID : uuid) (spectator onRoom ps : bool) (s : gateway) : nat * gateway :=
  (fresh s, set_fresh (S (fresh s)) (set_clients
    (<[fresh s := mkClient roomID playerID spectator onRoom ps false [] false true Unstarted []]> (clients s)) s)).
Definition NewClient (roomID playerID : uuid) (spectator onRoom ps : bool) : prog gateway nat :=
  local 0 (new_client roomID playerID spectator onRoom ps).

(** ** The hub (internal/hub/hub.go) *)

Definition subscribe (ch : channel) (c : nat) (s : gateway) : gateway :=
  let s := set_hub (<[ch := {[c]} ∪ members ch s]> (index s)) (cancels s) s in
  match cancels s !! ch with
  | Some _ => s
  | None =>
      set_fresh (S (fresh s)) (set_listeners (<[fresh s := mkListener ch false false [] false]> (listeners s))
        (set_hub (index s) (<[ch := fresh s]> (cancels s)) s))
  end.

Definition unsubscribe (ch : channel) (c : nat) (s : gateway) : gateway :=
  let rest := members ch s ∖ {[c]} in
  if decide (rest = ∅) then
    let s := set_hub (delete ch (index s)) (cancels s) s in
    match cancels s !! ch with
    | Some l => set_hub (index s) (delete ch (cancels s)) (alter_listener (set_cancelled true) l s)
    | None => s
    end
  else set_hub (<[ch := rest]> (index s)) (cancels s) s.

Definition SubscribeRoom (r : uuid) (c : nat) : prog gateway unit := act (subscribe (RoomChannelKey r) c).
Definition UnsubscribeRoom (r : uuid) (c : nat) : prog gateway unit := act (unsubscribe (RoomChannelKey r) c).
Definition SubscribePlayer (p : uuid) (c : nat) : prog gateway unit := act (subscribe (PlayerChannelKey p) c).
Definition UnsubscribePlayer (p : uuid) (c : nat) : prog gateway unit := act (unsubscribe (PlayerChannelKey p) c).

(** PUBLISH: every subscriber of the channel is sent the message. *)
Definition published (ch : channel) (t : text) (s : gateway) : gateway :=
  set_listeners ((λ l, if bool_decide (L_channel l = ch) && subscribed l
                       then set_inbox (inbox l ++ [t]) (busy l) l else l) <$> listeners s)
    (set_log (log s ++ [(ch, t)]) s).

Definition Publish (r : uuid) (e : text) : prog gateway unit :=
  ignore (write (published (RoomChannelKey r) (Envelope false e))).
Definition PublishToPlayer (p : uuid) (e : text) : prog gateway unit :=
  ignore (write (published (PlayerChannelKey p) e)).

Definition spectators (r : uuid) (s : gateway) : nat :=
  length (filter (λ c, (Spectator <$> clients s !! c) = Some true) (elements (members (RoomChannelKey r) s))).
Definition SpectatorCount (r : uuid) : prog gateway nat := look 0 (spectators r).

Definition DisconnectPlayer (p : uuid) : prog gateway unit :=
  cs ← look [] (λ s, elements (members (PlayerChannelKey p) s));
  each (λ c, sent ← trySend c Nothing; if sent : bool then mret tt else closeSend c) cs.

(** The iteration over the live map of a room: a client that has left is not visited. *)
Definition visit (ch : channel) (c : nat) (s : gateway) : option Client :=
  if decide (c ∈ members ch s) then clients s !! c else None.
Definition for_members (ch : channel) (f : nat → Client → prog gateway unit) : prog gateway unit :=
  cs ← look [] (λ s, elements (members ch s));
  each (λ c, x ← look None (visit ch c); match x with Some x => f c x | None => mret tt end) cs.

Definition fanout (r : uuid) (type : string) (d : text) : prog gateway unit :=
  for_members (RoomChannelKey r) (λ c x,
    if SpectatorBlocklist type && Spectator x then mret tt else ignore (trySend c d)).

Definition fanoutSpectatorsOnly (r : uuid) (type : string) (d : text) : prog gateway unit :=
  if SpectatorBlocklist type then mret tt
  else for_members (RoomChannelKey r) (λ c x,
    if Spectator x then ignore (trySend c d) else mret tt).

Definition fanoutPlayer (p : uuid) (d : text) : prog gateway unit :=
  for_members (PlayerChannelKey p) (λ c _, ignore (trySend c d)).

(** The clients of the rooms, then those of the players that were not among them. *)
Definition is_room (ch : channel) : bool := match ch with RoomChannelKey _ => true | _ => false end.
Definition all_members (room : bool) (s : gateway) : gset nat :=
  map_fold (λ ch cs acc, if Bool.eqb (is_room ch) room then cs ∪ acc else acc) ∅ (index s).
Definition BroadcastAll (d : text) : prog gateway unit :=
  sent ← look ∅ (all_members true);
  each (λ c, ignore (trySend c d)) (elements sent);;
  cs ← look ∅ (all_members false);
  each (λ c, ignore (trySend c d)) (elements (cs ∖ sent)).

Definition SendDirect (c : nat) (d : text) : prog gateway unit := trySendOrDrop c d.

Definition gracefulShutdown : prog gateway unit :=
  rooms ← look ∅ (all_members true); each closeSend (elements rooms);;
  ps ← look ∅ (all_members false); each closeSend (elements ps).

(** One round of [listenRoom] or [listenPlayer]: the next message, if there is one. *)
Definition receive (l : nat) (s : gateway) : option (channel * text) * gateway :=
  match listeners s !! l with
  | Some L =>
      match inbox L with
      | t :: rest => if busy L then (None, s)
                     else (Some (L_channel L, t), alter_listener (set_inbox rest true) l s)
      | [] => (None, s)
      end
  | None => (None, s)
  end.
Definition release (l : nat) : gateway → gateway := alter_listener (λ L, set_inbox (inbox L) false L) l.

Definition listenRoom (r : uuid) (payload : text) : prog gateway unit :=
  match decode_envelope payload with
  | None => mret tt
  | Some (spectators, d) =>
      if spectators : bool then fanoutSpectatorsOnly r (header_type d) d else fanout r (header_type d) d
  end.
Definition listenPlayer (p : uuid) (payload : text) : prog gateway unit := fanoutPlayer p payload.

Definition listen (l : nat) : prog gateway unit :=
  m ← local None (receive l);
  match m with
  | None => mret tt
  | Some (ch, t) =>
      match ch with RoomChannelKey r => listenRoom r t | PlayerChannelKey p => listenPlayer p t end;;
      act (release l)
  end.

(** ** Presence (internal/presence/presence.go) *)

Definition ttl : Z := 30 * 1000000.

Definition presence_Set (p : uuid) : prog gateway unit :=
  ignore (write (λ s, set_online (<[p := (now s + ttl)%Z]> (online s)) s)).
Definition presence_Del (p : uuid) : prog gateway unit :=
  ignore (write (λ s, set_online (delete p (online s)) s)).
Definition exists_key (p : uuid) (s : gateway) : bool :=
  match online s !! p with Some t => (now s <? t)%Z | None => false end.
Definition IsOnline (p : uuid) : prog gateway (option bool) := read (exists_key p).
Definition ListOnline (ps : list uuid) : prog gateway (option (gmap uuid bool)) :=
  match ps with
  | [] => mret (Some ∅)
  | _ => read (λ s, list_to_map (reverse ((λ p, (p, exists_key p s)) <$> ps)))
  end.

(** ** Handlers (internal/handler/handler.go) *)

Definition spectator_count (type : string) (n : nat) : text :=
  Message type (Map {["spectator_count" := Int (Z.of_nat n)]}).
Definition presence_update (playerID : string) (online : bool) : text :=
  Message EventPresenceUpdate (Map (<["player_id" := Str playerID]> {["online" := Bool online]})).
Definition room_subscribed (roomID : string) (spectator : bool) : text :=
  Message "room_subscribed" (Map (<["room_id" := Str roomID]> {["spectator" := Bool spectator]})).

(** A call over gRPC, as [None] when it fails. *)
Definition rpc {A} (f : outside → option A) : prog gateway (option A) :=
  r ← read (λ s, f (peers s)); mret match r with Some (Some a) => Some a | _ => None end.

Definition checkParticipant (roomID playerID : uuid) : prog gateway (option (bool * bool)) :=
  rpc (λ o, IsParticipant o (uuid_String roomID) (uuid_String playerID)).

Definition getRoomPlayerIDs (roomID : uuid) : prog gateway (list uuid) :=
  r ← rpc (λ o, GetRoomPlayers o (uuid_String roomID));
  mret (omap uuid_Parse (default [] r)).

Definition publish_count (type : string) (roomID : uuid) : prog gateway unit :=
  n ← SpectatorCount roomID; Publish roomID (spectator_count type n).
Definition publish_presence (roomID playerID : uuid) (on : bool) : prog gateway unit :=
  Publish roomID (presence_update (uuid_String playerID) on).

(** What a new member of the room's channel announces, and is told. *)
Definition announce (c : nat) (roomID playerID : uuid) (spectator : bool) : prog gateway unit :=
  (if spectator then publish_count EventSpectatorJoined roomID else mret tt);;
  if spectator then mret tt
  else
    presence_Set playerID;;
    publish_presence roomID playerID true;;
    ids ← getRoomPlayerIDs roomID;
    onlineMap ← ListOnline ids;
    match onlineMap with
    | Some m => each (λ kv, SendDirect c (presence_update (uuid_String kv.1) kv.2)) (map_to_list m)
    | None => mret tt
    end.

Definition OnRoomSubscribe (c : nat) (roomID : uuid) : prog gateway unit :=
  with_client c (mret tt) (λ x,
    r ← checkParticipant roomID (PlayerID x);
    match r with
    | None => mret tt
    | Some (isParticipant, spectatorsAllowed) =>
        if negb isParticipant && negb spectatorsAllowed then mret tt
        else
          let spectator := negb isParticipant in
          act (alter_client (set_room roomID spectator) c);;
          (if spectator then mret tt else act (alter_client (SetPresence true) c));;
          SubscribeRoom roomID c;;
          announce c roomID (PlayerID x) spectator;;
          SendDirect c (room_subscribed (uuid_String roomID) spectator)
    end).

Definition OnRoomUnsubscribe (c : nat) : prog gateway unit :=
  with_client c (mret tt) (λ x,
    let roomID := RoomID x in let spectator := Spectator x in
    UnsubscribeRoom roomID c;;
    (if spectator then publish_count EventSpectatorLeft roomID else mret tt);;
    (if spectator then mret tt
     else presence_Del (PlayerID x);; publish_presence roomID (PlayerID x) false);;
    act (alter_client (set_room Nil false) c);;
    act (alter_client (SetPresence false) c)).

(** *** Reading a connection (internal/hub/client.go) *)

(** A control message, [None] when the text does not decode to one. *)
Definition control : Type := option (string * string).

Definition unsubscribe_room (c : nat) : prog gateway unit :=
  with_client c (mret tt) (λ x,
    if negb (OnRoom x) || bool_decide (RoomID x = Nil) then mret tt else OnRoomUnsubscribe c).

Definition handleControl (c : nat) (msg : control) : prog gateway unit :=
  match msg with
  | None => mret tt
  | Some (action, room) =>
      if decide (action = "subscribe_room") then
        with_client c (mret tt) (λ x,
          if OnRoom x then
            match uuid_Parse room with
            | None => mret tt
            | Some roomID =>
                (if decide (RoomID x = Nil) then mret tt else unsubscribe_room c);;
                OnRoomSubscribe c roomID
            end
          else mret tt)
      else if decide (action = "unsubscribe_room") then unsubscribe_room c
      else mret tt
  end.

(** The messages of the peer are a list; reading fails after the last, or when the
    websocket has been closed. *)
Fixpoint read_loop (c : nat) (msgs : list control) : prog gateway unit :=
  match msgs with
  | [] => mret tt
  | m :: msgs =>
      with_client c (mret tt) (λ x, if conn x then handleControl c m;; read_loop c msgs else mret tt)
  end.

Definition ReadPump (c : nat) (msgs : list control) : prog gateway unit :=
  read_loop c msgs;;
  with_client c (mret tt) (λ x, if decide (RoomID x = Nil) then mret tt else UnsubscribeRoom (RoomID x) c);;
  with_client c (mret tt) (λ x, if Spectator x then mret tt else UnsubscribePlayer (PlayerID x) c);;
  act (alter_client (set_conn false) c);;
  with_client c (mret tt) (λ x,
    if negb (Spectator x) && presence x then presence_Del (PlayerID x) else mret tt).

(** [go c.WritePump()] *)
Definition go_WritePump (c : nat) : prog gateway unit := act (alter_client (set_writing Ready) c).

(** *** The HTTP handlers *)

Inductive body : Type :=
  | B_error (msg : string)
  | B_online (m : list (string * bool))
  | B_websocket.
Definition handler : Type := prog gateway (response body).
Definition writeError (status : Z) (msg : string) : handler :=
  Middleware.writeError (M := prog gateway) B_error status msg.

(** A request: its cookie, its origin, whether it is a well-formed upgrade, and what the
    peer sends once the websocket is open. *)
Inductive route : Type :=
  | GetRoom (roomID : string)
  | GetPlayer (playerID : string)
  | GetPresence (ids : string).
Record request := mkRequest {
  cookie : option string; origin : string; handshake : bool; sends : list control; to : route
}.

Context (allowedOrigins : list string).

Definition checkOrigin (r : request) : bool :=
  match allowedOrigins with [] => true | _ => bool_decide (origin r ∈ allowedOrigins) end.

(** The upgrader answers itself when it refuses. *)
Definition Upgrade (r : request) (k : handler) : handler :=
  if negb (checkOrigin r) then writeError StatusForbidden "websocket: request origin not allowed by Upgrader.CheckOrigin"
  else if negb (handshake r) then writeError StatusBadRequest "Bad Request"
  else k.

(** The ban check that both handlers start with. *)
Definition not_banned (playerID : uuid) (k : handler) : handler :=
  b ← rpc (λ o, CheckBan o (uuid_String playerID));
  match b with
  | None => writeError StatusInternalServerError "failed to verify player status"
  | Some true => writeError StatusForbidden "player is banned"
  | Some false => k
  end.

Definition switched : handler := mret (mkResponse 101 B_websocket).

Definition RoomHandler (r : request) (raw : string) (claims : Claims) : handler :=
  match uuid_Parse raw with
  | None => writeError StatusBadRequest "invalid room id"
  | Some roomID =>
      let playerID := Middleware.PlayerID claims in
      not_banned playerID (
        a ← checkParticipant roomID playerID;
        match a with
        | None => writeError StatusNotFound "room not found"
        | Some (isParticipant, spectatorsAllowed) =>
            if negb isParticipant && negb spectatorsAllowed then
              writeError StatusForbidden "spectators not allowed in this room"
            else
              Upgrade r (
                let spectator := negb isParticipant in
                c ← NewClient roomID playerID spectator false true;
                SubscribeRoom roomID c;;
                SubscribePlayer playerID c;;
                announce c roomID playerID spectator;;
                go_WritePump c;;
                ReadPump c (sends r);;
                (if spectator then publish_count EventSpectatorLeft roomID
                 else publish_presence roomID playerID false);;
                switched)
        end)
  end.

(** The player of the path is not looked at. *)
Definition PlayerHandler (r : request) (claims : Claims) : handler :=
  let playerID := Middleware.PlayerID claims in
  not_banned playerID (
    Upgrade r (
      c ← NewClient Nil playerID false true false;
      SubscribePlayer playerID c;;
      go_WritePump c;;
      ReadPump c (sends r);;
      switched)).

(** [strings.Split(s, ",")] and [strings.TrimSpace], on ASCII. *)
Fixpoint Split (s acc : string) : list string :=
  match s with
  | EmptyString => [String.rev acc]
  | String a s => if decide (a = ","%char) then String.rev acc :: Split s "" else Split s (String a acc)
  end.
Definition is_space (a : Ascii.ascii) : bool :=
  let n := Ascii.nat_of_ascii a in (n =? 32) || ((9 <=? n) && (n <=? 13)).
Fixpoint trim_left (s : string) : string :=
  match s with String a s' => if is_space a then trim_left s' else s | EmptyString => s end.
Definition TrimSpace (s : string) : string := String.rev (trim_left (String.rev (trim_left s))).

Definition PresenceHandler (idsParam : string) (_ : Claims) : handler :=
  if decide (idsParam = "") then writeError StatusBadRequest "ids query param required"
  else
    match omap (λ s, uuid_Parse (TrimSpace s)) (Split idsParam "") with
    | [] => writeError StatusBadRequest "no valid ids"
    | ids =>
        m ← ListOnline (take 100 ids);
        match m with
        | None => writeError StatusInternalServerError "internal error"
        | Some m => mret (mkResponse StatusOK (B_online ((λ kv, (uuid_String kv.1, kv.2)) <$> map_to_list m)))
        end
    end.

Definition serve (secret : string) (r : request) : handler :=
  Require (M := prog gateway) B_error secret (cookie r) (λ claims,
    match to r with
    | GetRoom raw => RoomHandler r raw claims
    | GetPlayer _ => PlayerHandler r claims
    | GetPresence ids => PresenceHandler ids claims
    end).

(** ** The consumer (internal/consumer/consumer.go) *)

(** A message on [player.session.revoked] or [admin.broadcast.sent], as it decodes. *)
Inductive signal : Type :=
  | SessionRevoked (playerID : option string)
  | BroadcastSent (e : option (string * string)).

Definition broadcast (message broadcast_type : string) : text :=
  Message EventBroadcast (MapStr (<["message" := message]> {["broadcast_type" := broadcast_type]})).

Definition handleSessionRevoked (payload : option string) : prog gateway unit :=
  match payload ≫= uuid_Parse with Some p => DisconnectPlayer p | None => mret tt end.
Definition handleBroadcastSent (payload : option (string * string)) : prog gateway unit :=
  match payload with Some (m, b) => BroadcastAll (broadcast m b) | None => mret tt end.
Definition handle (m : signal) : prog gateway unit :=
  match m with SessionRevoked p => handleSessionRevoked p | BroadcastSent e => handleBroadcastSent e end.

(** ** The process *)

Inductive call : Type :=
  | Http (r : request)
  | Listen (l : nat)
  | Consume (m : signal)
  | Shutdown.

Definition goroutine (secret : string) (c : call) : prog gateway unit :=
  match c with
  | Http r => ignore (serve secret r)
  | Listen l => listen l
  | Consume m => handle m
  | Shutdown => gracefulShutdown
  end.

(** One round of [WritePump]: a message, or the close message of a closed channel. *)
Definition write_round (x : Client) : Client :=
  match writing x, send x with
  | Running _, m :: rest =>
      if conn x then set_written (written x ++ [TextMessage m]) (set_chan rest (chan_closed x) x)
      else set_writing Stopped (set_chan rest (chan_closed x) x)
  | Running _, [] =>
      if chan_closed x then
        set_conn false (set_writing Stopped
          (if conn x then set_written (written x ++ [CloseMessage]) x else x))
      else x
  | _, _ => x
  end.

(** The websocket breaks: reading and writing fail from then on. *)
Definition hang_up (x : Client) : Client :=
  set_conn false (match writing x with Running _ => set_writing Stopped x | _ => x end).

(** [WritePump] is scheduled: the ticker of the heartbeat exists if the client has a
    presence store by then. *)
Definition start_writer (x : Client) : Client :=
  match writing x with Ready => set_writing (Running (negb (Spectator x) && presence x)) x | _ => x end.

(** A tick of the heartbeat: the key is set anew, through the pointer of that moment. *)
Definition heartbeat (c : nat) (s : gateway) : gateway :=
  match clients s !! c with
  | Some x =>
      match writing x with
      | Running true =>
          if presence x then set_online (<[PlayerID x := (now s + ttl)%Z]> (online s)) s
          else panic "invalid memory address or nil pointer dereference" s
      | _ => s
      end
  | None => s
  end.

(** A listener whose context is cancelled returns. *)
Definition stop (l : nat) (s : gateway) : gateway :=
  match listeners s !! l with
  | Some L => if cancelled L && negb (busy L) then set_listeners (delete l (listeners s)) s else s
  | None => s
  end.

(** Time, the other services, what they publish, Redis, the network and the scheduler. *)
Inductive happening : Type :=
  | Clock (t : Z)
  | Elsewhere (o : outside)
  | Published (ch : channel) (t : text)
  | Subscribed (l : nat)
  | Dropped (l : nat)
  | Stop (l : nat)
  | StartWriter (c : nat)
  | Write (c : nat)
  | HangUp (c : nat)
  | Heartbeat (c : nat).

Definition happen (e : happening) (s : gateway) : gateway :=
  match e with
  | Clock t => set_now t s
  | Elsewhere o => set_peers o s
  | Published ch t => published ch t s
  | Subscribed l => alter_listener (set_subscribed true) l s
  | Dropped l => alter_listener (λ L, set_inbox (tail (inbox L)) (busy L) L) l s
  | Stop l => stop l s
  | StartWriter c => alter_client start_writer c s
  | Write c => alter_client write_round c s
  | HangUp c => alter_client hang_up c s
  | Heartbeat c => heartbeat c s
  end.

(** A process that has just started. *)
Definition New (o : outside) : gateway := mkGateway 0 o [] ∅ ∅ ∅ ∅ ∅ 0 [].

Definition run (secret : string) (ls : list (label call happening)) (s : gateway) : gateway :=
  (Programs.run (goroutine secret) happen ls (s, [])).1.

End Gateway.
End Gateway.
