(* ===== verification/GatewaySpec.v ===== *)
(** What the websocket gateway guarantees, whatever its goroutines, Redis and the other
    services do: who receives which event, that its listeners are those of its
    subscribers, and that no channel is closed twice or written to when closed. *)
From S2P Require Import Prelude Json Backend Programs Ownership Middleware Gateway.
Import Programs Ownership Middleware Gateway.

Section Gateway.
Context `{U : UUID} `{!JWT} `{!Peers} (Nil : uuid) (allowedOrigins : list string) (secret : string).
Context (o0 : outside) (ls : list (label call happening)).

(** ** What has happened *)

(** A state of the databases of the other services. *)
Definition seen (o : outside) : Prop := o = o0 ∨ Programs.Event (Elsewhere o) ∈ ls.

(** What the game server has said of a player and a room: a spectator, or a player. *)
Definition admitted (p r : uuid) (spectator : bool) : Prop :=
  ∃ o, seen o ∧ if spectator then watchable o r else seated o r p.

Definition claims_of (r : request) : option Claims :=
  raw ← cookie r; match VerifyToken secret raw with Ok c => Some c | Err _ => None end.

(** A connection of [p] was asked for with a valid cookie, and [p] was not banned. *)
Definition identified (p : uuid) : Prop :=
  (∃ r c, Spawn (Http r) ∈ ls ∧ claims_of r = Some c ∧ Middleware.PlayerID c = p) ∧
  ∃ o, seen o ∧ ¬ banned o p.

(** What the gateway itself publishes, on the channels of rooms only. *)
Definition own_event (ch : channel) (t : text) : Prop :=
  ∃ r e, ch = RoomChannelKey r ∧ t = Envelope false e ∧
    ((∃ type n, e = spectator_count type n) ∨ ∃ q on, e = presence_update q on).
Definition published_by_others (ch : channel) (t : text) : Prop := Programs.Event (Published ch t) ∈ ls.

(** Why a connection of [p] is sent a text. *)
Inductive reason (lg : list (channel * text)) (p : uuid) (m : text) : Prop :=
  | to_player : (PlayerChannelKey p, m) ∈ lg → reason lg p m
  | to_room r t : (RoomChannelKey r, t) ∈ lg → decode_envelope t = Some (false, m) →
      admitted p r false → reason lg p m
  | to_spectator r t only : (RoomChannelKey r, t) ∈ lg → decode_envelope t = Some (only, m) →
      admitted p r true → SpectatorBlocklist (header_type m) = false → reason lg p m
  | to_everybody a b : Spawn (Consume (BroadcastSent (Some (a, b)))) ∈ ls → m = broadcast a b → reason lg p m
  | to_revoked raw : Spawn (Consume (SessionRevoked (Some raw))) ∈ ls → uuid_Parse raw = Some p →
      m = Nothing → reason lg p m
  | snapshot r o l raw q on : admitted p r false → seen o → GetRoomPlayers o (uuid_String r) = Some l →
      raw ∈ l → uuid_Parse raw = Some q → m = presence_update (uuid_String q) on → reason lg p m
  | acknowledged r sp : admitted p r sp → m = room_subscribed (uuid_String r) sp → reason lg p m.

(** ** The invariant *)

Definition belongs (ch : channel) (x : Client) : Prop :=
  match ch with
  | RoomChannelKey r => RoomID x = r ∧ admitted (PlayerID x) r (Spectator x)
  | PlayerChannelKey p => PlayerID x = p
  end.

Definition client_ok (lg : list (channel * text)) (x : Client) : Prop :=
  chan_closed x = closed x ∧ identified (PlayerID x) ∧
  (∀ m, m ∈ send x ∨ TextMessage m ∈ written x → reason lg (PlayerID x) m).

(** There are subscribers of a channel exactly as long as there is a listener of it that
    has not been cancelled, and then there is one. *)
Record hub_ok (idx : gmap channel (gset nat)) (cs : gmap channel nat) (lsn : gmap nat Listener) (n : nat) : Prop := {
  H_cancels : ∀ ch, is_Some (idx !! ch) ↔ is_Some (cs !! ch);
  H_members : ∀ ch s, idx !! ch = Some s → s ≠ ∅;
  H_running : ∀ ch l, cs !! ch = Some l → ∃ L, lsn !! l = Some L ∧ L_channel L = ch ∧ cancelled L = false;
  H_registered : ∀ l L, lsn !! l = Some L → l < n ∧ (cancelled L = false → cs !! L_channel L = Some l)
}.

Definition nil_pointer : string := "invalid memory address or nil pointer dereference".

Record Inv (s : gateway) : Prop := {
  I_peers : seen (peers s);
  I_hub : hub_ok (index s) (cancels s) (listeners s) (fresh s);
  I_clients : ∀ c x, clients s !! c = Some x → c < fresh s ∧ client_ok (log s) x;
  I_members : ∀ ch cs c, index s !! ch = Some cs → c ∈ cs → ∃ x, clients s !! c = Some x ∧ belongs ch x;
  I_inbox : ∀ l L t, listeners s !! l = Some L → t ∈ inbox L → (L_channel L, t) ∈ log s;
  I_log : ∀ ch t, (ch, t) ∈ log s → published_by_others ch t ∨ own_event ch t;
  I_panics : ∀ w, w ∈ panics s → w = nil_pointer
}.

(** How the state grows, and what of a connection only its own goroutine changes. *)
Definition grows (s s' : gateway) : Prop :=
  (∀ e, e ∈ log s → e ∈ log s') ∧
  ∀ c x, clients s !! c = Some x → ∃ x', clients s' !! c = Some x' ∧ PlayerID x' = PlayerID x ∧ OnRoom x' = OnRoom x.

Definition objects (s : gateway) : gset nat := dom (clients s).
Definition channels_of (c : nat) (s : gateway) : gset channel := dom (filter (λ kv, c ∈ kv.2) (index s)).
Definition view (c : nat) (s : gateway) : option (uuid * bool * bool) * gset channel :=
  ((λ x, (RoomID x, Spectator x, presence x)) <$> clients s !! c, channels_of c s).

Lemma elem_of_channels ch c s : ch ∈ channels_of c s ↔ c ∈ members ch s.
Proof.
  unfold channels_of, members. rewrite elem_of_dom. split.
  - intros [cs [E Hc]%map_lookup_filter_Some]. by rewrite E.
  - destruct (index s !! ch) as [cs|] eqn:E; [|set_solver]. intros Hc.
    exists cs. by apply map_lookup_filter_Some.
Qed.

Lemma hub_grows_refl s : grows s s.
Proof. split; eauto. Qed.

Lemma hub_grows_trans s s' s'' : grows s s' → grows s' s'' → grows s s''.
Proof.
  intros [H1 H2] [H3 H4]. split; [eauto|]. intros c x Hx.
  destruct (H2 c x Hx) as (x' & Hx' & E1 & E2). destruct (H4 c x' Hx') as (x'' & Hx'' & E3 & E4).
  exists x''. split; [done|split; congruence].
Qed.

Lemma hub_grows_objects s s' : grows s s' → objects s ⊆ objects s'.
Proof.
  intros [_ Hg] c. unfold objects. rewrite !elem_of_dom. intros [x Hx].
  destruct (Hg c x Hx) as (x' & Hx' & _). eauto.
Qed.

Lemma reason_mono lg lg' p m : (∀ e, e ∈ lg → e ∈ lg') → reason lg p m → reason lg' p m.
Proof.
  intros Hl [].
  - eapply to_player; eauto.
  - eapply to_room; eauto.
  - eapply to_spectator; eauto.
  - eapply to_everybody; eauto.
  - eapply to_revoked; eauto.
  - eapply snapshot; eauto.
  - eapply acknowledged; eauto.
Qed.

Lemma client_ok_mono lg lg' x : (∀ e, e ∈ lg → e ∈ lg') → client_ok lg x → client_ok lg' x.
Proof. intros Hl (H1 & H2 & H3). split_and!; [done|done|]. intros m Hm. by eapply reason_mono, H3. Qed.

Abbreviation wp := (wpo Inv grows objects view).
Abbreviation others := (others grows view).
Abbreviation mine := (mine grows objects view).

(** ** Steps *)

(** A step that leaves to their owners what belongs to them. *)
Record quiet_step (s s' : gateway) : Prop := {
  Q_objects : objects s' = objects s;
  Q_inv : Inv s';
  Q_grows : grows s s';
  Q_view : ∀ c, view c s' = view c s
}.

Lemma quiet_step_refl s : Inv s → quiet_step s s.
Proof. intros HI. split; [done|done|apply hub_grows_refl|done]. Qed.

Lemma quiet_others own s s' : quiet_step s s' → others own s s'.
Proof. intros []. by split. Qed.
Lemma quiet_mine own s s' : quiet_step s s' → mine own s s'.
Proof. intros []. by split. Qed.

Lemma others_r own (s : gateway) : others own s s.
Proof. split; [apply hub_grows_refl|done]. Qed.

Lemma others_t own s s' s'' : others own s s' → others own s' s'' → others own s s''.
Proof. apply others_trans. apply hub_grows_trans. Qed.

(** A change of the client behind one pointer. *)
Lemma quiet_client f c s : Inv s →
  (∀ x, PlayerID (f x) = PlayerID x ∧ OnRoom (f x) = OnRoom x ∧ RoomID (f x) = RoomID x ∧
     Spectator (f x) = Spectator x ∧ presence (f x) = presence x) →
  (∀ x, clients s !! c = Some x → client_ok (log s) x → client_ok (log s) (f x)) →
  quiet_step s (alter_client f c s).
Proof.
  intros HI Hf Hok. split.
  - unfold objects. cbn. by rewrite dom_alter_L.
  - destruct HI as [H1 H2 H3 H4 H5 H7 H6]. split; try done; cbn.
    + intros d x Hx. apply lookup_alter_Some in Hx as [(-> & y & Hy & ->)|[_ Hx]]; [|by apply H3].
      destruct (H3 _ _ Hy). split; [done|]. by apply Hok.
    + intros ch cs d Hcs Hd. destruct (H4 ch cs d Hcs Hd) as (x & Hx & Hb).
      destruct (decide (c = d)) as [->|Hne].
      * exists (f x). rewrite lookup_alter_eq, Hx. split; [done|].
        destruct (Hf x) as (E1 & E2 & E3 & E4 & E5). destruct ch; cbn in *; congruence.
      * exists x. by rewrite lookup_alter_ne.
  - split; [done|]. intros d x Hx. cbn. destruct (decide (c = d)) as [->|Hne].
    + exists (f x). rewrite lookup_alter_eq, Hx. destruct (Hf x) as (? & ? & _). done.
    + exists x. by rewrite lookup_alter_ne.
  - intros d. unfold view, channels_of. cbn. f_equal. destruct (decide (c = d)) as [->|Hne].
    + rewrite lookup_alter_eq. destruct (clients s !! d) as [x|]; [|done]. cbn.
      destruct (Hf x) as (_ & _ & -> & -> & ->). done.
    + by rewrite lookup_alter_ne.
Qed.

Lemma alter_client_twice f g c s : alter_client f c (alter_client g c s) = alter_client (f ∘ g) c s.
Proof. unfold alter_client, set_clients. cbn. by rewrite alter_compose. Qed.

(** Closing the channel, of a client that has not been closed. *)
Lemma closing c s x : Inv s → clients s !! c = Some x → closed x = false →
  close_chan c (alter_client (set_closed true) c s) =
  alter_client (λ y, set_chan (send y) true (set_closed true y)) c s.
Proof.
  intros HI Hx Hc. unfold close_chan. cbn. rewrite lookup_alter_eq, Hx. cbn.
  destruct (I_clients _ HI _ _ Hx) as (_ & Eq & _). rewrite Eq, Hc.
  by rewrite alter_client_twice.
Qed.

Lemma quiet_closing c s x : Inv s → clients s !! c = Some x → closed x = false →
  quiet_step s (close_chan c (alter_client (set_closed true) c s)).
Proof.
  intros HI Hx Hc. rewrite (closing c s x) by done. apply quiet_client; [done|done|].
  intros y Hy (H1 & H2 & H3). by split_and!.
Qed.

Lemma quiet_push c m s x : Inv s → clients s !! c = Some x → closed x = false →
  reason (log s) (PlayerID x) m → quiet_step s (push c m s).
Proof.
  intros HI Hx Hc Hm. unfold push. rewrite Hx.
  destruct (I_clients _ HI _ _ Hx) as (_ & Eq & _). rewrite Eq, Hc. apply quiet_client; [done|done|].
  intros y Hy (H1 & H2 & H3). assert (y = x) as -> by congruence. split_and!; [cbn; congruence|done|].
  intros m' [Hm'|Hm']; [|apply H3; by right]. apply elem_of_app in Hm' as [Hm'|Hm'%list_elem_of_singleton].
  - apply H3. by left.
  - by subst.
Qed.

Lemma quiet_try_send c m s : Inv s →
  (∀ x, clients s !! c = Some x → reason (log s) (PlayerID x) m) → quiet_step s (try_send c m s).2.
Proof.
  intros HI Hm. unfold try_send. destruct (clients s !! c) as [x|] eqn:Hx; [|by apply quiet_step_refl].
  destruct (closed x) eqn:Hc; [by apply quiet_step_refl|].
  destruct (length (send x) <? buffer); cbn [snd]; [by eapply quiet_push; eauto|by eapply quiet_closing].
Qed.

Lemma quiet_try_send_or_drop c m s : Inv s →
  (∀ x, clients s !! c = Some x → reason (log s) (PlayerID x) m) → quiet_step s (try_send_or_drop c m s).
Proof.
  intros HI Hm. unfold try_send_or_drop. destruct (clients s !! c) as [x|] eqn:Hx; [|by apply quiet_step_refl].
  destruct (closed x) eqn:Hc; [by apply quiet_step_refl|].
  destruct (length (send x) <? buffer); [by eapply quiet_push; eauto|by apply quiet_step_refl].
Qed.

Lemma quiet_close_send c s : Inv s → quiet_step s (close_send c s).
Proof.
  intros HI. unfold close_send. destruct (clients s !! c) as [x|] eqn:Hx; [|by apply quiet_step_refl].
  destruct (closed x) eqn:Hc; [by apply quiet_step_refl|by eapply quiet_closing].
Qed.

(** Listeners: a change of one that keeps its channel and whether it is cancelled. *)
Lemma hub_alter f l idx cs lsn n :
  (∀ L, L_channel (f L) = L_channel L ∧ cancelled (f L) = cancelled L) →
  hub_ok idx cs lsn n → hub_ok idx cs (alter f l lsn) n.
Proof.
  intros Hf [H1 H2 H3 H4]. split; [done|done| |].
  - intros ch k Hk. destruct (H3 ch k Hk) as (L & HL & <- & Hc). destruct (decide (l = k)) as [->|Hne].
    + exists (f L). rewrite lookup_alter_eq, HL. destruct (Hf L) as [-> ->]. done.
    + exists L. by rewrite lookup_alter_ne.
  - intros k L HL. apply lookup_alter_Some in HL as [(-> & L' & HL' & ->)|[_ HL]]; [|by apply H4].
    destruct (Hf L') as [-> ->]. by apply H4.
Qed.

Lemma quiet_listener f l s : Inv s →
  (∀ L, L_channel (f L) = L_channel L ∧ cancelled (f L) = cancelled L ∧ ∀ t, t ∈ inbox (f L) → t ∈ inbox L) →
  quiet_step s (alter_listener f l s).
Proof.
  intros HI Hf. split; [done| |by split; eauto|done].
  destruct HI as [H1 H2 H3 H4 H5 H7 H6]. split; try done; cbn.
  - apply hub_alter; [|done]. intros L. by destruct (Hf L) as (? & ? & _).
  - intros k L t HL Ht. apply lookup_alter_Some in HL as [(-> & L' & HL' & ->)|[_ HL]]; [|by eapply H5].
    destruct (Hf L') as (-> & _ & Hin). eapply H5; [done|by apply Hin].
Qed.

Lemma quiet_receive l s : Inv s → quiet_step s (receive l s).2.
Proof.
  intros HI. unfold receive. destruct (listeners s !! l) as [L|] eqn:HL; [|by apply quiet_step_refl].
  destruct (inbox L) as [|t rest] eqn:Hi; [by apply quiet_step_refl|].
  destruct (busy L); [by apply quiet_step_refl|]. cbn [snd].
  (* the rest of the inbox of this very listener *)
  assert (alter_listener (set_inbox rest true) l s =
          alter_listener (λ K, set_inbox (tail (inbox K)) true K) l s) as ->.
  { unfold alter_listener. f_equal. apply map_eq. intros k. destruct (decide (l = k)) as [->|Hne].
    - rewrite !lookup_alter_eq, HL. cbn. by rewrite Hi.
    - by rewrite !lookup_alter_ne. }
  apply quiet_listener; [done|]. intros K. split_and!; [done|done|]. cbn.
  intros t' Ht'. destruct (inbox K); [done|by right].
Qed.

Lemma quiet_published ch t s : Inv s → published_by_others ch t ∨ own_event ch t →
  quiet_step s (published ch t s).
Proof.
  intros HI Ht. assert (Hin : ∀ e, e ∈ log s → e ∈ log s ++ [(ch, t)]) by (intros; set_solver).
  split; [done| |split; [done|eauto]|done]. destruct HI as [H1 H2 H3 H4 H5 H7 H6]. split; try done; cbn.
  - destruct H2 as [G1 G2 G3 G4]. split; [done|done| |].
    + intros c l Hl. destruct (G3 c l Hl) as (L & HL & E & Hc). rewrite lookup_fmap, HL. cbn.
      eexists. split; [done|]. by destruct (_ && _).
    + intros l L. rewrite lookup_fmap. destruct (listeners s !! l) as [K|] eqn:HK; [|done].
      intros [= <-]. destruct (G4 l K HK). by destruct (_ && _).
  - intros c x Hx. destruct (H3 c x Hx). split; [done|]. by eapply client_ok_mono.
  - intros l L t' HL Ht'. rewrite lookup_fmap in HL. destruct (listeners s !! l) as [K|] eqn:HK; [|done].
    injection HL as <-. destruct (bool_decide (L_channel K = ch) && subscribed K) eqn:Hb.
    + cbn in *. apply elem_of_app in Ht' as [Ht'|Ht'%list_elem_of_singleton].
      * apply Hin. by eapply H5.
      * subst t'. apply andb_true_iff in Hb as [Hb%bool_decide_eq_true _]. rewrite Hb. set_solver.
    + apply Hin. by eapply H5.
  - intros ch' t' [Hl|[= -> ->]%list_elem_of_singleton]%elem_of_app; [by apply H7|done].
Qed.

Lemma quiet_online v s : Inv s → quiet_step s (set_online v s).
Proof. intros HI. split; [done| |by split; eauto|done]. by destruct HI. Qed.

(** ** Steps of the goroutine of a connection *)

Record own_step (own : gset nat) (s s' : gateway) : Prop := {
  W_objects : objects s' = objects s;
  W_inv : Inv s';
  W_mine : mine own s s'
}.

Lemma quiet_own own s s' : quiet_step s s' → own_step own s s'.
Proof. intros Hq. split; [apply Hq|apply Hq|by apply quiet_mine]. Qed.

Lemma view_channels c s s' : view c s' = view c s → ∀ ch, c ∈ members ch s' ↔ c ∈ members ch s.
Proof. intros [= _ E] ch. by rewrite <- !elem_of_channels, E. Qed.

Lemma view_intro c s s' : clients s' !! c = clients s !! c →
  (∀ ch, c ∈ members ch s' ↔ c ∈ members ch s) → view c s' = view c s.
Proof.
  intros E Hm. unfold view. rewrite E. f_equal. apply set_eq. intros ch. by rewrite !elem_of_channels.
Qed.

Lemma member_client ch c s : Inv s → c ∈ members ch s → ∃ x, clients s !! c = Some x ∧ belongs ch x.
Proof.
  intros HI. unfold members. destruct (index s !! ch) as [cs|] eqn:E; [|set_solver].
  intros Hc. by eapply (I_members _ HI).
Qed.

Lemma members_subscribe ch ch' c s :
  members ch' (subscribe ch c s) = if decide (ch = ch') then {[c]} ∪ members ch s else members ch' s.
Proof.
  unfold subscribe. cbn. destruct (cancels s !! ch); unfold members; cbn;
    destruct (decide (ch = ch')) as [->|Hne]; by rewrite ?lookup_insert_eq, ?lookup_insert_ne by done.
Qed.

Lemma members_unsubscribe ch ch' c s :
  members ch' (unsubscribe ch c s) = if decide (ch = ch') then members ch s ∖ {[c]} else members ch' s.
Proof.
  unfold unsubscribe. destruct (decide (members ch s ∖ {[c]} = ∅)) as [E|E].
  - assert (∀ s', index s' = delete ch (index s) →
      members ch' s' = if decide (ch = ch') then members ch s ∖ {[c]} else members ch' s) as Hs.
    { intros s' Es. unfold members in *. rewrite Es. destruct (decide (ch = ch')) as [->|Hne].
      - by rewrite lookup_delete_eq, E.
      - by rewrite lookup_delete_ne. }
    cbn. destruct (cancels s !! ch); by apply Hs.
  - unfold members at 1. cbn. destruct (decide (ch = ch')) as [->|Hne];
      by rewrite ?lookup_insert_eq, ?lookup_insert_ne by done.
Qed.

Lemma unchanged_clients_subscribe ch c s :
  clients (subscribe ch c s) = clients s ∧ log (subscribe ch c s) = log s ∧
  peers (subscribe ch c s) = peers s ∧ panics (subscribe ch c s) = panics s.
Proof. unfold subscribe. cbn. by destruct (cancels s !! ch). Qed.

Lemma unchanged_clients_unsubscribe ch c s :
  clients (unsubscribe ch c s) = clients s ∧ log (unsubscribe ch c s) = log s ∧
  peers (unsubscribe ch c s) = peers s ∧ panics (unsubscribe ch c s) = panics s ∧
  fresh (unsubscribe ch c s) = fresh s.
Proof.
  unfold unsubscribe. destruct (decide _); [|done]. cbn. by destruct (cancels s !! ch).
Qed.

Lemma hub_subscribe ch c s : hub_ok (index s) (cancels s) (listeners s) (fresh s) →
  hub_ok (index (subscribe ch c s)) (cancels (subscribe ch c s)) (listeners (subscribe ch c s))
    (fresh (subscribe ch c s)).
Proof.
  intros [H1 H2 H3 H4]. unfold subscribe. cbn.
  assert (Hne : ∀ ch' cs, <[ch := {[c]} ∪ members ch s]> (index s) !! ch' = Some cs → cs ≠ ∅).
  { intros ch' cs [[_ <-]|[_ Hcs]]%lookup_insert_Some; [set_solver|by eapply H2]. }
  destruct (cancels s !! ch) as [l|] eqn:E; cbn.
  - split; [|done|done|done]. intros ch'. destruct (decide (ch = ch')) as [->|Hch].
    + rewrite lookup_insert_eq, E. split; eauto.
    + by rewrite lookup_insert_ne.
  - split.
    + intros ch'. destruct (decide (ch = ch')) as [->|Hch]; [rewrite !lookup_insert_eq; split; eauto|].
      by rewrite !lookup_insert_ne.
    + done.
    + intros ch' l [[-> <-]|[Hch Hl]]%lookup_insert_Some.
      * eexists. by rewrite lookup_insert_eq.
      * destruct (H3 ch' l Hl) as (L & HL & Hok). exists L. split; [|done].
        rewrite lookup_insert_ne; [done|]. destruct (H4 _ _ HL). lia.
    + intros l L [[<- <-]|[Hl HL]]%lookup_insert_Some.
      * split; [lia|]. cbn. by rewrite lookup_insert_eq.
      * destruct (H4 l L HL) as [Hlt Hr]. split; [lia|]. intros Hc. specialize (Hr Hc).
        rewrite lookup_insert_ne; [done|]. congruence.
Qed.

Lemma hub_unsubscribe ch c s : hub_ok (index s) (cancels s) (listeners s) (fresh s) →
  hub_ok (index (unsubscribe ch c s)) (cancels (unsubscribe ch c s)) (listeners (unsubscribe ch c s))
    (fresh (unsubscribe ch c s)).
Proof.
  intros Hhub. pose proof Hhub as [H1 H2 H3 H4]. unfold unsubscribe.
  destruct (decide (members ch s ∖ {[c]} = ∅)) as [E|E]; cbn.
  - destruct (cancels s !! ch) as [l|] eqn:El; cbn.
    + destruct (H3 _ _ El) as (L & HL & Hch & Hcan). split.
      * intros ch'. destruct (decide (ch = ch')) as [->|Hne]; [by rewrite !lookup_delete_eq|].
        by rewrite !lookup_delete_ne.
      * intros ch' cs [_ Hcs]%lookup_delete_Some. by eapply H2.
      * intros ch' l' [Hne Hl']%lookup_delete_Some. destruct (H3 ch' l' Hl') as (L' & HL' & Hch' & Hcan').
        exists L'. rewrite lookup_alter_ne; [done|]. intros ->. congruence.
      * intros l' L' HL'. apply lookup_alter_Some in HL' as [(-> & K & HK & ->)|[Hne HL']].
        { split; [|done]. by destruct (H4 _ _ HK). }
        destruct (H4 l' L' HL') as [Hlt Hr]. split; [done|]. intros Hc. specialize (Hr Hc).
        rewrite lookup_delete_ne; [done|]. intros Heq. congruence.
    + assert (index s !! ch = None) as En.
      { apply eq_None_not_Some. rewrite H1, El. by intros []. }
      by rewrite delete_id.
  - assert (is_Some (index s !! ch)) as Hs.
    { unfold members in E. destruct (index s !! ch); [eauto|]. destruct E. set_solver. }
    split; [| |done|done].
    + intros ch'. destruct (decide (ch = ch')) as [->|Hne]; [|by rewrite lookup_insert_ne].
      rewrite lookup_insert_eq, <- H1. split; eauto.
    + intros ch' cs [[_ <-]|[_ Hcs]]%lookup_insert_Some; [done|by eapply H2].
Qed.

Lemma elem_of_index ch (cs : gset nat) c s : index s !! ch = Some cs → c ∈ cs → c ∈ members ch s.
Proof. intros E. unfold members. by rewrite E. Qed.

(** The index has changed for [c] only, which is where it belongs. *)
Lemma own_index own c s s' : Inv s → c ∈ own →
  clients s' = clients s ∧ log s' = log s ∧ peers s' = peers s ∧ panics s' = panics s →
  fresh s ≤ fresh s' →
  hub_ok (index s') (cancels s') (listeners s') (fresh s') →
  (∀ l L, listeners s' !! l = Some L → inbox L = [] ∨
     ∃ K, listeners s !! l = Some K ∧ L_channel L = L_channel K ∧ inbox L = inbox K) →
  (∀ d ch, d ≠ c → d ∈ members ch s' ↔ d ∈ members ch s) →
  (∀ ch, c ∈ members ch s' → c ∈ members ch s ∨ ∃ x, clients s !! c = Some x ∧ belongs ch x) →
  own_step own s s'.
Proof.
  intros HI Hc (E1 & E2 & E3 & E4) Hf Hhub Hin Hd Hm. split.
  - unfold objects. by rewrite E1.
  - destruct HI as [I1 I2 I3 I4 I5 I7 I6]. split.
    + by rewrite E3.
    + done.
    + rewrite E1, E2. intros d x Hx. destruct (I3 d x Hx). split; [lia|done].
    + rewrite E1. intros ch cs d Hcs Hdin. pose proof (elem_of_index _ _ _ _ Hcs Hdin) as Hmem.
      assert (d ∈ members ch s ∨ ∃ x, clients s !! d = Some x ∧ belongs ch x) as [Hs|Hs].
      { destruct (decide (d = c)) as [->|Hne]; [by apply Hm|]. left. by apply Hd. }
      * unfold members in Hs. destruct (index s !! ch) as [cs'|] eqn:E; [|set_solver]. by eapply I4.
      * done.
    + rewrite E2. intros l L t0 HL Ht. destruct (Hin l L HL) as [E|(K & HK & -> & E)]; rewrite E in Ht.
      * set_solver.
      * by eapply I5.
    + by rewrite E2.
    + by rewrite E4.
  - split.
    + split; [by rewrite E2|]. rewrite E1. eauto.
    + intros d _ Hne. apply view_intro; [by rewrite E1|]. intros ch. apply Hd. set_solver.
Qed.

Lemma step_subscribe own ch c s x : Inv s → c ∈ own → clients s !! c = Some x → belongs ch x →
  own_step own s (subscribe ch c s).
Proof.
  intros HI Hc Hx Hb. apply (own_index own c); [done|done|apply unchanged_clients_subscribe| | | | |].
  - unfold subscribe. cbn. destruct (cancels s !! ch); cbn; lia.
  - apply hub_subscribe, HI.
  - intros l L. unfold subscribe. cbn. destruct (cancels s !! ch); cbn; [by eauto 10|].
    intros [[_ <-]|[_ HL]]%lookup_insert_Some; [by left|by eauto 10].
  - intros d ch' Hne. rewrite members_subscribe. destruct (decide (ch = ch')) as [->|]; set_solver.
  - intros ch'. rewrite members_subscribe. destruct (decide (ch = ch')) as [->|]; [eauto|by left].
Qed.

Lemma step_unsubscribe own ch c s : Inv s → c ∈ own → own_step own s (unsubscribe ch c s).
Proof.
  intros HI Hc. pose proof (unchanged_clients_unsubscribe ch c s) as (E1 & E2 & E3 & E4 & E5).
  apply (own_index own c); [done|done|done|lia| | | |].
  - apply hub_unsubscribe, HI.
  - intros l L. unfold unsubscribe. destruct (decide _); cbn; [|by eauto 10].
    destruct (cancels s !! ch) as [k|]; cbn; [|by eauto 10].
    intros [(-> & K & HK & ->)|[_ HL]]%lookup_alter_Some; [right; exists K; done|by eauto 10].
  - intros d ch' Hne. rewrite members_unsubscribe. destruct (decide (ch = ch')) as [->|]; set_solver.
  - intros ch'. rewrite members_unsubscribe. destruct (decide (ch = ch')) as [->|]; set_solver.
Qed.

(** The fields that the hub reads change while the client is in no room. *)
Lemma step_fields own f c s : Inv s → c ∈ own →
  (∀ x, PlayerID (f x) = PlayerID x ∧ OnRoom (f x) = OnRoom x ∧ closed (f x) = closed x ∧
     chan_closed (f x) = chan_closed x ∧ send (f x) = send x ∧ written (f x) = written x) →
  (∀ x r, clients s !! c = Some x → c ∈ members (RoomChannelKey r) s →
     RoomID (f x) = RoomID x ∧ Spectator (f x) = Spectator x) →
  own_step own s (alter_client f c s).
Proof.
  intros HI Hc Hf Hroom. split.
  - unfold objects. cbn. by rewrite dom_alter_L.
  - pose proof HI as [I1 I2 I3 I4 I5 I7 I6]. split; try done; cbn.
    + intros d x Hx. apply lookup_alter_Some in Hx as [(-> & y & Hy & ->)|[_ Hx]]; [|by apply I3].
      destruct (I3 _ _ Hy) as [Hlt (H1 & H2 & H3)]. split; [done|].
      destruct (Hf y) as (E1 & E2 & E3 & E4 & E5 & E6). unfold client_ok.
      rewrite E1, E3, E4, E5, E6. done.
    + intros ch cs d Hcs Hd. destruct (I4 ch cs d Hcs Hd) as (x & Hx & Hb).
      destruct (decide (c = d)) as [->|Hne].
      * exists (f x). rewrite lookup_alter_eq, Hx. split; [done|].
        destruct (Hf x) as (E1 & _). destruct ch as [r|p]; cbn in *; [|congruence].
        destruct (Hroom x r Hx) as [E2 E3]; [by eapply elem_of_index|]. by rewrite E1, E2, E3.
      * exists x. by rewrite lookup_alter_ne.
  - split.
    + split; [done|]. intros d x Hx. cbn. destruct (decide (c = d)) as [->|Hne].
      * exists (f x). rewrite lookup_alter_eq, Hx. destruct (Hf x) as (? & ? & _). done.
      * exists x. by rewrite lookup_alter_ne.
    + intros d _ Hne. apply view_intro; [|done]. cbn. rewrite lookup_alter_ne; [done|]. set_solver.
Qed.

(** ** The goroutine of a connection *)

(** What it knows of its client: that it is there; that it is in no room; what the hub
    reads of it. *)
Definition is_client (c : nat) (p : uuid) (on : bool) (s : gateway) : Prop :=
  ∃ x, clients s !! c = Some x ∧ PlayerID x = p ∧ OnRoom x = on.
Definition roomless (c : nat) (s : gateway) : Prop := ∀ r, c ∉ members (RoomChannelKey r) s.
Definition placed (c : nat) (r : uuid) (sp : bool) (s : gateway) : Prop :=
  ∃ x, clients s !! c = Some x ∧ RoomID x = r ∧ Spectator x = sp.

Lemma is_client_grows c p on s s' : grows s s' → is_client c p on s → is_client c p on s'.
Proof. intros [_ Hg] (x & Hx & <- & <-). destruct (Hg c x Hx) as (x' & Hx' & E1 & E2). by exists x'. Qed.

Lemma roomless_view c s s' : view c s' = view c s → roomless c s → roomless c s'.
Proof. intros Hv Hr r. by rewrite (view_channels _ _ _ Hv). Qed.

Lemma placed_view c r sp s s' : view c s' = view c s → placed c r sp s → placed c r sp s'.
Proof.
  intros [= E _] (x & Hx & <- & <-). rewrite Hx in E. cbn in E.
  destruct (clients s' !! c) as [x'|] eqn:Hx'; [|done]. injection E as E1 E2 E3. by exists x'.
Qed.

(** ** Rules *)

(** A program that leaves to their owners, and to the call itself, what belongs to them. *)
Definition quiet {A} (own : gset nat) (s : gateway) (p : prog gateway A) (Ψ : A → gateway → Prop) : Prop :=
  wp p own s (λ a own' s', own' = own ∧ others own s s' ∧ Ψ a s').
Abbreviation silent own s p := (quiet own s p (λ _ _, True)).

Lemma wp_act own s f Φ :
  (∀ s', others own s s' → Inv s' → own_step own s' (f s') ∧ Φ tt own (f s')) → wp (act f) own s Φ.
Proof.
  intros Hf. apply wpo_local. intros s' Ho HI. destruct (Hf s' Ho HI) as [[] HΦ]. done.
Qed.

Lemma wp_look {A} own s (d : A) f Φ :
  (∀ s', others own s s' → Inv s' → Φ (f s') own s') → wp (look d f) own s Φ.
Proof.
  intros Hf. apply wpo_local. intros s' Ho HI. split_and!; [done|done| |by apply Hf].
  apply quiet_mine. by apply quiet_step_refl.
Qed.

Lemma wp_client {A} own s c q on (d : prog gateway A) k Φ : is_client c q on s →
  (∀ s' x, others own s s' → Inv s' → clients s' !! c = Some x → PlayerID x = q → OnRoom x = on →
     wp (k x) own s' Φ) → wp (with_client c d k) own s Φ.
Proof.
  intros Hc Hk. apply wpo_bind, wp_look. intros s' Ho HI.
  destruct (is_client_grows c q on s s') as (x & Hx & E1 & E2); [apply Ho|done|]. rewrite Hx. by apply Hk.
Qed.

Lemma wp_seq {A B} own s (p : prog gateway A) (f : A → prog gateway B) Ψ Φ :
  quiet own s p Ψ → (∀ a s', others own s s' → Ψ a s' → wp (f a) own s' Φ) → wp (p ≫= f) own s Φ.
Proof.
  intros Hp Hf. apply wpo_bind. eapply wpo_conseq; [exact Hp|]. intros a own' s' (-> & Ho & HΨ). by apply Hf.
Qed.

Lemma quiet_ret {A} own s (a : A) Ψ : Ψ a s → quiet own s (mret a) Ψ.
Proof. intros HΨ. split_and!; [done|apply others_r|done]. Qed.

Lemma quiet_later {A} own s s' (p : prog gateway A) Ψ : others own s s' →
  quiet own s' p Ψ → wp p own s' (λ a own' s'', own' = own ∧ others own s s'' ∧ Ψ a s'').
Proof.
  intros Ho Hp. eapply wpo_conseq; [exact Hp|]. intros a own' s'' (-> & Ho' & HΨ).
  split_and!; [done|by eapply others_t|done].
Qed.

Lemma quiet_seq {A B} own s (p : prog gateway A) (f : A → prog gateway B) Ψ Ψ' :
  quiet own s p Ψ → (∀ a s', others own s s' → Ψ a s' → quiet own s' (f a) Ψ') → quiet own s (p ≫= f) Ψ'.
Proof. intros Hp Hf. eapply wp_seq; [exact Hp|]. intros a s' Ho HΨ. by apply quiet_later; [|apply Hf]. Qed.

Lemma quiet_act own s f : (∀ s', others own s s' → Inv s' → quiet_step s' (f s')) → silent own s (act f).
Proof.
  intros Hf. apply wp_act. intros s' Ho HI. specialize (Hf s' Ho HI). split; [by apply quiet_own|].
  split_and!; [done| |done]. eapply others_t; [done|]. by apply quiet_others.
Qed.

Lemma quiet_look {A} own s (d : A) f Ψ :
  (∀ s', others own s s' → Inv s' → Ψ (f s') s') → quiet own s (look d f) Ψ.
Proof. intros Hf. apply wp_look. intros s' Ho HI. split_and!; [done|done|by apply Hf]. Qed.

Lemma quiet_local {R} own s (d : R) c Ψ :
  (∀ s', others own s s' → Inv s' → quiet_step s' (c s').2 ∧ Ψ (c s').1 (c s').2) →
  quiet own s (local d c) Ψ.
Proof.
  intros Hc. apply wpo_local. intros s' Ho HI. destruct (Hc s' Ho HI) as [Hq HΨ].
  split_and!; [apply Hq|apply Hq|by apply quiet_mine|done| |done].
  eapply others_t; [done|]. by apply quiet_others.
Qed.

Lemma quiet_read {R} own s (f : gateway → R) Ψ :
  (∀ s', others own s s' → Inv s' → Ψ (Some (f s')) s' ∧ Ψ None s') → quiet own s (read f) Ψ.
Proof.
  intros Hf. apply wpo_read. { apply hub_grows_refl. } intros s' Ho HI. destruct (Hf s' Ho HI). done.
Qed.

(** A command to Redis: it is executed, it fails, or its reply is lost. *)
Lemma quiet_write own s f : (∀ s', others own s s' → Inv s' → quiet_step s' (f s')) →
  silent own s (ignore (write f)).
Proof.
  intros Hf. eapply (quiet_seq _ _ _ _ (λ _ _, True)); [|by intros; apply quiet_ret]. apply wpo_step. intros s' Ho HI. cbn [fst snd].
  specialize (Hf s' Ho HI). pose proof (others_t own s s' _ Ho (quiet_others own _ _ Hf)) as Ho'.
  split; [apply Hf|]. split; [apply Hf|]. split; [by apply quiet_mine|].
  cbn. split; [done|]. intros _. by split.
Qed.

Lemma quiet_each {A} own s (f : A → prog gateway unit) l :
  (∀ x s', x ∈ l → others own s s' → silent own s' (f x)) → silent own s (each f l).
Proof.
  revert s. induction l as [|x l IH]; intros s Hf; [by apply quiet_ret|].
  eapply quiet_seq; [apply Hf; [by left|apply others_r]|]. intros _ s' Ho _. apply IH.
  intros y s'' Hy Ho'. apply Hf; [by right|by eapply others_t].
Qed.

Lemma quiet_ignore {A} own s (p : prog gateway A) Ψ : quiet own s p Ψ → silent own s (ignore p).
Proof. intros Hp. eapply quiet_seq; [exact Hp|]. intros. by apply quiet_ret. Qed.

(** ** What quiet programs there are *)

Lemma quiet_trySend own s c q on m : is_client c q on s → reason (log s) q m → silent own s (trySend c m).
Proof.
  intros Hc Hm. apply quiet_local. intros s' Ho HI. split; [|done]. apply quiet_try_send; [done|].
  destruct (is_client_grows c q on s s') as (x & Hx & <- & _); [apply Ho|done|].
  intros y Hy. assert (y = x) as -> by congruence. eapply reason_mono; [apply Ho|done].
Qed.

Lemma quiet_SendDirect own s c q on m : is_client c q on s → reason (log s) q m → silent own s (SendDirect c m).
Proof.
  intros Hc Hm. apply quiet_act. intros s' Ho HI. apply quiet_try_send_or_drop; [done|].
  destruct (is_client_grows c q on s s') as (x & Hx & <- & _); [apply Ho|done|].
  intros y Hy. assert (y = x) as -> by congruence. eapply reason_mono; [apply Ho|done].
Qed.

Lemma quiet_closeSend own s c : silent own s (closeSend c).
Proof. apply quiet_act. intros. by apply quiet_close_send. Qed.

Lemma quiet_publish_presence own s r q b : silent own s (publish_presence r q b).
Proof.
  apply quiet_write. intros. apply quiet_published; [done|]. right. eexists _, _.
  split_and!; [done..|]. right. eauto.
Qed.

Lemma quiet_presence own s f : silent own s (ignore (write (λ s, set_online (f s) s))).
Proof. apply quiet_write. intros. by apply quiet_online. Qed.

Lemma quiet_publish_count own s type r : silent own s (publish_count type r).
Proof. eapply quiet_seq; [by apply (quiet_look _ _ _ _ (λ _ _, True))|]. 
  intros. apply quiet_write. intros. apply quiet_published; [done|]. right. eexists _, _.
  split_and!; [done..|]. left. eauto.
Qed.

Lemma quiet_rpc {A} own s (f : outside → option A) (Ψ : A → Prop) :
  (∀ o a, seen o → f o = Some a → Ψ a) → quiet own s (rpc f) (λ r _, ∀ a, r = Some a → Ψ a).
Proof.
  intros Hf. eapply (quiet_seq _ _ _ _ (λ r _, ∀ x a, r = Some x → x = Some a → Ψ a)).
  - apply quiet_read. intros s' Ho HI. split; [|done]. intros x a [= <-] E.
    eapply Hf; [apply HI|exact E].
  - intros [[x|]|] s' _ HΨ; apply quiet_ret; [|done|done]. intros a [= <-]. by eapply HΨ.
Qed.

(** A subscriber is a client. *)
Lemma is_member ch c s : Inv s → c ∈ members ch s →
  ∃ x, clients s !! c = Some x ∧ belongs ch x ∧ is_client c (PlayerID x) (OnRoom x) s.
Proof.
  intros HI Hc. destruct (member_client ch c s HI Hc) as (x & Hx & Hb). exists x.
  split_and!; [done|done|by exists x].
Qed.

Lemma quiet_for_members own s ch f :
  (∀ s' c x, others own s s' → Inv s' → clients s' !! c = Some x → belongs ch x → silent own s' (f c x)) →
  silent own s (for_members ch f).
Proof.
  intros Hf. eapply quiet_seq; [by apply (quiet_look _ _ _ _ (λ _ _, True))|]. intros cs s1 Ho1 _.
  apply quiet_each. intros c s2 _ Ho2.
  eapply (quiet_seq _ _ _ _ (λ v s', ∀ x, v = Some x → Inv s' ∧ clients s' !! c = Some x ∧ belongs ch x)).
  - apply quiet_look. intros s3 _ HI. unfold visit. destruct (decide _) as [Hin|]; [|done].
    intros x Hx. destruct (member_client ch c s3 HI Hin) as (x' & Hx' & Hb). by simplify_eq.
  - intros [x|] s3 Ho3 Hx; [|by apply quiet_ret]. destruct (Hx x eq_refl) as (HI & Hcl & Hb).
    apply Hf; try done. eapply others_t; [done|]. by eapply others_t.
Qed.

Lemma quiet_DisconnectPlayer own s raw p : Spawn (Consume (SessionRevoked (Some raw))) ∈ ls →
  uuid_Parse raw = Some p → silent own s (DisconnectPlayer p).
Proof.
  intros Hls Hp.
  eapply (quiet_seq _ _ _ _ (λ cs s', ∀ c, c ∈ cs → ∃ on, is_client c p on s')).
  - apply quiet_look. intros s' _ HI c Hc%elem_of_elements.
    destruct (is_member _ _ _ HI Hc) as (x & _ & Hb & Hx). cbn in Hb. rewrite <- Hb. by exists (OnRoom x).
  - intros cs s1 _ Hcs. apply quiet_each. intros c s2 Hc Ho. destruct (Hcs c Hc) as [on Hx].
    eapply quiet_seq.
    + eapply quiet_trySend; [eapply is_client_grows; [apply Ho|exact Hx]|by eapply to_revoked].
    + intros [] s3 _ _; [by apply quiet_ret|apply quiet_closeSend].
Qed.

Lemma quiet_fanout own s r t d : (RoomChannelKey r, t) ∈ log s → decode_envelope t = Some (false, d) →
  silent own s (fanout r (header_type d) d).
Proof.
  intros Ht Hd. apply quiet_for_members. intros s' c x [[Hg _] _] _ Hx [_ Ha].
  destruct (SpectatorBlocklist (header_type d)) eqn:Eb, (Spectator x) eqn:Es; cbn [andb];
    try (by apply quiet_ret); (eapply quiet_ignore, quiet_trySend; [by exists x|]);
    first [by eapply to_room; eauto | by eapply to_spectator; eauto].
Qed.

Lemma quiet_fanoutSpectatorsOnly own s r t d : (RoomChannelKey r, t) ∈ log s →
  decode_envelope t = Some (true, d) → silent own s (fanoutSpectatorsOnly r (header_type d) d).
Proof.
  intros Ht Hd. unfold fanoutSpectatorsOnly.
  destruct (SpectatorBlocklist (header_type d)) eqn:Eb; [by apply quiet_ret|].
  apply quiet_for_members. intros s' c x [[Hg _] _] _ Hx [_ Ha]. destruct (Spectator x) eqn:Es; [|by apply quiet_ret].
  eapply quiet_ignore, quiet_trySend; [by exists x|]. eapply to_spectator; eauto.
Qed.

Lemma quiet_fanoutPlayer own s p d : (PlayerChannelKey p, d) ∈ log s → silent own s (fanoutPlayer p d).
Proof.
  intros Hd. apply quiet_for_members. intros s' c x Ho _ Hx Hb. eapply quiet_ignore, quiet_trySend; [by exists x|].
  cbn in Hb. subst p. apply to_player. by apply Ho.
Qed.

Lemma elem_of_all room c s : c ∈ all_members room s → ∃ ch, c ∈ members ch s.
Proof.
  unfold all_members, members.
  apply (map_fold_weak_ind (λ (acc : gset nat) (m : gmap channel (gset nat)),
    c ∈ acc → ∃ ch, c ∈ default ∅ (m !! ch))); [set_solver|].
  intros ch cs m acc Hch IH Hc.
  assert (c ∈ cs ∨ c ∈ acc) as [Hcs|Hacc] by (destruct (Bool.eqb _ _); set_solver).
  - exists ch. by rewrite lookup_insert_eq.
  - destruct (IH Hacc) as [ch' Hc']. exists ch'. rewrite lookup_insert_ne; [done|].
    intros <-. by rewrite Hch in Hc'.
Qed.

Definition clients_in (cs : gset nat) (s : gateway) : Prop := ∀ c, c ∈ cs → ∃ q on, is_client c q on s.

Lemma quiet_all own s room : quiet own s (look ∅ (all_members room)) clients_in.
Proof.
  apply quiet_look. intros s' _ HI c Hc. destruct (elem_of_all _ _ _ Hc) as [ch Hch].
  destruct (is_member _ _ _ HI Hch) as (x & _ & _ & Hx). by exists (PlayerID x), (OnRoom x).
Qed.

Lemma quiet_BroadcastAll own s a b : Spawn (Consume (BroadcastSent (Some (a, b)))) ∈ ls →
  silent own s (BroadcastAll (broadcast a b)).
Proof.
  intros Hls. assert (Hsend : ∀ s1 cs, clients_in cs s1 → ∀ s2 c, c ∈ cs → others own s1 s2 →
    silent own s2 (ignore (trySend c (broadcast a b)))).
  { intros s1 cs Hcs s2 c Hc [Hg _]. destruct (Hcs c Hc) as (q & on & Hx).
    eapply quiet_ignore, quiet_trySend; [by eapply is_client_grows|]. by eapply to_everybody. }
  eapply quiet_seq; [apply quiet_all|]. intros sent s1 _ Hsent.
  eapply quiet_seq; [|intros _ s2 _ _; eapply quiet_seq; [apply quiet_all|]].
  - apply quiet_each. intros c s2 Hc%elem_of_elements Ho. by eapply Hsend.
  - intros cs s3 _ Hcs. apply quiet_each. intros c s4 Hc Ho. eapply Hsend; [done| |done]. set_solver.
Qed.

Lemma quiet_gracefulShutdown own s : silent own s gracefulShutdown.
Proof.
  assert (Hall : ∀ s cs, silent own s (each closeSend cs)).
  { intros s1 cs. apply quiet_each. intros. apply quiet_closeSend. }
  eapply quiet_seq; [apply quiet_all|]. intros cs s1 _ _.
  eapply quiet_seq; [apply Hall|]. intros _ s2 _ _.
  eapply quiet_seq; [apply quiet_all|]. intros. apply Hall.
Qed.

Lemma quiet_listen own s l : silent own s (listen l).
Proof.
  eapply (quiet_seq _ _ _ _ (λ m s', ∀ e, m = Some e → e ∈ log s')).
  { apply quiet_local. intros s' Ho HI. split; [by apply quiet_receive|]. unfold receive.
    destruct (listeners s' !! l) as [L|] eqn:HL; [|done]. destruct (inbox L) as [|t rest] eqn:Hi; [done|].
    destruct (busy L); [done|]. cbn. intros e [= <-]. eapply (I_inbox _ HI); [done|]. rewrite Hi. by left. }
  intros [[ch t]|] s1 _ Hin; [|by apply quiet_ret]. specialize (Hin _ eq_refl).
  eapply (quiet_seq _ _ _ _ (λ _ _, True)).
  - destruct ch as [r|q]; [|by apply quiet_fanoutPlayer]. unfold listenRoom.
    destruct (decode_envelope t) as [[[|] d]|] eqn:Ed; [by eapply quiet_fanoutSpectatorsOnly|by eapply quiet_fanout|].
    by apply quiet_ret.
  - intros _ s2 _ _. apply quiet_act. intros s3 _ HI. by apply quiet_listener.
Qed.

Lemma quiet_ListOnline own s ids :
  quiet own s (ListOnline ids) (λ r _, ∀ m q on, r = Some m → (q, on) ∈ map_to_list m → q ∈ ids).
Proof.
  destruct ids as [|i ids]; [apply quiet_ret|apply quiet_read].
  - intros m q on [= <-]. by rewrite map_to_list_empty, elem_of_nil.
  - intros s' _ _. split; [|done]. intros m q on [= <-] Hq%elem_of_map_to_list.
    apply elem_of_list_to_map_2 in Hq. rewrite elem_of_reverse in Hq.
    change ((q, on) ∈ (λ p, (p, exists_key p s')) <$> i :: ids) in Hq.
    apply list_elem_of_fmap in Hq as (q' & [= -> _] & Hq'). done.
Qed.

(** Whom the game server has seated in the room. *)
Definition roommate (r q : uuid) : Prop :=
  ∃ o l raw, seen o ∧ GetRoomPlayers o (uuid_String r) = Some l ∧ raw ∈ l ∧ uuid_Parse raw = Some q.

Lemma quiet_getRoomPlayerIDs own s r : quiet own s (getRoomPlayerIDs r) (λ ids _, ∀ q, q ∈ ids → roommate r q).
Proof.
  eapply quiet_seq.
  - apply (quiet_rpc _ _ _ (λ l, ∃ o, seen o ∧ GetRoomPlayers o (uuid_String r) = Some l)). eauto.
  - intros [l|] s' _ Hl; apply quiet_ret; intros q; [|by rewrite elem_of_nil].
    destruct (Hl l eq_refl) as (o & Ho & E). intros (raw & Hraw & Hq)%list_elem_of_omap.
    by exists o, l, raw.
Qed.

Lemma quiet_announce own s c r q on sp : is_client c q on s → admitted q r sp →
  silent own s (announce c r q sp).
Proof.
  intros Hc Ha. unfold announce.
  eapply (quiet_seq _ _ _ _ (λ _ _, True)); [destruct sp; [apply quiet_publish_count|by apply quiet_ret]|].
  intros _ s1 [Ho1 _] _. destruct sp; [by apply quiet_ret|].
  eapply quiet_seq; [apply quiet_presence|]. intros _ s2 [Ho2 _] _.
  eapply quiet_seq; [apply quiet_publish_presence|]. intros _ s3 [Ho3 _] _.
  eapply quiet_seq; [apply quiet_getRoomPlayerIDs|]. intros ids s4 [Ho4 _] Hids.
  eapply quiet_seq; [apply quiet_ListOnline|]. intros [m|] s5 [Ho5 _] Hm; [|by apply quiet_ret].
  apply quiet_each. intros [q' b] s6 Hin [Ho6 _]. cbn [fst snd].
  destruct (Hids q') as (o & l & raw & Hso & Hl & Hraw & Hq'); [by eapply Hm|].
  eapply quiet_SendDirect; [|by eapply snapshot].
  eapply is_client_grows; [|exact Hc]. do 4 (eapply hub_grows_trans; [first [exact Ho1|exact Ho2|exact Ho3|exact Ho4]|]).
  by eapply hub_grows_trans.
Qed.

(** ** What changes the place of a connection *)

(** A program of the goroutine that owns a client. *)
Definition kept {A} (own : gset nat) (s : gateway) (p : prog gateway A) (Ψ : A → gateway → Prop) : Prop :=
  wp p own s (λ a own' s', own' = own ∧ grows s s' ∧ Ψ a s').

Lemma kept_ret {A} own s (a : A) Ψ : Ψ a s → kept own s (mret a) Ψ.
Proof. intros HΨ. split_and!; [done|apply hub_grows_refl|done]. Qed.

Lemma kept_wp {A B} own s (p : prog gateway A) (f : A → prog gateway B) Ψ Φ :
  kept own s p Ψ → (∀ a s', grows s s' → Ψ a s' → wp (f a) own s' Φ) → wp (p ≫= f) own s Φ.
Proof.
  intros Hp Hf. apply wpo_bind. eapply wpo_conseq; [exact Hp|]. intros a own' s' (-> & Ho & HΨ). by apply Hf.
Qed.

Lemma kept_later {A} own s s' (p : prog gateway A) Ψ : grows s s' → kept own s' p Ψ →
  wp p own s' (λ a own' s'', own' = own ∧ grows s s'' ∧ Ψ a s'').
Proof.
  intros Hg Hp. eapply wpo_conseq; [exact Hp|]. intros a own' s'' (-> & Hg' & HΨ).
  split_and!; [done|by eapply hub_grows_trans|done].
Qed.

Lemma kept_seq {A B} own s (p : prog gateway A) (f : A → prog gateway B) Ψ Ψ' :
  kept own s p Ψ → (∀ a s', grows s s' → Ψ a s' → kept own s' (f a) Ψ') → kept own s (p ≫= f) Ψ'.
Proof. intros Hp Hf. eapply kept_wp; [exact Hp|]. intros a s' Hg HΨ. by apply kept_later; [|apply Hf]. Qed.

Lemma kept_quiet {A B} own s (p : prog gateway A) (f : A → prog gateway B) Ψ Ψ' :
  quiet own s p Ψ → (∀ a s', others own s s' → Ψ a s' → kept own s' (f a) Ψ') → kept own s (p ≫= f) Ψ'.
Proof.
  intros Hp Hf. eapply wp_seq; [exact Hp|]. intros a s' Ho HΨ. apply kept_later; [apply Ho|by apply Hf].
Qed.

Lemma quiet_kept {A} own s (p : prog gateway A) Ψ : quiet own s p Ψ → kept own s p Ψ.
Proof.
  intros Hp. eapply wpo_conseq; [exact Hp|]. intros a own' s' (-> & [Hg _] & HΨ). done.
Qed.

Lemma kept_act own s f (Ψ : gateway → Prop) :
  (∀ s', others own s s' → Inv s' → own_step own s' (f s') ∧ Ψ (f s')) → kept own s (act f) (λ _, Ψ).
Proof.
  intros Hf. apply wp_act. intros s' Ho HI. destruct (Hf s' Ho HI) as [Hs HΨ]. split; [done|].
  split_and!; [done| |done]. eapply hub_grows_trans; [apply Ho|apply Hs].
Qed.

(** The rest of a connection, with the client at hand. *)
Lemma kept_client own s c q on (d : prog gateway unit) k Ψ : is_client c q on s → c ∈ own →
  (∀ s' x, others own s s' → Inv s' → placed c (RoomID x) (Spectator x) s' → PlayerID x = q → OnRoom x = on →
     kept own s' (k x) Ψ) → kept own s (with_client c d k) Ψ.
Proof.
  intros Hc Hin Hk. apply (wp_client _ _ _ q on); [done|]. intros s' x Ho HI Hx Hq Hon.
  apply kept_later; [apply Ho|]. apply Hk; [done..| |done|done]. by exists x.
Qed.

(** [uuid.Nil] is not the id of a room: the database generates random ones. *)
Hypothesis no_nil_room : ∀ o, seen o → ¬ watchable o Nil ∧ ∀ p, ¬ seated o Nil p.

Lemma nil_roomless c sp s : Inv s → placed c Nil sp s → roomless c s.
Proof.
  intros HI (x & Hx & Hr & _) r Hin. destruct (member_client _ _ _ HI Hin) as (y & Hy & [Er (o & Ho & Ha)]).
  assert (y = x) as -> by congruence. rewrite Hr in Er. subst r.
  destruct (no_nil_room o Ho) as [Hw Hs].
  destruct (Spectator _); [done|by eapply Hs].
Qed.

Lemma elsewhere_roomless c r sp s : Inv s → placed c r sp s → roomless c (unsubscribe (RoomChannelKey r) c s).
Proof.
  intros HI (x & Hx & Hr & _) r'. rewrite members_unsubscribe.
  destruct (decide (RoomChannelKey r = RoomChannelKey r')) as [[= <-]|Hne]; [set_solver|].
  intros Hin. destruct (member_client _ _ _ HI Hin) as (y & Hy & [Er _]). by simplify_eq.
Qed.

(** What the game server answers about [q]. *)
Lemma quiet_checkParticipant own s r q :
  quiet own s (checkParticipant r q) (λ a _, ∀ ip sa, a = Some (ip, sa) →
    negb ip && negb sa = false → admitted q r (negb ip)).
Proof.
  eapply wpo_conseq.
  - apply (quiet_rpc _ _ _ (λ a : bool * bool, negb a.1 && negb a.2 = false → admitted q r (negb a.1))).
    intros o [ip sa] Ho E Hok. exists o. split; [done|]. destruct ip; cbn in *.
    + by eapply IsParticipant_seated.
    + destruct sa; [|done]. by eapply IsParticipant_watchable.
  - intros a own' s' (-> & Ho & HΨ). split_and!; [done|done|]. intros ip sa ->. by apply (HΨ (ip, sa)).
Qed.

Lemma kept_OnRoomUnsubscribe own s c q on : c ∈ own → is_client c q on s →
  kept own s (OnRoomUnsubscribe Nil c) (λ _, roomless c).
Proof.
  intros Hin Hc. apply (kept_client _ _ _ q on); [done..|]. intros s1 x _ _ Hp Hq _. cbn zeta.
  eapply kept_seq.
  { apply (kept_act _ _ _ (roomless c)). intros s2 Ho HI. split; [by apply step_unsubscribe|].
    apply (elsewhere_roomless _ _ (Spectator x)); [done|]. eapply placed_view; [by apply Ho|done]. }
  intros [] s2 _ Hr. eapply (kept_quiet _ _ _ _ (λ _ _, True)).
  { destruct (Spectator x); [apply quiet_publish_count|by apply quiet_ret]. }
  intros [] s3 Ho3 _. eapply (kept_quiet _ _ _ _ (λ _ _, True)).
  { destruct (Spectator x); [by apply quiet_ret|]. eapply quiet_seq; [apply quiet_presence|].
    intros. apply quiet_publish_presence. }
  intros [] s4 Ho4 _. assert (Hr4 : roomless c s4).
  { eapply roomless_view; [by apply Ho4|]. eapply roomless_view; [by apply Ho3|done]. }
  eapply kept_seq.
  - apply (kept_act _ _ _ (roomless c)). intros s5 Ho HI.
    assert (roomless c s5) as Hr5 by (eapply roomless_view; [by apply Ho|done]).
    split; [|done]. apply step_fields; [done|done|done|]. intros y r' _ Hm. by destruct (Hr5 r').
  - intros [] s5 _ Hr5. apply (kept_act _ _ _ (roomless c)). intros s6 Ho HI.
    split; [by apply step_fields|]. change (roomless c s6). by eapply (roomless_view c s5); [apply Ho|].
Qed.

Lemma kept_OnRoomSubscribe own s c q on r : c ∈ own → is_client c q on s → roomless c s →
  kept own s (OnRoomSubscribe c r) (λ _ _, True).
Proof.
  intros Hin Hc Hr. apply (kept_client _ _ _ q on); [done..|]. intros s1 x Ho1 _ _ Hq _. rewrite Hq.
  eapply kept_quiet; [apply quiet_checkParticipant|]. intros [[ip sa]|] s2 Ho2 Ha; [|by apply kept_ret].
  destruct (negb ip && negb sa) eqn:E; [by apply kept_ret|]. specialize (Ha ip sa eq_refl E). cbn zeta.
  assert (Hr2 : roomless c s2).
  { eapply roomless_view; [by apply Ho2|]. eapply roomless_view; [by apply Ho1|done]. }
  assert (Hc2 : is_client c q on s2).
  { eapply is_client_grows; [apply Ho2|]. eapply is_client_grows; [apply Ho1|done]. }
  assert (Hput : ∀ f s5 s6, others own s5 s6 → Inv s6 → roomless c s5 → is_client c q on s5 →
    (∀ y, PlayerID (f y) = PlayerID y ∧ OnRoom (f y) = OnRoom y ∧ closed (f y) = closed y ∧
       chan_closed (f y) = chan_closed y ∧ send (f y) = send y ∧ written (f y) = written y) →
    own_step own s6 (alter_client f c s6) ∧ roomless c (alter_client f c s6) ∧
    ∃ y, clients s6 !! c = Some y ∧ clients (alter_client f c s6) !! c = Some (f y)).
  { intros f s5 s6 Ho HI Hr5 Hc5 Hf.
    assert (Hr6 : roomless c s6) by (eapply roomless_view; [by apply Ho|done]).
    destruct (is_client_grows _ _ _ _ s6 (proj1 Ho) Hc5) as (y & Hy & _ & _). split_and!.
    - apply step_fields; [done|done|done|]. intros z r' _ Hm. by destruct (Hr6 r').
    - done.
    - exists y. cbn. by rewrite lookup_alter_eq, Hy. }
  eapply kept_seq.
  { apply (kept_act _ _ _ (λ s, roomless c s ∧ placed c r (negb ip) s)). intros s3 Ho HI.
    destruct (Hput (set_room r (negb ip)) s2 s3) as (H1 & H2 & y & Hy & Hy'); try done.
    split; [done|]. split; [done|]. eexists. split; [exact Hy'|done]. }
  intros [] s3 Hg3 [Hr3 Hp3]. assert (Hc3 : is_client c q on s3) by by eapply is_client_grows.
  eapply (kept_seq _ _ _ _ (λ _ s, roomless c s ∧ placed c r (negb ip) s)).
  { destruct (negb ip); [by apply kept_ret|].
    apply (kept_act _ _ _ (λ s, roomless c s ∧ placed c r false s)). intros s4 Ho HI.
    destruct (Hput (SetPresence true) s3 s4) as (H1 & H2 & y & Hy & Hy'); try done.
    split; [done|]. split; [done|].
    destruct (placed_view c r false s3 s4) as (z & Hz & E1 & E2); [by apply Ho|done|]. simplify_eq.
    eexists. split; [exact Hy'|done]. }
  intros [] s4 Hg4 [_ Hp4]. assert (Hc4 : is_client c q on s4) by by eapply is_client_grows.
  eapply (kept_seq _ _ _ _ (λ _ _, True)).
  { apply (kept_act _ _ _ (λ _, True)). intros s5 Ho HI. split; [|done].
    destruct (placed_view c r (negb ip) s4 s5) as (z & Hz & E1 & E2); [by apply Ho|done|].
    destruct (is_client_grows _ _ _ _ s5 (proj1 Ho) Hc4) as (z' & Hz' & E3 & _).
    assert (z' = z) as -> by congruence.
    eapply step_subscribe; [done|done|exact Hz|]. split; [done|]. by rewrite E2, E3. }
  intros [] s5 Hg5 _. assert (Hc5 : is_client c q on s5) by by eapply is_client_grows.
  eapply (kept_quiet _ _ _ _ (λ _ _, True)); [by eapply quiet_announce|]. intros [] s6 [Hg6 _] _.
  eapply quiet_kept, quiet_SendDirect; [by eapply is_client_grows|by eapply acknowledged].
Qed.

Lemma kept_unsubscribe_room own s c q : c ∈ own → is_client c q true s →
  kept own s (unsubscribe_room Nil c) (λ _ s', roomless c s').
Proof.
  intros Hin Hc. apply (kept_client _ _ _ q true); [done..|]. intros s1 x Ho1 HI Hp Hq Hon. rewrite Hon. cbn [negb orb].
  assert (Hc1 : is_client c q true s1) by (eapply is_client_grows; [apply Ho1|done]).
  destruct (bool_decide (RoomID x = Nil)) eqn:E; [|by eapply kept_OnRoomUnsubscribe].
  apply bool_decide_eq_true in E. rewrite E in Hp. apply kept_ret. by eapply nil_roomless.
Qed.

Lemma kept_handleControl own s c q on m : c ∈ own → is_client c q on s →
  kept own s (handleControl Nil c m) (λ _ _, True).
Proof.
  intros Hin Hc.
  assert (Hun : ∀ s1, is_client c q on s1 → kept own s1 (unsubscribe_room Nil c) (λ _ _, True)).
  { intros s1 Hc1. destruct on.
    - eapply wpo_conseq; [by eapply kept_unsubscribe_room|]. intros a own' s' (-> & Hg & _). done.
    - apply (kept_client _ _ _ q false); [done..|]. intros s2 x _ _ _ _ ->. by apply kept_ret. }
  destruct m as [[action room]|]; [|by apply kept_ret]. unfold handleControl.
  destruct (decide (action = "subscribe_room")); [|destruct (decide _); [by apply Hun|by apply kept_ret]].
  apply (kept_client _ _ _ q on); [done..|]. intros s1 x Ho1 HI Hp Hq Hon.
  assert (Hc1 : is_client c q on s1) by (eapply is_client_grows; [apply Ho1|done]).
  destruct (OnRoom x) eqn:Eon; [|by apply kept_ret]. subst on.
  destruct (uuid_Parse room) as [r|]; [|by apply kept_ret].
  eapply (kept_seq _ _ _ _ (λ _ s', roomless c s')).
  - destruct (decide (RoomID x = Nil)) as [E|_]; [|by eapply kept_unsubscribe_room].
    rewrite E in Hp. apply kept_ret. by eapply nil_roomless.
  - intros _ s2 Hg Hr. eapply kept_OnRoomSubscribe; [done| |done]. by eapply is_client_grows.
Qed.

Lemma kept_read_loop own s c q on msgs : c ∈ own → is_client c q on s →
  kept own s (read_loop Nil c msgs) (λ _ _, True).
Proof.
  intros Hin. revert s. induction msgs as [|m msgs IH]; intros s Hc; [by apply kept_ret|].
  apply (kept_client _ _ _ q on); [done..|]. intros s1 x Ho1 _ _ _ _.
  assert (Hc1 : is_client c q on s1) by (eapply is_client_grows; [apply Ho1|done]).
  destruct (conn x); [|by apply kept_ret]. eapply kept_seq; [by eapply kept_handleControl|].
  intros _ s2 Hg _. apply IH. by eapply is_client_grows.
Qed.

Lemma kept_leave own s c ch (Ψ : gateway → Prop) : c ∈ own →
  kept own s (act (unsubscribe ch c)) (λ _ _, True).
Proof.
  intros Hin. apply (kept_act _ _ _ (λ _, True)). intros s' _ HI. split; [by apply step_unsubscribe|done].
Qed.

Lemma kept_ReadPump own s c q on msgs : c ∈ own → is_client c q on s →
  kept own s (ReadPump Nil c msgs) (λ _ _, True).
Proof.
  intros Hin Hc. unfold ReadPump. eapply kept_seq; [by eapply kept_read_loop|]. intros _ s1 Hg1 _.
  assert (Hc1 : is_client c q on s1) by by eapply is_client_grows.
  eapply (kept_seq _ _ _ _ (λ _ _, True)).
  { apply (kept_client _ _ _ q on); [done..|]. intros s2 x _ _ _ _ _.
    destruct (decide _); [by apply kept_ret|by apply (kept_leave _ _ _ _ (λ _, True))]. }
  intros _ s2 Hg2 _. assert (Hc2 : is_client c q on s2) by by eapply is_client_grows.
  eapply (kept_seq _ _ _ _ (λ _ _, True)).
  { apply (kept_client _ _ _ q on); [done..|]. intros s3 x _ _ _ _ _.
    destruct (Spectator x); [by apply kept_ret|by apply (kept_leave _ _ _ _ (λ _, True))]. }
  intros _ s3 Hg3 _. assert (Hc3 : is_client c q on s3) by by eapply is_client_grows.
  eapply kept_quiet.
  { apply quiet_act. intros s4 _ HI. by apply quiet_client. }
  intros _ s4 Ho4 _. apply (kept_client _ _ _ q on); [by eapply is_client_grows; [apply Ho4|]|done|].
  intros s5 x _ _ _ _ _. destruct (negb (Spectator x) && presence x); [|by apply kept_ret].
  apply quiet_kept, quiet_presence.
Qed.

(** ** The handlers *)

Abbreviation safe own s p := (wp p own s (λ _ _ _, True)).

Lemma kept_safe {A} own s (p : prog gateway A) Ψ : kept own s p Ψ → safe own s p.
Proof. intros Hp. by eapply wpo_conseq. Qed.
Lemma quiet_safe {A} own s (p : prog gateway A) Ψ : quiet own s p Ψ → safe own s p.
Proof. intros Hp. by eapply wpo_conseq. Qed.

(** A new client, which nobody else knows of. *)
Lemma wp_NewClient {A} own s r q sp on ps (k : nat → prog gateway A) : identified q →
  (∀ c s', is_client c q on s' → placed c r sp s' → safe (own ∪ {[c]}) s' (k c)) →
  safe own s (NewClient r q sp on ps ≫= k).
Proof.
  intros Hq Hk. apply wpo_bind. intros s1 Ho HI. unfold new_client.
  set (x := mkClient r q sp on ps false [] false true Unstarted []).
  remember (set_fresh (S (fresh s1)) (set_clients (<[fresh s1 := x]> (clients s1)) s1)) as s2 eqn:E2. cbn zeta.
  assert (Hcl : clients s2 = <[fresh s1 := x]> (clients s1)) by by subst.
  assert (Hfresh : clients s1 !! fresh s1 = None).
  { destruct (clients s1 !! fresh s1) as [y|] eqn:Hy; [|done]. destruct (I_clients _ HI _ _ Hy). lia. }
  assert (Hne : ∀ d y, clients s1 !! d = Some y → clients s2 !! d = Some y).
  { intros d y Hd. rewrite Hcl, lookup_insert_ne; [done|]. congruence. }
  assert (objects s2 ∖ objects s1 = {[fresh s1]}) as ->.
  { unfold objects. rewrite Hcl, dom_insert_L. apply not_elem_of_dom in Hfresh. set_solver. }
  split; [|split; [|split; [|done]]].
  - destruct HI as [I1 I2 I3 I4 I5 I7 I6]. split; try (by subst).
    + destruct I2 as [G1 G2 G3 G4]. subst s2. split; try done. cbn. intros l L HL. destruct (G4 l L HL). split; [lia|done].
    + rewrite Hcl. intros d y [[<- <-]|[_ Hy]]%lookup_insert_Some; subst s2; cbn.
      * split; [lia|]. split_and!; [done|done|]. intros m [Hm|Hm]; by apply elem_of_nil in Hm.
      * destruct (I3 _ _ Hy). split; [lia|done].
    + intros ch cs d Hcs Hd. destruct (I4 ch cs d) as (y & Hy & Hb); [by subst|done|].
      exists y. split; [by apply Hne|done].
  - split; [split; [by subst|]|].
    + intros d y Hy. exists y. split; [by apply Hne|done].
    + intros d Hd _. unfold objects in Hd. apply elem_of_dom in Hd as [y Hy]. apply view_intro; [|by subst]. rewrite Hy. by apply Hne.
  - apply Hk; exists x; by rewrite Hcl, lookup_insert_eq.
Qed.

Lemma safe_announced own s c q on r sp (p : prog gateway (response body)) : c ∈ own →
  is_client c q on s → admitted q r sp →
  (∀ s', grows s s' → safe own s' p) → safe own s (announce c r q sp;; p).
Proof.
  intros Hin Hc Ha Hp. eapply wp_seq; [by eapply quiet_announce|]. intros _ s' [Hg _] _. by apply Hp.
Qed.

Lemma safe_serving own s c q on msgs (p : handler) : c ∈ own → is_client c q on s →
  (∀ s', safe own s' p) → safe own s (go_WritePump c;; ReadPump Nil c msgs;; p).
Proof.
  intros Hin Hc Hp. eapply wp_seq.
  { apply quiet_act. intros s' _ HI. by apply quiet_client. }
  intros _ s1 [Hg1 _] _. eapply kept_wp; [by eapply kept_ReadPump; [done|eapply is_client_grows]|].
  intros _ s2 _ _. apply Hp.
Qed.

Lemma safe_Upgrade own s r k : safe own s k → safe own s (Upgrade allowedOrigins r k).
Proof. intros Hk. unfold Upgrade. by destruct (negb _); [|destruct (negb _)]. Qed.

(** The ban check: the handler goes on for a player who is not banned. *)
Lemma safe_not_banned own s q k :
  (∀ s', (∃ o, seen o ∧ ¬ banned o q) → safe own s' k) → safe own s (not_banned q k).
Proof.
  intros Hk. eapply wp_seq.
  - apply (quiet_rpc _ _ _ (λ b : bool, b = false → ∃ o, seen o ∧ ¬ banned o q)).
    intros o b Ho E ->. exists o. split; [done|]. by apply CheckBan_banned.
  - intros [[|]|] s' _ Hb; [done| |done]. apply Hk. by apply (Hb false).
Qed.

Lemma safe_enter own s c q on r sp ch : c ∈ own → is_client c q on s → placed c r sp s →
  (ch = PlayerChannelKey q ∨ ch = RoomChannelKey r ∧ admitted q r sp) →
  kept own s (act (subscribe ch c)) (λ _ s', placed c r sp s').
Proof.
  intros Hin Hc Hp Hch. apply (kept_act _ _ _ (placed c r sp)). intros s1 Ho HI.
  destruct (placed_view c r sp s s1) as (x & Hx & E1 & E2); [by apply Ho|done|].
  destruct (is_client_grows _ _ _ _ s1 (proj1 Ho) Hc) as (y & Hy & E3 & _).
  assert (y = x) as -> by congruence. split.
  - eapply step_subscribe; [done|done|exact Hx|].
    destruct Hch as [->|[-> Ha]]; cbn; [done|]. split; [done|]. by rewrite E2, E3.
  - exists x. destruct (unchanged_clients_subscribe ch c s1) as (-> & _). done.
Qed.

Lemma safe_RoomHandler own s r raw cl :
  (∃ r0 c, Spawn (Http r0) ∈ ls ∧ claims_of r0 = Some c ∧ Middleware.PlayerID c = Middleware.PlayerID cl) →
  safe own s (RoomHandler Nil allowedOrigins r raw cl).
Proof.
  intros Hcl. unfold RoomHandler. destruct (uuid_Parse raw) as [room|]; [|done].
  set (q := Middleware.PlayerID cl) in *. apply safe_not_banned. intros s1 Hban.
  assert (Hid : identified q) by by split.
  eapply wp_seq; [apply quiet_checkParticipant|]. intros [[ip sa]|] s2 _ Ha; [|done].
  destruct (negb ip && negb sa) eqn:E; [done|]. specialize (Ha ip sa eq_refl E).
  apply safe_Upgrade. cbn zeta. apply wp_NewClient; [done|]. intros c s3 Hc3 Hp3.
  assert (Hin : c ∈ own ∪ {[c]}) by set_solver. set (own' := own ∪ {[c]}) in *.
  eapply kept_wp; [eapply safe_enter; [done|done|done|by right]|]. intros [] s4 Hg4 Hp4.
  assert (Hc4 : is_client c q false s4) by by eapply is_client_grows.
  eapply kept_wp; [eapply safe_enter; [done|done|done|by left]|]. intros [] s5 Hg5 Hp5.
  assert (Hc5 : is_client c q false s5) by by eapply is_client_grows.
  eapply safe_announced; [done|done|done|]. intros s6 Hg6.
  eapply safe_serving; [done|by eapply is_client_grows|]. intros s7.
  eapply wp_seq; [|by intros]. destruct (negb ip); [apply quiet_publish_count|apply quiet_publish_presence].
Qed.

Lemma safe_PlayerHandler own s r cl :
  (∃ r0 c, Spawn (Http r0) ∈ ls ∧ claims_of r0 = Some c ∧ Middleware.PlayerID c = Middleware.PlayerID cl) →
  safe own s (PlayerHandler Nil allowedOrigins r cl).
Proof.
  intros Hcl. unfold PlayerHandler. set (q := Middleware.PlayerID cl) in *. cbn zeta.
  apply safe_not_banned. intros s1 Hban. assert (Hid : identified q) by by split.
  apply safe_Upgrade. apply wp_NewClient; [done|]. intros c s3 Hc3 Hp3.
  assert (Hin : c ∈ own ∪ {[c]}) by set_solver. set (own' := own ∪ {[c]}) in *.
  eapply kept_wp; [eapply safe_enter; [done|done|done|by left]|]. intros [] s4 Hg4 Hp4.
  eapply safe_serving; [done|by eapply is_client_grows|done].
Qed.

Lemma safe_PresenceHandler own s ids cl : safe own s (PresenceHandler ids cl).
Proof.
  unfold PresenceHandler. destruct (decide _); [done|]. destruct (omap _ _); [done|].
  eapply wp_seq; [apply quiet_ListOnline|]. by intros [m|] s' _ _.
Qed.

(** ** The world around *)

Lemma quiet_peers o s : Inv s → seen o → quiet_step s (set_peers o s).
Proof. intros HI Ho. split; [done| |by split; eauto|done]. by destruct HI. Qed.
Lemma quiet_now v s : Inv s → quiet_step s (set_now v s).
Proof. intros HI. split; [done| |by split; eauto|done]. by destruct HI. Qed.

Lemma quiet_stop l s : Inv s → quiet_step s (stop l s).
Proof.
  intros HI. unfold stop. destruct (listeners s !! l) as [L|] eqn:HL; [|by apply quiet_step_refl].
  destruct (cancelled L) eqn:Hc, (busy L); try (by apply quiet_step_refl).
  split; [done| |by split; eauto|done]. destruct HI as [H1 H2 H3 H4 H5 H7 H6]. split; try done; cbn.
  - destruct H2 as [G1 G2 G3 G4]. split; [done|done| |].
    + intros ch k Hk. destruct (G3 ch k Hk) as (K & HK & E1 & E2). exists K.
      rewrite lookup_delete_ne; [done|]. intros ->. congruence.
    + intros k K [_ HK]%lookup_delete_Some. by apply G4.
  - intros k K t [_ HK]%lookup_delete_Some. by eapply H5.
Qed.

Lemma quiet_write_round c s : Inv s → quiet_step s (alter_client write_round c s).
Proof.
  intros HI. apply quiet_client; [done| |].
  - intros x. unfold write_round. destruct (writing x); try done.
    destruct (send x); [destruct (chan_closed x), (conn x)|destruct (conn x)]; done.
  - intros x _ (H1 & H2 & H3). unfold write_round. destruct (writing x); try done.
    destruct (send x) as [|m rest] eqn:Es.
    + destruct (chan_closed x) eqn:Ec; [|split_and!; [congruence|done|by rewrite Es]].
      destruct (conn x); (split_and!; [cbn; congruence|done|]); cbn; rewrite ?Es; [|done].
      intros m [Hm|Hm]; [by apply elem_of_nil in Hm|].
      apply elem_of_app in Hm as [Hm|[=]%list_elem_of_singleton]. apply H3. by right.
    + destruct (conn x); (split_and!; [done|done|]); cbn; intros m' [Hm|Hm].
      * apply H3. left. by right.
      * apply elem_of_app in Hm as [Hm|[= ->]%list_elem_of_singleton]; apply H3; [by right|left; by left].
      * apply H3. left. by right.
      * apply H3. by right.
Qed.

Lemma quiet_heartbeat c s : Inv s → quiet_step s (heartbeat c s).
Proof.
  intros HI. unfold heartbeat. destruct (clients s !! c) as [x|]; [|by apply quiet_step_refl].
  destruct (writing x) as [| |[|]|]; try (by apply quiet_step_refl).
  destruct (presence x); [by apply quiet_online|]. split; [done| |by split; eauto|done].
  destruct HI as [H1 H2 H3 H4 H5 H7 H6]. split; try done; cbn.
  intros w [Hw|Hw%list_elem_of_singleton]%elem_of_app; [by apply H6|done].
Qed.

Lemma quiet_happen e s : Programs.Event e ∈ ls → Inv s → quiet_step s (happen e s).
Proof.
  intros He HI. destruct e; cbn [happen].
  - by apply quiet_now.
  - apply quiet_peers; [done|by right].
  - apply quiet_published; [done|by left].
  - by apply quiet_listener.
  - apply quiet_listener; [done|]. intros L. split_and!; [done|done|]. cbn. destruct (inbox L); [done|by right].
  - by apply quiet_stop.
  - apply quiet_client; [done| |]; intros x; unfold start_writer; by destruct (writing x).
  - by apply quiet_write_round.
  - apply quiet_client; [done| |]; intros x; unfold hang_up; by destruct (writing x).
  - by apply quiet_heartbeat.
Qed.

Lemma safe_goroutine cl s : Spawn cl ∈ ls → safe ∅ s (goroutine Nil allowedOrigins secret cl).
Proof.
  intros Hls. destruct cl as [r|l|m|]; cbn [goroutine].
  - apply wpo_bind. cut (safe ∅ s (serve Nil allowedOrigins secret r)); [intros Hs; by eapply wpo_conseq|].
    unfold serve, Require. destruct (cookie r) as [raw|] eqn:Ec; [|done].
    destruct (VerifyToken secret raw) as [claims|e] eqn:Ev; [|by destruct (decide _)].
    assert (Hcl : ∃ r0 c, Spawn (Http r0) ∈ ls ∧ claims_of r0 = Some c ∧
      Middleware.PlayerID c = Middleware.PlayerID claims).
    { exists r, claims. split_and!; [done| |done]. unfold claims_of. rewrite Ec. cbn. by rewrite Ev. }
    destruct (to r); [by apply safe_RoomHandler|by apply safe_PlayerHandler|apply safe_PresenceHandler].
  - eapply quiet_safe, quiet_listen.
  - destruct m as [[raw|]|[[a b]|]]; [|done| |done].
    + unfold handle, handleSessionRevoked. cbn [mbind option_bind]. destruct (uuid_Parse raw) as [p|] eqn:Ep; [|done].
      by eapply quiet_safe, quiet_DisconnectPlayer.
    + by eapply quiet_safe, (quiet_BroadcastAll _ _ a b).
  - eapply quiet_safe, quiet_gracefulShutdown.
Qed.

Lemma New_Inv : Inv (New o0).
Proof.
  split; cbn; try set_solver.
  - by left.
  - split; cbn; try set_solver. intros ch. rewrite !lookup_empty. by split; intros [].
Qed.

Lemma run_Inv : Inv (run Nil allowedOrigins secret ls (New o0)).
Proof.
  unfold run.
  destruct (run_owned Inv grows objects view hub_grows_refl hub_grows_trans hub_grows_objects
    (goroutine Nil allowedOrigins secret) happen ls (New o0) [] []) as [HI _].
  - intros e s He HI. pose proof (quiet_happen e s He HI) as Hq. split; [apply Hq|].
    intros o _. by apply quiet_others.
  - intros cl s Hcl _. by apply safe_goroutine.
  - apply New_Inv.
  - split; [constructor|]. intros i j o o'. by rewrite lookup_nil.
  - done.
Qed.

(** ** The properties *)

(** C28: whatever happens, every text that the gateway writes to a websocket of a player
    has a reason: it was published on the channel of that player; or on the channel of a
    room in which the game server had seated the player; or on that of a room open to
    spectators, and then it is not an event kept from spectators; or it is a broadcast of
    the administrators, the sign that the sessions of this very player are revoked, the
    presence of a player of a room in which the player is seated, or the acknowledgement of
    a subscription that the game server allowed. The player of a connection has a valid
    session and was not banned; and what the gateway publishes itself are only counts of
    spectators and presence, in rooms. *)
Theorem gateway_delivers :
  let s := run Nil allowedOrigins secret ls (New o0) in
  (∀ c x m, clients s !! c = Some x → TextMessage m ∈ written x →
     identified (PlayerID x) ∧ reason (log s) (PlayerID x) m) ∧
  (∀ ch t, (ch, t) ∈ log s → published_by_others ch t ∨ own_event ch t).
Proof.
  pose proof run_Inv as HI. split; [|apply HI]. intros c x m Hx Hm.
  destruct (I_clients _ HI _ _ Hx) as (_ & _ & Hid & Hr). split; [done|]. apply Hr. by right.
Qed.

(** C29: whatever happens, a channel of Redis has exactly one listener that has not been
    cancelled as long as it has subscribers and none otherwise; its subscribers are
    connections that belong there, so that nobody is subscribed to two rooms; and no
    channel of a connection is closed twice or written to after it was closed: the only
    panic is that of a heartbeat. *)
Theorem gateway_lifecycle :
  let s := run Nil allowedOrigins secret ls (New o0) in
  (∀ ch, members ch s ≠ ∅ ↔ ∃ l L, listeners s !! l = Some L ∧ L_channel L = ch ∧ cancelled L = false) ∧
  (∀ l l' L L', listeners s !! l = Some L → listeners s !! l' = Some L' → L_channel L = L_channel L' →
     cancelled L = false → cancelled L' = false → l = l') ∧
  (∀ ch c, c ∈ members ch s → ∃ x, clients s !! c = Some x ∧ belongs ch x) ∧
  (∀ r r' c, c ∈ members (RoomChannelKey r) s → c ∈ members (RoomChannelKey r') s → r = r') ∧
  (∀ c x, clients s !! c = Some x → chan_closed x = closed x) ∧
  (∀ w, w ∈ panics s → w = nil_pointer).
Proof.
  pose proof run_Inv as HI. cbn zeta. set (s := run _ _ _ _ _) in *. pose proof (I_hub _ HI) as [G1 G2 G3 G4].
  assert (Hm : ∀ ch, members ch s ≠ ∅ ↔ is_Some (cancels s !! ch)).
  { intros ch. rewrite <- G1. unfold members. destruct (index s !! ch) as [cs|] eqn:E; cbn.
    - split; [eauto|]. intros _. by eapply G2.
    - split; [done|by intros []]. }
  split_and!.
  - intros ch. rewrite Hm. split.
    + intros [l Hl]. destruct (G3 ch l Hl) as (L & HL & E & Hc). eauto 10.
    + intros (l & L & HL & <- & Hc). exists l. by apply G4.
  - intros l l' L L' HL HL' E Hc Hc'. destruct (G4 l L HL) as [_ H1]. destruct (G4 l' L' HL') as [_ H2].
    specialize (H1 Hc). specialize (H2 Hc'). rewrite E in H1. congruence.
  - intros ch c Hc. by apply member_client.
  - intros r r' c Hr Hr'. destruct (member_client _ _ _ HI Hr) as (x & Hx & [E _]).
    destruct (member_client _ _ _ HI Hr') as (y & Hy & [E' _]). congruence.
  - intros c x Hx. destruct (I_clients _ HI _ _ Hx) as (_ & E & _). done.
  - apply HI.
Qed.
End Gateway.
