(* ===== verification/GatewayDemo.v ===== *)
(** The services that the websocket gateway asks, behind its interface: the ban check of
    the user service (UsersApi) and the room queries of the game server (Grpc), over their
    databases; and what the hub of the game server publishes for it. Then the gateway with them on the deployment of [Demo]: witnesses, and the
    runs that show what its comments promise and its code does not do. *)
From S2P Require Import Prelude Json Engine Randutil Backend Store BackendLogic Lobby Runtime.
From S2P Require Import Grpc Consistency Requests Serving Demo.
From S2P Require Api.
From S2P Require Import Programs Middleware Users UsersApi UsersSpec Gateway GatewaySpec.

Module GatewayPeers.
Section Peers.
Context `{U : UUID} `{E : Entropy} `{S : !Server} `{!Users.Postgres} `{!UsersApi.RFC3339}.

(** The game server and the tables of the user service. *)
Definition databases : Type := World * Users.tables.

Definition ban_of (p : uuid) (s : Users.tables) : Prop :=
  ∃ id b, Users.bans s !! id = Some b ∧ Users.Ban_PlayerID b = p ∧ Users.active (Users.clock s) b = true.

Definition ask_CheckBan (o : databases) (p : string) : option bool :=
  match (Programs.alone (UsersApi.CheckBan p) o.2).1 with Ok (UsersApi.G_ban b _ _) => Some b | _ => None end.
Definition ask_IsParticipant (o : databases) (r p : string) : option (bool * bool) :=
  match (Grpc.IsParticipant r p o.1).1 with
  | Ok (Ok a) => Some (Grpc.IsParticipant_ a, Grpc.SpectatorsAllowed a)
  | _ => None
  end.
Definition ask_GetRoomPlayers (o : databases) (r : string) : option (list string) :=
  match (Grpc.GetRoomPlayers r o.1).1 with Ok (Ok l) => Some l | _ => None end.

Lemma elem_of_order_by {A} (key : A → Z) x l : x ∈ order_by key l ↔ x ∈ l.
Proof. unfold order_by. by rewrite merge_sort_Permutation. Qed.

Lemma CheckBan_answers o p : ask_CheckBan o (uuid_String p) = Some false → ¬ ban_of p o.2.
Proof.
  unfold ask_CheckBan, UsersApi.CheckBan, UsersApi.grpc_id. rewrite uuid_Parse_String.
  unfold UsersApi.or_internal, Users.CheckActiveBan, Users.query, Users.sql. cbn.
  destruct (head _) as [b|] eqn:Eh; [done|]. intros _ (id & b & Hb & Hp & Ha).
  destruct (Users.order_by_desc _ _) as [|b' l] eqn:El; [|done].
  assert (b ∈ []) as Hin; [|by apply elem_of_nil in Hin].
  rewrite <- El. apply elem_of_order_by, list_elem_of_fmap. exists (id, b). split; [done|].
  apply elem_of_rows. split; [done|]. cbn. by rewrite bool_decide_eq_true_2, Ha.
Qed.

(** What an answer of the game server says about its database. *)
Lemma IsParticipant_answers o r p a w' :
  Grpc.IsParticipant (uuid_String r) (uuid_String p) o = (Ok (Ok a), w') →
  (Grpc.IsParticipant_ a = true → is_Some (room_players (db o) !! (r, p))) ∧
  (Grpc.SpectatorsAllowed a = true → room_settings (db o) !! (r, "allow_spectators") = Some "yes").
Proof.
  assert (Hw : wpd (Grpc.IsParticipant (uuid_String r) (uuid_String p)) (λ res _, ∀ a, res = Ok (Ok a) →
    (Grpc.IsParticipant_ a = true → is_Some (room_players (db o) !! (r, p))) ∧
    (Grpc.SpectatorsAllowed a = true → room_settings (db o) !! (r, "allow_spectators") = Some "yes")) (db o)).
  { unfold Grpc.IsParticipant. destruct (decide _); [by apply wpd_ret|].
    unfold Grpc.parse_id. rewrite !uuid_Parse_String. unfold Grpc.checked, Grpc.fail.
    apply wpd_bind, wpd_try, wpd_ListRoomPlayers.
    { intros e. destruct (Grpc.panics e); [by apply wpd_throw|by apply wpd_ret]. }
    apply wpd_bind, wpd_try, wpd_wrap, wpd_query.
    { intros e. destruct (Grpc.panics _); [by apply wpd_throw|by apply wpd_ret]. }
    intros _. apply wpd_ret. intros x [= <-]. cbn. split.
    - intros (q & Hq & Hp%bool_decide_eq_true)%existsb_exists. apply list_elem_of_In in Hq.
      unfold players_of in Hq. rewrite elem_of_order_by in Hq. apply list_elem_of_fmap in Hq as ([[r' p'] st] & -> & Hk).
      apply elem_of_rows in Hk as [Hk Hr]. cbn in *. apply bool_decide_eq_true in Hr. subst. eauto.
    - intros Hs%bool_decide_eq_true. destruct (settings_of (db o) r !! _) as [v|] eqn:Ev; [|done].
      cbn in Hs. subst v. apply elem_of_list_to_map_2 in Ev.
      apply list_elem_of_fmap in Ev as ([[r' k] v] & [= -> ->] & Hk).
      apply elem_of_rows in Hk as [Hk Hr]. cbn in *. apply bool_decide_eq_true in Hr. by subst. }
  intros Hrun. specialize (Hw o eq_refl a). rewrite Hrun in Hw. by apply Hw.
Qed.

Definition deployment : Gateway.Peers.
Proof.
  refine (Gateway.Build_Peers _ databases ask_CheckBan ask_IsParticipant ask_GetRoomPlayers
    (λ o p, ban_of p o.2) (λ o r p, is_Some (room_players (db o.1) !! (r, p)))
    (λ o r, room_settings (db o.1) !! (r, "allow_spectators") = Some "yes") _ _ _).
  - apply CheckBan_answers.
  - intros o r p b. unfold ask_IsParticipant.
    destruct (Grpc.IsParticipant _ _ o.1) as [[[a|]|] w'] eqn:Hrun; try done. cbn. intros [= Ha _].
    by eapply IsParticipant_answers.
  - intros o r p b. unfold ask_IsParticipant.
    destruct (Grpc.IsParticipant _ _ o.1) as [[[a|]|] w'] eqn:Hrun; try done. cbn. intros [= _ Ha].
    by eapply IsParticipant_answers.
Defined.
End Peers.
End GatewayPeers.

(** ** The hub of the game server (internal/platform/ws) *)

Module Hub.
Import Gateway.
Section Hub.
Context `{U : UUID} (payload_JSON : Api.Api.payload → any).

Definition event (e : Api.Api.Event) : text := Message (Api.Api.Type_ e) (payload_JSON (Api.Api.Payload e)).

(** [Broadcast], [BroadcastToPlayer], and the last step of [BroadcastToRoom]. *)
Definition publication (d : Runtime.Runtime.delivery Api.Api.Event) : channel * text :=
  match d with
  | Runtime.Runtime.ToRoom _ r e => (RoomChannelKey r, Envelope false (event e))
  | Runtime.Runtime.ToPlayer _ p e => (PlayerChannelKey p, event e)
  | Runtime.Runtime.ToSpectators _ r e => (RoomChannelKey r, Envelope true (event e))
  end.

(** A move of a game with hidden state is published on the channels of its players, each
    with the own view, and for the spectators of its room, with the view of nobody. *)
Lemma published_views reg result ps game f type :
  Get (GS_GameID (Runtime.Runtime.MR_Session result)) reg = Ok game → FilterState game = Some f →
  let view v := event (Api.Api.mkEvent type (Api.Api.P_move
    (Runtime.Runtime.set_MR_State (f (Runtime.Runtime.MR_State result) v) result))) in
  publication <$> (Api.Api.deliver (λ r, Api.Api.mkEvent type (Api.Api.P_move r)) <$>
    Runtime.Runtime.BroadcastMove reg result ps) =
  ((λ p, (PlayerChannelKey (RP_PlayerID p), view (uuid_String (RP_PlayerID p)))) <$> ps) ++
  [(RoomChannelKey (GS_RoomID (Runtime.Runtime.MR_Session result)), Envelope true (view ""))].
Proof.
  intros Hg Hf view. unfold Runtime.Runtime.BroadcastMove. rewrite Hg, Hf, !fmap_app. cbn. f_equal.
  by rewrite <-!list_fmap_compose.
Qed.
End Hub.
End Hub.
Import Demo Programs Middleware Gateway GatewayPeers.

#[local] Existing Instance deployment.

Definition no_room : uuid := "00000000-0000-0000-0000-000000000000".
Definition in_game : outside :=
  (Demo.run [Req_CreatePlayer "alice"; Req_CreatePlayer "bob"; Req_CreateRoom "tictactoe" alice None;
             Req_JoinRoom "abcdef" bob; Req_UpdateRoomSetting room alice "allow_spectators" "yes";
             Req_StartGame room alice "casual"], four_players).

(** A token names its owner. *)
Abbreviation schedule := (list (label call happening)).
Abbreviation operate ls := (Gateway.run no_room [] "key" ls (New in_game)).

Definition open_ (who : string) (msgs : list control) (t : route) : label call happening :=
  Spawn (Http (mkRequest (Some who) "" true msgs t)).
(** A peer that keeps the connection and sends nothing of use. *)
Definition idle : list control := replicate 40 None.
Definition steps (i n : nat) : schedule := replicate n (Run i).
Abbreviation happens e := [Programs.Event e].

Definition sent_to (c : nat) (s : gateway) : option (list frame) := written <$> clients s !! c.

Definition move_applied : text := Message "move_applied" (Str "state").
Definition vote : text := Message "pause_vote_update" (Str "votes").

(** Alice opens the socket of her room, and so does eve, who may watch; Redis has their
    subscriptions; a move and a vote are published in the room. *)
Definition watched : schedule :=
  open_ alice idle (GetRoom room) :: steps 0 20 ++
  open_ "eve" idle (GetRoom room) :: steps 1 20 ++
  happens (Subscribed 1) ++ happens (StartWriter 0) ++ happens (StartWriter 3) ++
  happens (Published (RoomChannelKey room) (Envelope false move_applied)) ++
  happens (Published (RoomChannelKey room) (Envelope false vote)) ++
  Spawn (Listen 1) :: steps 2 20 ++ Spawn (Listen 1) :: steps 3 20 ++
  concat (replicate 9 (happens (Write 0) ++ happens (Write 3))).

(** Messages that reach a listener, and what the writer of a connection then writes. *)
Definition delivered (i l : nat) (ch : channel) (t : text) : schedule :=
  happens (Published ch t) ++ Spawn (Listen l) :: steps i 20.
Definition flush (c : nat) : schedule := concat (replicate 9 (happens (Write c))).

(** *** Witnesses *)

Lemma no_nil_room ls o : forallb (λ l : label call happening, if l is Programs.Event (Elsewhere _) then false else true) ls = true →
  seen in_game ls o → ¬ watchable o no_room ∧ ∀ p, ¬ seated o no_room p.
Proof.
  intros Hls [->|Ho].
  2: { rewrite forallb_forall in Hls. apply list_elem_of_In, Hls in Ho. done. }
  split; [vm_compute; discriminate|].
  assert (Hk : forallb (λ kv : uuid * uuid * (Z * Z), negb (bool_decide (kv.1.1 = no_room)))
    (map_to_list (room_players (db in_game.1))) = true) by (vm_compute; reflexivity).
  intros p [st Hst]. rewrite forallb_forall in Hk.
  apply elem_of_map_to_list, list_elem_of_In, Hk in Hst. cbn in Hst.
  by rewrite bool_decide_eq_true_2 in Hst.
Qed.

Definition told (c : nat) (s : gateway) : list string :=
  omap (λ f, match f with TextMessage t => Some (header_type t) | CloseMessage => None end)
    (default [] (sent_to c s)).

Lemma watched_told :
  told 0 (operate watched) = ["presence_update"; "presence_update"; "move_applied"; "pause_vote_update"] ∧
  told 3 (operate watched) = ["move_applied"].
Proof. vm_compute. done. Qed.

Lemma eve_told : ∃ x, clients (operate watched) !! 3 = Some x ∧ TextMessage move_applied ∈ written x.
Proof. eexists. split; [vm_compute; reflexivity|]. vm_compute. left. Qed.

Lemma room_members : members (RoomChannelKey room) (operate watched) = {[0; 3]}.
Proof. vm_compute. reflexivity. Qed.

Lemma watched_rooms o : seen in_game watched o → ¬ watchable o no_room ∧ ∀ p, ¬ seated o no_room p.
Proof. apply no_nil_room. vm_compute. reflexivity. Qed.

Lemma gateway_delivers_witness :
  told 3 (operate watched) = ["move_applied"] ∧
  ∃ x, clients (operate watched) !! 3 = Some x ∧ TextMessage move_applied ∈ written x ∧
    reason in_game watched (log (operate watched)) (PlayerID x) move_applied.
Proof.
  destruct eve_told as (x & Hx & Hm). split; [apply watched_told|]. exists x. split; [exact Hx|]. split; [exact Hm|].
  refine (proj2 (proj1 (gateway_delivers no_room [] "key" in_game watched watched_rooms) 3 x move_applied Hx Hm)).
Defined.

Lemma gateway_lifecycle_witness :
  members (RoomChannelKey room) (operate watched) = {[0; 3]} ∧
  ∃ l L, listeners (operate watched) !! l = Some L ∧ L_channel L = RoomChannelKey room ∧ cancelled L = false.
Proof.
  split; [exact room_members|].
  refine (proj1 (proj1 (gateway_lifecycle no_room [] "key" in_game watched watched_rooms) (RoomChannelKey room)) _).
  pose proof room_members as E. rewrite E. discriminate.
Defined.

(** *** What the comments promise *)

(** The nil that is to close the connection of a banned player is written as an empty
    message: the connection stays open and goes on receiving events. *)
Definition revoked : schedule :=
  open_ alice idle (GetRoom room) :: steps 0 20 ++ happens (StartWriter 0) ++ happens (Subscribed 2) ++ flush 0 ++
  Spawn (Consume (SessionRevoked (Some alice))) :: steps 1 5 ++ flush 0 ++
  delivered 2 2 (PlayerChannelKey alice) (Message "dm_received" (Str "hello")) ++ flush 0.

Lemma revoked_connection_stays :
  drop 2 (default [] (sent_to 0 (operate revoked))) =
    [TextMessage Nothing; TextMessage (Message "dm_received" (Str "hello"))] ∧
  (λ x, (conn x, closed x)) <$> clients (operate revoked) !! 0 = Some (true, false).
Proof. vm_compute. done. Qed.

(** A spectator who leaves stays subscribed to its own channel, with its listener. *)
Definition spectated : schedule := open_ "eve" [] (GetRoom room) :: steps 0 40 ++ happens (Stop 1) ++ happens (Stop 2).

Definition has_returned (p : prog gateway unit) : bool := match p with Ret _ => true | _ => false end.

Lemma spectators_leak :
  let s := operate spectated in
  forallb has_returned (Programs.run (goroutine no_room [] "key") happen spectated (New in_game, [])).2 = true ∧
  conn <$> clients s !! 0 = Some false ∧
  members (PlayerChannelKey "eve") s = {[0]} ∧ cancelled <$> listeners s !! 2 = Some false ∧
  members (RoomChannelKey room) s = ∅ ∧ listeners s !! 1 = None.
Proof. vm_compute. done. Qed.

(** A player who enters a room through the player's socket has no heartbeat: half a minute
    later it is offline, while it sits in the room and receives its events. *)
Definition entered : schedule :=
  open_ alice (Some ("subscribe_room", room) :: idle) (GetPlayer alice) :: steps 0 5 ++ happens (StartWriter 0) ++
  steps 0 20 ++ happens (Clock 20000000) ++ happens (Heartbeat 0) ++ happens (Clock 40000000).

Lemma no_heartbeat :
  let s := operate entered in
  (λ x, (conn x, RoomID x, presence x)) <$> clients s !! 0 = Some (true, room, true) ∧
  members (RoomChannelKey room) s = {[0]} ∧ exists_key alice s = false.
Proof. vm_compute. done. Qed.

(** And when the socket is read before its writer is scheduled there is one, which goes on
    after the room is left, through a nil pointer. *)
Definition raced : schedule :=
  open_ alice (Some ("subscribe_room", room) :: Some ("unsubscribe_room", "") :: idle) (GetPlayer alice) ::
  steps 0 12 ++ happens (StartWriter 0) ++ steps 0 30 ++ happens (Heartbeat 0).

Lemma heartbeat_panics : panics (operate raced) = [nil_pointer].
Proof. vm_compute. done. Qed.

(** One of two sockets of a player is closed, and the player is offline. *)
Definition two_sockets : schedule :=
  open_ alice idle (GetRoom room) :: steps 0 20 ++ open_ alice [] (GetRoom room) :: steps 1 40.

Lemma offline_with_a_socket :
  let s := operate two_sockets in
  conn <$> clients s !! 0 = Some true ∧ members (PlayerChannelKey alice) s = {[0]} ∧ exists_key alice s = false.
Proof. vm_compute. done. Qed.
