(* ===== verification/Auth.v ===== *)
(** The authentication service (services/auth-service): logins through GitHub, by a bot
    or in test mode, refresh sessions and their rotation, tokens and cookies, and the
    consumer of bans. Every statement and every request to GitHub is an atomic command
    over the tables, and the handlers are programs of [Programs]. *)
From stdpp Require Import strings pretty.
From Stdlib Require Import Ascii.
From S2P Require Import Prelude Backend Store Programs Middleware Users Streams Gateway.
Import Programs Middleware Users.

Module Auth.

(** Times are in seconds, the unit of [MaxAge]. *)
Definition RefreshCookieName : string := "recess_refresh".
Definition JWTTTL : Z := 900.
Definition RefreshTTL : Z := 604800.

Definition StatusTemporaryRedirect : Z := 307.
Definition StatusBadGateway : Z := 502.

(** ** Text *)

(** [strings.Index] and [strings.LastIndex] of a byte. *)
Fixpoint Index (s : string) (c : ascii) : option nat :=
  match s with
  | EmptyString => None
  | String a s => if decide (a = c) then Some 0 else S <$> Index s c
  end.
Fixpoint LastIndex (s : string) (c : ascii) : option nat :=
  match s with
  | EmptyString => None
  | String a s =>
      match LastIndex s c with
      | Some i => Some (S i)
      | None => if decide (a = c) then Some 0 else None
      end
  end.

(** [s[:i]] and [s[i:]] *)
Definition before (i : nat) (s : string) : string := String.substring 0 i s.
Definition after (i : nat) (s : string) : string := String.substring i (String.length s - i) s.

(** [X-Forwarded-For] comes first; without it the address of the connection. *)
Definition clientIP (xff RemoteAddr : string) : string :=
  if decide (xff ≠ "") then
    match Index xff "," with
    | Some i => Gateway.TrimSpace (before i xff)
    | None => Gateway.TrimSpace xff
    end
  else
    match LastIndex RemoteAddr ":" with
    | Some i => before i RemoteAddr
    | None => RemoteAddr
    end.

Definition maskEmail (email : string) : string :=
  match LastIndex email "@" with
  | None | Some 0 => "***"
  | Some at_ =>
      let '(loc, domain) := (before at_ email, after at_ email) in
      if String.length loc <=? 2 then "***" +:+ domain
      else before 2 loc +:+ "***" +:+ domain
  end.

(** [strings.ToLower], on ASCII. *)
Definition to_lower (a : ascii) : ascii :=
  let n := nat_of_ascii a in if (65 <=? n) && (n <=? 90) then ascii_of_nat (n + 32) else a.

Definition is_word (a : ascii) : bool :=
  let n := nat_of_ascii a in
  ((97 <=? n) && (n <=? 122)) || ((48 <=? n) && (n <=? 57)) || (n =? 95).

Fixpoint sanitizeUsername (login : string) : string :=
  match login with
  | EmptyString => ""
  | String a login =>
      let a := to_lower a in
      if is_word a then String a (sanitizeUsername login)
      else if decide (a = "-"%char) then String "_" (sanitizeUsername login)
      else sanitizeUsername login
  end.

(** ** What the service runs on *)

Record githubUser := mkGithubUser { GH_ID : Z; Login : string; GH_AvatarURL : string }.
Record githubEmail := mkGithubEmail { GH_Email : string; Primary : bool; Verified : bool }.

(** The requests to GitHub, which change the state of GitHub: the status, and what the
    body decodes to, [None] when it does not. *)
Class GitHub := {
  world : Type;
  POST_token : string → string → string → world → (Z * option (string * string)) * world;
  GET_user : string → world → (Z * option githubUser) * world;
  GET_emails : string → world → (Z * option (list githubEmail)) * world
}.

(** The registered claims, and how the JWT library signs: what it signs verifies with
    the same secret, until it has expired. *)
Record Registered := mkRegistered { JTI : string; IssuedAt : Z; Token_ExpiresAt : Z }.
Class Signer `{JWT} := {
  SignedString : string → Claims → Registered → result error string;
  Signed_verifies : ∀ secret c r raw, SignedString secret c r = Ok raw →
    ParseWithClaims secret raw = Ok (true, c) ∨ ParseWithClaims secret raw = Err true
}.

Section Auth.
Context `{U : UUID} `{!Postgres} `{!JWT} `{!GitHub} `{!Signer}.

(** Fresh ids and the bytes of [crypto/rand] of the process, the [n]th. *)
Context (Nil : uuid) (uuid_New : nat → uuid) (rand : nat → option string).

(** ** The tables *)

Record Identity := mkIdentity { Id_PlayerID : uuid; Id_Email : string; Id_AvatarURL : option string }.
Record device := mkDevice { user_agent : string; accept_language : string; ip_address : string }.
Record Session := mkSession {
  S_PlayerID : uuid; device_info : device; S_CreatedAt : Z; S_ExpiresAt : Z;
  revoked_at : option Z; last_seen_at : Z
}.

(** ** Responses *)

Record Cookie := mkCookie {
  Name : string; Value : string; Path : string; HttpOnly : bool; Secure : bool; SameSite : string; MaxAge : Z
}.
Record PlayerView := mkPlayerView { V_ID : uuid; V_Username : string; V_Role : string; V_IsBot : bool }.
Inductive content : Type :=
  | B_text (msg : string)                     (* http.Error *)
  | B_error (msg : string)                    (* {"error": ..} *)
  | B_redirect (location : string)
  | B_player (p : PlayerView)
  | B_capabilities (CanSeeDevtools : bool)
  | B_empty.

(** The [Set-Cookie] headers, and the rest. *)
Definition body : Type := list Cookie * content.

(** A request: its cookies by name, its headers, its query, its remote address, and the
    [player_id] of its body, [None] when that does not decode. *)
Record request := mkRequest {
  cookies : list (string * string); Header : string → string; Query : string → string;
  RemoteAddr : string; json_player_id : option string
}.
Inductive route : Type :=
  | GET_github | GET_github_callback | POST_refresh | POST_logout | GET_me | GET_capabilities
  | GET_test_login | POST_bot_login.

(** What the goroutines share: the tables of the user service, those of this service,
    GitHub, the channel of revoked sessions, how much randomness the process has used,
    and the answers that have been written. *)
Record auth := mkAuth {
  T : tables; oauth_identities : gmap (string * string) Identity;
  player_sessions : gmap uuid Session; github : world; revocations : list string;
  used : nat; responses : list (route * request * response body)
}.
Definition set_T v s := mkAuth v (oauth_identities s) (player_sessions s) (github s) (revocations s) (used s) (responses s).
Definition set_identities v s := mkAuth (T s) v (player_sessions s) (github s) (revocations s) (used s) (responses s).
Definition set_sessions v s := mkAuth (T s) (oauth_identities s) v (github s) (revocations s) (used s) (responses s).
Definition set_github v s := mkAuth (T s) (oauth_identities s) (player_sessions s) v (revocations s) (used s) (responses s).
Definition set_revocations v s := mkAuth (T s) (oauth_identities s) (player_sessions s) (github s) v (used s) (responses s).
Definition set_used v s := mkAuth (T s) (oauth_identities s) (player_sessions s) (github s) (revocations s) v (responses s).
Definition set_responses v s := mkAuth (T s) (oauth_identities s) (player_sessions s) (github s) (revocations s) (used s) v.

(** ** The store (internal/store/store.go) *)

Definition statement {A} (c : auth → result error A * auth) : prog auth (result error A) :=
  r ← cmd c; mret (default (Err (Driver "connection")) r).
Definition select {A} (f : auth → result error A) : prog auth (result error A) := statement (λ s, (f s, s)).

Definition passed (t : option Z) (now : Z) : bool := match t with Some t => (t <=? now)%Z | None => false end.

Definition email_allowed (email : string) (t : tables) : bool :=
  match allowed_emails t !! email with
  | Some e => negb (passed (E_ExpiresAt e) (clock t))
  | None => false
  end.
Definition IsEmailAllowed (email : string) : prog auth (result error bool) :=
  select (λ s, Ok (email_allowed email (T s))).

Definition by_username (username : string) (t : tables) : option uuid :=
  fst <$> head (rows (λ _ p, String.eqb (Username p) username) (players t)).

(** [INSERT INTO players ... ON CONFLICT (username) DO UPDATE SET username = EXCLUDED.username
    RETURNING id]: the row that has the name, or a new one. *)
Definition take_username (username role : string) (avatar : option string) (t : tables)
    : result error uuid * tables :=
  if (32 <? String.length username) || negb (valid_role role) then (Err (Driver "value"), t)
  else
    match by_username username t with
    | Some id => (Ok id, t)
    | None =>
        insert_with_id players (λ id, mkPlayer id username role avatar false None (clock t) None)
          set_players (λ _, true) Player_ID t
    end.

(** The rows of the new player and of the identity appear together, when the transaction
    commits; when one of them is refused, neither does. *)
Definition insert_identity (key : string * string) (email username role : string) (avatar : option string)
    (s : auth) : result error uuid * auth :=
  let '(r, t) := take_username username role avatar (T s) in
  match r with
  | Err e => (Err (Wrap "insert player" e), set_T (set_generated (generated t) (T s)) s)
  | Ok id =>
      match oauth_identities s !! key with
      | Some _ => (Err (Wrap "insert identity" (Driver "unique")), set_T (set_generated (generated t) (T s)) s)
      | None =>
          (Ok id, set_identities (<[key := mkIdentity id email avatar]> (oauth_identities s)) (set_T t s))
      end
  end.

(** Any error of the first query, also of the connection, counts as a first login. *)
Definition UpsertOAuthIdentity (Provider ProviderID email : string) (avatar : option string) (username : string)
    : prog auth (result error uuid) :=
  let key := (Provider, ProviderID) in
  r ← select (λ s, match oauth_identities s !! key with Some i => Ok (Id_PlayerID i) | None => Err ErrNoRows end);
  match r with
  | Err _ =>
      r ← select (λ s, match allowed_emails (T s) !! email with Some e => Ok (E_Role e) | None => Err ErrNoRows end);
      match r with
      | Err e => mret (Err (Wrap "get initial role" e))
      | Ok initialRole => statement (insert_identity key email username initialRole avatar)
      end
  | Ok playerID =>
      r ← statement (λ s, (Ok tt, set_identities
            (alter (λ i, mkIdentity (Id_PlayerID i) (Id_Email i) avatar) key (oauth_identities s)) s));
      mret (match r with Err e => Err (Wrap "update identity" e) | Ok _ => Ok playerID end)
  end.

Record CreateSessionParams := mkCreateSession { C_PlayerID : uuid; C_device : device; C_ExpiresAt : Z }.

Definition CreateSession (p : CreateSessionParams) : prog auth (result error uuid) :=
  statement (λ s,
    let t := T s in
    let id := gen_random_uuid (generated t) in
    let s := set_T (set_generated (S (generated t)) t) s in
    if player_exists (C_PlayerID p) t && is_none (player_sessions s !! id) then
      (Ok id, set_sessions (<[id := mkSession (C_PlayerID p) (C_device p) (clock t) (C_ExpiresAt p) None (clock t)]>
        (player_sessions s)) s)
    else (Err (Wrap "insert session" (Driver "constraint")), s)).

(** Not revoked and not expired. *)
Definition active (x : Session) (now : Z) : bool := is_none (revoked_at x) && (now <? S_ExpiresAt x)%Z.

Definition GetSession (sessionID : uuid) : prog auth (result error Session) :=
  select (λ s,
    match player_sessions s !! sessionID with
    | Some x => if active x (clock (T s)) then Ok x else Err (Wrap "get session" ErrNoRows)
    | None => Err (Wrap "get session" ErrNoRows)
    end).

Definition revoked (now : Z) (x : Session) : Session :=
  mkSession (S_PlayerID x) (device_info x) (S_CreatedAt x) (S_ExpiresAt x) (Some now) (last_seen_at x).

Definition RevokeSession (sessionID : uuid) : prog auth (result error unit) :=
  statement (λ s, (Ok tt, set_sessions (alter (revoked (clock (T s))) sessionID (player_sessions s)) s)).

Definition RevokeAllSessions (playerID : uuid) : prog auth (result error unit) :=
  statement (λ s, (Ok tt, set_sessions ((λ x,
    if bool_decide (S_PlayerID x = playerID) && is_none (revoked_at x) then revoked (clock (T s)) x else x)
      <$> player_sessions s) s)).

Definition TouchSession (sessionID : uuid) : prog auth (result error unit) :=
  statement (λ s, (Ok tt, set_sessions (alter (λ x, mkSession (S_PlayerID x) (device_info x) (S_CreatedAt x)
    (S_ExpiresAt x) (revoked_at x) (clock (T s))) sessionID (player_sessions s)) s)).

Definition banned (playerID : uuid) (t : tables) : bool :=
  negb (bool_decide (values (λ b, bool_decide (Ban_PlayerID b = playerID) && is_none (LiftedAt b)
    && negb (passed (ExpiresAt b) (clock t))) (bans t) = [])).
Definition CheckActiveBan (playerID : uuid) : prog auth (result error bool) :=
  select (λ s, Ok (banned playerID (T s))).

Definition player_view (id : uuid) (t : tables) : option PlayerView :=
  p ← live_player id t; Some (mkPlayerView id (Username p) (Role p) (IsBot p)).
Definition GetPlayer (id : uuid) : prog auth (result error PlayerView) :=
  select (λ s, match player_view id (T s) with Some p => Ok p | None => Err (Wrap "get player" ErrNoRows) end).

(** ** Tokens and cookies (internal/jwt/jwt.go) *)

(** [time.Now()]; the process and the database share a clock. *)
Definition time_Now : prog auth Z := local 0%Z (λ s, (clock (T s), s)).
(** The next value of a random source of the process. *)
Definition fresh {A} (source : nat → A) : prog auth A := local (source 0) (λ s, (source (used s), set_used (S (used s)) s)).

Definition SignToken (secret : string) (p : PlayerView) : prog auth (result error string) :=
  now ← time_Now;
  jti ← fresh uuid_New;
  mret (SignedString secret (mkClaims (V_ID p) (V_Username p) (V_Role p))
    (mkRegistered (uuid_String jti) now (now + JWTTTL))).

Definition SessionCookie (token : string) (secure : bool) : Cookie :=
  mkCookie CookieName token "/" true secure "Lax" RefreshTTL.
Definition ClearSessionCookie : Cookie := mkCookie CookieName "" "/" true false "" (-1).
Definition RefreshCookie (sessionID : string) (secure : bool) : Cookie :=
  mkCookie RefreshCookieName sessionID "/auth/refresh" true secure "Strict" RefreshTTL.
Definition ClearRefreshCookie : Cookie := mkCookie RefreshCookieName "" "/auth/refresh" true false "" (-1).
Definition ClearAllCookies : list Cookie := [ClearSessionCookie; ClearRefreshCookie].

(** ** GitHub (internal/handler/github.go) *)

Definition rpc {A} (c : world → A * world) : prog auth (option A) :=
  cmd (λ s, let '(a, w) := c (github s) in (a, set_github w s)).

Definition exchangeCode (clientID clientSecret code : string) : prog auth (result error string) :=
  r ← rpc (POST_token clientID clientSecret code);
  mret (match r with
        | None => Err (Plain "token exchange")
        | Some (_, None) => Err (Plain "decode token response")
        | Some (_, Some (AccessToken, error_)) =>
            if decide (error_ ≠ "") then Err (Plain "github oauth error") else Ok AccessToken
        end).

Definition githubGET {A} (c : world → (Z * option A) * world) : prog auth (result error A) :=
  r ← rpc c;
  mret (match r with
        | None => Err (Plain "github API")
        | Some (status, dst) =>
            if (status =? StatusOK)%Z then match dst with Some x => Ok x | None => Err (Plain "decode") end
            else Err (Plain "github API: status")
        end).

Definition fetchGitHubUser (token : string) : prog auth (result error githubUser) := githubGET (GET_user token).

Definition primary_email (emails : list githubEmail) : option string :=
  GH_Email <$> List.find (λ e, Primary e && Verified e) emails.
Definition fetchPrimaryEmail (token : string) : prog auth (result error string) :=
  r ← githubGET (GET_emails token);
  mret (match r with
        | Err e => Err e
        | Ok emails =>
            match primary_email emails with
            | Some e => Ok e
            | None => Err (Plain "no verified primary email on GitHub account")
            end
        end).

(** ** Handlers (internal/handler) *)

(** The configuration: the client of GitHub, the secrets, [TEST_MODE]. *)
Context (clientID clientSecret jwtSecret BotServiceSecret : string) (secure TestModeEnabled : bool).
(** [flags.IsEnabled(FlagDevtoolsForAdmins, false)], [None] when there is no checker. *)
Context (devtools_flag : option bool).

Abbreviation handler := (prog auth (response body)).

Definition answer (status : Z) (cs : list Cookie) (b : content) : handler := mret (mkResponse status (cs, b)).
Definition http_Error (status : Z) (cs : list Cookie) (msg : string) : handler := answer status cs (B_text msg).
Definition redirect (cs : list Cookie) (location : string) : handler :=
  answer StatusTemporaryRedirect cs (B_redirect location).

(** [r.Cookie(name)]: the first with that name. *)
Definition cookie (name : string) (r : request) : option string :=
  snd <$> List.find (λ c, String.eqb c.1 name) (cookies r).

Definition device_of (r : request) : device :=
  mkDevice (Header r "User-Agent") (Header r "Accept-Language")
    (clientIP (Header r "X-Forwarded-For") (RemoteAddr r)).

Definition create_session (p : uuid) (r : request) : prog auth (result error uuid) :=
  now ← time_Now; CreateSession (mkCreateSession p (device_of r) (now + RefreshTTL)).

(** Without a session row the player still gets an access token. *)
Definition login_cookies (token : string) (session : result error uuid) : list Cookie :=
  SessionCookie token secure ::
  match session with
  | Ok sid => if decide (sid ≠ Nil) then [RefreshCookie (uuid_String sid) secure] else []
  | Err _ => []
  end.

Definition githubAuthURL : string := "https://github.com/login/oauth/authorize".

Definition HandleGitHubLogin (r : request) : handler :=
  state ← fresh rand;
  match state with
  | None => http_Error StatusInternalServerError [] "internal error"
  | Some state =>
      redirect [mkCookie "oauth_state" state "/auth" true secure "Lax" 300]
        (githubAuthURL +:+ "?client_id=" +:+ clientID +:+ "&scope=read:user,user:email&state=" +:+ state)
  end.

Definition avatars : string := "https://avatars.githubusercontent.com/".

(** From the verified address on. *)
Definition sign_in (r : request) (cs : list Cookie) (u : githubUser) (email : string) : handler :=
  allowed ← IsEmailAllowed email;
  match allowed with
  | Err _ => redirect cs "/?error=internal_error"
  | Ok false => redirect cs "/?error=email_not_allowed"
  | Ok true =>
      let avatarURL := if String.prefix avatars (GH_AvatarURL u) then GH_AvatarURL u else "" in
      identity ← UpsertOAuthIdentity "github" (pretty (GH_ID u)) email (Some avatarURL)
                   (sanitizeUsername (Login u));
      match identity with
      | Err _ => http_Error StatusInternalServerError cs "internal error"
      | Ok playerID =>
          player ← GetPlayer playerID;
          match player with
          | Err _ => http_Error StatusInternalServerError cs "internal error"
          | Ok player =>
              token ← SignToken jwtSecret player;
              match token with
              | Err _ => http_Error StatusInternalServerError cs "internal error"
              | Ok token =>
                  sid ← create_session (V_ID player) r;
                  redirect (cs ++ login_cookies token sid) "/"
              end
          end
      end
  end.

(** A request without the cookie, or with another state, is refused. *)
Definition same_state (r : request) : bool :=
  match cookie "oauth_state" r with Some v => String.eqb v (Query r "state") | None => false end.

Definition HandleGitHubCallback (r : request) : handler :=
  if same_state r then
    let cs := [mkCookie "oauth_state" "" "/auth" false false "" (-1)] in
    let code := Query r "code" in
    if decide (code = "") then http_Error StatusBadRequest cs "missing code"
    else
      accessToken ← exchangeCode clientID clientSecret code;
      match accessToken with
      | Err _ => http_Error StatusBadGateway cs "oauth failed"
      | Ok accessToken =>
          ghUser ← fetchGitHubUser accessToken;
          match ghUser with
          | Err _ => http_Error StatusBadGateway cs "failed to fetch user"
          | Ok ghUser =>
              email ← fetchPrimaryEmail accessToken;
              match email with
              | Err _ => http_Error StatusBadGateway cs "failed to fetch email"
              | Ok email => sign_in r cs ghUser email
              end
          end
      end
  else http_Error StatusBadRequest [] "invalid oauth state".

Definition HandleMe (c : Claims) : handler :=
  player ← GetPlayer (PlayerID c);
  match player with
  | Err _ => http_Error StatusNotFound [] "player not found"
  | Ok p => answer StatusOK [] (B_player p)
  end.

(** [featureflags.Compute] (shared/featureflags/capability.go) *)
Definition canSeeDevtools (role : string) : bool :=
  if decide (role = RoleOwner) then default false devtools_flag else false.
Definition HandleCapabilities (c : Claims) : handler :=
  answer StatusOK [] (B_capabilities (canSeeDevtools (ClaimRole c))).

Definition HandleLogout (r : request) (_ : Claims) : handler :=
  match cookie RefreshCookieName r ≫= uuid_Parse with
  | Some sessionID => ignore (RevokeSession sessionID)
  | None => mret tt
  end;;
  answer StatusNoContent ClearAllCookies B_empty.

Definition HandleRefresh (r : request) : handler :=
  match cookie RefreshCookieName r with
  | None => answer StatusUnauthorized [] (B_error "missing refresh token")
  | Some raw =>
      match uuid_Parse raw with
      | None => answer StatusUnauthorized ClearAllCookies (B_error "invalid refresh token")
      | Some sessionID =>
          sess ← GetSession sessionID;
          match sess with
          | Err _ => answer StatusUnauthorized ClearAllCookies (B_error "session expired or revoked")
          | Ok sess =>
              is_banned ← CheckActiveBan (S_PlayerID sess);
              match is_banned with
              | Err _ => answer StatusInternalServerError [] (B_error "internal error")
              | Ok true =>
                  ignore (RevokeSession sessionID);;
                  answer StatusForbidden ClearAllCookies (B_error "account banned")
              | Ok false =>
                  player ← GetPlayer (S_PlayerID sess);
                  match player with
                  | Err _ => answer StatusUnauthorized ClearAllCookies (B_error "player not found")
                  | Ok player =>
                      ignore (RevokeSession sessionID);;
                      newSessionID ← create_session (V_ID player) r;
                      match newSessionID with
                      | Err _ => answer StatusInternalServerError [] (B_error "internal error")
                      | Ok newSessionID =>
                          token ← SignToken jwtSecret player;
                          match token with
                          | Err _ => answer StatusInternalServerError [] (B_error "internal error")
                          | Ok token =>
                              answer StatusNoContent [SessionCookie token secure;
                                RefreshCookie (uuid_String newSessionID) secure] B_empty
                          end
                      end
                  end
              end
          end
      end
  end.

(** The end of a login that needs no GitHub. *)
Definition log_in (r : request) (player : PlayerView) : handler :=
  token ← SignToken jwtSecret player;
  match token with
  | Err _ => http_Error StatusInternalServerError [] "internal error"
  | Ok token =>
      sid ← create_session (V_ID player) r;
      answer StatusNoContent (login_cookies token sid) B_empty
  end.

(** An unset secret refuses everything. *)
Definition bot_secret (r : request) : bool :=
  negb (String.eqb BotServiceSecret "") && String.eqb BotServiceSecret (Header r "X-Bot-Secret").

Definition HandleBotLogin (r : request) : handler :=
  if bot_secret r then
    match json_player_id r with
    | None => http_Error StatusBadRequest [] "invalid body"
    | Some raw =>
        match uuid_Parse raw with
        | None => http_Error StatusBadRequest [] "invalid player_id"
        | Some playerID =>
            player ← GetPlayer playerID;
            match player with
            | Err _ => http_Error StatusNotFound [] "player not found"
            | Ok player =>
                if V_IsBot player then log_in r player
                else http_Error StatusForbidden [] "not a bot"
            end
        end
    end
  else http_Error StatusUnauthorized [] "unauthorized".

Definition HandleTestLogin (r : request) : handler :=
  if TestModeEnabled then
    match uuid_Parse (Query r "player_id") with
    | None => http_Error StatusBadRequest [] "invalid player_id"
    | Some playerID =>
        player ← GetPlayer playerID;
        match player with
        | Err _ => http_Error StatusNotFound [] "player not found"
        | Ok player => log_in r player
        end
    end
  else http_Error StatusNotFound [] "404 page not found".

(** The router (cmd/server/main.go). *)
Definition dispatch (t : route) (r : request) : handler :=
  let authMW := Require (M := prog auth) (λ msg, ([], B_error msg)) jwtSecret (cookie CookieName r) in
  match t with
  | GET_github => HandleGitHubLogin r
  | GET_github_callback => HandleGitHubCallback r
  | POST_refresh => HandleRefresh r
  | POST_logout => authMW (HandleLogout r)
  | GET_me => authMW HandleMe
  | GET_capabilities => authMW HandleCapabilities
  | GET_test_login => HandleTestLogin r
  | POST_bot_login => HandleBotLogin r
  end.

(** ** The consumer of bans (internal/consumer/consumer.go) *)

(** The payload by its [player_id], [None] when it does not decode. A failure to revoke
    the sessions is only logged. *)
Definition handle (payload : option string) : prog auth Streams.outcome :=
  match payload with
  | None => mret (Streams.Failed (Plain "unmarshal PlayerBanned"))
  | Some raw =>
      match uuid_Parse raw with
      | None => mret (Streams.Failed (Plain "invalid player_id"))
      | Some playerID =>
          ignore (RevokeAllSessions playerID);;
          r ← write (λ s, set_revocations (revocations s ++ [uuid_String playerID]) s);
          mret (match r with
                | Some _ => Streams.Done
                | None => Streams.Failed (Plain "publish player.session.revoked")
                end)
      end
  end.

(** ** The process *)

Inductive call : Type :=
  | Http (t : route) (r : request)
  | Consume (payload : option string).

Definition serve (c : call) : prog auth unit :=
  match c with
  | Http t r =>
      resp ← dispatch t r;
      local tt (λ s, (tt, set_responses (responses s ++ [(t, r, resp)]) s))
  | Consume payload => ignore (handle payload)
  end.

(** The rest of the world: the user service and the clock change its tables, and GitHub
    changes. *)
Inductive happening : Type :=
  | Elsewhere (f : tables → tables)
  | GitHub_moves (f : world → world).
Definition happen (e : happening) (s : auth) : auth :=
  match e with
  | Elsewhere f => set_T (f (T s)) s
  | GitHub_moves f => set_github (f (github s)) s
  end.
End Auth.
End Auth.
