(* ===== verification/AuthSpec.v ===== *)
(** The authentication service: who gets a token and a session, whatever requests
    interleave and whatever fails; and revoked sessions stay revoked. *)
From stdpp Require Import strings pretty.
From S2P Require Import Prelude Backend Store Programs Ownership Middleware Users Streams Auth.
Import Programs History Middleware Users Auth.

Section Spec.
Context `{U : UUID} `{PG : !Postgres} `{TOK : !JWT} `{GH : !GitHub} `{SG : !Signer}.
Context (Nil : uuid) (uuid_New : nat → uuid) (rand : nat → option string).
Context (clientID clientSecret jwtSecret BotServiceSecret : string) (secure TestModeEnabled : bool).
Context (devtools_flag : option bool).

Abbreviation serve := (serve Nil uuid_New rand clientID clientSecret jwtSecret BotServiceSecret
  secure TestModeEnabled devtools_flag).
Abbreviation dispatch := (dispatch Nil uuid_New rand clientID clientSecret jwtSecret BotServiceSecret
  secure TestModeEnabled devtools_flag).
Abbreviation schedule := (list (label call happening)).
Definition run (ls : schedule) (s : auth) : auth := (Programs.run serve happen ls (s, [])).1.

(** ** Sessions only grow *)

(** A session keeps its player and its end, and once revoked it stays so. *)
Definition keeps (s s' : auth) : Prop :=
  ∀ sid x, player_sessions s !! sid = Some x → ∃ x', player_sessions s' !! sid = Some x' ∧
    S_PlayerID x' = S_PlayerID x ∧ S_ExpiresAt x' = S_ExpiresAt x ∧
    (is_Some (revoked_at x) → is_Some (revoked_at x')).

Lemma keeps_refl s : keeps s s.
Proof. intros sid x Hx. eauto. Qed.
Lemma keeps_same s s' : player_sessions s' = player_sessions s → keeps s s'.
Proof. intros E sid x Hx. rewrite E. eauto. Qed.
Lemma keeps_trans s s' s'' : keeps s s' → keeps s' s'' → keeps s s''.
Proof.
  intros H1 H2 sid x Hx. destruct (H1 sid x Hx) as (x' & Hx' & E1 & E2 & E3).
  destruct (H2 sid x' Hx') as (x'' & Hx'' & E1' & E2' & E3'). exists x''.
  split; [done|]. split_and!; [congruence..|auto].
Qed.
Lemma keeps_alter f sid s :
  (∀ x, S_PlayerID (f x) = S_PlayerID x ∧ S_ExpiresAt (f x) = S_ExpiresAt x ∧
        (is_Some (revoked_at x) → is_Some (revoked_at (f x)))) →
  keeps s (set_sessions (alter f sid (player_sessions s)) s).
Proof.
  intros Hf i x Hx. cbn. destruct (decide (sid = i)) as [->|Hne].
  - rewrite lookup_alter_eq, Hx. exists (f x). split; [done|apply Hf].
  - rewrite lookup_alter_ne by done. eauto.
Qed.

Lemma every_statement {A} (c : auth → result error A * auth) :
  (∀ s, keeps s (c s).2) → every keeps (statement c).
Proof. intros Hc. apply every_bind; [by apply every_cmd|done]. Qed.
Lemma every_select {A} (f : auth → result error A) : every keeps (select f).
Proof. apply every_statement. intros s. apply keeps_refl. Qed.
Lemma every_local {R} (d : R) c : (∀ s, player_sessions (c s).2 = player_sessions s) → every keeps (local d c).
Proof. intros Hc. split; [|done]. intros s. by apply keeps_same. Qed.

Lemma every_UpsertOAuthIdentity p i e a u : every keeps (UpsertOAuthIdentity p i e a u).
Proof.
  apply every_bind; [apply every_select|]. intros [pid|err].
  - apply every_bind; [|done]. apply every_statement. intros s. by apply keeps_same.
  - apply every_bind; [apply every_select|]. intros [r|err']; [|done]. apply every_statement. intros s.
    apply keeps_same. unfold insert_identity. destruct (take_username _ _ _ _) as [[id|] t]; [|done].
    by destruct (oauth_identities s !! _).
Qed.

Lemma every_CreateSession p : every keeps (CreateSession p).
Proof.
  apply every_statement. intros s. cbn -[player_exists]. destruct (player_exists _ _); cbn; [|by apply keeps_same].
  destruct (player_sessions s !! _) eqn:E; cbn; [by apply keeps_same|]. intros sid x Hx. exists x.
  cbn. rewrite lookup_insert_ne by congruence. auto.
Qed.

Lemma every_RevokeSession sid : every keeps (RevokeSession sid).
Proof. apply every_statement. intros s. apply keeps_alter. by intros x. Qed.

Lemma every_RevokeAllSessions p : every keeps (RevokeAllSessions p).
Proof.
  apply every_statement. intros s sid x Hx. cbn. rewrite lookup_fmap, Hx. eexists. split; [done|].
  by destruct (_ && _).
Qed.

Lemma every_rpc {A} (c : world → A * world) : every keeps (rpc c).
Proof. apply every_cmd. intros s. destruct (c _) as [a w]. by apply keeps_same. Qed.

Lemma every_SignToken secret p : every keeps (SignToken uuid_New secret p).
Proof. apply every_bind; [by apply every_local|]. intros now. by apply every_bind; [apply every_local|]. Qed.
Lemma every_create_session p r : every keeps (create_session p r).
Proof. apply every_bind; [by apply every_local|]. intros now. apply every_CreateSession. Qed.
Lemma every_ignore {A} (p : prog auth A) : every keeps p → every keeps (ignore p).
Proof. intros Hp. by apply every_bind. Qed.

Ltac every_auth :=
  repeat first
    [ done
    | apply every_select | apply every_create_session | apply every_RevokeSession | apply every_RevokeAllSessions
    | apply every_UpsertOAuthIdentity | apply every_rpc | apply every_SignToken | apply every_ignore
    | by apply every_local | by apply every_cmd; intros ?; apply keeps_same
    | apply every_bind; [|intros ?]
    | match goal with
      | |- every _ (if ?b then _ else _) => destruct b
      | |- every _ (match ?x with _ => _ end) => destruct x
      end ].

Lemma every_dispatch t r : every keeps (dispatch t r).
Proof.
  destruct t; cbn [Auth.dispatch]; unfold Require, HandleGitHubLogin, HandleGitHubCallback, HandleRefresh,
    HandleLogout, HandleMe, HandleCapabilities, HandleTestLogin, HandleBotLogin, log_in, sign_in,
    exchangeCode, fetchGitHubUser, fetchPrimaryEmail, githubGET, GetPlayer, GetSession, CheckActiveBan,
    IsEmailAllowed, redirect, http_Error, answer; every_auth.
Qed.

Lemma every_serve c : every keeps (serve c).
Proof.
  destruct c as [t r|payload]; cbn [Auth.serve].
  - apply every_bind; [apply every_dispatch|]. intros resp. by apply every_local.
  - apply every_ignore. unfold handle. every_auth.
Qed.

Lemma keeps_happen e s : keeps s (happen e s).
Proof. destruct e; by apply keeps_same. Qed.

Lemma run_keeps ls s : keeps s (run ls s).
Proof.
  apply (run_every keeps serve happen keeps_refl keeps_trans every_serve keeps_happen ls (s, [])). constructor.
Qed.

(** ** Who gets a token *)

Section Entitled.
Context (s0 : auth) (ls : schedule).
Abbreviation past := (past serve happen ls (s0, [])).

(** GitHub said, for the code of the request, that its owner is [u], with the verified
    primary address [e]. *)
Definition identified (r : request) (u : githubUser) (e : string) : Prop :=
  same_state r = true ∧ Query r "code" ≠ "" ∧
  ∃ tok, (∃ s st, past s ∧ (POST_token clientID clientSecret (Query r "code") (github s)).1 = (st, Some (tok, ""))) ∧
         (∃ s, past s ∧ (GET_user tok (github s)).1 = (StatusOK, Some u)) ∧
         (∃ s es, past s ∧ (GET_emails tok (github s)).1 = (StatusOK, Some es) ∧ mkGithubEmail e true true ∈ es).

(** The account that is linked to the GitHub account of [u]. *)
Definition linked (u : githubUser) (p : uuid) : Prop :=
  ∃ s i, past s ∧ oauth_identities s !! ("github", pretty (GH_ID u)) = Some i ∧ Id_PlayerID i = p.

(** What a request must show to act for a player. *)
Definition entitled (t : route) (r : request) (p : uuid) : Prop :=
  match t with
  | GET_github_callback => ∃ u e, identified r u e ∧
      (∃ s, past s ∧ email_allowed e (T s) = true) ∧ linked u p
  | POST_refresh => ∃ raw sid, cookie RefreshCookieName r = Some raw ∧ uuid_Parse raw = Some sid ∧
      (∃ s x, past s ∧ player_sessions s !! sid = Some x ∧ active x (clock (T s)) = true ∧ S_PlayerID x = p) ∧
      (∃ s, past s ∧ banned p (T s) = false)
  | POST_bot_login => BotServiceSecret ≠ "" ∧ Header r "X-Bot-Secret" = BotServiceSecret ∧
      (∃ raw, json_player_id r = Some raw ∧ uuid_Parse raw = Some p) ∧
      ∃ s v, past s ∧ live_player p (T s) = Some v ∧ IsBot v = true
  | GET_test_login => TestModeEnabled = true ∧ uuid_Parse (Query r "player_id") = Some p
  | _ => False
  end.

(** The claims were true of a player at some time. *)
Definition vouched (c : Claims) : Prop :=
  ∃ s v, past s ∧ live_player (PlayerID c) (T s) = Some v ∧ ClaimUsername c = Username v ∧ ClaimRole c = Role v.

(** A session cookie, unless it clears the one of the browser, holds a signed token for
    a player the request is entitled to; a refresh cookie, a session of such a player. *)
Definition good_cookie (t : route) (r : request) (c : Cookie) : Prop :=
  (Name c = CookieName → c = ClearSessionCookie ∨
     ∃ claims reg, SignedString jwtSecret claims reg = Ok (Value c) ∧
       entitled t r (PlayerID claims) ∧ vouched claims) ∧
  (Name c = RefreshCookieName → c = ClearRefreshCookie ∨
     ∃ s sid x, past s ∧ player_sessions s !! sid = Some x ∧ Value c = uuid_String sid ∧
       entitled t r (S_PlayerID x)).

Definition good (t : route) (r : request) (resp : response body) : Prop :=
  Forall (good_cookie t r) (Middleware.body resp).1.

(** Answers are good, and a session belongs to a player who had one or was entitled to. *)
Definition sound (s : auth) : Prop :=
  (∀ t r resp, (t, r, resp) ∈ responses s →
     (t, r, resp) ∈ responses s0 ∨ (Spawn (Http t r) ∈ ls ∧ good t r resp)) ∧
  (∀ sid x, player_sessions s !! sid = Some x →
     (∃ x', player_sessions s0 !! sid = Some x' ∧ S_PlayerID x' = S_PlayerID x) ∨
     ∃ t r, Spawn (Http t r) ∈ ls ∧ entitled t r (S_PlayerID x)).

Lemma sound_start : sound s0.
Proof. split; [by left|]. intros sid x Hx. left. eauto. Qed.

Lemma sound_quiet s s' :
  player_sessions s' = player_sessions s → responses s' = responses s → sound s → sound s'.
Proof. intros E1 E2. unfold sound. by rewrite E1, E2. Qed.

(** Changing sessions without changing their players. *)
Lemma sound_fmap (f : uuid → Session → Session) s :
  (∀ sid x, S_PlayerID (f sid x) = S_PlayerID x) →
  (∀ s', responses s' = responses s → (∀ sid, player_sessions s' !! sid = f sid <$> player_sessions s !! sid) →
    sound s → sound s').
Proof.
  intros Hf s' E1 E2 [H1 H2]. split; [by rewrite E1|]. intros sid x Hx. rewrite E2 in Hx.
  apply fmap_Some in Hx as (x' & Hx' & ->). rewrite Hf. by apply H2.
Qed.

Abbreviation wpa := (wpp serve happen ls (s0, []) sound).

Lemma wpa_statement {A} (c : auth → result error A * auth) (Φ : result error A → Prop) :
  Φ (Err (Driver "connection")) →
  (∀ s, past s → sound s → past (c s).2 → sound (c s).2 ∧ Φ (c s).1) → wpa (statement c) Φ.
Proof. intros Hn Hc. apply wpp_bind, wpp_cmd; [done|]. exact Hc. Qed.

Lemma wpa_select {A} (f : auth → result error A) (Φ : result error A → Prop) :
  Φ (Err (Driver "connection")) → (∀ s, past s → Φ (f s)) → wpa (select f) Φ.
Proof. intros Hn Hf. apply wpa_statement; [done|]. intros s HP HI _. split; [done|by apply Hf]. Qed.

Lemma wpa_rpc {A} (c : world → A * world) (Φ : option A → Prop) :
  Φ None → (∀ s, past s → Φ (Some (c (github s)).1)) → wpa (rpc c) Φ.
Proof.
  intros Hn Hc. apply wpp_cmd; [done|]. intros s HP HI _. specialize (Hc s HP).
  destruct (c (github s)) as [a w]. cbn in *. split; [|done]. by apply (sound_quiet s).
Qed.

Lemma wpa_quiet {R} (d : R) c (Φ : R → Prop) :
  (∀ s, player_sessions (c s).2 = player_sessions s ∧ responses (c s).2 = responses s) →
  (∀ r, Φ r) → wpa (local d c) Φ.
Proof.
  intros Hc HΦ. apply wpp_local. intros s HP HI _. split; [|done].
  apply (sound_quiet s); [apply Hc..|done].
Qed.

(** *** Tokens, sessions, identities *)

Definition signed (v : PlayerView) (r : result error string) : Prop :=
  ∀ raw, r = Ok raw → ∃ reg, SignedString jwtSecret (mkClaims (V_ID v) (V_Username v) (V_Role v)) reg = Ok raw.

Lemma wpa_SignToken v : wpa (SignToken uuid_New jwtSecret v) (signed v).
Proof.
  apply wpp_bind, wpa_quiet; [done|]. intros now. apply wpp_bind, wpa_quiet; [done|]. intros jti raw.
  cbn. eauto.
Qed.

(** A session of player [p] that was stored. *)
Definition stored (p : uuid) (r : result error uuid) : Prop :=
  ∀ sid, r = Ok sid → ∃ s x, past s ∧ player_sessions s !! sid = Some x ∧ S_PlayerID x = p.

Lemma wpa_create_session t r p :
  Spawn (Http t r) ∈ ls → entitled t r p → wpa (create_session p r) (stored p).
Proof.
  intros Hls Hp. apply wpp_bind, wpa_quiet; [done|]. intros now. apply wpa_statement; [done|].
  intros s HP HI HP'. cbn -[player_exists set_generated] in *.
  destruct (player_exists _ _ && _) eqn:E; cbn -[set_generated] in *; [|split; [by apply (sound_quiet s)|done]].
  split.
  - destruct HI as [H1 H2]. split; [exact H1|]. intros sid x. cbn.
    intros [[<- <-]|[_ Hx]]%lookup_insert_Some; [right; eauto|by apply H2].
  - intros sid [= <-]. eexists _, _. split; [exact HP'|]. cbn. by rewrite lookup_insert_eq.
Qed.

Lemma wpa_RevokeSession sid : wpa (ignore (RevokeSession sid)) (λ _, True).
Proof.
  apply wpp_bind, wpa_statement; [done|]. intros s HP HI _. split; [|done].
  apply (sound_fmap (λ i x, if decide (sid = i) then revoked (clock (T s)) x else x) s); [|done| |done].
  - intros i x. by destruct (decide _).
  - intros i. cbn. destruct (decide (sid = i)) as [->|Hne].
    + by rewrite lookup_alter_eq.
    + rewrite lookup_alter_ne by done. by destruct (player_sessions s !! i).
Qed.

Lemma wpa_RevokeAllSessions p : wpa (ignore (RevokeAllSessions p)) (λ _, True).
Proof.
  apply wpp_bind, wpa_statement; [done|]. intros s HP HI _. split; [|done].
  apply (sound_fmap (λ _ x, if bool_decide (S_PlayerID x = p) && is_none (revoked_at x)
                            then revoked (clock (T s)) x else x) s); [|done| |done].
  - intros i x. by destruct (_ && _).
  - intros i. cbn. by rewrite lookup_fmap.
Qed.

Lemma wpa_GetPlayer p (Φ : result error PlayerView → Prop) :
  (∀ e, Φ (Err e)) →
  (∀ s x, past s → live_player p (T s) = Some x → Φ (Ok (mkPlayerView p (Username x) (Role x) (IsBot x)))) →
  wpa (GetPlayer p) Φ.
Proof.
  intros He Hok. apply wpa_select; [done|]. intros s HP. unfold player_view.
  destruct (live_player p (T s)) as [x|] eqn:E; cbn; [by eapply Hok|done].
Qed.

Lemma wpa_Upsert (u : githubUser) email avatar username :
  wpa (UpsertOAuthIdentity "github" (pretty (GH_ID u)) email avatar username)
    (λ r, ∀ p, r = Ok p → linked u p).
Proof.
  apply wpp_seq with (λ r, ∀ p, r = Ok p → linked u p).
  { apply wpa_select; [done|]. intros s HP p E. destruct (oauth_identities s !! _) as [i|] eqn:Hi; [|done].
    injection E as <-. by exists s, i. }
  intros [e|p] Hr.
  2: { apply wpp_seq with (λ _, True); [by apply wpa_select|]. intros [role|e']; [|done].
       intros _. apply wpa_statement; [done|]. intros s HP HI HP'. unfold insert_identity in *.
       destruct (take_username _ _ _ _) as [[id|] t]; cbn in *; [|split; [by apply (sound_quiet s)|done]].
       destruct (oauth_identities s !! _); cbn in *; (split; [by apply (sound_quiet s)|]); [done|].
       intros q [= <-]. eexists _, _. split; [exact HP'|]. cbn. by rewrite lookup_insert_eq. }
  apply wpp_bind, wpa_statement; [done|]. intros s HP HI _. by split; [apply (sound_quiet s)|].
Qed.

(** *** Cookies *)

Lemma good_login t r v sid token :
  (∃ claims reg, SignedString jwtSecret claims reg = Ok token ∧ entitled t r (PlayerID claims) ∧ vouched claims) →
  stored (V_ID v) sid → entitled t r (V_ID v) →
  Forall (good_cookie t r) (login_cookies Nil secure token sid).
Proof.
  intros Ht Hs Hv. unfold login_cookies. constructor; [by split; [right|]|].
  destruct sid as [sid|]; [|constructor]. destruct (decide _); [|constructor]. constructor; [|constructor].
  split; [done|]. intros _. right. destruct (Hs sid eq_refl) as (s & x & HP & Hx & Ep).
  exists s, sid, x. by rewrite Ep.
Qed.

Lemma good_clear t r : Forall (good_cookie t r) ClearAllCookies.
Proof. repeat constructor; cbn; auto; discriminate. Qed.

Lemma good_none t r c : Name c ≠ CookieName → Name c ≠ RefreshCookieName → good_cookie t r c.
Proof. by split. Qed.

(** *** Handlers *)

Abbreviation claims_of v := (mkClaims (V_ID v) (V_Username v) (V_Role v)).

Lemma wpa_if {A} (b : bool) (p q : prog auth A) Φ :
  (b = true → wpa p Φ) → wpa q Φ → wpa (if b then p else q) Φ.
Proof. destruct b; auto. Qed.
Lemma wpa_answer t r status cs b : Forall (good_cookie t r) cs → wpa (answer status cs b) (good t r).
Proof. done. Qed.
#[local] Hint Extern 0 (Forall _ []) => constructor : core.
#[local] Hint Resolve good_clear : core.

Lemma wpa_log_in t r v :
  Spawn (Http t r) ∈ ls → entitled t r (V_ID v) → vouched (claims_of v) →
  wpa (log_in Nil uuid_New jwtSecret secure r v) (good t r).
Proof.
  intros Hls Hv Hc. apply wpp_seq with (signed v); [apply wpa_SignToken|]. intros [token|e] Ht; [|by apply wpa_answer].
  apply wpp_seq with (stored (V_ID v)); [by eapply wpa_create_session|]. intros sid Hs.
  apply wpa_answer. destruct (Ht token eq_refl) as [reg Hreg]. eapply good_login; eauto 6.
Qed.

Lemma wpa_refresh r : Spawn (Http POST_refresh r) ∈ ls →
  wpa (HandleRefresh uuid_New jwtSecret secure r) (good POST_refresh r).
Proof.
  intros Hls. unfold HandleRefresh. destruct (cookie _ r) as [raw|] eqn:Hraw; [|by apply wpa_answer].
  destruct (uuid_Parse raw) as [sid|] eqn:Hsid; [|by apply wpa_answer].
  eapply wpp_seq with (λ x, ∀ y, x = Ok y → ∃ s x, past s ∧ player_sessions s !! sid = Some x ∧
    active x (clock (T s)) = true ∧ S_PlayerID x = S_PlayerID y).
  { apply wpa_select; [done|]. intros s HP y. destruct (player_sessions s !! sid) as [x|] eqn:Hx; [|done].
    destruct (active x _) eqn:Ha; [|done]. intros [= <-]. eauto 6. }
  intros [y|e] Hy; [|by apply wpa_answer].
  eapply wpp_seq with (λ b, b = Ok false → ∃ s, past s ∧ banned (S_PlayerID y) (T s) = false).
  { apply wpa_select; [done|]. intros s HP [= E]. eauto. }
  intros [[|]|e'] Hb; [| |by apply wpa_answer].
  { eapply wpp_seq; [apply wpa_RevokeSession|]. intros _ _. by apply wpa_answer. }
  assert (Hent : entitled POST_refresh r (S_PlayerID y)) 
    by (exists raw, sid; split; [done|]; split; [done|]; split; [by apply Hy|by apply Hb]).
  apply wpp_bind, wpa_GetPlayer; [intros; by apply wpa_answer|]. intros s x HP Hx.
  eapply wpp_seq; [apply wpa_RevokeSession|]. intros _ _.
  eapply wpp_seq; [by eapply wpa_create_session|]. intros [nsid|e''] Hs; [|by apply wpa_answer].
  eapply wpp_seq; [apply wpa_SignToken|]. intros [token|e''] Ht; [|by apply wpa_answer].
  apply wpa_answer. destruct (Ht token eq_refl) as [reg Hreg]. destruct (Hs nsid eq_refl) as (s' & z & HP' & Hz & Ez).
  constructor; [|constructor; [|done]]; (split; [|try done]; try done); intros _; right.
  - eexists _, reg. split; [exact Hreg|]. split; [done|]. by exists s, x.
  - exists s', nsid, z. by rewrite Ez.
Qed.

Lemma wpa_bot_login r : Spawn (Http POST_bot_login r) ∈ ls →
  wpa (HandleBotLogin Nil uuid_New jwtSecret BotServiceSecret secure r) (good POST_bot_login r).
Proof.
  intros Hls. unfold HandleBotLogin. destruct (bot_secret _ r) eqn:Hsec; [|by apply wpa_answer].
  destruct (json_player_id r) as [raw|] eqn:Hraw; [|by apply wpa_answer].
  destruct (uuid_Parse raw) as [p|] eqn:Hp; [|by apply wpa_answer].
  apply wpp_bind, wpa_GetPlayer; [intros; by apply wpa_answer|]. intros s x HP Hx. cbn [V_IsBot].
  destruct (IsBot x) eqn:Hbot; [|by apply wpa_answer]. apply wpa_log_in; [done| |by exists s, x].
  unfold bot_secret in Hsec. apply andb_true_iff in Hsec as [H1 H2%String.eqb_eq]. cbn.
  split; [by intros E; rewrite E in H1|]. split_and!; eauto 6.
Qed.

Lemma wpa_test_login r : Spawn (Http GET_test_login r) ∈ ls →
  wpa (HandleTestLogin Nil uuid_New jwtSecret secure TestModeEnabled r) (good GET_test_login r).
Proof.
  intros Hls. apply wpa_if; [intros Ht|by apply wpa_answer].
  destruct (uuid_Parse _) as [p|] eqn:Hp; [|by apply wpa_answer].
  apply wpp_bind, wpa_GetPlayer; [intros; by apply wpa_answer|]. intros s x HP Hx.
  apply wpa_log_in; [done..|by exists s, x].
Qed.

Lemma wpa_githubGET {A} (c : world → (Z * option A) * world) :
  wpa (githubGET c) (λ r, ∀ a, r = Ok a → ∃ s, past s ∧ (c (github s)).1 = (StatusOK, Some a)).
Proof.
  apply wpp_bind, wpa_rpc; [done|]. intros s HP a. destruct (c (github s)) as [[st o] w] eqn:E. cbn.
  destruct (Z.eqb_spec st StatusOK) as [->|]; [|done]. destruct o as [x|]; [|done].
  intros [= <-]. exists s. by rewrite E.
Qed.

Lemma wpa_sign_in r cs u e :
  Spawn (Http GET_github_callback r) ∈ ls → identified r u e → Forall (good_cookie GET_github_callback r) cs →
  wpa (sign_in Nil uuid_New jwtSecret secure r cs u e) (good GET_github_callback r).
Proof.
  intros Hls Hid Hcs. unfold sign_in, redirect, http_Error.
  eapply wpp_seq with (λ b, b = Ok true → ∃ s, past s ∧ email_allowed e (T s) = true).
  { apply wpa_select; [done|]. intros s HP [= E]. eauto. }
  intros [[|]|err] Ha; [|by apply wpa_answer..].
  eapply wpp_seq; [apply wpa_Upsert|]. intros [p|err] Hp; [|by apply wpa_answer].
  apply wpp_bind, wpa_GetPlayer; [intros; by apply wpa_answer|]. intros s x HP Hx.
  assert (Hent : entitled GET_github_callback r p) by (exists u, e; eauto).
  eapply wpp_seq; [apply wpa_SignToken|]. intros [token|err] Ht; [|by apply wpa_answer].
  eapply wpp_seq; [by eapply wpa_create_session|]. intros sid Hs.
  apply wpa_answer, Forall_app. split; [done|]. destruct (Ht token eq_refl) as [reg Hreg].
  eapply good_login; [|exact Hs|done]. eexists _, reg. split; [exact Hreg|]. split; [done|]. by exists s, x.
Qed.

Lemma wpa_callback r : Spawn (Http GET_github_callback r) ∈ ls →
  wpa (HandleGitHubCallback Nil uuid_New clientID clientSecret jwtSecret secure r) (good GET_github_callback r).
Proof.
  intros Hls. unfold HandleGitHubCallback, http_Error. destruct (same_state r) eqn:Hst; [|by apply wpa_answer].
  set (cs := [mkCookie "oauth_state" _ _ _ _ _ _]).
  assert (Hcs : Forall (good_cookie GET_github_callback r) cs) by (constructor; [by apply good_none|done]).
  destruct (decide _) as [|Hcode]; [by apply wpa_answer|].
  eapply wpp_seq with (λ x, ∀ tok, x = Ok tok → ∃ s st, past s ∧
    (POST_token clientID clientSecret (Query r "code") (github s)).1 = (st, Some (tok, ""))).
  { apply wpp_bind, wpa_rpc; [done|]. intros s HP tok.
    destruct (POST_token _ _ _ _) as [[st [[tok' err]|]] w] eqn:E; cbn; [|done].
    destruct (decide _) as [|Hne]; [done|]. intros [= <-]. exists s, st. rewrite E. cbn.
    by rewrite (dec_stable Hne). }
  intros [tok|e] Htok; [|by apply wpa_answer].
  eapply wpp_seq; [apply wpa_githubGET|]. intros [u|e] Hu; [|by apply wpa_answer].
  eapply wpp_seq with (λ x, ∀ e, x = Ok e → ∃ s es, past s ∧
    (GET_emails tok (github s)).1 = (StatusOK, Some es) ∧ mkGithubEmail e true true ∈ es).
  { eapply wpp_seq; [apply wpa_githubGET|]. intros [es|e] Hes; [|done]. intros e. unfold primary_email.
    destruct (List.find _ es) as [[g pr ve]|] eqn:Hf; cbn; [|done]. intros [= <-].
    apply List.find_some in Hf as [Hin [Hp Hv]%andb_true_iff]. cbn in Hp, Hv. subst.
    destruct (Hes es eq_refl) as (s & HP & E). exists s, es. split_and!; [done..|]. by apply list_elem_of_In. }
  intros [e|err] He; [|by apply wpa_answer]. apply wpa_sign_in; [done| |done].
  split; [done|]. split; [done|]. exists tok. split_and!; [by apply Htok|by apply Hu|by apply He].
Qed.

Lemma wpa_Require {next} t r :
  (∀ c, wpa (next c) (good t r)) →
  wpa (Require (M := prog auth) (λ msg, ([], B_error msg)) jwtSecret (cookie CookieName r) next) (good t r).
Proof.
  intros Hn. unfold Require, writeError. destruct (cookie CookieName r) as [raw|]; [|by constructor].
  destruct (VerifyToken jwtSecret raw) as [c|e]; [done|]. by destruct (decide _); constructor.
Qed.

Lemma wpa_dispatch t r : Spawn (Http t r) ∈ ls → wpa (dispatch t r) (good t r).
Proof.
  intros Hls. destruct t; cbn [Auth.dispatch].
  - unfold HandleGitHubLogin, redirect, http_Error. apply wpp_bind, wpa_quiet; [done|].
    intros [st|]; apply wpa_answer; [|done]. constructor; [by apply good_none|done].
  - by apply wpa_callback.
  - by apply wpa_refresh.
  - apply wpa_Require. intros c. apply wpp_seq with (λ _, True).
    + destruct (_ ≫= _) as [sid|]; [apply wpa_RevokeSession|done].
    + intros _ _. by apply wpa_answer.
  - apply wpa_Require. intros c. apply wpp_bind, wpa_GetPlayer; intros; by apply wpa_answer.
  - apply wpa_Require. intros c. by apply wpa_answer.
  - by apply wpa_test_login.
  - by apply wpa_bot_login.
Qed.

Lemma wpa_serve c : Spawn c ∈ ls → wpa (serve c) (λ _, True).
Proof.
  destruct c as [t r|payload]; intros Hls; cbn [Auth.serve].
  - eapply wpp_seq; [by apply wpa_dispatch|]. intros resp Hg. apply wpp_local. intros s HP [H1 H2] _.
    split; [|done]. split; [|done]. intros t' r' resp' [Hin|Hin]%elem_of_app; [by apply H1|].
    apply list_elem_of_singleton in Hin as [= -> -> ->]. by right.
  - eapply wpp_seq with (λ _, True); [|done]. unfold handle. destruct payload as [raw|]; [|done].
    destruct (uuid_Parse raw) as [p|]; [|done]. eapply wpp_seq; [apply wpa_RevokeAllSessions|]. intros _ _.
    eapply wpp_seq with (λ _, True); [|done]. apply wpp_cmd; [done|]. intros s HP HI _.
    split; [by apply (sound_quiet s)|done].
Qed.

Lemma run_sound : sound (run ls s0).
Proof.
  apply (run_past serve happen ls (s0, []) sound); [|apply wpa_serve|apply sound_start|constructor].
  intros [f|f] s _ _ HI _; by apply (sound_quiet s).
Qed.
End Entitled.

(** C30: Whatever requests interleave, whatever fails and whatever GitHub and the user
    service do meanwhile: an answer of a run sets a session cookie other than the empty
    one only with a token signed for a player that the request is entitled to act for
    ([entitled]: a GitHub account, identified by a code and the state of the browser,
    with an allowed verified address, linked to the player; an active refresh session of
    a player who is not banned; the secret of the bots and a bot; test mode), with a name
    and a role the player had; such a token verifies, until it expires. It sets a refresh
    cookie only to a stored session of such a player. Every stored session belongs to a
    player who had it before or whom some request was entitled to act for. Since this
    holds of every run, all that is asked of an answer was the case before it was written. *)
Theorem tokens_entitled ls s0 : responses s0 = [] →
  let s := run ls s0 in
  (∀ t r resp c, (t, r, resp) ∈ responses s → c ∈ (Middleware.body resp).1 →
     Spawn (Http t r) ∈ ls ∧
     (Name c = CookieName → c ≠ ClearSessionCookie → ∃ claims,
        (VerifyToken jwtSecret (Value c) = Ok claims ∨ VerifyToken jwtSecret (Value c) = Err ErrTokenExpired) ∧
        entitled s0 ls t r (PlayerID claims) ∧ vouched s0 ls claims) ∧
     (Name c = RefreshCookieName → c ≠ ClearRefreshCookie → ∃ s' sid x,
        past serve happen ls (s0, []) s' ∧ player_sessions s' !! sid = Some x ∧ Value c = uuid_String sid ∧
        entitled s0 ls t r (S_PlayerID x))) ∧
  (∀ sid x, player_sessions s !! sid = Some x →
     (∃ x', player_sessions s0 !! sid = Some x' ∧ S_PlayerID x' = S_PlayerID x) ∨
     ∃ t r, Spawn (Http t r) ∈ ls ∧ entitled s0 ls t r (S_PlayerID x)).
Proof.
  intros H0 s. destruct (run_sound s0 ls) as [H1 H2]. split; [|exact H2].
  intros t r resp c Hin Hc. destruct (H1 _ _ _ Hin) as [Ho|[Hls Hg]]; [by rewrite H0 in Ho; apply elem_of_nil in Ho|].
  unfold good in Hg. rewrite Forall_forall in Hg. destruct (Hg c Hc) as [Hs Hr]. split_and!; [done| |].
  - intros E1 E2. destruct (Hs E1) as [|(claims & reg & Hsig & Hent & Hv)]; [done|]. exists claims.
    split; [|done]. unfold VerifyToken.
    destruct (Signed_verifies _ _ _ _ Hsig) as [->| ->]; auto.
  - intros E1 E2. by destruct (Hr E1) as [|?].
Qed.

(** C31: Once the consumer has revoked the sessions of a player, no request that starts
    later obtains a token from one of them, whatever runs: the refresh cookie of a
    session the player had is answered without a session cookie, other than the empty
    one, and without a refresh cookie. *)
Theorem revoked_for_good ls s0 p sid x t r resp c raw :
  responses s0 = [] →
  player_sessions s0 !! sid = Some x → S_PlayerID x = p →
  (t, r, resp) ∈ responses (run ls (alone (RevokeAllSessions p) s0).2) →
  t = POST_refresh → cookie RefreshCookieName r = Some raw → uuid_Parse raw = Some sid →
  c ∈ (Middleware.body resp).1 → c ∈ ClearAllCookies ∨ (Name c ≠ CookieName ∧ Name c ≠ RefreshCookieName).
Proof.
  set (s1 := (alone (RevokeAllSessions p) s0).2).
  intros H0 Hx Hp Hin -> Hraw Hsid Hc.
  assert (Hrev : ∃ x1, player_sessions s1 !! sid = Some x1 ∧ is_Some (revoked_at x1)).
  { cbn. rewrite lookup_fmap, Hx. eexists. split; [done|]. rewrite bool_decide_eq_true_2 by done.
    destruct (revoked_at x) eqn:E; cbn; [by rewrite E|eauto]. }
  assert (Hno : ∀ q, ¬ entitled s1 ls POST_refresh r q).
  { intros q (raw' & sid' & E1 & E2 & (s' & y & [n ->] & Hy & Ha & _) & _). simplify_eq.
    destruct Hrev as (x1 & Hx1 & Hr). destruct (run_keeps (take n ls) s1 sid x1 Hx1) as (x' & Hx' & _ & _ & Hr').
    change (player_sessions (run (take n ls) s1) !! sid = Some y) in Hy. simplify_eq.
    destruct (Hr' Hr) as [? E]. unfold active in Ha. by rewrite E in Ha. }
  destruct (run_sound s1 ls) as [H1 _]. destruct (H1 _ _ _ Hin) as [Ho|[_ Hg]].
  { change (responses s1) with (responses s0) in Ho. rewrite H0 in Ho. by apply elem_of_nil in Ho. }
  unfold good in Hg. rewrite Forall_forall in Hg. destruct (Hg c Hc) as [Hs Hr].
  destruct (decide (Name c = CookieName)) as [E1|E1].
  { destruct (Hs E1) as [->|(? & ? & _ & He & _)]; [left; by left|by apply Hno in He]. }
  destruct (decide (Name c = RefreshCookieName)) as [E2|E2]; [|by right].
  destruct (Hr E2) as [->|(? & ? & ? & _ & _ & _ & He)]; [left; by right; left|by apply Hno in He].
Qed.
End Spec.
