(* ===== verification/AuthDemo.v ===== *)
(** The authentication service on a small database: witnesses, and the runs that show
    what its comments and documents promise and its code does not do. *)
From stdpp Require Import strings pretty.
From S2P Require Import Prelude Backend Store Demo.
From S2P Require Import Programs Ownership Middleware Users UsersSpec Streams Gateway Auth.
From S2P Require Import AuthSpec.
Import Demo Programs History Middleware Users Auth.

(** A token spells its claims, and is not signed when it cannot be read back. *)
Definition spelled (c : Claims) : string := PlayerID c +:+ "," +:+ ClaimUsername c +:+ "," +:+ ClaimRole c.
Definition spell (raw : string) : option Claims :=
  match Gateway.Split raw "" with [p; u; r] => Some (mkClaims p u r) | _ => None end.
Definition spelled_JWT : JWT :=
  Build_JWT (λ _ raw, match spell raw with Some c => Ok (true, c) | None => Err false end).
#[local] Existing Instance spelled_JWT.

#[local] Instance Claims_eq_dec : EqDecision Claims.
Proof. intros [] []. unfold Decision. decide equality; apply (decide_rel (=)). Defined.

Definition spelled_Signer : Signer.
Proof.
  refine (Build_Signer _ _ (λ _ c _,
    if decide (spell (spelled c) = Some c) then Ok (spelled c) else Err (Plain "sign")) _).
  intros secret c reg raw. destruct (decide _) as [E|]; [|done]. intros [= <-]. left. cbn. by rewrite E.
Defined.
#[local] Existing Instance spelled_Signer.

(** GitHub knows users by code, and gives out the code as the token. *)
Definition code_GitHub : GitHub.
Proof.
  refine (Build_GitHub (list (string * (githubUser * list githubEmail)))
    (λ _ _ code w, ((200, Some (code, "")), w))%Z
    (λ tok w, (match List.find (λ x, String.eqb x.1 tok) w with
               | Some (_, (u, _)) => (200, Some u) | None => (401, None) end, w))%Z
    (λ tok w, (match List.find (λ x, String.eqb x.1 tok) w with
               | Some (_, (_, es)) => (200, Some es) | None => (401, None) end, w))%Z).
Defined.
#[local] Existing Instance code_GitHub.

Definition at_github : world :=
  [("c-ann", (mkGithubUser 1 "Ann" "https://avatars.githubusercontent.com/1", [mkGithubEmail "ann@x.org" true true]));
   ("c-mal", (mkGithubUser 2 "ann" "", [mkGithubEmail "other@x.org" false true; mkGithubEmail "mal@x.org" true true]));
   ("c-eve", (mkGithubUser 3 "eve" "", [mkGithubEmail "eve@x.org" true true]));
   ("c-long", (mkGithubUser 4 "a-login-of-thirty-nine-characters-is-ok" "", [mkGithubEmail "mal@x.org" true true]))].

Definition invitation (email : string) : AllowedEmail := mkAllowedEmail email RolePlayer None None None 0.
Definition database : tables :=
  set_emails (<["ann@x.org" := invitation "ann@x.org"]> {["mal@x.org" := invitation "mal@x.org"]})
    (set_players (<["robot" := mkPlayer "robot" "robot" RolePlayer None true None 0 None]> (players four_players))
       four_players).

(** Ann has logged in before; her session is the cookie "s-ann". *)
Definition anns_session : Session := mkSession "ann" (mkDevice "" "" "") 0 1000 None 0.
Definition service : auth :=
  mkAuth database {[("github", "1") := mkIdentity "ann" "ann@x.org" None]} {["s-ann" := anns_session]}
    at_github [] 0 [].

Abbreviation operate ls := (AuthSpec.run "nil" id_of (λ n, Some (id_of n)) "client" "secret" "key" "botkey" true false None ls service).
Abbreviation schedule := (list (label call happening)).

Definition no_header (_ : string) : string := "".
Definition callback (code : string) : request :=
  mkRequest [("oauth_state", "st")] no_header
    (λ k, if String.eqb k "state" then "st" else if String.eqb k "code" then code else "") "10.0.0.1:80" None.
Definition with_refresh (sid : string) : request :=
  mkRequest [(RefreshCookieName, sid)] no_header no_header "10.0.0.1:80" None.
Definition ask (t : route) (r : request) : label call happening := Spawn (Http t r).
Definition steps (i n : nat) : schedule := replicate n (Run i).

(** The tokens and the refresh cookies that the answers set. *)
Definition cookies_set (s : auth) : list (string * string) :=
  (λ c, (Name c, Value c)) <$> concat ((λ x : route * request * response body, (Middleware.body x.2).1) <$> responses s).

(** *** The helpers, on the inputs of their tests *)

Example maskEmail_tests :
  maskEmail <$> ["alice@example.com"; "ab@example.com"; "@example.com"; "noemail"; ""; "alice+tag@example.com"] =
  ["al***@example.com"; "***@example.com"; "***"; "***"; "***"; "al***@example.com"].
Proof. vm_compute. reflexivity. Qed.
Example clientIP_tests :
  [clientIP "1.2.3.4" ""; clientIP "  1.2.3.4  , 5.6.7.8" ""; clientIP "" "192.168.1.1:12345"; clientIP "" "192.168.1.1"] =
  ["1.2.3.4"; "1.2.3.4"; "192.168.1.1"; "192.168.1.1"].
Proof. vm_compute. reflexivity. Qed.
Example sanitizeUsername_tests :
  sanitizeUsername <$> ["hello-world"; "CamelCase"; "special!@#$%"; "dots.and.more"; "---"] =
  ["hello_world"; "camelcase"; "special"; "dotsandmore"; "___"].
Proof. vm_compute. reflexivity. Qed.

(** *** Witnesses *)

(** Ann logs in through GitHub, and refreshes twice with the session she had. *)
Definition anns_day : schedule :=
  ask GET_github_callback (callback "c-ann") :: steps 0 20 ++
  ask POST_refresh (with_refresh "s-ann") :: steps 1 20 ++
  ask POST_refresh (with_refresh "s-ann") :: steps 2 20.

Lemma anns_answers : cookies_set (operate anns_day) =
  [("oauth_state", ""); (CookieName, "ann,ann,player"); (RefreshCookieName, "id-0");
   (CookieName, "ann,ann,player"); (RefreshCookieName, "id-1"); (CookieName, ""); (RefreshCookieName, "")].
Proof. vm_compute. reflexivity. Qed.

Abbreviation s_past ls s := (History.past
  (serve "nil" id_of (λ n, Some (id_of n)) "client" "secret" "key" "botkey" true false None) happen ls (service, []) s).
Abbreviation may ls := (entitled "nil" id_of (λ n, Some (id_of n)) "client" "secret" "key" "botkey" true false None service ls).
Abbreviation true_of ls := (vouched "nil" id_of (λ n, Some (id_of n)) "client" "secret" "key" "botkey" true false None service ls).

Lemma first_answer : ∃ resp, (GET_github_callback, callback "c-ann", resp) ∈ responses (operate anns_day) ∧
  SessionCookie "ann,ann,player" true ∈ (Middleware.body resp).1.
Proof.
  assert (E : (responses (operate anns_day)) !! 0 =
    Some (GET_github_callback, callback "c-ann", mkResponse StatusTemporaryRedirect
      ([mkCookie "oauth_state" "" "/auth" false false "" (-1); SessionCookie "ann,ann,player" true;
        RefreshCookie "id-0" true], B_redirect "/"))) by (vm_compute; reflexivity).
  eexists. split; [by eapply list_elem_of_lookup_2|]. right. left.
Qed.

Lemma tokens_entitled_witness : responses service = [] ∧ ∃ claims,
  (VerifyToken "key" "ann,ann,player" = Ok claims ∨ VerifyToken "key" "ann,ann,player" = Err ErrTokenExpired) ∧
  may anns_day GET_github_callback (callback "c-ann") (PlayerID claims) ∧ true_of anns_day claims.
Proof.
  split; [reflexivity|]. destruct first_answer as (resp & Hin & Hc).
  destruct (tokens_entitled (U := UUID_string) "nil" id_of (λ n, Some (id_of n)) "client" "secret" "key" "botkey" true false None
    anns_day service eq_refl) as [Ht _].
  destruct (Ht _ _ _ _ Hin Hc) as (_ & Hs & _). apply Hs; [reflexivity|discriminate].
Defined.

(** After a ban Ann's browser asks for a new token. *)
Definition after_ban : auth := (alone (RevokeAllSessions "ann") service).2.
Definition anns_try : schedule := ask POST_refresh (with_refresh "s-ann") :: steps 0 20.
Abbreviation from_ban ls := (AuthSpec.run "nil" id_of (λ n, Some (id_of n)) "client" "secret" "key" "botkey" true false None ls after_ban).

Lemma anns_try_answered : ∃ resp, (POST_refresh, with_refresh "s-ann", resp) ∈ responses (from_ban anns_try) ∧
  ClearSessionCookie ∈ (Middleware.body resp).1.
Proof.
  assert (E : responses (from_ban anns_try) !! 0 = Some (POST_refresh, with_refresh "s-ann",
    mkResponse StatusUnauthorized (ClearAllCookies, B_error "session expired or revoked"))) by (vm_compute; reflexivity).
  eexists. split; [by eapply list_elem_of_lookup_2|]. left.
Qed.

Lemma revoked_for_good_witness : responses service = [] ∧ player_sessions service !! "s-ann" = Some anns_session ∧
  ∃ resp, (POST_refresh, with_refresh "s-ann", resp) ∈ responses (from_ban anns_try) ∧
  (ClearSessionCookie ∈ ClearAllCookies ∨ (Name ClearSessionCookie ≠ CookieName ∧ Name ClearSessionCookie ≠ RefreshCookieName)).
Proof.
  split; [reflexivity|]. split; [reflexivity|]. destruct anns_try_answered as (resp & Hin & Hc).
  exists resp. split; [exact Hin|].
  apply (revoked_for_good (U := UUID_string) "nil" id_of (λ n, Some (id_of n)) "client" "secret" "key" "botkey" true false None anns_try service
    "ann" "s-ann" anns_session POST_refresh (with_refresh "s-ann") resp ClearSessionCookie "s-ann");
    [reflexivity|reflexivity|reflexivity|exact Hin|reflexivity|reflexivity|reflexivity|exact Hc].
Defined.

(** *** What its comments promise and the code does not do *)

(** Mallory, who is invited and has renamed his GitHub account to "ann", gets a token
    and a session for Ann's account. *)
Lemma account_takeover : cookies_set (operate (ask GET_github_callback (callback "c-mal") :: steps 0 20)) =
  [("oauth_state", ""); (CookieName, "ann,ann,player"); (RefreshCookieName, "id-0")].
Proof. vm_compute. reflexivity. Qed.

(** Which cookies a browser sends: those whose path is the path of the request or a
    directory above it (RFC 6265, 5.1.4). *)
Definition path_matches (path request_path : string) : bool :=
  String.eqb path request_path
  || (String.prefix path request_path
      && (String.eqb (String.substring (String.length path - 1) 1 path) "/"
          || String.eqb (String.substring (String.length path) 1 request_path) "/")).
Definition sends (jar : list Cookie) (request_path : string) : list (string * string) :=
  (λ c, (Name c, Value c)) <$> filter (λ c, path_matches (Path c) request_path = true) jar.

Definition anns_jar : list Cookie := [SessionCookie "ann,ann,player" true; RefreshCookie "s-ann" true].
Definition logout : request := mkRequest (sends anns_jar "/auth/logout") no_header no_header "10.0.0.1:80" None.

(** The refresh cookie is only for "/auth/refresh", so the logout does not see it: the
    session goes on. *)
Lemma logout_keeps_session :
  sends anns_jar "/auth/refresh" = [(CookieName, "ann,ann,player"); (RefreshCookieName, "s-ann")] ∧
  cookies_set (operate (ask POST_logout logout :: steps 0 20)) = [(CookieName, ""); (RefreshCookieName, "")] ∧
  player_sessions (operate (ask POST_logout logout :: steps 0 20)) !! "s-ann" = Some anns_session.
Proof. vm_compute. done. Qed.

(** A banned player logs in again and has a token for the next quarter of an hour. *)
Definition banish (t : tables) : tables :=
  set_bans {["b" := mkBan "b" "ann" "boss" None None None None 0]} t.
Lemma banned_logs_in :
  let ls := Programs.Event (Elsewhere banish) :: ask GET_github_callback (callback "c-ann") :: steps 0 20 in
  banned "ann" (T (operate ls)) = true ∧
  cookies_set (operate ls) = [("oauth_state", ""); (CookieName, "ann,ann,player"); (RefreshCookieName, "id-0")].
Proof. vm_compute. done. Qed.

(** Two refreshes with one session at a time both get a session of their own. *)
Lemma session_forks :
  let ls := ask POST_refresh (with_refresh "s-ann") :: ask POST_refresh (with_refresh "s-ann") ::
            steps 0 2 ++ steps 1 20 ++ steps 0 20 in
  cookies_set (operate ls) = [(CookieName, "ann,ann,player"); (RefreshCookieName, "id-0");
                              (CookieName, "ann,ann,player"); (RefreshCookieName, "id-1")] ∧
  size (player_sessions (operate ls)) = 3.
Proof. vm_compute. done. Qed.

(** The first command fails. *)
Definition broken {S A} (p : prog S A) : prog S A := match p with Do _ _ _ k => k None | Ret a => Ret a end.

(** A ban whose sessions could not be revoked is acknowledged, and not tried again. *)
Lemma ban_lost :
  let '(out, s) := alone (broken (handle (Some "ann"))) service in
  out = Streams.Done ∧ player_sessions s !! "s-ann" = Some anns_session ∧ revocations s = ["ann"].
Proof. done. Qed.

(** A login of more than 32 characters, which GitHub allows, does not fit the column. *)
Lemma long_login : (λ x : route * request * response body, Middleware.body x.2) <$>
    responses (operate (ask GET_github_callback (callback "c-long") :: steps 0 20)) =
  [([mkCookie "oauth_state" "" "/auth" false false "" (-1)], B_text "internal error")].
Proof. vm_compute. reflexivity. Qed.
