(* ===== verification/RateLimit.v ===== *)
(** The rate limiter of the game server (internal/platform/ratelimit): a sliding window in
    a sorted set of Redis per address, which one script prunes, counts and extends. Then
    what it bounds: how many requests pass, and when one is refused. *)
From Stdlib Require Import Ascii.
From stdpp Require Import strings pretty.
From S2P Require Import Prelude Auth.

(** The numbers of the script are doubles: a Unix time in nanoseconds, which needs 61 bits,
    is rounded to a multiple of 256. *)
Class Lua := {
  tonumber : Z → Z;
  epsilon : Z;
  tonumber_close n : (0 ≤ n < 2 ^ 62)%Z → (n - epsilon ≤ tonumber n ≤ n + epsilon)%Z
}.

Module RateLimit.
Section RateLimit.
Context `{Lua}.

(** ** The script (script_runner.go) *)

Record ScriptArgs := mkScriptArgs {
  Key : string; NowNs : Z; WinNs : Z; Limit : Z; TTLms : Z; Member : string
}.

(** A sorted set, and the millisecond after which it is gone. *)
Record zset := mkZset { scores : gmap string Z; expires : Z }.
Abbreviation redis := (gmap string zset).

Definition Millisecond : Z := 1000000.
Definition Minute : Z := 60000 * Millisecond.

Definition live (t : Z) (key : string) (s : redis) : gmap string Z :=
  match s !! key with
  | Some z => if (expires z <? t / Millisecond)%Z then ∅ else scores z
  | None => ∅
  end.
Definition ZREMRANGEBYSCORE (win : Z) (m : gmap string Z) : gmap string Z := filter (λ kv, (win < kv.2)%Z) m.

(** The script runs at the time [t] of Redis. A set that nothing is left of is deleted. *)
Definition Run (t : Z) (a : ScriptArgs) (s : redis) : list Z * redis :=
  let m := ZREMRANGEBYSCORE (tonumber (WinNs a)) (live t (Key a) s) in
  let count := Z.of_nat (size m) in
  if (count <? Limit a)%Z then
    ([1; Limit a - count - 1]%Z,
     <[Key a := mkZset (<[Member a := tonumber (NowNs a)]> m) (t / Millisecond + TTLms a)]> s)
  else ([0; 0]%Z,
        if decide (m = ∅) then delete (Key a) s
        else <[Key a := mkZset m (from_option expires 0 (s !! Key a))%Z]> s).

(** ** The limiter (middleware.go) *)

Record Limiter := mkLimiter { limit : Z; window : Z; keyspace : string }.
Definition New (limit window : Z) : Limiter := mkLimiter limit window "rl".
Definition WithKeyspace (keyspace : string) (limit window : Z) : Limiter := mkLimiter limit window keyspace.

(** [net.SplitHostPort]: the host, [None] for an error. *)
Definition has (c : ascii) (s : string) : bool := if Auth.Index s c is Some _ then true else false.
Definition SplitHostPort (hostport : string) : option string :=
  i ← Auth.LastIndex hostport ":";
  match hostport with
  | String "[" _ =>
      close ← Auth.Index hostport "]";
      if decide (S close = i) then
        if has "[" (Auth.after 1 hostport) || has "]" (Auth.after (S close) hostport) then None
        else Some (String.substring 1 (close - 1) hostport)
      else None
  | _ =>
      if has ":" (Auth.before i hostport) || has "[" hostport || has "]" hostport then None
      else Some (Auth.before i hostport)
  end.
Definition address (RemoteAddr : string) : string := default RemoteAddr (SplitHostPort RemoteAddr).

(** What becomes of a script: it does not reach Redis, or its reply does not come back. *)
Inductive fate : Type := Unreached | Lost | Replied.

(** A request: when the middleware reads its clock, and when its script runs. *)
Record hit := mkHit { RemoteAddr : string; now : Z; run_at : Z; script : fate }.

Definition args (l : Limiter) (ip : string) (now : Z) : ScriptArgs :=
  mkScriptArgs (keyspace l +:+ ":" +:+ ip) now (now - window l) (limit l) (window l / Millisecond) (pretty now).

(** [None] is an error, else whether the request is allowed, what remains, and the second
    in which the window is over. *)
Definition allow (l : Limiter) (h : hit) (ip : string) (s : redis) : option (bool * Z * Z) * redis :=
  let '(res, s') := Run (run_at h) (args l ip (now h)) s in
  match script h with
  | Unreached => (None, s)
  | Lost => (None, s')
  | Replied =>
      let resetAt := ((now h + window l) / (1000 * Millisecond))%Z in
      (Some (match res with
             | 1%Z :: rest => (true, default 0%Z (head rest), resetAt)
             | _ => (false, 0%Z, resetAt)
             end), s')
  end.

(** The handler behind the middleware is called, with the headers that are set, or not. *)
Inductive verdict : Type :=
  | Next (headers : option (Z * Z * Z))
  | TooManyRequests (reset_at : Z).

Definition Middleware (l : Limiter) (h : hit) (s : redis) : verdict * redis :=
  let '(r, s') := allow l h (address (RemoteAddr h)) s in
  (match r with
   | None => Next None
   | Some (true, remaining, reset) => Next (Some (limit l, remaining, reset))
   | Some (false, _, reset) => TooManyRequests reset
   end, s').

(** Requests in the order in which their scripts run. *)
Fixpoint serve (l : Limiter) (hs : list hit) (s : redis) : list (hit * verdict) * redis :=
  match hs with
  | [] => ([], s)
  | h :: hs =>
      let '(v, s1) := Middleware l h s in
      let '(vs, s2) := serve l hs s1 in
      ((h, v) :: vs, s2)
  end.
End RateLimit.

(** ** What is bounded *)

#[local] Arguments Middleware : simpl never.
#[local] Arguments Run : simpl never.

Section Bound.
Context `{Lua} (l : Limiter) (ip : string) (delta : Z).

Definition mine (h : hit) : Prop := address (RemoteAddr h) = ip.
Definition passes (v : verdict) : Prop := match v with Next (Some _) => True | _ => False end.
#[global] Instance passes_dec v : Decision (passes v).
Proof. destruct v as [[]|]; apply _. Defined.
#[global] Instance mine_dec h : Decision (mine h).
Proof. apply _. Defined.

(** A script runs at most [delta] after the clock has been read. *)
Definition timely (h : hit) : Prop :=
  (window l ≤ now h ∧ now h ≤ run_at h ≤ now h + delta ∧ now h < 2 ^ 62)%Z.
Definition in_order (hs : list hit) : Prop :=
  StronglySorted (λ h h', (run_at h ≤ run_at h')%Z) hs ∧ Forall timely hs.

(** The times of requests, and of those that pass, after [t]. *)
Definition since (t : Z) (vs : list (hit * verdict)) : gset Z :=
  list_to_set ((λ v : hit * verdict, now v.1) <$> filter (λ v : hit * verdict, mine v.1 ∧ (t < now v.1)%Z) vs).
Definition passed (t t' : Z) (vs : list (hit * verdict)) : gset Z :=
  list_to_set ((λ v : hit * verdict, now v.1) <$>
    filter (λ v : hit * verdict, mine v.1 ∧ passes v.2 ∧ (t < now v.1 ≤ t')%Z) vs).

Lemma elem_of_since t vs n : n ∈ since t vs ↔ ∃ v, v ∈ vs ∧ mine v.1 ∧ (t < now v.1)%Z ∧ n = now v.1.
Proof.
  unfold since. rewrite elem_of_list_to_set, list_elem_of_fmap. split.
  - intros (v & -> & [[Hm Ht] Hv]%list_elem_of_filter). by exists v.
  - intros (v & Hv & Hm & Ht & ->). exists v. by rewrite list_elem_of_filter.
Qed.
Lemma elem_of_passed t t' vs n :
  n ∈ passed t t' vs ↔ ∃ v, v ∈ vs ∧ mine v.1 ∧ passes v.2 ∧ (t < now v.1 ≤ t')%Z ∧ n = now v.1.
Proof.
  unfold passed. rewrite elem_of_list_to_set, list_elem_of_fmap. split.
  - intros (v & -> & [(Hm & Hp & Ht) Hv]%list_elem_of_filter). by exists v.
  - intros (v & Hv & Hm & Hp & Ht & ->). exists v. by rewrite list_elem_of_filter.
Qed.

Lemma serve_snoc hs h s :
  serve l (hs ++ [h]) s =
  ((serve l hs s).1 ++ [(h, (Middleware l h (serve l hs s).2).1)], (Middleware l h (serve l hs s).2).2).
Proof.
  revert s. induction hs as [|h1 hs IH]; intros s; cbn [serve app fst snd].
  - by destruct (Middleware l h s).
  - destruct (Middleware l h1 s) as [v s1]. rewrite IH. by destruct (serve l hs s1).
Qed.

Lemma serve_hits hs s : (serve l hs s).1.*1 = hs.
Proof.
  revert s. induction hs as [|h hs IH]; intros s; cbn [serve]; [done|].
  destruct (Middleware l h s) as [v s1]. specialize (IH s1). destruct (serve l hs s1). cbn in *. by f_equal.
Qed.

(** The set of the address holds times of its requests, and those that have passed and
    are still in the window. *)
Definition key : string := keyspace l +:+ ":" +:+ ip.
Record Inv (vs : list (hit * verdict)) (t : Z) (s : gmap string zset) : Prop := {
  I_sound : ∀ z m x, s !! key = Some z → scores z !! m = Some x →
    ∃ v, v ∈ vs ∧ mine v.1 ∧ m = pretty (now v.1) ∧ x = tonumber (now v.1);
  I_kept : ∀ v, v ∈ vs → mine v.1 → passes v.2 → (t - window l + 2 * epsilon < now v.1)%Z →
    ∃ z, s !! key = Some z ∧ scores z !! pretty (now v.1) = Some (tonumber (now v.1)) ∧
      (run_at v.1 / Millisecond + window l / Millisecond ≤ expires z)%Z
}.

(** What the script of a request finds. *)
Definition found (h : hit) (s : gmap string zset) : gmap string Z :=
  ZREMRANGEBYSCORE (tonumber (now h - window l)) (live (run_at h) key s).

(** A map whose keys name the elements of a set. *)
Lemma size_named_le {A} (m : gmap string A) (X : gset Z) : (∀ n, n ∈ X → is_Some (m !! pretty n)) → size X ≤ size m.
Proof.
  intros HX. rewrite <-(size_dom (D := gset string)). unfold size, set_size; cbn.
  rewrite <-(length_fmap (pretty : Z → string) (elements X)). apply submseteq_length, NoDup_submseteq.
  - apply NoDup_fmap; [apply _|apply NoDup_elements].
  - intros k (n & -> & Hn)%list_elem_of_fmap. by apply elem_of_elements, elem_of_dom, HX, elem_of_elements.
Qed.
Lemma size_names_le {A} (m : gmap string A) (X : gset Z) :
  (∀ k, is_Some (m !! k) → ∃ n, n ∈ X ∧ k = pretty n) → size m ≤ size X.
Proof.
  intros HX. rewrite <-(size_dom (D := gset string)). unfold size, set_size; cbn.
  rewrite <-(length_fmap (pretty : Z → string) (elements X)). apply submseteq_length, NoDup_submseteq.
  - apply NoDup_elements.
  - intros k Hk%elem_of_elements%elem_of_dom. destruct (HX k Hk) as (n & Hn & ->).
    apply list_elem_of_fmap. exists n. split; [done|]. by apply elem_of_elements.
Qed.

Lemma epsilon_pos : (0 ≤ epsilon)%Z.
Proof. pose proof (tonumber_close 0 ltac:(lia)). lia. Qed.

Lemma found_sound h s m x : found h s !! m = Some x →
  ∃ z, s !! key = Some z ∧ scores z !! m = Some x ∧ (tonumber (now h - window l) < x)%Z.
Proof.
  unfold found, ZREMRANGEBYSCORE, live. intros [Hx Hlt]%map_lookup_filter_Some.
  destruct (s !! key) as [z|]; [|by rewrite lookup_empty in Hx].
  destruct (_ <? _)%Z; [by rewrite lookup_empty in Hx|]. by exists z.
Qed.

Hypothesis millis : (Millisecond | window l)%Z.
Hypothesis positive : (0 < limit l ∧ 0 ≤ window l)%Z.

Lemma found_kept vs t s h v :
  Inv vs t s → (t ≤ run_at h)%Z → timely h → timely v.1 → v ∈ vs → mine v.1 → passes v.2 →
  (run_at h - window l + 2 * epsilon < now v.1)%Z →
  found h s !! pretty (now v.1) = Some (tonumber (now v.1)).
Proof.
  intros HI Ht (H1 & H2 & H3) (T1 & T2 & T3) Hv Hm Hp Hw.
  destruct (I_kept _ _ _ HI v Hv Hm Hp ltac:(lia)) as (z & Hz & Hs & He).
  unfold found, ZREMRANGEBYSCORE, live. rewrite Hz, map_lookup_filter_Some. split.
  - pose proof epsilon_pos. destruct millis as [k Hk].
    assert (Hms : (run_at h / Millisecond ≤ run_at v.1 / Millisecond + window l / Millisecond)%Z).
    { rewrite Hk, Z.div_mul by done. rewrite <-Z.div_add by done. apply Z.div_le_mono; [done|]. lia. }
    by rewrite (proj2 (Z.ltb_ge _ _)) by lia.
  - cbn. pose proof (tonumber_close (now v.1) ltac:(lia)). pose proof (tonumber_close (now h - window l) ltac:(lia)).
    lia.
Qed.

Lemma key_inj ip' : keyspace l +:+ ":" +:+ ip' = key → ip' = ip.
Proof. unfold key. intros Heq%(inj (String.append _)). by injection Heq. Qed.

(** The three things a request can do to the set of the address. *)
Inductive effect (h : hit) (s s' : gmap string zset) : verdict → Prop :=
  | E_none v : s' !! key = s !! key → (mine h → ¬ passes v) → (∀ n, v = TooManyRequests n → ¬ mine h) →
      effect h s s' v
  | E_added v : mine h → (Z.of_nat (size (found h s)) < limit l)%Z → (∀ n, v ≠ TooManyRequests n) →
      s' !! key = Some (mkZset (<[pretty (now h) := tonumber (now h)]> (found h s))
                          (run_at h / Millisecond + window l / Millisecond)) →
      effect h s s' v
  | E_full v z : mine h → (limit l ≤ Z.of_nat (size (found h s)))%Z → ¬ passes v →
      s !! key = Some z → s' !! key = Some (mkZset (found h s) (expires z)) →
      effect h s s' v.

Lemma unreached h s : effect h s s (Next None).
Proof. apply E_none; [done|by intros _ []|done]. Qed.

Lemma Middleware_effect h s : effect h s (Middleware l h s).2 (Middleware l h s).1.
Proof.
  unfold Middleware, allow. set (a := args l (address (RemoteAddr h)) (now h)).
  assert (Hother : ¬ mine h → (Run (run_at h) a s).2 !! key = s !! key).
  { intros Hn. assert (Hk : Key a ≠ key) by (intros Hk; by apply Hn, key_inj).
    unfold Run. destruct (_ <? _)%Z; cbn; [by rewrite lookup_insert_ne|].
    destruct (decide _); [by rewrite lookup_delete_ne|by rewrite lookup_insert_ne]. }
  destruct (decide (mine h)) as [Hm|Hn].
  2: { assert (Hall : ∀ v, effect h s (Run (run_at h) a s).2 v) by (intros v; apply E_none; [by apply Hother|done|done]).
       destruct (Run (run_at h) a s) as [res s'] eqn:Er. cbn in *.
       destruct (script h); cbn; [apply unreached|apply Hall..]. }
  assert (Ha : a = args l ip (now h)) by (unfold a; by rewrite Hm). rewrite Ha. clear Ha Hother a.
  unfold Run. change (live (run_at h) (Key (args l ip (now h))) s) with (live (run_at h) key s).
  change (ZREMRANGEBYSCORE _ _) with (found h s). cbn [Limit args WinNs Key Member TTLms NowNs].
  change (keyspace l +:+ ":" +:+ ip) with key.
  destruct (Z.ltb_spec (Z.of_nat (size (found h s))) (limit l)) as [Hlt|Hge].
  - destruct (script h); cbn; [apply unreached|..]; (apply E_added; [done|done|done|apply lookup_insert_eq]).
  - assert (Hne : found h s ≠ ∅).
    { intros He. rewrite He, map_size_empty in Hge. lia. }
    rewrite decide_False by done. assert (∃ z, s !! key = Some z) as [z Hz].
    { apply map_choose in Hne as (m & x & (z & Hz & _)%found_sound). by exists z. }
    rewrite Hz. cbn [from_option].
    destruct (script h); cbn; [apply unreached|..]; (eapply E_full; [done|done|intros []|exact Hz|apply lookup_insert_eq]).
Qed.

Lemma Inv_start t : Inv [] t ∅.
Proof.
  split; [|intros v Hv; by apply elem_of_nil in Hv]. intros z m x Hz. by rewrite lookup_empty in Hz.
Qed.

Lemma Inv_step vs t s h :
  Inv vs t s → (t ≤ run_at h)%Z → timely h → (∀ v, v ∈ vs → timely v.1 ∧ (run_at v.1 ≤ t)%Z) →
  Inv (vs ++ [(h, (Middleware l h s).1)]) (run_at h) (Middleware l h s).2.
Proof.
  intros HI Ht Hh Hvs. pose proof (Middleware_effect h s) as He.
  destruct (Middleware l h s) as [w s']. cbn [fst snd] in *. pose proof epsilon_pos.
  assert (Hold : ∀ m x, found h s !! m = Some x →
    ∃ v, v ∈ vs ++ [(h, w)] ∧ mine v.1 ∧ m = pretty (now v.1) ∧ x = tonumber (now v.1)).
  { intros m x (z & Hz & Hx & _)%found_sound. destruct (I_sound _ _ _ HI z m x Hz Hx) as (v & Hv & Hrest).
    exists v. split; [|done]. apply elem_of_app. by left. }
  destruct He as [w Hsame Hno _|w Hm Hlt _ Hs|w z Hm Hge Hno Hz Hs]; split.
  - intros z m x Hz Hx. rewrite Hsame in Hz. destruct (I_sound _ _ _ HI z m x Hz Hx) as (v & Hv & Hrest).
    exists v. split; [|done]. apply elem_of_app. by left.
  - intros v [Hv|Hv]%elem_of_app Hm Hp Hw; [rewrite Hsame; apply (I_kept _ _ _ HI v Hv Hm Hp); lia|].
    apply list_elem_of_singleton in Hv as ->. by apply Hno in Hp.
  - intros z m x Hz Hx. rewrite Hs in Hz. injection Hz as <-. cbn in Hx.
    apply lookup_insert_Some in Hx as [[<- <-]|[_ Hx]]; [|by apply Hold].
    exists (h, w). split; [|done]. apply elem_of_app. right. by left.
  - intros v [Hv|Hv]%elem_of_app Hv' Hp Hw; eexists; (split; [exact Hs|]); cbn.
    + pose proof (found_kept _ _ _ h v HI Ht Hh (proj1 (Hvs v Hv)) Hv Hv' Hp Hw) as Hf. split.
      * destruct (decide (pretty (now h) = pretty (now v.1) :> string)) as [Eq|Ne].
        -- apply (inj pretty) in Eq. rewrite Eq. apply lookup_insert_eq.
        -- by rewrite lookup_insert_ne.
      * apply Z.add_le_mono_r, Z.div_le_mono; [done|]. destruct (Hvs v Hv). lia.
    + apply list_elem_of_singleton in Hv as ->. cbn. split; [apply lookup_insert_eq|done].
  - intros z' m x Hz' Hx. rewrite Hs in Hz'. injection Hz' as <-. by apply Hold.
  - intros v [Hv|Hv]%elem_of_app Hv' Hp Hw; [|by apply list_elem_of_singleton in Hv as ->].
    eexists. split; [exact Hs|]. cbn. split; [eapply found_kept; try done; by apply Hvs|].
    destruct (I_kept _ _ _ HI v Hv Hv' Hp ltac:(lia)) as (z' & Hz' & _ & He). congruence.
Qed.

Lemma Inv_later vs t t' s : (t ≤ t')%Z → Inv vs t s → Inv vs t' s.
Proof. intros Ht [H1 H2]. split; [done|]. intros v Hv Hm Hp Hw. apply H2; [done..|lia]. Qed.

Lemma in_order_snoc hs h : in_order (hs ++ [h]) →
  in_order hs ∧ timely h ∧ ∀ h', h' ∈ hs → timely h' ∧ (run_at h' ≤ run_at h)%Z.
Proof.
  intros [Hs [Ht Hh]%Forall_app]. apply StronglySorted_app in Hs as (Hc & Hs & _). split; [by split|].
  split; [by apply Forall_singleton|]. intros h' Hh'. rewrite Forall_forall in Ht. split; [by apply Ht|].
  apply Hc; [done|]. by left.
Qed.

Lemma serve_Inv hs t : in_order hs → (∀ h, h ∈ hs → (run_at h ≤ t)%Z) → Inv (serve l hs ∅).1 t (serve l hs ∅).2.
Proof.
  revert t. induction hs as [|h hs IH] using rev_ind; intros t Ho Ht; [apply Inv_start|].
  destruct (in_order_snoc hs h Ho) as (Ho' & Hh & Hhs). rewrite serve_snoc. cbn [fst snd].
  apply (Inv_later _ (run_at h)); [apply Ht, elem_of_app; right; by left|].
  apply (Inv_step _ (run_at h)); [apply IH; [done|]; intros h' Hh'; by apply Hhs|done|done|].
  intros v Hv. apply Hhs. rewrite <-(serve_hits hs ∅). by apply list_elem_of_fmap_2.
Qed.

(** ** The bound *)

Definition span : Z := window l - delta - 2 * epsilon.

Lemma passes_below vs s h t : in_order (vs.*1 ++ [h]) → Inv vs (run_at h) s → mine h → passes (Middleware l h s).1 →
  (now h ≤ t)%Z → (Z.of_nat (size (passed (t - span) t vs)) < limit l)%Z.
Proof.
  intros (Ho & Hh & Hvs)%in_order_snoc HI Hm Hp Ht. pose proof (Middleware_effect h s) as He.
  destruct (Middleware l h s) as [w s']. cbn in *. destruct He as [w _ Hno _|w _ Hlt _ _|w z _ _ Hno _ _];
    [by apply Hno in Hp| |done].
  enough (size (passed (t - span) t vs) ≤ size (found h s)) by lia. apply size_named_le.
  intros n (v & Hv & Hvm & Hvp & Hw & ->)%elem_of_passed.
  destruct (Hvs v.1) as [Hv1 Hv2]; [by apply list_elem_of_fmap_2|].
  rewrite (found_kept vs (run_at h) s h v); [eauto|done|done|done|done|done|done|done|].
  unfold span in Hw. destruct Hh as (_ & ? & _). lia.
Qed.

Lemma refused_above vs s h reset : in_order (vs.*1 ++ [h]) → Inv vs (run_at h) s → mine h →
  (Middleware l h s).1 = TooManyRequests reset →
  (limit l ≤ Z.of_nat (size (since (now h - window l - 2 * epsilon) vs)))%Z.
Proof.
  intros (Ho & Hh & Hvs)%in_order_snoc HI Hm Hr. pose proof (Middleware_effect h s) as He.
  destruct (Middleware l h s) as [w s']. cbn in *. subst w. inversion He as [? _ _ Hno|? _ _ Hno _|? z _ Hge _ Hz _].
  - by destruct (Hno reset).
  - by destruct (Hno reset).
  - enough (size (found h s) ≤ size (since (now h - window l - 2 * epsilon) vs)) by lia. apply size_names_le.
    intros k [x (z' & Hz' & Hx & Hlt)%found_sound].
    destruct (I_sound _ _ _ HI z' k x Hz' Hx) as (e & Hv & Hvm & -> & ->). exists (now e.1). split; [|done].
    apply elem_of_since. exists e. split_and!; try done.
    destruct (Hvs e.1) as [(? & ? & ?) _]; [by apply list_elem_of_fmap_2|]. destruct Hh as (? & ? & ?).
    pose proof (tonumber_close (now e.1) ltac:(lia)). pose proof (tonumber_close (now h - window l) ltac:(lia)). lia.
Qed.

Lemma passed_snoc t t' vs v : passed t t' (vs ++ [v]) =
  passed t t' vs ∪ (if decide (mine v.1 ∧ passes v.2 ∧ (t < now v.1 ≤ t')%Z) then {[now v.1]} else ∅).
Proof.
  unfold passed. rewrite filter_app, fmap_app, list_to_set_app_L. f_equal. rewrite filter_cons, filter_nil.
  case_decide; [|done]. cbn. by rewrite union_empty_r_L.
Qed.

(** C34: A limiter of [limit] requests per window, in front of requests whose scripts run
    at most [delta] after their clock was read, and with times rounded by [epsilon]. In
    every interval that is shorter than the window by that much, requests of one address
    pass at no more than [limit] different times; a request is only refused when there
    were requests of its address at [limit] different times in the window before; and
    when Redis does not answer, every request passes. *)
Theorem rate_limited hs : in_order hs →
  let vs := (serve l hs ∅).1 in
  (∀ t, (Z.of_nat (size (passed (t - span) t vs)) ≤ limit l)%Z) ∧
  (∀ vs1 h reset vs2, vs = vs1 ++ (h, TooManyRequests reset) :: vs2 → mine h →
     (limit l ≤ Z.of_nat (size (since (now h - window l - 2 * epsilon) vs1)))%Z) ∧
  (∀ h v, (h, v) ∈ vs → script h ≠ Replied → v = Next None).
Proof.
  induction hs as [|h hs IH] using rev_ind; intros Ho; cbv zeta.
  { cbn [serve fst]. split; [intros t; change (passed _ _ []) with (∅ : gset Z); rewrite size_empty; lia|]. split; [by intros []|]. by intros ?? []%elem_of_nil. }
  destruct (in_order_snoc hs h Ho) as (Ho' & Hh & Hhs). destruct (IH Ho') as (IH1 & IH2 & IH3).
  rewrite serve_snoc. pose proof (serve_Inv hs (run_at h) Ho' (λ h' Hh', proj2 (Hhs h' Hh'))) as HI.
  pose proof (serve_hits hs ∅) as Hhits. destruct (serve l hs ∅) as [vs s]. cbn [fst snd] in *.
  rewrite <-Hhits in Ho. split; [|split].
  - intros t. rewrite passed_snoc. case_decide as Hc; [|by rewrite union_empty_r_L]. destruct Hc as (Hm & Hp & Ht).
    pose proof (passes_below vs s h t Ho HI Hm Hp (proj2 Ht)).
    rewrite size_union_alt. cbn [fst]. pose proof (subseteq_size ({[now h]} ∖ passed (t - span) t vs) {[now h]} ltac:(set_solver)) as Hs.
    rewrite size_singleton in Hs. lia.
  - intros vs1 h1 reset vs2 Heq Hm. destruct vs2 as [|v2 vs2 _] using rev_ind.
    + apply app_inj_tail in Heq as [-> [= <- Hv]]. by eapply refused_above.
    + rewrite app_comm_cons, app_assoc in Heq. apply app_inj_tail in Heq as [Heq _]. by eapply IH2.
  - intros h1 v1 [Hin|Hin]%elem_of_app Hf; [by eapply IH3|]. apply list_elem_of_singleton in Hin as [= -> ->].
    unfold Middleware, allow. destruct (Run _ _ _). by destruct (script h).
Qed.
End Bound.
End RateLimit.

(** ** Two requests a minute *)

Module RateLimitDemo.
Import RateLimit.

(** Doubles between [2^60] and [2^61] are the multiples of 256. *)
Definition double : Lua.
Proof.
  refine (Build_Lua (λ n, (n + 128) / 256 * 256)%Z 128 _). intros n _.
  pose proof (Z.div_mod (n + 128) 256 ltac:(lia)). pose proof (Z.mod_pos_bound (n + 128) 256 ltac:(lia)). lia.
Defined.
#[local] Existing Instance double.

Definition two : Limiter := WithKeyspace "rl" 2 Minute.
Definition today : Z := 1700000000000000000.
Definition at_ (seconds : Z) (addr : string) : hit :=
  mkHit addr (today + seconds * 1000 * Millisecond) (today + seconds * 1000 * Millisecond) Replied.
Definition answers (hs : list hit) : list bool :=
  (λ v : hit * verdict, if v.2 is Next _ then true else false) <$> (serve two hs ∅).1.

(** The port does not count; the third request of a minute is refused. *)
Definition four_hits : list hit :=
  [at_ 0 "1.2.3.4:1000"; at_ 10 "1.2.3.4:1001"; at_ 20 "1.2.3.4:1002"; at_ 61 "1.2.3.4:1003"].
Example four_answers : answers four_hits = [true; true; false; true].
Proof. vm_compute. reflexivity. Qed.

Lemma four_in_order : in_order two 0 four_hits.
Proof.
  split; [|by repeat (constructor; [repeat split|])].
  repeat (constructor; [|repeat (constructor; [done|]); constructor]). constructor.
Qed.

Lemma two_positive : (0 < limit two ∧ 0 ≤ window two)%Z.
Proof. split; [done|]. by apply Z.leb_le. Qed.

Lemma rate_limited_witness : in_order two 0 four_hits ∧
  (Z.of_nat (size (passed "1.2.3.4" (today + 30000 * Millisecond - span two 0) (today + 30000 * Millisecond)
     (serve two four_hits ∅).1)) ≤ 2)%Z.
Proof.
  split; [exact four_in_order|].
  exact (proj1 (rate_limited two "1.2.3.4" 0 (ex_intro _ 60000%Z eq_refl) two_positive four_hits four_in_order) _).
Defined.

(** Requests that are handled in the same nanosecond, as by two replicas or with a coarse
    clock, are one member of the set: any number of them passes. *)
Lemma same_time : answers (replicate 10 (at_ 0 "1.2.3.4:1000")) = replicate 10 true.
Proof. vm_compute. reflexivity. Qed.
End RateLimitDemo.
