(* ===== verification/Chat.v ===== *)
(** The chat service (services/chat-service): messages in rooms and between players.
    Every statement, and every call of the user service, is a sequence of atomic
    commands over the tables of the services, which share one database. *)
From stdpp Require Import strings.
From S2P Require Import Prelude Json Backend Store Programs Middleware Users UsersApi Gateway.
From S2P Require Import Web.
Import Programs Middleware Web.

Module Chat.

Definition StatusServiceUnavailable : Z := 503.

(** ** Rows (internal/store/store.go) *)

Section Rows.
Context `{UUID}.

Record RoomMessage := mkRoomMessage {
  RM_ID : uuid; RM_RoomID : uuid; RM_PlayerID : uuid; RM_Content : string;
  RM_Reported : bool; RM_Hidden : bool; RM_CreatedAt : Z
}.
Record DirectMessage := mkDM {
  DM_ID : uuid; SenderID : uuid; ReceiverID : uuid; DM_Content : string;
  ReadAt : option Z; DM_Reported : bool; DM_Hidden : bool; DM_CreatedAt : Z
}.
Record DMConversation := mkConversation {
  OtherPlayerID : uuid; OtherUsername : string; OtherAvatarURL : option string;
  LastMessage : string; LastMessageAt : Z; UnreadCount : nat
}.
End Rows.

Section Chat.
Context `{U : UUID} `{PG : !Users.Postgres} `{TOK : !JWT} `{RFC : !UsersApi.RFC3339}.

(** How a time is spelled in JSON. *)
Context (time_JSON : Z → any).

(** ** Requests and answers *)

(** Path parameters and queries are strings; a body is what it decodes to. *)
Inductive route : Type :=
  | PostRoomMessage (roomID : string) (content : option string)
  | GetRoomMessages_ (roomID limit offset : string)
  | PostRoomReport (roomID messageID : string)
  | DeleteRoomMessage (roomID messageID : string)
  | PostDM (playerID : string) (content : option string)
  | GetConversations (playerID : string)
  | GetUnread (playerID : string)
  | GetHistory (playerID otherPlayerID limit offset : string)
  | PostRead (messageID : string)
  | PostDMReport (playerID otherPlayerID : string) (message_id : option string).
Record request := mkRequest { cookie : option string; schema_ok : bool; to : route }.

Inductive content : Type :=
  | B_error (msg : string)
  | B_empty
  | B_message (m : RoomMessage)
  | B_messages (items : list RoomMessage) (total : nat)
  | B_dm (m : DirectMessage)
  | B_dms (l : list DirectMessage)
  | B_count (n : nat)
  | B_conversations (l : list DMConversation).

(** The tables of the user service, of the game server and of this service; the flags
    of the service; what it has published; and the answers it has given. *)
Record chat := mkChat {
  T : Users.tables; G : DB;
  chat_enabled : bool; maintenance : bool;
  room_messages : gmap uuid RoomMessage;
  direct_messages : gmap uuid DirectMessage;
  published : list (Gateway.channel * Gateway.text);
  responses : list (request * response content)
}.
Definition set_T v s := mkChat v (G s) (chat_enabled s) (maintenance s) (room_messages s) (direct_messages s) (published s) (responses s).
Definition set_G v s := mkChat (T s) v (chat_enabled s) (maintenance s) (room_messages s) (direct_messages s) (published s) (responses s).
Definition set_flags c m s := mkChat (T s) (G s) c m (room_messages s) (direct_messages s) (published s) (responses s).
Definition set_room_messages v s := mkChat (T s) (G s) (chat_enabled s) (maintenance s) v (direct_messages s) (published s) (responses s).
Definition set_dms v s := mkChat (T s) (G s) (chat_enabled s) (maintenance s) (room_messages s) v (published s) (responses s).
Definition set_published v s := mkChat (T s) (G s) (chat_enabled s) (maintenance s) (room_messages s) (direct_messages s) v (responses s).
Definition set_responses v s := mkChat (T s) (G s) (chat_enabled s) (maintenance s) (room_messages s) (direct_messages s) (published s) v.

(** ** The store (internal/store/store_messages.go) *)

Definition statement {A} (c : chat → result error A * chat) : prog chat (result error A) :=
  r ← cmd c; mret (default (Err (Driver "connection")) r).
Definition select {A} (f : chat → result error A) : prog chat (result error A) := statement (λ s, (f s, s)).

(** [gen_random_uuid()] of the database, and its clock. *)
Definition next_id (s : chat) : uuid * chat :=
  (Users.gen_random_uuid (Users.generated (T s)), set_T (Users.set_generated (S (Users.generated (T s))) (T s)) s).
Definition now (s : chat) : Z := Users.clock (T s).

Definition foreign_key : error := Driver "23503".

Definition SaveRoomMessage (roomID playerID : uuid) (content : string) : prog chat (result error RoomMessage) :=
  statement (λ s,
    let '(id, s) := next_id s in
    if is_none (rooms (G s) !! roomID) || negb (Users.player_exists playerID (T s)) then (Err foreign_key, s)
    else if is_none (room_messages s !! id) then
      let m := mkRoomMessage id roomID playerID content false false (now s) in
      (Ok m, set_room_messages (<[id := m]> (room_messages s)) s)
    else (Err (Driver "23505"), s)).

Definition messages_of (roomID : uuid) (s : chat) : list RoomMessage :=
  order_by RM_CreatedAt (Users.values (λ m, bool_decide (RM_RoomID m = roomID)) (room_messages s)).
Definition GetRoomMessages (roomID : uuid) (limit offset : Z) : prog chat (result error (list RoomMessage)) :=
  select (λ s, Ok (page limit offset (messages_of roomID s))).
Definition CountRoomMessages (roomID : uuid) : prog chat (result error nat) :=
  select (λ s, Ok (length (messages_of roomID s))).

Definition hide (m : RoomMessage) : RoomMessage :=
  mkRoomMessage (RM_ID m) (RM_RoomID m) (RM_PlayerID m) (RM_Content m) (RM_Reported m) true (RM_CreatedAt m).
Definition report (m : RoomMessage) : RoomMessage :=
  mkRoomMessage (RM_ID m) (RM_RoomID m) (RM_PlayerID m) (RM_Content m) true (RM_Hidden m) (RM_CreatedAt m).

(** [UPDATE room_messages ... WHERE id = $1], an error when there is no such row. *)
Definition update_message (f : RoomMessage → RoomMessage) (id : uuid) : prog chat (result error unit) :=
  statement (λ s,
    match room_messages s !! id with
    | Some m => (Ok tt, set_room_messages (<[id := f m]> (room_messages s)) s)
    | None => (Err (Plain "message not found"), s)
    end).
Definition HideRoomMessage : uuid → prog chat (result error unit) := update_message hide.
Definition ReportRoomMessage : uuid → prog chat (result error unit) := update_message report.

Definition seated (roomID playerID : uuid) (s : chat) : bool := negb (is_none (room_players (G s) !! (roomID, playerID))).
Definition IsRoomParticipant (roomID playerID : uuid) : prog chat (result error bool) :=
  select (λ s, Ok (seated roomID playerID s)).

Definition SaveDM (senderID receiverID : uuid) (content : string) : prog chat (result error DirectMessage) :=
  statement (λ s,
    let '(id, s) := next_id s in
    if Users.player_exists senderID (T s) && Users.player_exists receiverID (T s) then
      if is_none (direct_messages s !! id) then
        let m := mkDM id senderID receiverID content None false false (now s) in
        (Ok m, set_dms (<[id := m]> (direct_messages s)) s)
      else (Err (Driver "23505"), s)
    else (Err foreign_key, s)).

Definition between (a b : uuid) (m : DirectMessage) : bool :=
  (bool_decide (SenderID m = a) && bool_decide (ReceiverID m = b))
  || (bool_decide (SenderID m = b) && bool_decide (ReceiverID m = a)).

Definition GetDMHistory (playerA playerB : uuid) (limit offset : Z) : prog chat (result error (list DirectMessage)) :=
  let limit := if ((limit <=? 0) || (200 <? limit))%Z then 50%Z else limit in
  select (λ s, Ok (page limit offset
    (order_by DM_CreatedAt (Users.values (between playerA playerB) (direct_messages s))))).

(** The sender, when a row was updated. *)
Definition MarkDMRead (messageID receiverID : uuid) : prog chat (result error (option uuid)) :=
  statement (λ s,
    match direct_messages s !! messageID with
    | Some m =>
        if bool_decide (ReceiverID m = receiverID) && is_none (ReadAt m) then
          (Ok (Some (SenderID m)), set_dms (<[messageID := mkDM (DM_ID m) (SenderID m) (ReceiverID m) (DM_Content m)
             (Some (now s)) (DM_Reported m) (DM_Hidden m) (DM_CreatedAt m)]> (direct_messages s)) s)
        else (Ok None, s)
    | None => (Ok None, s)
    end).

Definition unread (playerID : uuid) (m : DirectMessage) : bool :=
  bool_decide (ReceiverID m = playerID) && is_none (ReadAt m) && negb (DM_Hidden m).
Definition GetUnreadDMCount (playerID : uuid) : prog chat (result error nat) :=
  select (λ s, Ok (length (Users.values (unread playerID) (direct_messages s)))).

Definition takes_part (p : uuid) (m : DirectMessage) : bool :=
  bool_decide (SenderID m = p) || bool_decide (ReceiverID m = p).
(** [CASE WHEN sender_id = $1 THEN receiver_id ELSE sender_id END] *)
Definition other (p : uuid) (m : DirectMessage) : uuid := if decide (SenderID m = p) then ReceiverID m else SenderID m.

Definition conversation (p o : uuid) (s : chat) : option DMConversation :=
  x ← Users.players (T s) !! o;
  m ← head (Users.order_by_desc DM_CreatedAt
        (Users.values (λ m, takes_part p m && bool_decide (other p m = o)) (direct_messages s)));
  Some (mkConversation o (Users.Username x) (Users.AvatarURL x) (DM_Content m) (DM_CreatedAt m)
    (length (Users.values (λ m, unread p m && bool_decide (SenderID m = o)) (direct_messages s)))).

Definition ListDMConversations (playerID : uuid) : prog chat (result error (list DMConversation)) :=
  select (λ s, Ok (Users.order_by_desc LastMessageAt (omap (M:=list) (λ o, conversation playerID o s)
    (remove_dups (other playerID <$> Users.values (takes_part playerID) (direct_messages s)))))).

(** Any error counts as "no settings". The values that the settings may have need no
    escapes in JSON. *)
Definition allows (p : uuid) (s : chat) : string :=
  match Users.player_settings (T s) !! p with
  | Some (m, _) => default "anyone" (Users.AllowDMs m)
  | None => "anyone"
  end.
Definition GetAllowDMs (playerID : uuid) : prog chat (result error string) :=
  r ← select (λ s, match Users.player_settings (T s) !! playerID with
                   | Some _ => Ok (allows playerID s)
                   | None => Err Users.ErrNoRows
                   end);
  mret (match r with Err _ => Ok "anyone" | Ok raw => Ok raw end).

Definition ReportDM (messageID playerA playerB : uuid) : prog chat (result error unit) :=
  statement (λ s,
    match direct_messages s !! messageID with
    | Some m =>
        if between playerA playerB m then
          (Ok tt, set_dms (<[messageID := mkDM (DM_ID m) (SenderID m) (ReceiverID m) (DM_Content m)
             (ReadAt m) true (DM_Hidden m) (DM_CreatedAt m)]> (direct_messages s)) s)
        else (Err (Plain "message not found"), s)
    | None => (Err (Plain "message not found"), s)
    end).

(** ** Events (internal/api/publisher.go) *)

(** Every event is put into an envelope for everyone. *)
Definition publish (ch : Gateway.channel) (typ : string) (payload : any) : prog chat unit :=
  ignore (write (λ s, set_published
    (published s ++ [(ch, Gateway.Envelope false (Gateway.Message typ payload))]) s)).
Definition PublishRoomEvent (roomID : uuid) : string → any → prog chat unit := publish (Gateway.RoomChannelKey roomID).
Definition PublishPlayerEvent (playerID : uuid) : string → any → prog chat unit := publish (Gateway.PlayerChannelKey playerID).

Definition eventChatMessage : string := "chat_message".
Definition eventChatMessageHidden : string := "chat_message_hidden".
Definition eventDMReceived : string := "dm_received".
Definition eventDMRead : string := "dm_read".

Definition id_JSON (u : uuid) : any := Str (uuid_String u).
Definition chat_message (m : RoomMessage) : any :=
  Map (list_to_map [("message_id", id_JSON (RM_ID m)); ("room_id", id_JSON (RM_RoomID m));
    ("player_id", id_JSON (RM_PlayerID m)); ("content", Str (RM_Content m)); ("reported", Bool (RM_Reported m));
    ("hidden", Bool (RM_Hidden m)); ("timestamp", time_JSON (RM_CreatedAt m))]).
Definition dm_received (m : DirectMessage) (senderID : uuid) : any :=
  Map (list_to_map [("message_id", id_JSON (DM_ID m)); ("from", id_JSON senderID);
    ("content", Str (DM_Content m)); ("timestamp", time_JSON (DM_CreatedAt m))]).
Definition message_id (id : uuid) : any := Map {["message_id" := id_JSON id]}.

(** ** The user service (internal/api/user_checker.go) *)

Definition AreFriends (a b : string) : prog chat (option bool) :=
  resp ← remote T set_T (UsersApi.grpc_GetFriendship a b);
  mret (match resp with
        | Some (Ok (UsersApi.G_friendship status _)) => Some (bool_decide (status = "accepted"))
        | _ => None
        end).

(** ** Handlers (internal/api) *)

Abbreviation handler := (prog chat (response content)).

Definition writeJSON (status : Z) (b : content) : handler := mret (mkResponse status b).
Definition writeError (status : Z) (msg : string) : handler := Middleware.writeError (M := prog chat) B_error status msg.

(** A step that every handler may take. *)
Definition parse_id (raw msg : string) (k : uuid → handler) : handler :=
  match uuid_Parse raw with Some u => k u | None => writeError StatusBadRequest msg end.
Definition or_fail {A} (p : prog chat (result error A)) (status : Z) (msg : string) (k : A → handler) : handler :=
  r ← p; match r with Ok x => k x | Err _ => writeError status msg end.
Definition require_content (content : option string) (k : string → handler) : handler :=
  match content with
  | None => writeError StatusBadRequest "invalid request body"
  | Some c => if decide (c = "") then writeError StatusBadRequest "content is required" else k c
  end.
Definition participant (roomID playerID : uuid) (refusal : string) (k : handler) : handler :=
  or_fail (IsRoomParticipant roomID playerID) StatusInternalServerError "failed to verify participant"
    (λ b, if b : bool then k else writeError StatusForbidden refusal).

Definition handleSendRoomMessage (roomID : string) (content : option string) (c : Claims) : handler :=
  parse_id roomID "invalid room id" (λ roomID, require_content content (λ content,
    participant roomID (PlayerID c) "spectators cannot send messages" (
    or_fail (SaveRoomMessage roomID (PlayerID c) content) StatusInternalServerError "failed to save message" (λ msg,
    PublishRoomEvent roomID eventChatMessage (chat_message msg);;
    writeJSON StatusCreated (B_message msg))))).

Definition handleGetRoomMessages (roomID limit offset : string) (c : Claims) : handler :=
  parse_id roomID "invalid room id" (λ roomID, participant roomID (PlayerID c) "forbidden" (
    or_fail (GetRoomMessages roomID (limit_param 200 50 limit) (offset_param offset))
      StatusInternalServerError "failed to get messages" (λ messages,
    or_fail (CountRoomMessages roomID) StatusInternalServerError "failed to count messages" (λ total,
    writeJSON StatusOK (B_messages messages total))))).

Definition handleReportRoomMessage (roomID messageID : string) (c : Claims) : handler :=
  parse_id roomID "invalid room id" (λ roomID, parse_id messageID "invalid message id" (λ messageID,
    participant roomID (PlayerID c) "forbidden" (
    or_fail (ReportRoomMessage messageID) StatusNotFound "message not found" (λ _,
    writeJSON StatusNoContent B_empty)))).

Definition handleHideRoomMessage (roomID messageID : string) (_ : Claims) : handler :=
  parse_id roomID "invalid room id" (λ roomID, parse_id messageID "invalid message id" (λ messageID,
    or_fail (HideRoomMessage messageID) StatusNotFound "message not found" (λ _,
    PublishRoomEvent roomID eventChatMessageHidden (message_id messageID);;
    writeJSON StatusNoContent B_empty))).

(** The receiver's setting; the service always has a client of the user service. *)
Definition privacy_gate (senderID receiverID : uuid) (k : handler) : handler :=
  or_fail (GetAllowDMs receiverID) StatusInternalServerError "failed to check recipient settings" (λ allowDMs,
    if decide (allowDMs = "nobody") then writeError StatusForbidden "player does not accept direct messages"
    else if decide (allowDMs = "friends_only") then
      friends ← AreFriends (uuid_String senderID) (uuid_String receiverID);
      match friends with
      | None => writeError StatusInternalServerError "failed to verify friendship"
      | Some false => writeError StatusForbidden "player only accepts DMs from friends"
      | Some true => k
      end
    else k).

Definition handleSendDM (playerID : string) (content : option string) (c : Claims) : handler :=
  let senderID := PlayerID c in
  parse_id playerID "invalid player id" (λ receiverID, require_content content (λ content,
    if decide (senderID = receiverID) then writeError StatusBadRequest "cannot send a DM to yourself"
    else privacy_gate senderID receiverID (
      r ← SaveDM senderID receiverID content;
      match r with
      | Err e => if decide (e = foreign_key) then writeError StatusNotFound "player not found"
                 else writeError StatusInternalServerError "failed to send message"
      | Ok msg =>
          PublishPlayerEvent receiverID eventDMReceived (dm_received msg senderID);;
          writeJSON StatusCreated (B_dm msg)
      end))).

Definition handleGetDMHistory (playerID otherID limit offset : string) (c : Claims) : handler :=
  parse_id playerID "invalid player id" (λ playerID, parse_id otherID "invalid other player id" (λ otherID,
    if decide (PlayerID c ≠ playerID ∧ PlayerID c ≠ otherID ∧ UsersApi.hasRole (ClaimRole c) RoleOwner = false)
    then writeError StatusForbidden "forbidden"
    else or_fail (GetDMHistory playerID otherID (limit_param 200 50 limit) (offset_param offset))
           StatusInternalServerError "failed to get messages" (λ messages,
         writeJSON StatusOK (B_dms messages)))).

(** [callerID != playerID] *)
Definition own (playerID : string) (c : Claims) (k : uuid → handler) : handler :=
  parse_id playerID "invalid player id" (λ playerID,
    if decide (PlayerID c = playerID) then k playerID else writeError StatusForbidden "forbidden").

Definition handleGetUnreadDMCount (playerID : string) (c : Claims) : handler :=
  own playerID c (λ p, or_fail (GetUnreadDMCount p) StatusInternalServerError "failed to get unread count" (λ n,
    writeJSON StatusOK (B_count n))).
Definition handleListDMConversations (playerID : string) (c : Claims) : handler :=
  own playerID c (λ p, or_fail (ListDMConversations p) StatusInternalServerError "failed to list conversations" (λ l,
    writeJSON StatusOK (B_conversations l))).

Definition handleMarkDMRead (messageID : string) (c : Claims) : handler :=
  parse_id messageID "invalid message id" (λ messageID,
    or_fail (MarkDMRead messageID (PlayerID c)) StatusInternalServerError "failed to mark message as read" (λ marked,
    match marked with
    | Some senderID => PublishPlayerEvent senderID eventDMRead (message_id messageID)
    | None => mret tt
    end;;
    writeJSON StatusNoContent B_empty)).

Definition handleReportDM (playerID otherID : string) (body : option string) (c : Claims) : handler :=
  parse_id playerID "invalid player id" (λ playerID, parse_id otherID "invalid other player id" (λ otherID,
    match body with
    | None => writeError StatusBadRequest "invalid request body"
    | Some raw => parse_id raw "invalid message_id" (λ messageID,
        if decide (PlayerID c ≠ playerID ∧ PlayerID c ≠ otherID) then writeError StatusForbidden "forbidden"
        else or_fail (ReportDM messageID playerID otherID) StatusNotFound "message not found" (λ _,
             writeJSON StatusNoContent B_empty))
    end)).

(** ** The router (internal/api/api.go) *)

(** [flags.IsEnabled(FlagChatEnabled, true)] *)
Definition chatSendGate (next : handler) : handler :=
  on ← local true (λ s, (chat_enabled s, s));
  if on : bool then next else writeError StatusServiceUnavailable "chat_disabled".

Definition requireRole (role : string) (next : Claims → handler) (c : Claims) : handler :=
  if UsersApi.hasRole (ClaimRole c) role then next c else writeError StatusForbidden "forbidden".

(** [ValidateBody]: the schemas are checked by a library. *)
Definition validate (r : request) (next : handler) : handler :=
  if schema_ok r then next else writeError StatusBadRequest "validation failed".

Definition method_of (t : route) : method :=
  match t with
  | GetRoomMessages_ _ _ _ | GetConversations _ | GetUnread _ | GetHistory _ _ _ _ => GET
  | DeleteRoomMessage _ _ => DELETE
  | _ => POST
  end.

Definition route_handler (r : request) : Claims → handler :=
  match to r with
  | PostRoomMessage room b => λ c, chatSendGate (validate r (handleSendRoomMessage room b c))
  | GetRoomMessages_ room l o => handleGetRoomMessages room l o
  | PostRoomReport room m => handleReportRoomMessage room m
  | DeleteRoomMessage room m => requireRole RoleManager (handleHideRoomMessage room m)
  | PostDM p b => λ c, chatSendGate (validate r (handleSendDM p b c))
  | GetConversations p => handleListDMConversations p
  | GetUnread p => handleGetUnreadDMCount p
  | GetHistory p o l off => handleGetDMHistory p o l off
  | PostRead m => handleMarkDMRead m
  | PostDMReport p o b => λ c, validate r (handleReportDM p o b c)
  end.

Definition NewRouter (secret : string) (r : request) : handler :=
  Maintenance maintenance (method_of (to r)) (writeError StatusServiceUnavailable "maintenance")
    (Require (M := prog chat) B_error secret (cookie r) (route_handler r)).

(** ** The service *)

Definition serve (secret : string) (r : request) : prog chat unit :=
  resp ← NewRouter secret r;
  local tt (λ s, (tt, set_responses (responses s ++ [(r, resp)]) s)).

(** [ON DELETE CASCADE]: the messages in a room go with the room, and those of a player, or
    to it, with the player. *)
Definition room_gone (r : uuid) (s s' : chat) : bool :=
  negb (is_none (rooms (G s) !! r)) && is_none (rooms (G s') !! r).
Definition player_gone (p : uuid) (s s' : chat) : bool :=
  Users.player_exists p (T s) && negb (Users.player_exists p (T s')).
Definition message_gone (m : RoomMessage) (s s' : chat) : bool :=
  room_gone (RM_RoomID m) s s' || player_gone (RM_PlayerID m) s s'.
Definition dm_gone (m : DirectMessage) (s s' : chat) : bool :=
  player_gone (SenderID m) s s' || player_gone (ReceiverID m) s s'.
Definition cascade (s s' : chat) : chat :=
  set_room_messages (filter (λ x, message_gone x.2 s s' = false) (room_messages s'))
    (set_dms (filter (λ x, dm_gone x.2 s s' = false) (direct_messages s')) s').

(** The other services change their tables, and operators the flags. *)
Inductive happening : Type :=
  | Users_change (f : Users.tables → Users.tables)
  | Games_change (f : DB → DB)
  | Flags_change (chat_on maintenance_on : bool).
Definition happen (e : happening) (s : chat) : chat :=
  match e with
  | Users_change f => cascade s (set_T (f (T s)) s)
  | Games_change f => cascade s (set_G (f (G s)) s)
  | Flags_change a b => set_flags a b s
  end.
End Chat.
End Chat.
