(* ===== verification/ChatSpec.v ===== *)
(** The chat service: who may write and read messages, whatever requests interleave and
    whatever fails; and messages are not changed, and deleted only with their room or player. *)
From stdpp Require Import strings.
From S2P Require Import Prelude Json Backend Store Programs Ownership Middleware Users.
From S2P Require Import UsersApi.
From S2P Require Import Gateway Web Chat.
Import Programs History Middleware Web Chat.

Section Spec.
Context `{U : UUID} `{PG : !Users.Postgres} `{TOK : !JWT} `{RFC : !UsersApi.RFC3339}.
Context (time_JSON : Z → any) (secret : string).

Abbreviation serve := (serve time_JSON secret).
Abbreviation schedule := (list (label request happening)).
Definition run (ls : schedule) (s : chat) : chat := (Programs.run serve happen ls (s, [])).1.

(** ** Messages stay *)

Definition same_message (m m' : RoomMessage) : Prop :=
  RM_RoomID m' = RM_RoomID m ∧ RM_PlayerID m' = RM_PlayerID m ∧ RM_Content m' = RM_Content m ∧
  RM_CreatedAt m' = RM_CreatedAt m.
Definition same_dm (m m' : DirectMessage) : Prop :=
  SenderID m' = SenderID m ∧ ReceiverID m' = ReceiverID m ∧ DM_Content m' = DM_Content m ∧
  DM_CreatedAt m' = DM_CreatedAt m.

(** A message is still there, not rewritten, nor shown again once hidden, nor unread once read. *)
Definition message_stays (s : chat) (id : uuid) (m : RoomMessage) : Prop :=
  ∃ m', room_messages s !! id = Some m' ∧ same_message m m' ∧
    (RM_Hidden m = true → RM_Hidden m' = true) ∧ (RM_Reported m = true → RM_Reported m' = true).
Definition dm_stays (s : chat) (id : uuid) (m : DirectMessage) : Prop :=
  ∃ m', direct_messages s !! id = Some m' ∧ same_dm m m' ∧
    (is_Some (ReadAt m) → ReadAt m' = ReadAt m) ∧ (DM_Reported m = true → DM_Reported m' = true).

(** What every command of this service does. *)
Definition keeps (s s' : chat) : Prop :=
  (∀ id m, room_messages s !! id = Some m → message_stays s' id m) ∧
  (∀ id m, direct_messages s !! id = Some m → dm_stays s' id m).

Lemma chat_keeps_same s s' :
  room_messages s' = room_messages s → direct_messages s' = direct_messages s → keeps s s'.
Proof. intros E1 E2. unfold keeps, message_stays, dm_stays. rewrite E1, E2. split; intros id m Hm; eexists; by repeat split. Qed.
Lemma chat_keeps_refl s : keeps s s.
Proof. by apply chat_keeps_same. Qed.

Lemma message_trans m m' m'' :
  (same_message m m' ∧ (RM_Hidden m = true → RM_Hidden m' = true) ∧ (RM_Reported m = true → RM_Reported m' = true)) →
  (same_message m' m'' ∧ (RM_Hidden m' = true → RM_Hidden m'' = true) ∧ (RM_Reported m' = true → RM_Reported m'' = true)) →
  same_message m m'' ∧ (RM_Hidden m = true → RM_Hidden m'' = true) ∧ (RM_Reported m = true → RM_Reported m'' = true).
Proof. intros ((? & ? & ? & ?) & ? & ?) ((? & ? & ? & ?) & ? & ?). split; [repeat split; congruence|auto]. Qed.
Lemma dm_trans m m' m'' :
  (same_dm m m' ∧ (is_Some (ReadAt m) → ReadAt m' = ReadAt m) ∧ (DM_Reported m = true → DM_Reported m' = true)) →
  (same_dm m' m'' ∧ (is_Some (ReadAt m') → ReadAt m'' = ReadAt m') ∧ (DM_Reported m' = true → DM_Reported m'' = true)) →
  same_dm m m'' ∧ (is_Some (ReadAt m) → ReadAt m'' = ReadAt m) ∧ (DM_Reported m = true → DM_Reported m'' = true).
Proof.
  intros ((? & ? & ? & ?) & Hr & ?) ((? & ? & ? & ?) & Hr' & ?). split; [repeat split; congruence|]. split; [|auto].
  intros Hs. rewrite <-(Hr Hs). apply Hr'. by rewrite (Hr Hs).
Qed.

Lemma chat_keeps_trans s s' s'' : keeps s s' → keeps s' s'' → keeps s s''.
Proof.
  intros [H1 H2] [H3 H4]. split; intros id m Hm.
  - destruct (H1 id m Hm) as (m' & Hm' & Hs), (H3 id m') as (m'' & Hm'' & Hs'); [done|].
    exists m''. split; [done|]. by eapply message_trans.
  - destruct (H2 id m Hm) as (m' & Hm' & Hs), (H4 id m') as (m'' & Hm'' & Hs'); [done|].
    exists m''. split; [done|]. by eapply dm_trans.
Qed.

Lemma keeps_message id m s :
  (∀ m0, room_messages s !! id = Some m0 → same_message m0 m ∧
     (RM_Hidden m0 = true → RM_Hidden m = true) ∧ (RM_Reported m0 = true → RM_Reported m = true)) →
  keeps s (set_room_messages (<[id := m]> (room_messages s)) s).
Proof.
  intros Hm. destruct (chat_keeps_refl s) as [H1 H2]. split; [|exact H2]. intros i m0 Hi.
  destruct (decide (id = i)) as [<-|Hne]; [exists m; cbn; rewrite lookup_insert_eq; by eauto|].
  exists m0. cbn. rewrite lookup_insert_ne by done. by repeat split.
Qed.
Lemma keeps_dm id m s :
  (∀ m0, direct_messages s !! id = Some m0 → same_dm m0 m ∧
     (is_Some (ReadAt m0) → ReadAt m = ReadAt m0) ∧ (DM_Reported m0 = true → DM_Reported m = true)) →
  keeps s (set_dms (<[id := m]> (direct_messages s)) s).
Proof.
  intros Hm. destruct (chat_keeps_refl s) as [H1 H2]. split; [exact H1|]. intros i m0 Hi.
  destruct (decide (id = i)) as [<-|Hne]; [exists m; cbn; rewrite lookup_insert_eq; by eauto|].
  exists m0. cbn. rewrite lookup_insert_ne by done. by repeat split.
Qed.

Lemma chat_every_statement {A} (c : chat → result error A * chat) :
  (∀ s, keeps s (c s).2) → every keeps (statement c).
Proof. intros Hc. apply every_bind; [by apply every_cmd|done]. Qed.
Lemma chat_every_select {A} (f : chat → result error A) : every keeps (select f).
Proof. apply chat_every_statement, chat_keeps_refl. Qed.

Lemma every_update f id : (∀ m, same_message m (f m) ∧ (RM_Hidden m = true → RM_Hidden (f m) = true) ∧
    (RM_Reported m = true → RM_Reported (f m) = true)) → every keeps (update_message f id).
Proof.
  intros Hf. apply chat_every_statement. intros s. destruct (room_messages s !! id) as [m|] eqn:E; [|apply chat_keeps_refl].
  apply keeps_message. intros m0 Hm0. simplify_eq. apply Hf.
Qed.
Lemma every_hide id : every keeps (HideRoomMessage id).
Proof. by apply every_update. Qed.
Lemma every_report id : every keeps (ReportRoomMessage id).
Proof. by apply every_update. Qed.

Lemma every_SaveRoomMessage r p c : every keeps (SaveRoomMessage r p c).
Proof.
  apply chat_every_statement. intros s. cbn -[Users.player_exists]. destruct (_ || _); [by apply chat_keeps_same|].
  destruct (room_messages s !! _) eqn:E; [by apply chat_keeps_same|]. cbn.
  apply (chat_keeps_trans _ (next_id s).2); [by apply chat_keeps_same|]. apply (keeps_message _ _ (next_id s).2). cbn. congruence.
Qed.
Lemma every_SaveDM a b c : every keeps (SaveDM a b c).
Proof.
  apply chat_every_statement. intros s. cbn -[Users.player_exists]. destruct (_ && _); [|by apply chat_keeps_same].
  destruct (direct_messages s !! _) eqn:E; [by apply chat_keeps_same|]. cbn.
  apply (chat_keeps_trans _ (next_id s).2); [by apply chat_keeps_same|]. apply (keeps_dm _ _ (next_id s).2). cbn. congruence.
Qed.
Lemma every_MarkDMRead id p : every keeps (MarkDMRead id p).
Proof.
  apply chat_every_statement. intros s. destruct (direct_messages s !! id) as [m|] eqn:E; [|apply chat_keeps_refl].
  destruct (_ && _) eqn:Eb; [|apply chat_keeps_refl]. apply keeps_dm. intros m0 Hm0. simplify_eq.
  split; [done|]. split; [|done]. intros [t Ht]. rewrite Ht in Eb. cbn in Eb. by rewrite andb_false_r in Eb.
Qed.
Lemma every_ReportDM id a b : every keeps (ReportDM id a b).
Proof.
  apply chat_every_statement. intros s. destruct (direct_messages s !! id) as [m|] eqn:E; [|apply chat_keeps_refl].
  destruct (between a b m); [|apply chat_keeps_refl]. apply keeps_dm. intros m0 Hm0. by simplify_eq.
Qed.
Lemma chat_every_publish ch typ p : every keeps (publish ch typ p).
Proof. apply every_bind; [|done]. apply every_cmd. intros s. by apply chat_keeps_same. Qed.
Lemma every_AreFriends a b : every keeps (AreFriends a b).
Proof. apply every_bind; [|done]. apply every_remote; intros; by apply chat_keeps_same. Qed.
Lemma chat_every_local {R} (d : R) f : every keeps (local d (λ s, (f s, s))).
Proof. split; [|done]. intros s. apply chat_keeps_refl. Qed.

Ltac every_chat :=
  repeat first
    [ done
    | apply chat_every_select | apply every_hide | apply every_report | apply every_SaveRoomMessage
    | apply every_SaveDM | apply every_MarkDMRead | apply every_ReportDM | apply chat_every_publish
    | apply every_AreFriends | apply chat_every_local
    | apply every_bind; [|intros ?]
    | match goal with
      | |- every _ (if ?b then _ else _) => destruct b
      | |- every _ (match ?x with _ => _ end) => destruct x
      end ].

Lemma chat_every_serve r : every keeps (serve r).
Proof.
  apply every_bind; [|intros resp; split; [|done]; intros s; by apply chat_keeps_same].
  unfold NewRouter, Maintenance, Require, route_handler.
  destruct (isMutation _); [apply every_bind; [apply chat_every_local|]; intros [|]; [done|]|];
  (destruct (cookie r) as [raw|]; [|done]); (destruct (VerifyToken secret raw); [|by destruct (decide _)]);
  destruct (to r); unfold handleSendRoomMessage, handleGetRoomMessages, handleReportRoomMessage,
    handleHideRoomMessage, handleSendDM, handleGetDMHistory, handleGetUnreadDMCount, handleListDMConversations,
    handleMarkDMRead, handleReportDM, requireRole, chatSendGate, validate, own, participant, privacy_gate,
    require_content, parse_id, or_fail, GetAllowDMs, GetDMHistory, PublishRoomEvent, PublishPlayerEvent; every_chat.
Qed.

(** Only the other services delete messages, with their rooms or players. *)
Lemma cascade_stays s s' : room_messages s' = room_messages s → direct_messages s' = direct_messages s →
  (∀ id m, room_messages s !! id = Some m → message_stays (cascade s s') id m ∨ message_gone m s (cascade s s') = true) ∧
  (∀ id m, direct_messages s !! id = Some m → dm_stays (cascade s s') id m ∨ dm_gone m s (cascade s s') = true).
Proof.
  intros E1 E2. split; intros id m Hm.
  - destruct (message_gone m s s') eqn:Hg; [by right|left]. exists m. split; [|by repeat split].
    cbn. rewrite E1. by apply map_lookup_filter_Some_2.
  - destruct (dm_gone m s s') eqn:Hg; [by right|left]. exists m. split; [|by repeat split].
    cbn. rewrite E2. by apply map_lookup_filter_Some_2.
Qed.

Lemma happen_stays e s :
  (∀ id m, room_messages s !! id = Some m → message_stays (happen e s) id m ∨ message_gone m s (happen e s) = true) ∧
  (∀ id m, direct_messages s !! id = Some m → dm_stays (happen e s) id m ∨ dm_gone m s (happen e s) = true).
Proof.
  destruct e as [f|f|a b]; [by apply cascade_stays..|].
  destruct (chat_keeps_same s (happen (Flags_change a b) s) eq_refl eq_refl) as [H1 H2].
  split; intros id m Hm; left; [by apply H1|by apply H2].
Qed.

Lemma chat_exec l (x : chat * list (prog chat unit)) : Forall (every keeps) x.2 →
  Forall (every keeps) (exec serve happen l x).2 ∧
  (keeps x.1 (exec serve happen l x).1 ∨ ∃ e, l = Event e ∧ (exec serve happen l x).1 = happen e x.1).
Proof.
  intros Hx. pose proof (λ l, exec_every keeps serve (λ (_ : happening) s, s) chat_keeps_refl chat_every_serve
    (λ _, chat_keeps_refl) l x Hx) as H.
  destruct l as [c|i|i|i|e]; [| | | |destruct x; split; [done|right; by exists e]].
  - split; [apply (H (Spawn c))|left; apply (H (Spawn c))].
  - split; [apply (H (Run i))|left; apply (H (Run i))].
  - split; [apply (H (Break i))|left; apply (H (Break i))].
  - split; [apply (H (Lose i))|left; apply (H (Lose i))].
Qed.

(** The state after the first [n] steps. *)
Definition moment (ls : schedule) (s0 : chat) (n : nat) : chat := run (take n ls) s0.

(** Between two moments an event deletes the room, or a player, of the message. *)
Definition message_deleted ls s0 n n' (m : RoomMessage) : Prop :=
  ∃ i e, n ≤ i < n' ∧ ls !! i = Some (Event e) ∧ message_gone m (moment ls s0 i) (moment ls s0 (S i)) = true.
Definition dm_deleted ls s0 n n' (m : DirectMessage) : Prop :=
  ∃ i e, n ≤ i < n' ∧ ls !! i = Some (Event e) ∧ dm_gone m (moment ls s0 i) (moment ls s0 (S i)) = true.

Lemma moments_every ls s0 n : n ≤ length ls →
  Forall (every keeps) (Programs.run serve happen (take n ls) (s0, [])).2 ∧
  ∀ n0, n0 ≤ n →
    (∀ id m, room_messages (moment ls s0 n0) !! id = Some m →
      message_stays (moment ls s0 n) id m ∨ message_deleted ls s0 n0 n m) ∧
    (∀ id m, direct_messages (moment ls s0 n0) !! id = Some m →
      dm_stays (moment ls s0 n) id m ∨ dm_deleted ls s0 n0 n m).
Proof.
  induction n as [|n IH]; intros Hn.
  { split; [constructor|]. intros n0 ->%Nat.le_0_r. destruct (chat_keeps_refl (moment ls s0 0)) as [H1 H2]. split; eauto. }
  destruct IH as [Hps IH]; [lia|]. destruct (lookup_lt_is_Some_2 ls n) as [l Hl]; [lia|].
  destruct (chat_exec l _ Hps) as [Hps' Hstep].
  assert (E : exec serve happen l (Programs.run serve happen (take n ls) (s0, [])) =
    Programs.run serve happen (take (S n) ls) (s0, [])) by (by rewrite (take_S_r _ _ _ Hl); unfold Programs.run; rewrite foldl_app).
  rewrite E in Hps', Hstep. fold (run (take n ls) s0) (run (take (S n) ls) s0) in Hstep.
  fold (moment ls s0 n) (moment ls s0 (S n)) in Hstep. split; [done|]. intros n0 Hn0.
  destruct (decide (n0 = S n)) as [->|Hne].
  { destruct (chat_keeps_refl (moment ls s0 (S n))) as [H1 H2]. split; eauto. }
  destruct (IH n0) as [IH1 IH2]; [lia|]. split; intros id m Hm.
  - destruct (IH1 id m Hm) as [(m1 & Hm1 & Hs1)|(i & e & ? & ?)]; [|right; exists i, e; split; [lia|done]].
    assert (message_stays (moment ls s0 (S n)) id m1 ∨ ∃ e, l = Event e ∧
      message_gone m1 (moment ls s0 n) (moment ls s0 (S n)) = true) as [(m2 & Hm2 & Hs2)|(e & -> & Hg)].
    { destruct Hstep as [[H1 _]|(e & -> & ->)]; [left; eauto|]. destruct (proj1 (happen_stays e _) id m1 Hm1); eauto. }
    + left. exists m2. split; [done|]. by eapply message_trans.
    + right. exists n, e. split_and!; [lia|lia|done|]. rewrite <-Hg. unfold message_gone.
      by destruct Hs1 as [(-> & -> & _) _].
  - destruct (IH2 id m Hm) as [(m1 & Hm1 & Hs1)|(i & e & ? & ?)]; [|right; exists i, e; split; [lia|done]].
    assert (dm_stays (moment ls s0 (S n)) id m1 ∨ ∃ e, l = Event e ∧
      dm_gone m1 (moment ls s0 n) (moment ls s0 (S n)) = true) as [(m2 & Hm2 & Hs2)|(e & -> & Hg)].
    { destruct Hstep as [[_ H1]|(e & -> & ->)]; [left; eauto|]. destruct (proj2 (happen_stays e _) id m1 Hm1); eauto. }
    + left. exists m2. split; [done|]. by eapply dm_trans.
    + right. exists n, e. split_and!; [lia|lia|done|]. rewrite <-Hg. unfold dm_gone.
      by destruct Hs1 as [(-> & -> & _) _].
Qed.

(** ** Who writes, reads and moderates *)

Section Entitled.
Context (s0 : chat) (ls : schedule).
Abbreviation past := (past serve happen ls (s0, [])).
Abbreviation failed := (failed ls).

Definition claims_of (r : request) : option Claims :=
  raw ← cookie r; match VerifyToken secret raw with Ok c => Some c | Err _ => None end.

(** A request of the run whose claims and route satisfy [Q]. *)
Definition asked (Q : Claims → route → Prop) : Prop :=
  ∃ r c, Spawn r ∈ ls ∧ claims_of r = Some c ∧ Q c (to r).

Definition names (raw : string) (u : uuid) : Prop := uuid_Parse raw = Some u.
Definition is_manager (c : Claims) : Prop := UsersApi.hasRole (ClaimRole c) RoleManager = true.
Definition is_owner (c : Claims) : Prop := UsersApi.hasRole (ClaimRole c) RoleOwner = true.

(** Its author sent the message while seated in its room and while chat was enabled. *)
Definition posted (m : RoomMessage) : Prop :=
  RM_Content m ≠ "" ∧
  asked (λ c t, PlayerID c = RM_PlayerID m ∧ ∃ raw, t = PostRoomMessage raw (Some (RM_Content m)) ∧ names raw (RM_RoomID m)) ∧
  (∃ s, past s ∧ seated (RM_RoomID m) (RM_PlayerID m) s = true) ∧ (∃ s, past s ∧ chat_enabled s = true).

Definition befriended (a b : uuid) (s : chat) : Prop :=
  ∃ k f, Users.friendships (T s) !! k = Some f ∧ Users.Status f = "accepted" ∧
    ((Users.RequesterID f = a ∧ Users.AddresseeID f = b) ∨ (Users.RequesterID f = b ∧ Users.AddresseeID f = a)).

(** The receiver takes messages from the sender, unless a command has failed. *)
Definition welcome (a b : uuid) : Prop :=
  failed ∨ (∃ s, past s ∧ allows b s ≠ "nobody" ∧ allows b s ≠ "friends_only") ∨
  (∃ s s', past s ∧ past s' ∧ allows b s = "friends_only" ∧ befriended a b s').

Definition written (m : DirectMessage) : Prop :=
  DM_Content m ≠ "" ∧ SenderID m ≠ ReceiverID m ∧
  asked (λ c t, PlayerID c = SenderID m ∧ ∃ raw, t = PostDM raw (Some (DM_Content m)) ∧ names raw (ReceiverID m)) ∧
  welcome (SenderID m) (ReceiverID m) ∧ (∃ s, past s ∧ chat_enabled s = true).

Definition hidden_by_manager (id : uuid) : Prop :=
  asked (λ c t, is_manager c ∧ ∃ room raw, t = DeleteRoomMessage room raw ∧ names raw id).
Definition read_by (p id : uuid) : Prop := asked (λ c t, PlayerID c = p ∧ ∃ raw, t = PostRead raw ∧ names raw id).

Definition messages_ok (s : chat) : Prop :=
  ∀ id m, room_messages s !! id = Some m →
    ((∃ m0, room_messages s0 !! id = Some m0 ∧ same_message m0 m) ∨ posted m) ∧
    (RM_Hidden m = true → (∃ m0, room_messages s0 !! id = Some m0 ∧ RM_Hidden m0 = true) ∨ hidden_by_manager id).
Definition dms_ok (s : chat) : Prop :=
  ∀ id m, direct_messages s !! id = Some m →
    ((∃ m0, direct_messages s0 !! id = Some m0 ∧ same_dm m0 m) ∨ written m) ∧
    (is_Some (ReadAt m) → (∃ m0, direct_messages s0 !! id = Some m0 ∧ ReadAt m0 = ReadAt m) ∨ read_by (ReceiverID m) id).

Definition stored (m : RoomMessage) : Prop := ∃ s id, past s ∧ room_messages s !! id = Some m.
Definition stored_dm (id : uuid) (m : DirectMessage) : Prop := ∃ s, past s ∧ direct_messages s !! id = Some m.

(** What is published goes to those it is for. *)
Definition announced (ch : Gateway.channel) (t : Gateway.text) : Prop :=
  ∃ typ payload, t = Gateway.Envelope false (Gateway.Message typ payload) ∧
  ((∃ m, stored m ∧ ch = Gateway.RoomChannelKey (RM_RoomID m) ∧ typ = eventChatMessage ∧ payload = chat_message time_JSON m) ∨
   (∃ room id, ch = Gateway.RoomChannelKey room ∧ typ = eventChatMessageHidden ∧ payload = message_id id ∧ hidden_by_manager id) ∨
   (∃ id m, stored_dm id m ∧ ch = Gateway.PlayerChannelKey (ReceiverID m) ∧ typ = eventDMReceived ∧
      payload = dm_received time_JSON m (SenderID m)) ∨
   (∃ id m, stored_dm id m ∧ ch = Gateway.PlayerChannelKey (SenderID m) ∧ typ = eventDMRead ∧
      payload = message_id id ∧ read_by (ReceiverID m) id)).

(** What an answer shows to the caller. *)
Definition shows (c : Claims) (t : route) (b : content) : Prop :=
  match b with
  | B_message m => PlayerID c = RM_PlayerID m ∧ stored m
  | B_messages items total => ∃ room raw lim off, t = GetRoomMessages_ raw lim off ∧ names raw room ∧
      (∃ s, past s ∧ seated room (PlayerID c) s = true) ∧ (∀ m, m ∈ items → stored m ∧ RM_RoomID m = room) ∧
      ∃ s, past s ∧ total = length (messages_of room s)
  | B_dm m => PlayerID c = SenderID m ∧ ∃ id, stored_dm id m
  | B_dms l => ∀ m, m ∈ l → (∃ id, stored_dm id m) ∧ (takes_part (PlayerID c) m = true ∨ is_owner c)
  | B_count n => ∃ raw s, t = GetUnread raw ∧ names raw (PlayerID c) ∧ past s ∧
      n = length (Users.values (unread (PlayerID c)) (direct_messages s))
  | B_conversations l => ∀ x, x ∈ l → ∃ s id m, past s ∧ direct_messages s !! id = Some m ∧
      takes_part (PlayerID c) m = true ∧ OtherPlayerID x = other (PlayerID c) m ∧ LastMessage x = DM_Content m ∧
      LastMessageAt x = DM_CreatedAt m ∧ UnreadCount x = length (Users.values
        (λ m, unread (PlayerID c) m && bool_decide (SenderID m = OtherPlayerID x)) (direct_messages s))
  | B_error _ | B_empty => True
  end.
Definition good (r : request) (resp : response content) : Prop :=
  match Middleware.body resp with
  | B_error _ | B_empty => True
  | b => ∃ c, claims_of r = Some c ∧ shows c (to r) b
  end.

Record sound (s : chat) : Prop := {
  S_messages : messages_ok s;
  S_dms : dms_ok s;
  S_published : ∀ ch t, (ch, t) ∈ published s → (ch, t) ∈ published s0 ∨ announced ch t;
  S_responses : ∀ r resp, (r, resp) ∈ responses s → (r, resp) ∈ responses s0 ∨ (Spawn r ∈ ls ∧ good r resp)
}.

Lemma chat_sound_start : sound s0.
Proof.
  split; [| |by left..]; intros id m Hm; (split; [left; eexists; by repeat split|]); left; eauto.
Qed.

Lemma sound_frame s s' :
  room_messages s' = room_messages s → direct_messages s' = direct_messages s →
  published s' = published s → responses s' = responses s → sound s → sound s'.
Proof.
  intros E1 E2 E3 E4 [H1 H2 H3 H4]. split; [|by unfold dms_ok; rewrite E2|by rewrite E3|by rewrite E4].
  unfold messages_ok. by rewrite E1.
Qed.

Lemma sound_cascade s s' : sound s' → sound (cascade s s').
Proof.
  intros [H1 H2 H3 H4]. split; [| |done..]; intros id m [Hm _]%map_lookup_filter_Some; [by apply H1|by apply H2].
Qed.

Lemma sound_message s id m :
  ((∃ m0, room_messages s0 !! id = Some m0 ∧ same_message m0 m) ∨ posted m) →
  (RM_Hidden m = true → (∃ m0, room_messages s0 !! id = Some m0 ∧ RM_Hidden m0 = true) ∨ hidden_by_manager id) →
  sound s → sound (set_room_messages (<[id := m]> (room_messages s)) s).
Proof.
  intros Hm Hh [H1 H2 H3 H4]. split; [|done..]. intros i x. cbn.
  intros [[<- <-]|[_ Hx]]%lookup_insert_Some; [done|by apply H1].
Qed.
Lemma sound_dm s id m :
  ((∃ m0, direct_messages s0 !! id = Some m0 ∧ same_dm m0 m) ∨ written m) →
  (is_Some (ReadAt m) → (∃ m0, direct_messages s0 !! id = Some m0 ∧ ReadAt m0 = ReadAt m) ∨ read_by (ReceiverID m) id) →
  sound s → sound (set_dms (<[id := m]> (direct_messages s)) s).
Proof.
  intros Hm Hh [H1 H2 H3 H4]. split; [done| |done..]. intros i x. cbn.
  intros [[<- <-]|[_ Hx]]%lookup_insert_Some; [done|by apply H2].
Qed.

Abbreviation wpc := (wpp serve happen ls (s0, []) sound).

Lemma wpc_statement {A} (c : chat → result error A * chat) (Φ : result error A → Prop) :
  (failed → Φ (Err (Driver "connection"))) →
  (∀ s, past s → sound s → past (c s).2 → sound (c s).2 ∧ Φ (c s).1) → wpc (statement c) Φ.
Proof. intros Hn Hc. apply wpp_bind, wpp_cmd; [done|]. exact Hc. Qed.

Lemma wpc_select {A} (f : chat → result error A) (Φ : result error A → Prop) :
  (failed → Φ (Err (Driver "connection"))) → (∀ s, past s → Φ (f s)) → wpc (select f) Φ.
Proof. intros Hn Hf. apply wpc_statement; [done|]. intros s HP HI _. split; [done|by apply Hf]. Qed.

Lemma wpc_flag (d : bool) f (Φ : bool → Prop) : (∀ s, past s → Φ (f s)) → wpc (local d (λ s, (f s, s))) Φ.
Proof. intros HΦ. apply wpp_local. intros s HP HI _. split; [done|by apply HΦ]. Qed.

Lemma wpc_or_fail {A} (p : prog chat (result error A)) st msg k (Φ : result error A → Prop) Ψ :
  wpc p Φ → Ψ (mkResponse st (B_error msg)) → (∀ a, Φ (Ok a) → wpc (k a) Ψ) → wpc (or_fail p st msg k) Ψ.
Proof. intros Hp He Hk. apply wpp_seq with Φ; [done|]. intros [a|e] Ha; [by apply Hk|done]. Qed.

Lemma wpc_publish ch typ payload (Φ : unit → Prop) :
  announced ch (Gateway.Envelope false (Gateway.Message typ payload)) → Φ tt → wpc (publish ch typ payload) Φ.
Proof.
  intros Ha HΦ. apply wpp_bind, wpp_cmd; [done|]. intros s _ [H1 H2 H3 H4] _. split; [|done].
  split; [done|done| |done]. cbn. intros ch' t' [Hin|Hin]%elem_of_app; [by apply H3|].
  apply list_elem_of_singleton in Hin as [= -> ->]. by right.
Qed.

Lemma good_error r st msg : good r (mkResponse st (B_error msg)).
Proof. done. Qed.
Lemma wpc_error r st msg : wpc (writeError st msg) (good r).
Proof. done. Qed.

(** *** Statements *)

Lemma wpc_SaveRoomMessage room p content :
  (∀ m, RM_RoomID m = room → RM_PlayerID m = p → RM_Content m = content → posted m) →
  wpc (SaveRoomMessage room p content) (λ r, ∀ m, r = Ok m → stored m ∧ RM_RoomID m = room ∧ RM_PlayerID m = p).
Proof.
  intros Hm. apply wpc_statement; [done|]. intros s HP HI HP'. cbn -[Users.player_exists] in *.
  destruct (_ || _); [by split; [apply (sound_frame s)|]|].
  destruct (room_messages s !! _) eqn:E; cbn in *; [by split; [apply (sound_frame s)|]|]. split.
  - apply (sound_message (next_id s).2); [right; by apply Hm|done|]. by apply (sound_frame s).
  - intros m [= <-]. split; [|done]. eexists _, _. split; [exact HP'|]. cbn. apply lookup_insert_eq.
Qed.

Lemma wpc_SaveDM a b content :
  (∀ m, SenderID m = a → ReceiverID m = b → DM_Content m = content → written m) →
  wpc (SaveDM a b content) (λ r, ∀ m, r = Ok m → (∃ id, stored_dm id m) ∧ SenderID m = a ∧ ReceiverID m = b).
Proof.
  intros Hm. apply wpc_statement; [done|]. intros s HP HI HP'. cbn -[Users.player_exists] in *.
  destruct (_ && _); [|by split; [apply (sound_frame s)|]].
  destruct (direct_messages s !! _) eqn:E; cbn in *; [by split; [apply (sound_frame s)|]|]. split.
  - apply (sound_dm (next_id s).2); [right; by apply Hm|by intros []|]. by apply (sound_frame s).
  - intros m [= <-]. split; [|done]. eexists _, _. split; [exact HP'|]. cbn. apply lookup_insert_eq.
Qed.

Lemma wpc_hide id : hidden_by_manager id → wpc (HideRoomMessage id) (λ _, True).
Proof.
  intros Hid. apply wpc_statement; [done|]. intros s HP HI _. destruct (room_messages s !! id) as [m|] eqn:E; [|done].
  split; [|done]. apply sound_message; [|by right|done].
  destruct (S_messages s HI id m E) as [[(m0 & H0 & Hs)|Hp] _]; [left; eauto|right; exact Hp].
Qed.
Lemma wpc_report id : wpc (ReportRoomMessage id) (λ _, True).
Proof.
  apply wpc_statement; [done|]. intros s HP HI _. destruct (room_messages s !! id) as [m|] eqn:E; [|done].
  split; [|done]. destruct (S_messages s HI id m E) as [Ho Hh]. apply sound_message; [|exact Hh|done].
  destruct Ho as [(m0 & H0 & Hs)|Hp]; [left; eauto|right; exact Hp].
Qed.

Lemma wpc_MarkDMRead id p : read_by p id →
  wpc (MarkDMRead id p) (λ r, ∀ a, r = Ok (Some a) → ∃ m, stored_dm id m ∧ SenderID m = a ∧ ReceiverID m = p).
Proof.
  intros Hid. apply wpc_statement; [done|]. intros s HP HI HP'.
  destruct (direct_messages s !! id) as [m|] eqn:E; [|done]. destruct (_ && _) eqn:Eb; [|done].
  apply andb_true_iff in Eb as [Er%bool_decide_eq_true _]. cbn in *. split.
  - destruct (S_dms s HI id m E) as [Ho Hh]. apply sound_dm; [|right; cbn; by rewrite Er|done].
    destruct Ho as [(m0 & H0 & Hs)|Hp]; [left; eauto|right; exact Hp].
  - intros a [= <-]. exists m. split; [by exists s|done].
Qed.
Lemma wpc_ReportDM id a b : wpc (ReportDM id a b) (λ _, True).
Proof.
  apply wpc_statement; [done|]. intros s HP HI _. destruct (direct_messages s !! id) as [m|] eqn:E; [|done].
  destruct (between a b m); [|done]. split; [|done]. destruct (S_dms s HI id m E) as [Ho Hh].
  apply sound_dm; [|exact Hh|done]. destruct Ho as [(m0 & H0 & Hs)|Hp]; [left; eauto|right; exact Hp].
Qed.

(** The user service answers "accepted" for friends. *)
Lemma wpc_AreFriends a b :
  wpc (AreFriends (uuid_String a) (uuid_String b)) (λ r, r = Some true → ∃ s, past s ∧ befriended a b s).
Proof.
  assert (Hq : ∀ (k : option unit → prog chat (option (result UsersApi.grpc_code UsersApi.grpc_reply))) Φ,
    (∀ x, wpc (k x) Φ) → wpc (read (λ _, tt) ≫= k) Φ).
  { intros k Φ Hk. apply wpp_seq with (λ _, True); [|by intros]. by apply wpp_cmd. }
  set (Ψ := λ resp : result UsersApi.grpc_code UsersApi.grpc_reply, match resp with
                    | Ok (UsersApi.G_friendship status _) => status = "accepted" → ∃ s, past s ∧ befriended a b s
                    | _ => True
                    end).
  apply wpp_seq with (λ resp, if resp is Some x then Ψ x else True).
  - apply Hq. intros [_x|]; [|done]. apply wpp_seq with Ψ.
    + unfold UsersApi.grpc_GetFriendship, UsersApi.grpc_id. rewrite !uuid_Parse_String.
      unfold UsersApi.or_internal, Users.GetFriendship, Users.query, Users.sql. split; [done|].
      intros s HP HI _. split; [by apply (sound_frame s)|].
      cbn. destruct (head _) as [f|] eqn:Ef; cbn; [|discriminate]. intros Hst.
      exists s. split; [done|]. apply head_Some_elem_of in Ef. unfold Users.values in Ef.
      apply list_elem_of_fmap in Ef as ([k f'] & -> & Hk). unfold rows in Hk.
      rewrite list_elem_of_filter in Hk. destruct Hk as [Hk1 Hk2]. apply elem_of_map_to_list in Hk2. cbn in *.
      exists k, f'. split; [done|]. split; [done|].
      apply orb_true_iff in Hk1 as [[E1%bool_decide_eq_true E2%bool_decide_eq_true]%andb_true_iff
        |[E1%bool_decide_eq_true E2%bool_decide_eq_true]%andb_true_iff]; auto.
    + intros x Hx. apply Hq. by intros [_y|].
  - intros [[[| | |]|]|] Hx; try done. cbn. intros [= E%bool_decide_eq_true]. by apply Hx.
Qed.

(** *** Handlers *)

Section Request.
Context (r : request) (c : Claims).
Hypothesis Hls : Spawn r ∈ ls.
Hypothesis Hc : claims_of r = Some c.

Lemma ask (Q : Claims → route → Prop) : Q c (to r) → asked Q.
Proof. intros HQ. by exists r, c. Qed.

Lemma wpc_parse raw msg k : (∀ u, names raw u → wpc (k u) (good r)) → wpc (parse_id raw msg k) (good r).
Proof. unfold parse_id. intros Hk. destruct (uuid_Parse raw) eqn:E; [by apply Hk|done]. Qed.

Lemma wpc_content b k :
  (∀ x, b = Some x → x ≠ "" → wpc (k x) (good r)) → wpc (require_content b k) (good r).
Proof. intros Hk. destruct b as [x|]; [|done]. cbn. destruct (decide _); [done|by apply Hk]. Qed.

Lemma wpc_fails {A} (p : prog chat (result error A)) st msg k (Φ : result error A → Prop) :
  wpc p Φ → (∀ a, Φ (Ok a) → wpc (k a) (good r)) → wpc (or_fail p st msg k) (good r).
Proof. intros Hp Hk. by eapply wpc_or_fail. Qed.

Lemma wpc_participant room msg k :
  ((∃ s, past s ∧ seated room (PlayerID c) s = true) → wpc k (good r)) →
  wpc (participant room (PlayerID c) msg k) (good r).
Proof.
  intros Hk. apply wpc_fails with (λ b, b = Ok true → ∃ s, past s ∧ seated room (PlayerID c) s = true).
  - apply wpc_select; [done|]. intros s HP [= E]. eauto.
  - intros [|] Hb; [by apply Hk, Hb|done].
Qed.

Lemma wpc_gate k : ((∃ s, past s ∧ chat_enabled s = true) → wpc k (good r)) → wpc (chatSendGate k) (good r).
Proof.
  intros Hk. apply wpp_seq with (λ b, b = true → ∃ s, past s ∧ chat_enabled s = true).
  - apply wpc_flag. eauto.
  - intros [|] Hb; [by apply Hk, Hb|done].
Qed.

Lemma wpc_privacy a b k : (welcome a b → wpc k (good r)) → wpc (privacy_gate a b k) (good r).
Proof.
  intros Hk. apply wpc_fails with (λ x, ∀ v, x = Ok v → failed ∨ ∃ s, past s ∧ allows b s = v).
  - apply wpp_seq with (λ x, match x with
      | Ok v => ∃ s, past s ∧ allows b s = v
      | Err _ => failed ∨ ∃ s, past s ∧ allows b s = "anyone"
      end).
    + apply wpc_select; [by left|]. intros s HP. destruct (Users.player_settings _ !! b) eqn:E; [eauto|].
      right. exists s. split; [done|]. unfold allows. by rewrite E.
    + intros [v|e] Hv w [= <-]; auto.
  - intros v Hv. destruct (Hv v eq_refl) as [Hf|(s & HP & Es)].
    { destruct (decide _); [done|]. destruct (decide _); [|by apply Hk; left].
      apply wpp_seq with (λ _, True); [by eapply wpp_conseq; [apply wpc_AreFriends|]|].
      intros [[|]|] _; [by apply Hk; left|done..]. }
    destruct (decide _) as [|Hn]; [done|]. destruct (decide _) as [Hy|Hn'].
    + eapply wpp_seq; [apply wpc_AreFriends|]. intros [[|]|] Hfr; [|done..].
      destruct (Hfr eq_refl) as (s' & HP' & Hb). apply Hk. right. right. exists s, s'. by rewrite Es, Hy.
    + apply Hk. right. left. exists s. by rewrite Es.
Qed.

Lemma wpc_answer st b : good r (mkResponse st b) → wpc (writeJSON st b) (good r).
Proof. done. Qed.
Lemma good_shown st b : shows c (to r) b → good r (mkResponse st b).
Proof. intros Hs. destruct b; try done; by exists c. Qed.

Lemma wpc_send_room room b : to r = PostRoomMessage room b → (∃ s, past s ∧ chat_enabled s = true) →
  wpc (handleSendRoomMessage time_JSON room b c) (good r).
Proof.
  intros Ht Hon. apply wpc_parse. intros u Hu. apply wpc_content. intros x -> Hx.
  apply wpc_participant. intros Hseat. eapply wpc_fails; [apply wpc_SaveRoomMessage|].
  - intros m <- Ep <-. split; [done|]. split; [|rewrite Ep; by split].
    apply ask. split; [done|]. eauto.
  - intros m Hm. destruct (Hm m eq_refl) as (Hst & Er & Ep).
    eapply wpp_seq; [apply (wpc_publish _ _ _ (λ _, True)); [|done]|].
    + eexists _, _. split; [done|]. left. exists m. by rewrite Er.
    + intros _ _. by apply wpc_answer, good_shown.
Qed.

Lemma wpc_get_room room l o : to r = GetRoomMessages_ room l o → wpc (handleGetRoomMessages room l o c) (good r).
Proof.
  intros Ht. apply wpc_parse. intros u Hu. apply wpc_participant. intros Hseat.
  eapply wpc_fails with (λ x, ∀ items, x = Ok items → ∀ m, m ∈ items → stored m ∧ RM_RoomID m = u).
  - apply wpc_select; [done|]. intros s HP items [= <-] m [k [Hk Hr%bool_decide_eq_true]]%elem_of_page_values.
    split; [by exists s, k|done].
  - intros items Hitems. apply wpc_fails with (λ x, ∀ n, x = Ok n → ∃ s, past s ∧ n = length (messages_of u s)).
    { apply wpc_select; [done|]. intros s HP n [= <-]. eauto. }
    intros total Htotal. apply wpc_answer, good_shown.
    exists u, room, l, o. split_and!; [done..|by apply Hitems|by apply Htotal].
Qed.

Lemma wpc_report_room room raw : wpc (handleReportRoomMessage room raw c) (good r).
Proof.
  apply wpc_parse. intros u _. apply wpc_parse. intros id _. apply wpc_participant. intros _.
  eapply wpc_fails; [apply wpc_report|]. by intros [] _.
Qed.

Lemma wpc_hide_room room raw : to r = DeleteRoomMessage room raw → is_manager c →
  wpc (handleHideRoomMessage room raw c) (good r).
Proof.
  intros Ht Hm. apply wpc_parse. intros u _. apply wpc_parse. intros id Hid.
  assert (Hh : hidden_by_manager id) by (apply ask; eauto).
  eapply wpc_fails; [by apply wpc_hide|]. intros [] _.
  eapply wpp_seq; [apply (wpc_publish _ _ _ (λ _, True)); [|done]|]; [|done].
  eexists _, _. split; [done|]. right. left. by exists u, id.
Qed.

Lemma wpc_send_dm p b : to r = PostDM p b → (∃ s, past s ∧ chat_enabled s = true) →
  wpc (handleSendDM time_JSON p b c) (good r).
Proof.
  intros Ht Hon. apply wpc_parse. intros u Hu. apply wpc_content. intros x -> Hx.
  destruct (decide _) as [|Hne]; [done|]. apply wpc_privacy. intros Hw.
  eapply wpp_seq; [apply wpc_SaveDM|].
  - intros m Ea <- <-. unfold written. rewrite Ea. split; [done|]. split; [done|]. split; [|by split].
    apply ask. eauto.
  - intros [m|e] Hm; [|by destruct (decide _)]. destruct (Hm m eq_refl) as ([id Hst] & Ea & Eb).
    eapply wpp_seq; [apply (wpc_publish _ _ _ (λ _, True)); [|done]|].
    + eexists _, _. split; [done|]. right. right. left. exists id, m. by rewrite Ea, Eb.
    + intros _ _. apply wpc_answer, good_shown. split; [done|by exists id].
Qed.

Lemma wpc_history p o l off : wpc (handleGetDMHistory p o l off c) (good r).
Proof.
  apply wpc_parse. intros u _. apply wpc_parse. intros v _. destruct (decide _) as [|Hent]; [done|].
  eapply wpc_fails with (λ x, ∀ items, x = Ok items → ∀ m, m ∈ items → (∃ id, stored_dm id m) ∧ between u v m = true).
  - apply wpc_select; [done|]. intros s HP items [= <-] m [k [Hk Hb]]%elem_of_page_values.
    split; [by exists k, s|done].
  - intros items Hi. apply wpc_answer, good_shown. intros m Hm. destruct (Hi items eq_refl m Hm) as [Hst Hb].
    split; [done|]. unfold takes_part, between, is_owner in *.
    destruct (UsersApi.hasRole (ClaimRole c) RoleOwner) eqn:Ho; [by right|]. left.
    assert (PlayerID c = u ∨ PlayerID c = v) as Hc' by (destruct (decide (PlayerID c = u)); [by left|];
      destruct (decide (PlayerID c = v)); [by right|]; by destruct Hent).
    apply orb_true_iff in Hb as [[E1%bool_decide_eq_true E2%bool_decide_eq_true]%andb_true_iff
      |[E1%bool_decide_eq_true E2%bool_decide_eq_true]%andb_true_iff];
      apply orb_true_iff; rewrite !bool_decide_eq_true, E1, E2; destruct Hc' as [->| ->]; auto.
Qed.

Lemma wpc_own p k : (names p (PlayerID c) → wpc (k (PlayerID c)) (good r)) → wpc (own p c k) (good r).
Proof. intros Hk. apply wpc_parse. intros u Hu. destruct (decide _) as [<-|]; [by apply Hk|done]. Qed.

Lemma conversation_shows p o s x : conversation p o s = Some x →
  ∃ id m, direct_messages s !! id = Some m ∧ takes_part p m = true ∧ OtherPlayerID x = other p m ∧
    LastMessage x = DM_Content m ∧ LastMessageAt x = DM_CreatedAt m ∧ UnreadCount x = length (Users.values
      (λ m, unread p m && bool_decide (SenderID m = OtherPlayerID x)) (direct_messages s)).
Proof.
  unfold conversation. destruct (Users.players (T s) !! o) as [y|]; [|done]. cbn.
  destruct (head _) as [m|] eqn:Eh; [|done]. cbn. intros [= <-]. cbn.
  apply head_Some_elem_of in Eh. unfold Users.order_by_desc, order_by in Eh. rewrite merge_sort_Permutation in Eh.
  apply elem_of_values in Eh as (k & Hk & [Hp Ho%bool_decide_eq_true]%andb_true_iff).
  exists k, m. by rewrite Ho.
Qed.

Lemma wpc_conversations p : wpc (handleListDMConversations p c) (good r).
Proof.
  apply wpc_own. intros _. eapply wpc_fails with (λ x, ∀ l, x = Ok l → shows c (to r) (B_conversations l)).
  - apply wpc_select; [done|]. intros s HP l [= <-] x Hx.
    unfold Users.order_by_desc, order_by in Hx. rewrite merge_sort_Permutation in Hx.
    apply list_elem_of_omap in Hx as (o & _ & (id & m & Hm)%conversation_shows). by exists s, id, m.
  - intros l Hl. by apply wpc_answer, good_shown, Hl.
Qed.

Lemma wpc_unread p : to r = GetUnread p → wpc (handleGetUnreadDMCount p c) (good r).
Proof.
  intros Ht. apply wpc_own. intros Hp. apply wpc_fails with (λ x, ∀ n, x = Ok n → shows c (to r) (B_count n)).
  - apply wpc_select; [done|]. intros s HP n [= <-]. by exists p, s.
  - intros n Hn. by apply wpc_answer, good_shown, Hn.
Qed.

Lemma wpc_mark_read raw : to r = PostRead raw → wpc (handleMarkDMRead raw c) (good r).
Proof.
  intros Ht. apply wpc_parse. intros id Hid. assert (Hr : read_by (PlayerID c) id) by (apply ask; eauto).
  eapply wpc_fails; [by apply wpc_MarkDMRead|]. intros [a|] Ha; [|done].
  destruct (Ha a eq_refl) as (m & Hst & Ea & Eb).
  eapply wpp_seq; [apply (wpc_publish _ _ _ (λ _, True)); [|done]|]; [|done].
  eexists _, _. split; [done|]. right. right. right. exists id, m. by rewrite Ea, Eb.
Qed.

Lemma wpc_report_dm p o b : wpc (handleReportDM p o b c) (good r).
Proof.
  apply wpc_parse. intros u _. apply wpc_parse. intros v _. destruct b as [raw|]; [|done].
  apply wpc_parse. intros id _. destruct (decide _); [done|].
  eapply wpc_fails; [apply wpc_ReportDM|]. by intros [] _.
Qed.

Lemma wpc_validate k : wpc k (good r) → wpc (validate r k) (good r).
Proof. intros Hk. unfold validate. by destruct (schema_ok r). Qed.

Lemma wpc_route : wpc (route_handler time_JSON r c) (good r).
Proof.
  unfold route_handler. destruct (to r) eqn:Ht.
  - apply wpc_gate. intros Hon. by apply wpc_validate, wpc_send_room.
  - by apply wpc_get_room.
  - apply wpc_report_room.
  - unfold requireRole. destruct (UsersApi.hasRole _ _) eqn:Hm; [by apply wpc_hide_room|done].
  - apply wpc_gate. intros Hon. by apply wpc_validate, wpc_send_dm.
  - apply wpc_conversations.
  - by apply wpc_unread.
  - apply wpc_history.
  - by apply wpc_mark_read.
  - apply wpc_validate, wpc_report_dm.
Qed.
End Request.

Lemma wpc_serve r : Spawn r ∈ ls → wpc (serve r) (λ _, True).
Proof.
  intros Hls. apply wpp_seq with (good r).
  - assert (Hreq : wpc (Require (M := prog chat) B_error secret (cookie r) (route_handler time_JSON r)) (good r)).
    { unfold Require. destruct (cookie r) as [raw|] eqn:Hck; [|done].
      destruct (VerifyToken secret raw) as [c|e] eqn:Hv; [|by destruct (decide _)].
      apply wpc_route; [done|]. unfold claims_of. by rewrite Hck; cbn; rewrite Hv. }
    unfold NewRouter, Maintenance. destruct (isMutation _); [|done].
    apply wpp_seq with (λ _, True); [by apply wpc_flag|]. by intros [|] _.
  - intros resp Hg. apply wpp_local. intros s HP [H1 H2 H3 H4] _. split; [|done].
    split; [done..|]. cbn. intros r' resp' [Hin|Hin]%elem_of_app; [by apply H4|].
    apply list_elem_of_singleton in Hin as [= -> ->]. by right.
Qed.

Lemma chat_run_sound : sound (run ls s0).
Proof.
  apply (run_past serve happen ls (s0, []) sound); [|apply wpc_serve|apply chat_sound_start|constructor].
  intros e s _ _ HI _. destruct e as [f|f|a b]; [apply sound_cascade, (sound_frame s); done..|by apply (sound_frame s)].
Qed.
End Entitled.

(** C32: Whatever requests interleave and whatever the other services do meanwhile: a
    message in a room was sent by its author with a valid token, while seated in the room
    and while chat was enabled; a direct message by its sender, to someone else who at the
    time took messages from anyone, or only from friends and was one, unless the check
    failed; only managers hide messages of rooms, and only the receiver reads a direct
    message. What is published goes to the room of the message, to its receiver, or, when
    read, to its sender. An answer shows messages of a room to those seated in it, direct
    messages to those who take part or to owners, and conversations and the number of
    unread messages, as they were at some time, to those whose they are. At every time, every
    message that is there is at the end still there, unchanged, not shown again once hidden
    and not unread once read, unless meanwhile the other services have deleted its room, its
    author or its receiver. *)
Theorem messages_entitled ls s0 : published s0 = [] → responses s0 = [] →
  let s := run ls s0 in
  messages_ok s0 ls s ∧ dms_ok s0 ls s ∧
  (∀ ch t, (ch, t) ∈ published s → announced s0 ls ch t) ∧
  (∀ r resp, (r, resp) ∈ responses s → Spawn r ∈ ls ∧ good s0 ls r resp) ∧
  (∀ n id m, n ≤ length ls → room_messages (moment ls s0 n) !! id = Some m →
    message_stays s id m ∨ message_deleted ls s0 n (length ls) m) ∧
  (∀ n id m, n ≤ length ls → direct_messages (moment ls s0 n) !! id = Some m →
    dm_stays s id m ∨ dm_deleted ls s0 n (length ls) m).
Proof.
  intros Hp Hr s. destruct (chat_run_sound s0 ls) as [H1 H2 H3 H4].
  destruct (moments_every ls s0 (length ls)) as [_ Hm]; [done|]. unfold moment in Hm at 2 4. rewrite firstn_all in Hm.
  split_and!; [done|done| | |intros n id m Hn; by apply Hm|intros n id m Hn; by apply Hm].
  - intros ch t Hin. destruct (H3 ch t Hin) as [Ho|]; [|done]. rewrite Hp in Ho. by apply elem_of_nil in Ho.
  - intros r resp Hin. destruct (H4 r resp Hin) as [Ho|]; [|done]. rewrite Hr in Ho. by apply elem_of_nil in Ho.
Qed.
End Spec.
