(* ===== verification/Notify.v ===== *)
(** The notification service (services/notification-service): the consumers that turn
    events into notifications, the inbox over HTTP, and the actions on notifications,
    which call the user service. Every statement is an atomic command over the tables. *)
From stdpp Require Import strings.
From S2P Require Import Prelude Json Backend Store Programs Middleware Users UsersApi Streams.
From S2P Require Import Gateway Web.
Import Programs Middleware Web.

Module Notify.

Definition StatusServiceUnavailable : Z := 503.

(** Times are in seconds. *)
Definition readNotificationCutoff : Z := 2592000.
Definition friendRequestExpiry : Z := 604800.
Definition dedupeTTL : Z := 86400.

Definition NotificationTypeFriendRequest : string := "friend_request".
Definition NotificationTypeFriendRequestAccepted : string := "friend_request_accepted".
Definition NotificationTypeRoomInvitation : string := "room_invitation".
Definition NotificationTypeBanIssued : string := "ban_issued".
Definition NotificationTypeAchievementUnlocked : string := "achievement_unlocked".

(** The CHECK of the column (migrations 001 and 006). *)
Definition valid_type (t : string) : bool :=
  bool_decide (t ∈ [NotificationTypeFriendRequest; NotificationTypeFriendRequestAccepted;
                    NotificationTypeRoomInvitation; NotificationTypeBanIssued; NotificationTypeAchievementUnlocked]).

Definition ErrActionUnavailable : error := Sentinel "notification action is no longer available".
Definition ErrDuplicateNotification : error := Sentinel "notification already exists for this source event".

(** ** Events (shared/events/events.go), as the consumers decode them *)

Record FriendshipRequested := mkRequested {
  FR_EventID : string; FR_RequesterID : string; FR_RequesterUsername : string; FR_AddresseeID : string
}.
Record FriendshipAccepted := mkAccepted {
  FA_EventID : string; FA_RequesterID : string; FA_AddresseeID : string; FA_AddresseeUsername : string
}.
Record AchievementUnlocked := mkUnlocked {
  AU_EventID : string; AU_PlayerID : string; AU_AchievementKey : string; AU_Tier : Z; AU_TierName : string
}.

(** ** Payloads (internal/store/store.go) *)

(** A payload that came over HTTP is known by what it decodes to as a friend request. *)
Inductive payload : Type :=
  | PayloadFriendRequest (FromPlayerID FromUsername : string)
  | PayloadFriendRequestAccepted (FromPlayerID FromUsername : string)
  | PayloadBanIssued (Reason : string) (DurationSecs : Z) (ExpiresAt : option Z)
  | PayloadAchievementUnlocked (AchievementKey : string) (Tier : Z) (TierName : string)
  | PayloadRaw (friend_request : option (string * string)).

(** [json.Unmarshal] into a [PayloadFriendRequest]: fields that are missing are empty. *)
Definition as_friend_request (p : payload) : option (string * string) :=
  match p with
  | PayloadFriendRequest f u | PayloadFriendRequestAccepted f u => Some (f, u)
  | PayloadRaw r => r
  | _ => Some ("", "")
  end.

Section Rows.
Context `{UUID}.
Record Notification := mkNotification {
  N_ID : uuid; N_PlayerID : uuid; N_Type : string; N_Payload : payload;
  N_ReadAt : option Z; ActionTaken : option string; ActionExpiresAt : option Z; N_CreatedAt : Z;
  SourceEventID : option uuid
}.
Record CreateParams := mkCreate {
  C_PlayerID : uuid; C_Type : string; C_Payload : payload; C_ActionExpiresAt : option Z; C_SourceEventID : option uuid
}.
End Rows.

Section Notify.
Context `{U : UUID} `{PG : !Users.Postgres} `{TOK : !JWT} `{RFC : !UsersApi.RFC3339}.

(** How a notification is spelled in JSON. *)
Context (notification_JSON : Notification → any).

Inductive route : Type :=
  | GetNotifications (playerID include_read limit offset : string)
  | PostRead (notificationID : string)
  | PostAccept (notificationID : string)
  | PostDecline (notificationID : string)
  | PostInternal (p : option CreateParams).
Record request := mkRequest { cookie : option string; to : route }.

Inductive content : Type :=
  | B_error (msg : string)
  | B_empty
  | B_notification (n : Notification)
  | B_list (items : list Notification) (total : nat).

(** The tables of the user service, the notifications, the keys of Redis with the time
    they expire, the flag, what has been published, which accepts have been sent to the
    user service and for which notification, and the answers given. *)
Record notif := mkNotif {
  T : Users.tables; notifications : gmap uuid Notification; dedup : gmap string Z; maintenance : bool;
  published : list (Gateway.channel * Gateway.text);
  calls : list (uuid * (uuid * uuid));
  responses : list (request * response content)
}.
Definition set_T v s := mkNotif v (notifications s) (dedup s) (maintenance s) (published s) (calls s) (responses s).
Definition set_notifications v s := mkNotif (T s) v (dedup s) (maintenance s) (published s) (calls s) (responses s).
Definition set_dedup v s := mkNotif (T s) (notifications s) v (maintenance s) (published s) (calls s) (responses s).
Definition set_maintenance v s := mkNotif (T s) (notifications s) (dedup s) v (published s) (calls s) (responses s).
Definition set_published v s := mkNotif (T s) (notifications s) (dedup s) (maintenance s) v (calls s) (responses s).
Definition set_calls v s := mkNotif (T s) (notifications s) (dedup s) (maintenance s) (published s) v (responses s).
Definition set_responses v s := mkNotif (T s) (notifications s) (dedup s) (maintenance s) (published s) (calls s) v.

Definition now (s : notif) : Z := Users.clock (T s).
Definition time_Now : prog notif Z := local 0%Z (λ s, (now s, s)).

(** ** The store (internal/store/store.go) *)

Definition statement {A} (c : notif → result error A * notif) : prog notif (result error A) :=
  r ← cmd c; mret (default (Err (Driver "connection")) r).
Definition select {A} (f : notif → result error A) : prog notif (result error A) := statement (λ s, (f s, s)).

(** The unique index on player and source event. *)
Definition duplicate (playerID : uuid) (source : option uuid) (s : notif) : bool :=
  match source with
  | None => false
  | Some e => negb (bool_decide (Users.values (λ n, bool_decide (N_PlayerID n = playerID)
                && bool_decide (SourceEventID n = Some e)) (notifications s) = []))
  end.

Definition insert_notification (p : CreateParams) (s : notif) : result error Notification * notif :=
  let id := Users.gen_random_uuid (Users.generated (T s)) in
  let s := set_T (Users.set_generated (S (Users.generated (T s))) (T s)) s in
  if negb (valid_type (C_Type p)) then (Err (Wrap "notification store: create" (Driver "check")), s)
  else if negb (is_none (notifications s !! id)) || duplicate (C_PlayerID p) (C_SourceEventID p) s
  then (Err ErrDuplicateNotification, s)
  else if negb (Users.player_exists (C_PlayerID p) (T s))
  then (Err (Wrap "notification store: create" (Driver "foreign key")), s)
  else
    let n := mkNotification id (C_PlayerID p) (C_Type p) (C_Payload p) None None (C_ActionExpiresAt p) (now s)
               (C_SourceEventID p) in
    (Ok n, set_notifications (<[id := n]> (notifications s)) s).
Definition Create (p : CreateParams) : prog notif (result error Notification) := statement (insert_notification p).

Definition Get (id : uuid) : prog notif (result error Notification) :=
  select (λ s, match notifications s !! id with
               | Some n => Ok n
               | None => Err (Wrap "notification store: get" Users.ErrNoRows)
               end).

(** Unread, or read after the cutoff when those are included. *)
Definition listed (playerID : uuid) (includeRead : bool) (readCutoff : Z) (n : Notification) : bool :=
  bool_decide (N_PlayerID n = playerID)
  && match N_ReadAt n with None => true | Some t => includeRead && (readCutoff <? t)%Z end.
Definition List (playerID : uuid) (includeRead : bool) (readCutoff limit offset : Z)
    : prog notif (result error (list Notification)) :=
  select (λ s, Ok (page limit offset (Users.order_by_desc N_CreatedAt
    (Users.values (listed playerID includeRead readCutoff) (notifications s))))).
Definition CountNotifications (playerID : uuid) (includeRead : bool) (readCutoff : Z) : prog notif (result error nat) :=
  select (λ s, Ok (length (Users.values (listed playerID includeRead readCutoff) (notifications s)))).

Definition with_read (t : Z) (n : Notification) : Notification :=
  mkNotification (N_ID n) (N_PlayerID n) (N_Type n) (N_Payload n) (Some t) (ActionTaken n) (ActionExpiresAt n)
    (N_CreatedAt n) (SourceEventID n).
Definition MarkRead (id : uuid) : prog notif (result error unit) :=
  statement (λ s, (Ok tt,
    match notifications s !! id with
    | Some n => if is_none (N_ReadAt n)
                then set_notifications (<[id := with_read (now s) n]> (notifications s)) s else s
    | None => s
    end)).

Definition with_action (a : string) (n : Notification) : Notification :=
  mkNotification (N_ID n) (N_PlayerID n) (N_Type n) (N_Payload n) (N_ReadAt n) (Some a) (ActionExpiresAt n)
    (N_CreatedAt n) (SourceEventID n).
Definition open (t : Z) (n : Notification) : bool :=
  is_none (ActionTaken n) && match ActionExpiresAt n with None => true | Some e => (t <? e)%Z end.
Definition SetAction (id : uuid) (action : string) : prog notif (result error unit) :=
  statement (λ s,
    match notifications s !! id with
    | Some n => if open (now s) n
                then (Ok tt, set_notifications (<[id := with_action action n]> (notifications s)) s)
                else (Err ErrActionUnavailable, s)
    | None => (Err ErrActionUnavailable, s)
    end).

(** ** Events for clients (internal/publisher/publisher.go) *)

Definition EventNotificationReceived : string := "notification_received".
Definition PublishToPlayer (playerID : uuid) (n : Notification) : prog notif unit :=
  ignore (write (λ s, set_published (published s ++
    [(Gateway.PlayerChannelKey playerID, Gateway.Message EventNotificationReceived (notification_JSON n))]) s)).

(** ** The consumers (internal/consumer/consumer.go) *)

Definition dedupeKeyPrefix : string := "dedup:notification-service:".

(** [SET key 1 NX EX ttl]: whether the key existed. *)
Definition set_nx (key : string) (ttl : Z) (s : notif) : bool * notif :=
  match dedup s !! key with
  | Some t => if (now s <? t)%Z then (true, s) else (false, set_dedup (<[key := (now s + ttl)%Z]> (dedup s)) s)
  | None => (false, set_dedup (<[key := (now s + ttl)%Z]> (dedup s)) s)
  end.

(** An error of Redis counts as not seen. *)
Definition seenEvent (eventID : string) : prog notif bool :=
  if decide (eventID = "") then mret false
  else r ← cmd (set_nx (dedupeKeyPrefix +:+ eventID) dedupeTTL); mret (default false r).

Definition parseSourceEventID (eventID : string) : option uuid :=
  if decide (eventID = "") then None else uuid_Parse eventID.

(** What the four handlers have in common: the event is marked, then the notification is
    created; a duplicate is a success. *)
Definition create_and_publish (p : CreateParams) : prog notif (result error unit) :=
  r ← Create p;
  match r with
  | Err e => mret (if decide (e = ErrDuplicateNotification) then Ok tt else Err (Wrap "create" e))
  | Ok n => PublishToPlayer (C_PlayerID p) n;; mret (Ok tt)
  end.
Definition unless_seen (eventID : string) (k : prog notif (result error unit)) : prog notif (result error unit) :=
  seen ← seenEvent eventID; if seen : bool then mret (Ok tt) else k.

Definition parse {A} (raw what : string) (k : uuid → prog notif (result error A)) : prog notif (result error A) :=
  match uuid_Parse raw with Some u => k u | None => mret (Err (Plain ("invalid " +:+ what))) end.
Definition decoded {E A} (evt : option E) (k : E → prog notif (result error A)) : prog notif (result error A) :=
  match evt with Some e => k e | None => mret (Err (Plain "unmarshal")) end.

Definition handleFriendshipRequested (evt : option FriendshipRequested) : prog notif (result error unit) :=
  decoded evt (λ evt, parse (FR_AddresseeID evt) "addressee_id" (λ addresseeID,
    unless_seen (FR_EventID evt) (
    t ← time_Now;
    create_and_publish (mkCreate addresseeID NotificationTypeFriendRequest
      (PayloadFriendRequest (FR_RequesterID evt) (FR_RequesterUsername evt))
      (Some (t + friendRequestExpiry)%Z) (parseSourceEventID (FR_EventID evt)))))).

Definition handleFriendshipAccepted (evt : option FriendshipAccepted) : prog notif (result error unit) :=
  decoded evt (λ evt, parse (FA_RequesterID evt) "requester_id" (λ requesterID,
    parse (FA_AddresseeID evt) "addressee_id" (λ addresseeID,
    unless_seen (FA_EventID evt) (
    create_and_publish (mkCreate requesterID NotificationTypeFriendRequestAccepted
      (PayloadFriendRequestAccepted (uuid_String addresseeID) (FA_AddresseeUsername evt)) None
      (parseSourceEventID (FA_EventID evt))))))).

(** A permanent ban has the zero time and no duration. *)
Definition handlePlayerBanned (evt : option Events.PlayerBanned) : prog notif (result error unit) :=
  decoded evt (λ evt, parse (Events.Ban_PlayerID evt) "player_id" (λ playerID,
    unless_seen (Events.Ban_EventID evt) (
    let create d e := create_and_publish (mkCreate playerID NotificationTypeBanIssued
      (PayloadBanIssued (Events.Reason evt) d e) None (parseSourceEventID (Events.Ban_EventID evt))) in
    match Events.ExpiresAt evt with
    | None => create 0%Z None
    | Some raw =>
        match UsersApi.ParseRFC3339 raw with
        | None => mret (Err (Plain "parse expires_at"))
        | Some e => t ← time_Now; create (e - t)%Z (Some e)
        end
    end))).

Definition handleAchievementUnlocked (evt : option AchievementUnlocked) : prog notif (result error unit) :=
  decoded evt (λ evt, parse (AU_PlayerID evt) "player_id" (λ playerID,
    unless_seen (AU_EventID evt) (
    create_and_publish (mkCreate playerID NotificationTypeAchievementUnlocked
      (PayloadAchievementUnlocked (AU_AchievementKey evt) (AU_Tier evt) (AU_TierName evt)) None
      (parseSourceEventID (AU_EventID evt)))))).

(** ** The user service (internal/api/executor.go) *)

Definition AcceptFriendRequest (n requesterID addresseeID : uuid) : prog notif (result error unit) :=
  local tt (λ s, (tt, set_calls (calls s ++ [(n, (requesterID, addresseeID))]) s));;
  resp ← remote T set_T (UsersApi.grpc_AcceptFriendRequest (uuid_String requesterID) (uuid_String addresseeID));
  mret (match resp with Some (Ok _) => Ok tt | _ => Err (Plain "grpc AcceptFriendRequest") end).

(** ** Handlers (internal/api/api.go) *)

Abbreviation handler := (prog notif (response content)).

Definition writeJSON (status : Z) (b : content) : handler := mret (mkResponse status b).
Definition writeError (status : Z) (msg : string) : handler := Middleware.writeError (M := prog notif) B_error status msg.
Definition noContent : handler := writeJSON StatusNoContent B_empty.
Definition or_500 {A} (p : prog notif (result error A)) (k : A → handler) : handler :=
  r ← p; match r with Ok x => k x | Err _ => writeError StatusInternalServerError "internal_error" end.

Definition list_ (playerID include_read limit offset : string) (c : Claims) : handler :=
  match uuid_Parse playerID with
  | None => writeError StatusBadRequest "invalid_input"
  | Some p =>
      if decide (PlayerID c ≠ p) then writeError StatusForbidden "forbidden"
      else
        let includeRead := bool_decide (include_read = "true") in
        t ← time_Now;
        let cutoff := (t - readNotificationCutoff)%Z in
        or_500 (List p includeRead cutoff (limit_param 100 20 limit) (offset_param offset)) (λ items,
        or_500 (CountNotifications p includeRead cutoff) (λ total,
        writeJSON StatusOK (B_list items total)))
  end.

(** The notification of the path, when it is the caller's. *)
Definition own_notification (raw : string) (c : Claims) (k : uuid → Notification → handler) : handler :=
  match uuid_Parse raw with
  | None => writeError StatusBadRequest "invalid_input"
  | Some id =>
      r ← Get id;
      match r with
      | Err _ => writeError StatusNotFound "notification not found"
      | Ok n => if decide (N_PlayerID n ≠ PlayerID c) then writeError StatusNotFound "notification not found" else k id n
      end
  end.

Definition markRead (raw : string) (c : Claims) : handler :=
  own_notification raw c (λ id n, or_500 (MarkRead id) (λ _, noContent)).

Definition executeAcceptSideEffect (id : uuid) (n : Notification) : prog notif (result error unit) :=
  if decide (N_Type n = NotificationTypeFriendRequest) then
    match as_friend_request (N_Payload n) with
    | None => mret (Err (Plain "unmarshal friend_request payload"))
    | Some (from, _) => parse from "from_player_id" (λ requesterID, AcceptFriendRequest id requesterID (N_PlayerID n))
    end
  else mret (Ok tt).

(** The error of the side effect is only logged. *)
Definition takeAction (action raw : string) (c : Claims) : handler :=
  own_notification raw c (λ id n,
    if decide (N_Type n = NotificationTypeBanIssued) then
      writeError StatusUnprocessableEntity "this notification type does not support actions"
    else
      r ← SetAction id action;
      match r with
      | Err e => if errors_Is e ErrActionUnavailable
                 then writeError StatusConflict "notification action is no longer available"
                 else writeError StatusInternalServerError "internal_error"
      | Ok _ =>
          ignore (MarkRead id);;
          (if decide (action = "accepted") then ignore (executeAcceptSideEffect id n) else mret tt);;
          noContent
      end).
Definition accept : string → Claims → handler := takeAction "accepted".
Definition decline : string → Claims → handler := takeAction "declined".

Definition create (p : option CreateParams) (_ : Claims) : handler :=
  match p with
  | None => writeError StatusBadRequest "invalid_input"
  | Some p =>
      or_500 (Create p) (λ n, PublishToPlayer (N_PlayerID n) n;; writeJSON StatusCreated (B_notification n))
  end.

Definition method_of (t : route) : method := match t with GetNotifications _ _ _ _ => GET | _ => POST end.

Definition RegisterRoutes (t : route) : Claims → handler :=
  match t with
  | GetNotifications p i l o => list_ p i l o
  | PostRead n => markRead n
  | PostAccept n => accept n
  | PostDecline n => decline n
  | PostInternal p => create p
  end.

(** cmd/server/main.go *)
Definition router (secret : string) (r : request) : handler :=
  Maintenance maintenance (method_of (to r)) (writeError StatusServiceUnavailable "maintenance")
    (Require (M := prog notif) B_error secret (cookie r) (RegisterRoutes (to r))).

(** ** The service *)

Inductive call : Type :=
  | Http (r : request)
  | Requested (evt : option FriendshipRequested)
  | Accepted (evt : option FriendshipAccepted)
  | Banned (evt : option Events.PlayerBanned)
  | Unlocked (evt : option AchievementUnlocked).

(** ** The events of the user service (user-service/internal/api/publisher.go)

    What its publisher puts on the queue and the stream for an event of its outbox, and
    so what the consumers decode. Every event has an id of its own. *)

Definition newMeta (id : uuid) : string := uuid_String id.

Definition PublishFriendshipRequested (id requesterID : uuid) (requesterUsername : string) (addresseeID : uuid)
    : FriendshipRequested :=
  mkRequested (newMeta id) (uuid_String requesterID) requesterUsername (uuid_String addresseeID).
(** The name of who has accepted is not set. *)
Definition PublishFriendshipAccepted (id requesterID addresseeID : uuid) : FriendshipAccepted :=
  mkAccepted (newMeta id) (uuid_String requesterID) (uuid_String addresseeID) "".
Definition PublishPlayerBanned (id : uuid) (ban : Users.Ban) : Events.PlayerBanned :=
  Events.mkPlayerBanned (newMeta id) (uuid_String (Users.Ban_PlayerID ban)) (uuid_String (Users.BanID ban))
    (uuid_String (Users.BannedBy ban)) (default "" (Users.Ban_Reason ban))
    (UsersApi.FormatRFC3339 <$> Users.ExpiresAt ban).

(** Broadcasts and lifted bans have other receivers, or none. *)
Definition delivered (id : uuid) (e : Users.event) : option call :=
  match e with
  | Users.FriendshipRequested r name a => Some (Requested (Some (PublishFriendshipRequested id r name a)))
  | Users.FriendshipAccepted r a => Some (Accepted (Some (PublishFriendshipAccepted id r a)))
  | Users.PlayerBanned b => Some (Banned (Some (PublishPlayerBanned id b)))
  | Users.PlayerUnbanned _ _ _ | Users.AdminBroadcastSent _ _ _ => None
  end.

(** A message that is delivered again is another call. *)
Definition serve (secret : string) (c : call) : prog notif unit :=
  match c with
  | Http r =>
      resp ← router secret r;
      local tt (λ s, (tt, set_responses (responses s ++ [(r, resp)]) s))
  | Requested evt => ignore (handleFriendshipRequested evt)
  | Accepted evt => ignore (handleFriendshipAccepted evt)
  | Banned evt => ignore (handlePlayerBanned evt)
  | Unlocked evt => ignore (handleAchievementUnlocked evt)
  end.

Inductive happening : Type :=
  | Users_change (f : Users.tables → Users.tables)
  | Redis_change (f : gmap string Z → gmap string Z)
  | Flag_change (on : bool).
Definition happen (e : happening) (s : notif) : notif :=
  match e with
  | Users_change f => set_T (f (T s)) s
  | Redis_change f => set_dedup (f (dedup s)) s
  | Flag_change b => set_maintenance b s
  end.
End Notify.
End Notify.
