(* ===== verification/NotifySpec.v ===== *)
(** The notification service: where notifications come from, who reads them and acts on
    them, and that an accepted friend request is passed on at most once, whatever events
    are delivered how often, whatever requests interleave and whatever fails. The call
    that accepts a notification owns it from then on ([Ownership]). *)
From stdpp Require Import strings.
From S2P Require Import Prelude Json Backend Store Programs Ownership Middleware Users.
From S2P Require Import UsersApi Streams.
From S2P Require Import Gateway Web Notify.
Import Programs Ownership Middleware Web Notify.

Section Spec.
Context `{U : UUID} `{PG : !Users.Postgres} `{TOK : !JWT} `{RFC : !UsersApi.RFC3339}.
Context (notification_JSON : Notification → any) (secret : string).

Abbreviation serve := (serve notification_JSON secret).
Abbreviation schedule := (list (label call happening)).
Definition run (ls : schedule) (s : notif) : notif := (Programs.run serve happen ls (s, [])).1.

Definition names (raw : string) (u : uuid) : Prop := uuid_Parse raw = Some u.

(** ** What stays *)

Definition same_origin (n n' : Notification) : Prop :=
  N_PlayerID n' = N_PlayerID n ∧ N_Type n' = N_Type n ∧ N_Payload n' = N_Payload n ∧ SourceEventID n' = SourceEventID n.

(** No notification is deleted or rewritten, an action and a reading are final, and no
    call is forgotten. *)
Definition goes_on (s s' : notif) : Prop :=
  (∀ id n, notifications s !! id = Some n → ∃ n', notifications s' !! id = Some n' ∧ same_origin n n' ∧
     (is_Some (ActionTaken n) → ActionTaken n' = ActionTaken n) ∧ (is_Some (N_ReadAt n) → N_ReadAt n' = N_ReadAt n)) ∧
  calls s `prefix_of` calls s'.

Lemma goes_on_same s s' : notifications s' = notifications s → calls s' = calls s → goes_on s s'.
Proof. intros E1 E2. unfold goes_on. rewrite E1, E2. split; [|done]. intros id n Hn. eexists. by repeat split. Qed.
Lemma goes_on_refl s : goes_on s s.
Proof. by apply goes_on_same. Qed.
Lemma goes_on_trans s s' s'' : goes_on s s' → goes_on s' s'' → goes_on s s''.
Proof.
  intros [H1 C1] [H2 C2]. split; [|by etrans]. intros id n Hn.
  destruct (H1 id n Hn) as (n' & Hn' & (? & ? & ? & ?) & Ha & Hr).
  destruct (H2 id n' Hn') as (n'' & Hn'' & (? & ? & ? & ?) & Ha' & Hr').
  exists n''. split; [done|]. split; [repeat split; congruence|]. split.
  - intros Hs. rewrite <-(Ha Hs). apply Ha'. by rewrite (Ha Hs).
  - intros Hs. rewrite <-(Hr Hs). apply Hr'. by rewrite (Hr Hs).
Qed.

Lemma goes_on_insert id n s :
  (∀ n0, notifications s !! id = Some n0 → same_origin n0 n ∧
     (is_Some (ActionTaken n0) → ActionTaken n = ActionTaken n0) ∧ (is_Some (N_ReadAt n0) → N_ReadAt n = N_ReadAt n0)) →
  goes_on s (set_notifications (<[id := n]> (notifications s)) s).
Proof.
  intros Hn. split; [|done]. intros i n0 Hi. cbn. destruct (decide (id = i)) as [<-|Hne].
  - rewrite lookup_insert_eq. eauto.
  - rewrite lookup_insert_ne by done. eexists. by repeat split.
Qed.

(** Accepted notifications are what calls own; of them, whether they have been passed on. *)
Definition accepted (s : notif) : gset uuid :=
  dom (filter (λ kv, ActionTaken kv.2 = Some "accepted") (notifications s)).
Definition passed_on (id : uuid) (s : notif) : bool := bool_decide (id ∈ (calls s).*1).

Lemma elem_of_accepted id s :
  id ∈ accepted s ↔ ∃ n, notifications s !! id = Some n ∧ ActionTaken n = Some "accepted".
Proof.
  unfold accepted. rewrite elem_of_dom. split.
  - intros [n Hn]. apply map_lookup_filter_Some in Hn as [Hn Ha]. by exists n.
  - intros (n & Hn & Ha). exists n. by apply map_lookup_filter_Some.
Qed.

Lemma goes_on_accepted s s' : goes_on s s' → accepted s ⊆ accepted s'.
Proof.
  intros [H _] id. rewrite !elem_of_accepted. intros (n & Hn & Ha).
  destruct (H id n Hn) as (n' & Hn' & _ & Ha' & _). exists n'. split; [done|]. by rewrite Ha' by (rewrite Ha; eauto).
Qed.

(** ** Reasons *)

Section Reasons.
Context (s0 : notif) (ls : schedule).

Definition claims_of (r : request) : option Claims :=
  raw ← cookie r; match VerifyToken secret raw with Ok c => Some c | Err _ => None end.
Definition asked (Q : Claims → route → Prop) : Prop :=
  ∃ r c, Spawn (Http r) ∈ ls ∧ claims_of r = Some c ∧ Q c (to r).

(** What may be created: what an event says, or what a request with a valid token asks for. *)
Inductive due : CreateParams → Prop :=
  | due_requested evt a e : Spawn (Requested (Some evt)) ∈ ls → names (FR_AddresseeID evt) a →
      due (mkCreate a NotificationTypeFriendRequest (PayloadFriendRequest (FR_RequesterID evt) (FR_RequesterUsername evt))
             e (parseSourceEventID (FR_EventID evt)))
  | due_accepted evt r a e : Spawn (Accepted (Some evt)) ∈ ls → names (FA_RequesterID evt) r → names (FA_AddresseeID evt) a →
      due (mkCreate r NotificationTypeFriendRequestAccepted
             (PayloadFriendRequestAccepted (uuid_String a) (FA_AddresseeUsername evt)) e (parseSourceEventID (FA_EventID evt)))
  | due_banned evt p d x e : Spawn (Banned (Some evt)) ∈ ls → names (Events.Ban_PlayerID evt) p →
      due (mkCreate p NotificationTypeBanIssued (PayloadBanIssued (Events.Reason evt) d x) e
             (parseSourceEventID (Events.Ban_EventID evt)))
  | due_unlocked evt p e : Spawn (Unlocked (Some evt)) ∈ ls → names (AU_PlayerID evt) p →
      due (mkCreate p NotificationTypeAchievementUnlocked
             (PayloadAchievementUnlocked (AU_AchievementKey evt) (AU_Tier evt) (AU_TierName evt)) e
             (parseSourceEventID (AU_EventID evt)))
  | due_internal p : asked (λ _ t, t = PostInternal (Some p)) → due p.

Definition made_from (p : CreateParams) (n : Notification) : Prop :=
  N_PlayerID n = C_PlayerID p ∧ N_Type n = C_Type p ∧ N_Payload n = C_Payload p ∧ SourceEventID n = C_SourceEventID p.

(** The recipient has taken the action, or has read. *)
Definition acted (p id : uuid) (a : string) : Prop :=
  asked (λ c t, PlayerID c = p ∧ ∃ raw, names raw id ∧ (t = PostAccept raw ∧ a = "accepted" ∨ t = PostDecline raw ∧ a = "declined")).
Definition read_by (p id : uuid) : Prop := asked (λ c t, PlayerID c = p ∧ ∃ raw, names raw id ∧ t = PostRead raw).

(** The recipient has accepted a friend request, which names the requester. *)
Definition consented (id r a : uuid) (s : notif) : Prop :=
  acted a id "accepted" ∧ ∃ n from u, notifications s !! id = Some n ∧ N_PlayerID n = a ∧
    N_Type n = NotificationTypeFriendRequest ∧ ActionTaken n = Some "accepted" ∧
    as_friend_request (N_Payload n) = Some (from, u) ∧ names from r.

Definition good (r : request) (resp : response content) : Prop :=
  match Middleware.body resp with
  | B_list items _ => ∃ c, claims_of r = Some c ∧ ∀ n, n ∈ items → N_PlayerID n = PlayerID c
  | _ => True
  end.

Record sound (s : notif) : Prop := {
  S_unique : ∀ i j n m e, notifications s !! i = Some n → notifications s !! j = Some m →
    N_PlayerID n = N_PlayerID m → SourceEventID n = Some e → SourceEventID m = Some e → i = j;
  S_origin : ∀ id n, notifications s !! id = Some n →
    (∃ n0, notifications s0 !! id = Some n0 ∧ same_origin n0 n) ∨ ∃ p, due p ∧ made_from p n;
  S_action : ∀ id n a, notifications s !! id = Some n → ActionTaken n = Some a →
    (∃ n0, notifications s0 !! id = Some n0 ∧ ActionTaken n0 = Some a) ∨ acted (N_PlayerID n) id a;
  S_read : ∀ id n, notifications s !! id = Some n → is_Some (N_ReadAt n) →
    (∃ n0, notifications s0 !! id = Some n0 ∧ is_Some (N_ReadAt n0)) ∨ read_by (N_PlayerID n) id ∨ ∃ a, acted (N_PlayerID n) id a;
  S_calls : ∀ id r a, (id, (r, a)) ∈ calls s → consented id r a s;
  S_once : NoDup (calls s).*1;
  S_responses : ∀ r resp, (r, resp) ∈ responses s → (r, resp) ∈ responses s0 ∨ (Spawn (Http r) ∈ ls ∧ good r resp)
}.

Definition initial : Prop :=
  calls s0 = [] ∧ ∀ i j n m e, notifications s0 !! i = Some n → notifications s0 !! j = Some m →
    N_PlayerID n = N_PlayerID m → SourceEventID n = Some e → SourceEventID m = Some e → i = j.

Lemma sound_initial : initial → sound s0.
Proof.
  intros [Hc Hu]. split; [exact Hu|..].
  - intros id n Hn. left. exists n. by repeat split.
  - intros id n a Hn Ha. left. eauto.
  - intros id n Hn Hr. left. eauto.
  - intros id r a Hin. rewrite Hc in Hin. by apply elem_of_nil in Hin.
  - rewrite Hc. constructor.
  - by left.
Qed.

Lemma notify_quiet s s' :
  notifications s' = notifications s → calls s' = calls s → responses s' = responses s → sound s → sound s'.
Proof.
  intros E1 E2 E3 []. split; rewrite ?E1, ?E2, ?E3; try done.
  intros id r a Hin. unfold consented. rewrite E1. by apply S_calls0.
Qed.

(** A row that is there is updated, within what its recipient has asked for. *)
Lemma sound_update s id n n' :
  notifications s !! id = Some n → same_origin n n' →
  (is_Some (ActionTaken n) → ActionTaken n' = ActionTaken n) →
  (∀ a, ActionTaken n' = Some a → ActionTaken n = Some a ∨ acted (N_PlayerID n) id a) →
  (is_Some (N_ReadAt n') → is_Some (N_ReadAt n) ∨ read_by (N_PlayerID n) id ∨ ∃ a, acted (N_PlayerID n) id a) →
  sound s → sound (set_notifications (<[id := n']> (notifications s)) s).
Proof.
  intros Hn (Ep & Et & Ey & Es) Hkeep Ha Hr [H1 H2 H3 H4 H5 H6 H7]. split; [..|exact H6|exact H7]; cbn.
  - assert (Hold : ∀ i x, <[id := n']> (notifications s) !! i = Some x →
      ∃ y, notifications s !! i = Some y ∧ N_PlayerID x = N_PlayerID y ∧ SourceEventID x = SourceEventID y).
    { intros i x [[<- <-]|[_ Hx]]%lookup_insert_Some; eauto. }
    intros i j x y e (x0 & Hx & Ex & Ex')%Hold (y0 & Hy & Ey0 & Ey')%Hold Exy E1 E2.
    eapply (H1 i j x0 y0 e); congruence.
  - intros i x [[<- <-]|[_ Hx]]%lookup_insert_Some; [|by apply H2].
    destruct (H2 id n Hn) as [(n0 & Hn0 & (? & ? & ? & ?))|(p & Hp & (? & ? & ? & ?))].
    + left. exists n0. split; [done|]. repeat split; congruence.
    + right. exists p. split; [done|]. repeat split; congruence.
  - intros i x a [[<- <-]|[_ Hx]]%lookup_insert_Some; [|by apply H3].
    intros Hx. rewrite Ep. destruct (Ha a Hx) as [Hold|]; [|by right]. by eapply H3.
  - intros i x [[<- <-]|[_ Hx]]%lookup_insert_Some; [|by apply H4].
    intros Hx. rewrite Ep. destruct (Hr Hx) as [Hold|]; [|by right]. by apply H4.
  - intros i r a Hin. destruct (H5 i r a Hin) as [Hact (x & from & u & Hx & Hp & Ht & Hax & Hreq & Hfrom)].
    split; [done|]. cbn. destruct (decide (id = i)) as [<-|Hne].
    + simplify_eq. exists n', from, u. rewrite lookup_insert_eq. split_and!; try congruence.
      rewrite Hkeep by (rewrite Hax; eauto). done.
    + exists x, from, u. by rewrite lookup_insert_ne.
Qed.

(** A new row. *)
Lemma sound_new s id n p :
  notifications s !! id = None → due p → made_from p n → ActionTaken n = None → N_ReadAt n = None →
  duplicate (N_PlayerID n) (SourceEventID n) s = false →
  sound s → sound (set_notifications (<[id := n]> (notifications s)) s).
Proof.
  intros Hid Hp Hn Ha Hr Hdup [H1 H2 H3 H4 H5 H6 H7]. split; [..|exact H6|exact H7]; cbn.
  - assert (Hno : ∀ i x e, notifications s !! i = Some x → N_PlayerID x = N_PlayerID n →
      SourceEventID n = Some e → SourceEventID x = Some e → False).
    { intros i x e Hx Ex En Es. unfold duplicate in Hdup. rewrite En in Hdup.
      apply negb_false_iff, bool_decide_eq_true in Hdup. unfold Users.values in Hdup.
      apply fmap_nil_inv in Hdup. assert (Hin : (i, x) ∈ []); [|by apply elem_of_nil in Hin].
      rewrite <-Hdup. unfold rows. apply list_elem_of_filter. split; [|by apply elem_of_map_to_list].
      cbn. by rewrite Ex, Es, !bool_decide_eq_true_2. }
    intros i j x y e [[<- <-]|[_ Hx]]%lookup_insert_Some [[<- <-]|[_ Hy]]%lookup_insert_Some Exy E1 E2;
      [done|exfalso; by eapply Hno|exfalso; by eapply Hno|by eapply H1].
  - intros i x [[<- <-]|[_ Hx]]%lookup_insert_Some; [right; eauto|by apply H2].
  - intros i x a [[<- <-]|[_ Hx]]%lookup_insert_Some; [by rewrite Ha|by apply H3].
  - intros i x [[<- <-]|[_ Hx]]%lookup_insert_Some; [rewrite Hr; by intros []|by apply H4].
  - intros i r a Hin. destruct (H5 i r a Hin) as [Hact (x & from & u & Hx & Hrest)].
    split; [done|]. exists x, from, u. cbn. rewrite lookup_insert_ne by congruence. done.
Qed.

(** ** Commands *)

Abbreviation wpn := (wpo sound goes_on accepted passed_on).
Abbreviation others_ := (others goes_on passed_on).
Abbreviation mine_ := (mine goes_on accepted passed_on).

Lemma others_trans_ own s s' s'' : others_ own s s' → others_ own s' s'' → others_ own s s''.
Proof. apply others_trans, goes_on_trans. Qed.
Lemma others_refl_ own s : others_ own s s.
Proof. apply others_refl, goes_on_refl. Qed.

(** A program that returns to its own objects, with a result in [Ψ]. *)
Definition plain {A} (own : gset uuid) (s : notif) (Ψ : A → Prop) (a : A) (own' : gset uuid) (s' : notif) : Prop :=
  own' = own ∧ others_ own s s' ∧ Ψ a.

Lemma wpn_seq {A B} (p : prog notif A) (f : A → prog notif B) own s (Ψ : A → Prop) Φ :
  wpn p own s (plain own s Ψ) → (∀ a s', others_ own s s' → Ψ a → wpn (f a) own s' Φ) → wpn (p ≫= f) own s Φ.
Proof.
  intros Hp Hf. apply wpo_bind. eapply wpo_conseq; [exact Hp|]. intros a own' s' (-> & Ho & Ha). by apply Hf.
Qed.

(** A step that changes neither actions nor calls. *)
Definition keeps_calls (s s' : notif) : Prop :=
  goes_on s s' ∧ calls s' = calls s ∧ accepted s' = accepted s.

Lemma keeps_calls_others own s s' : keeps_calls s s' → others_ own s s'.
Proof. intros (H1 & H2 & _). split; [done|]. intros id _. unfold passed_on. by rewrite H2. Qed.
Lemma keeps_calls_mine own s s' : keeps_calls s s' → mine_ own s s'.
Proof. intros (H1 & H2 & _). split; [done|]. intros id _ _. unfold passed_on. by rewrite H2. Qed.

Lemma wpn_cmd {R} (c : notif → R * notif) own s (Ψ : option R → Prop) :
  (∀ s', sound s' → sound (c s').2 ∧ keeps_calls s' (c s').2 ∧ Ψ (Some (c s').1)) → Ψ None →
  wpn (cmd c) own s (plain own s Ψ).
Proof.
  intros Hc Hn. apply wpo_step. intros s' Ho HI. destruct (Hc s' HI) as (H1 & H2 & H3).
  assert (Ho' : others_ own s (c s').2) by (eapply others_trans_; [exact Ho|by apply keeps_calls_others]).
  split; [apply H2|]. split; [done|]. split; [by apply keeps_calls_mine|]. cbn. unfold plain. auto.
Qed.

Lemma wpn_local {R} (d : R) (c : notif → R * notif) own s (Ψ : R → Prop) :
  (∀ s', sound s' → sound (c s').2 ∧ keeps_calls s' (c s').2 ∧ Ψ (c s').1) →
  wpn (local d c) own s (plain own s Ψ).
Proof.
  intros Hc. apply wpo_local. intros s' Ho HI. destruct (Hc s' HI) as (H1 & H2 & H3).
  split; [apply H2|]. split; [done|]. split; [by apply keeps_calls_mine|]. split; [done|]. split; [|done].
  eapply others_trans_; [exact Ho|by apply keeps_calls_others].
Qed.

Lemma wpn_statement {A} (c : notif → result error A * notif) own s (Ψ : result error A → Prop) :
  (∀ s', sound s' → sound (c s').2 ∧ keeps_calls s' (c s').2 ∧ Ψ (c s').1) → Ψ (Err (Driver "connection")) →
  wpn (statement c) own s (plain own s Ψ).
Proof.
  intros Hc Hn. apply wpo_bind. eapply wpo_conseq.
  - apply (wpn_cmd c own s (λ r, Ψ (default (Err (Driver "connection")) r))); [exact Hc|exact Hn].
  - intros [r|] own' s' (-> & Ho & Hr); by split_and!.
Qed.

Lemma keeps_calls_refl s : keeps_calls s s.
Proof. split; [apply goes_on_refl|done]. Qed.
Lemma keeps_calls_same s s' : notifications s' = notifications s → calls s' = calls s → keeps_calls s s'.
Proof. intros E1 E2. split; [by apply goes_on_same|]. split; [done|]. unfold accepted. by rewrite E1. Qed.

Lemma wpn_select {A} (f : notif → result error A) own s (Ψ : result error A → Prop) :
  (∀ s', Ψ (f s')) → Ψ (Err (Driver "connection")) → wpn (select f) own s (plain own s Ψ).
Proof. intros Hf. apply wpn_statement. intros s' HI. split; [done|]. split; [apply keeps_calls_refl|apply Hf]. Qed.

(** A program that leaves the notifications, the calls and the answers alone. *)
Definition elsewhere (s s' : notif) : Prop :=
  notifications s' = notifications s ∧ calls s' = calls s ∧ responses s' = responses s.

Lemma wpn_elsewhere {A} (p : prog notif A) own s :
  every elsewhere p → wpn p own s (plain own s (λ _, True)).
Proof.
  assert (Hg : ∀ s1, others_ own s s1 → every elsewhere p → wpn p own s1 (plain own s (λ _, True)));
    [|by apply Hg, others_refl_].
  induction p as [a|R b c k IH]; intros s1 Hs1 Hp; [done|]. destruct Hp as [Hc Hk].
  apply wpo_step. intros s' Ho HI. destruct (Hc s') as (E1 & E2 & E3).
  assert (Hkc : keeps_calls s' (c s').2) by by apply keeps_calls_same.
  assert (Ho1 : others_ own s s') by (by eapply others_trans_).
  assert (Ho2 : others_ own s (c s').2) by (eapply others_trans_; [exact Ho1|by apply keeps_calls_others]).
  split; [apply Hkc|]. split; [by apply (notify_quiet s')|]. split; [by apply keeps_calls_mine|]. split; [by apply IH|].
  intros _. split; by apply IH.
Qed.
Lemma elsewhere_T d s : elsewhere s (set_T d s).
Proof. done. Qed.

Lemma accepted_insert s id n n' :
  notifications s !! id = n → (∀ x, n = Some x → (ActionTaken x = Some "accepted" ↔ ActionTaken n' = Some "accepted")) →
  (n = None → ActionTaken n' = None) →
  accepted (set_notifications (<[id := n']> (notifications s)) s) = accepted s.
Proof.
  intros Hn Hsame Hnew. apply set_eq. intros i. rewrite !elem_of_accepted. cbn. split.
  - intros (x & [[<- <-]|[Hne Hx]]%lookup_insert_Some & Ha); [|by exists x].
    destruct n as [y|]; [exists y; split; [done|by apply (Hsame y)]|]. rewrite Hnew in Ha by done. done.
  - intros (x & Hx & Ha). destruct (decide (id = i)) as [<-|Hne].
    + exists n'. rewrite lookup_insert_eq. split; [done|]. rewrite Hx in Hn. by apply (Hsame x).
    + exists x. by rewrite lookup_insert_ne.
Qed.

(** ** Statements *)

Lemma wpn_Create p own s : due p → wpn (Create p) own s (plain own s (λ _, True)).
Proof.
  intros Hp. apply wpn_statement; [|done]. intros s' HI. unfold insert_notification. cbv zeta.
  set (s1 := set_T _ s'). assert (H1 : sound s1) by by apply (notify_quiet s').
  assert (Hq : keeps_calls s' s1) by by apply keeps_calls_same.
  destruct (negb (valid_type _)); [by split|].
  destruct (_ || duplicate _ _ _) eqn:Ed; [by split|]. apply orb_false_iff in Ed as [Eid Ed].
  destruct (negb (Users.player_exists _ _)); [by split|].
  assert (Hid : notifications s1 !! Users.gen_random_uuid (Users.generated (T s')) = None).
  { destruct (notifications s1 !! _); done. }
  cbn [fst snd]. split; [|split; [|done]].
  - by eapply sound_new.
  - split; [|split; [done|]].
    + eapply goes_on_trans; [apply Hq|]. apply (goes_on_insert _ _ s1). intros n0 Hn0. congruence.
    + rewrite (accepted_insert s1 _ None); [apply Hq|done..].
Qed.

(** A notification that is there goes on to be so. *)
Definition has (id : uuid) (n : Notification) (s : notif) : Prop :=
  ∃ n', notifications s !! id = Some n' ∧ same_origin n n'.
Lemma has_later id n s s' : goes_on s s' → has id n s → has id n s'.
Proof.
  intros [H _] (n1 & Hn1 & (? & ? & ? & ?)). destruct (H id n1 Hn1) as (n2 & Hn2 & (? & ? & ? & ?) & _).
  exists n2. split; [done|]. repeat split; congruence.
Qed.

Lemma wpn_Get id own s :
  wpn (Get id) own s (λ r own' s', own' = own ∧ others_ own s s' ∧ ∀ n, r = Ok n → has id n s').
Proof.
  apply wpo_bind. eapply wpo_conseq.
  - apply wpo_read; [exact goes_on_refl|]. intros s' Ho HI.
    instantiate (1 := λ r own' s', own' = own ∧ others_ own s s' ∧
      ∀ n, default (Err (Driver "connection")) r = Ok n → has id n s'). cbn.
    split; split_and!; try done. intros n. destruct (notifications s' !! id) as [x|] eqn:E; [|done].
    intros [= <-]. exists x. by repeat split.
  - by intros r own' s' (-> & Ho & Hn).
Qed.

Lemma wpn_MarkRead id n own s :
  has id n s → (read_by (N_PlayerID n) id ∨ ∃ a, acted (N_PlayerID n) id a) →
  wpn (MarkRead id) own s (plain own s (λ _, True)).
Proof.
  intros Hh Hr. assert (Hg : ∀ s', goes_on s s' → sound s' →
    let s'' := match notifications s' !! id with
               | Some n => if is_none (N_ReadAt n)
                           then set_notifications (<[id := with_read (now s') n]> (notifications s')) s' else s'
               | None => s'
               end in sound s'' ∧ keeps_calls s' s'').
  { intros s' Hs HI. apply (has_later _ _ _ _ Hs) in Hh as (x & Hx & (Ep & _)). rewrite Hx.
    destruct (N_ReadAt x) eqn:Erd; cbn; [split; [done|apply keeps_calls_refl]|]. split.
    - eapply sound_update; [exact Hx|by repeat split|done|by left| |done].
      intros _. rewrite Ep. right. by destruct Hr; [left|right].
    - split; [|split; [done|]].
      + apply goes_on_insert. intros n0 Hn0. simplify_eq. split; [by repeat split|]. split; [done|].
        rewrite Erd. by intros [].
      + eapply accepted_insert; [exact Hx|by intros y [= <-]|done]. }
  apply wpo_bind. eapply wpo_conseq.
  - apply wpo_step. intros s' Ho HI. destruct (Hg s' (proj1 Ho) HI) as [H1 H2].
    assert (Ho' : others_ own s (match notifications s' !! id with
               | Some n => if is_none (N_ReadAt n)
                           then set_notifications (<[id := with_read (now s') n]> (notifications s')) s' else s'
               | None => s' end)) by (eapply others_trans_; [exact Ho|by apply keeps_calls_others]).
    split; [apply H2|]. split; [exact H1|]. split; [by apply keeps_calls_mine|].
    instantiate (1 := λ _ own' s', own' = own ∧ others_ own s s'). cbn. auto.
  - by intros r own' s' (-> & Ho).
Qed.

(** Whoever accepts owns the notification, which nobody has passed on. *)
Definition mine_to_pass (id : uuid) (n : Notification) (own : gset uuid) (s : notif) : Prop :=
  id ∈ own ∧ passed_on id s = false ∧ ∃ n', notifications s !! id = Some n' ∧ same_origin n n' ∧ ActionTaken n' = Some "accepted".

Lemma mine_to_pass_later id n own s s' : others_ own s s' → mine_to_pass id n own s → mine_to_pass id n own s'.
Proof.
  intros [[H _] Hv] (Hid & Hp & n1 & Hn1 & (? & ? & ? & ?) & Ha). split; [done|]. split; [by rewrite Hv|].
  destruct (H id n1 Hn1) as (n2 & Hn2 & (? & ? & ? & ?) & Ha' & _). exists n2. split; [done|].
  split; [repeat split; congruence|]. by rewrite Ha' by (rewrite Ha; eauto).
Qed.

Lemma calls_accepted s id : sound s → passed_on id s = true → id ∈ accepted s.
Proof.
  intros HI Hp%bool_decide_eq_true. apply list_elem_of_fmap in Hp as ([i [r a]] & -> & Hin).
  destruct (S_calls _ HI i r a Hin) as [_ (n & ? & ? & Hn & _ & _ & Ha & _)].
  apply elem_of_accepted. by exists n.
Qed.

Lemma nothing_new (own x : gset uuid) : own ∪ (x ∖ x) = own.
Proof. set_solver. Qed.

Lemma wpn_SetAction id n a own s :
  has id n s → acted (N_PlayerID n) id a →
  wpn (SetAction id a) own s (λ r own' s', others_ own s s' ∧ has id n s' ∧ own ⊆ own' ∧
    (r = Ok tt → a = "accepted" → mine_to_pass id n own' s')).
Proof.
  intros Hh Hact. apply wpo_bind. unfold cmd. intros s' Ho HI. pose proof (has_later _ _ _ _ (proj1 Ho) Hh) as (x & Hx & Hxo).
  assert (Hh' : has id n s') by by exists x.
  rewrite Hx. destruct (open (now s') x) eqn:Eo; cbn.
  2: { split; [done|]. split; [apply mine_refl, goes_on_refl|]. rewrite nothing_new.
       assert (others_ own s s' ∧ has id n s' ∧ own ⊆ own) as (? & ? & ?) by done. by split_and!. }
  apply andb_true_iff in Eo as [Enone _]. destruct (ActionTaken x) as [|] eqn:Ea; [done|]. clear Enone.
  set (s'' := set_notifications _ s').
  assert (Hg : goes_on s' s'').
  { apply goes_on_insert. intros n0 Hn0. simplify_eq. split; [by repeat split|]. split; [|done].
    rewrite Ea. by intros []. }
  assert (Hs : others_ own s s'').
  { eapply others_trans_; [exact Ho|]. by split. }
  assert (Hh'' : has id n s'') by by eapply has_later.
  split; [|split; [by split|]].
  - eapply sound_update; [exact Hx|by repeat split|rewrite Ea; by intros []| |by left|done].
    cbn. intros a' [= <-]. right. by rewrite (proj1 Hxo).
  - assert (Hsub : own ⊆ own ∪ (accepted s'' ∖ accepted s')) by set_solver.
    assert (Hpass : a = "accepted" → mine_to_pass id n (own ∪ (accepted s'' ∖ accepted s')) s'').
    { intros ->. assert (Hnot : id ∉ accepted s').
      { rewrite elem_of_accepted. intros (y & Hy & Hay). congruence. }
      split; [|split].
      - apply elem_of_union. right. apply elem_of_difference. split; [|done]. apply elem_of_accepted.
        eexists. split; [cbn; apply lookup_insert_eq|done].
      - change (passed_on id s' = false). destruct (passed_on id s') eqn:Epass; [|done].
        by apply calls_accepted in Epass.
      - eexists. split; [cbn; apply lookup_insert_eq|]. by split. }
    split; [split_and!; auto|]. intros _. split; split_and!; try done.
Qed.

(** The request leaves, once: the notification is the call's own. *)
Lemma wpn_AcceptFriendRequest id n r own s from u :
  mine_to_pass id n own s → acted (N_PlayerID n) id "accepted" →
  N_Type n = NotificationTypeFriendRequest → as_friend_request (N_Payload n) = Some (from, u) → names from r →
  wpn (AcceptFriendRequest id r (N_PlayerID n)) own s (λ _ _ _, True).
Proof.
  intros Hm Hact Ht Hreq Hfrom. apply wpo_bind. eapply wpo_conseq.
  - apply wpo_local. intros s' Ho HI.
    destruct (mine_to_pass_later _ _ _ _ _ Ho Hm) as (Hid & Hp & x & Hx & (Ep & Et & Ey & _) & Ha).
    instantiate (1 := λ _ own' s', own' = own ∧ others_ own s' s'). cbn.
    set (s'' := set_calls _ s'). split; [done|].
    assert (Hnew : id ∉ (calls s').*1) by by apply bool_decide_eq_false in Hp.
    split; [|split; [|split; [done|apply others_refl_]]].
    + destruct HI as [H1 H2 H3 H4 H5 H6 H7]. split; [done|done|done|done| | |done]; cbn.
      * intros i q a [Hin|Hin]%elem_of_app; [by apply H5|]. apply list_elem_of_singleton in Hin as [= -> -> ->].
        split; [done|]. exists x, from, u. split_and!; [done|congruence..].
      * rewrite fmap_app. apply NoDup_app. split; [done|]. split; [|by apply NoDup_singleton].
        intros i Hi [= ->]%list_elem_of_singleton. done.
    + split; [split; [apply (goes_on_refl s')|by apply prefix_app_r]|].
      intros i Hi Hne. unfold passed_on. cbn. rewrite fmap_app. apply bool_decide_ext. rewrite elem_of_app.
      split; [intros [|Hin%list_elem_of_singleton]; [done|]|by left]. cbn in Hin. by subst.
  - intros _ own' s1 [-> _]. eapply wpn_seq; [apply wpn_elsewhere|done]. by apply every_remote.
Qed.

Lemma wpn_seenEvent e own s : wpn (seenEvent e) own s (plain own s (λ _, True)).
Proof.
  apply wpn_elsewhere. unfold seenEvent. destruct (decide _); [done|]. apply every_bind; [|done].
  apply every_cmd. intros s'. unfold set_nx. destruct (dedup s' !! _) as [t|]; [|done]. by destruct (_ <? _)%Z.
Qed.

Lemma wpn_PublishToPlayer p n own s : wpn (PublishToPlayer notification_JSON p n) own s (plain own s (λ _, True)).
Proof. apply wpn_elsewhere. apply every_bind; [|done]. by apply every_cmd. Qed.

Lemma wpn_time own s : wpn time_Now own s (plain own s (λ _, True)).
Proof. by apply wpn_elsewhere. Qed.

Lemma wpn_create_and_publish p own s : due p → wpn (create_and_publish notification_JSON p) own s (λ _ _ _, True).
Proof.
  intros Hp. eapply wpn_seq; [by apply wpn_Create|]. intros [n|e] s' Ho _; [|done].
  eapply wpn_seq; [apply wpn_PublishToPlayer|done].
Qed.

Lemma wpn_unless_seen e k own s :
  (∀ s', wpn k own s' (λ _ _ _, True)) → wpn (unless_seen e k) own s (λ _ _ _, True).
Proof. intros Hk. eapply wpn_seq; [apply wpn_seenEvent|]. by intros [|] s' _ _. Qed.

Lemma wpn_parse {A} raw what (k : uuid → prog notif (result error A)) own s Φ :
  (∀ e own' s', Φ (Err e) own' s') → (∀ u, names raw u → wpn (k u) own s Φ) → wpn (parse raw what k) own s Φ.
Proof. intros He Hk. unfold parse. destruct (uuid_Parse raw) eqn:E; [by apply Hk|by apply He]. Qed.

(** ** Handlers *)

Section Request.
Context (r : request) (c : Claims).
Hypothesis Hls : Spawn (Http r) ∈ ls.
Hypothesis Hc : claims_of r = Some c.

Abbreviation answers := (λ resp (_ : gset uuid) (_ : notif), good r resp).

Lemma wpn_or_500 {A} (p : prog notif (result error A)) k own s (Ψ : result error A → Prop) :
  wpn p own s (plain own s Ψ) → (∀ a s', Ψ (Ok a) → others_ own s s' → wpn (k a) own s' answers) →
  wpn (or_500 p k) own s answers.
Proof. intros Hp Hk. eapply wpn_seq; [exact Hp|]. intros [a|e] s' Ho Ha; [by apply Hk|done]. Qed.

Lemma wpn_own raw k own s :
  (∀ id n s', names raw id → N_PlayerID n = PlayerID c → has id n s' → wpn (k id n) own s' answers) →
  wpn (own_notification raw c k) own s answers.
Proof.
  intros Hk. unfold own_notification. destruct (uuid_Parse raw) as [id|] eqn:Hid; [|done].
  apply wpo_bind. eapply wpo_conseq; [apply wpn_Get|]. intros [n|e] own' s' (-> & Ho & Hn); [|done].
  destruct (decide _) as [|Hp]; [done|]. apply dec_stable in Hp. apply Hk; [done|done|by apply Hn].
Qed.

Lemma wpn_list p i l o own s : wpn (list_ p i l o c) own s answers.
Proof.
  unfold list_. destruct (uuid_Parse p) as [u|]; [|done]. destruct (decide _) as [|Hu]; [done|]. apply dec_stable in Hu. subst u.
  eapply wpn_seq; [apply wpn_time|]. intros t s1 _ _.
  eapply wpn_or_500 with (λ x, ∀ items, x = Ok items → ∀ n, n ∈ items → N_PlayerID n = PlayerID c).
  - apply wpn_select; [|done]. intros s' items [= <-] n (k & _ & Hk)%elem_of_page_values.
    by apply andb_true_iff in Hk as [Hk%bool_decide_eq_true _].
  - intros items s2 Hi _. eapply wpn_or_500 with (λ _, True); [by apply wpn_select|].
    intros total s3 _ _. exists c. split; [done|]. by apply Hi.
Qed.

Lemma wpn_markRead raw own s : to r = PostRead raw → wpn (markRead raw c) own s answers.
Proof.
  intros Ht. apply wpn_own. intros id n s' Hid Hp Hh. eapply wpn_or_500 with (λ _, True); [|done].
  eapply wpn_MarkRead; [exact Hh|]. left. exists r, c. split_and!; [done..|by exists raw].
Qed.

Lemma wpn_side_effect id n own s :
  acted (N_PlayerID n) id "accepted" → mine_to_pass id n own s →
  wpn (executeAcceptSideEffect id n) own s (λ _ _ _, True).
Proof.
  intros Hact Hm. unfold executeAcceptSideEffect. destruct (decide _) as [Ht|]; [|done].
  destruct (as_friend_request _) as [[from u]|] eqn:Er; [|done].
  apply wpn_parse; [done|]. intros q Hq. by eapply wpn_AcceptFriendRequest.
Qed.

Lemma wpn_takeAction a raw own s :
  (to r = PostAccept raw ∧ a = "accepted" ∨ to r = PostDecline raw ∧ a = "declined") →
  wpn (takeAction a raw c) own s answers.
Proof.
  intros Ht. apply wpn_own. intros id n s' Hid Hp Hh. destruct (decide _); [done|].
  assert (Hact : acted (N_PlayerID n) id a).
  { exists r, c. split_and!; [done..|exists raw; by split]. }
  apply wpo_bind. eapply wpo_conseq; [by apply wpn_SetAction|].
  intros [[]|e] own' s1 (_ & Hh1 & _ & Hm); [|by destruct (errors_Is _ _)].
  eapply wpn_seq with (λ _, True).
  { eapply wpn_seq; [eapply wpn_MarkRead; [exact Hh1|eauto]|]. by intros _ s2 Ho _. }
  intros _ s2 Ho _. destruct (decide (a = "accepted")) as [Ea|]; [|done].
  apply wpo_bind, wpo_bind. eapply wpo_conseq.
  - apply wpn_side_effect; [by rewrite <-Ea|]. eapply mine_to_pass_later; [exact Ho|]. by apply Hm.
  - done.
Qed.

Lemma wpn_internal p own s : to r = PostInternal p → wpn (create notification_JSON p c) own s answers.
Proof.
  intros Ht. destruct p as [p|]; [|done]. eapply wpn_or_500; [apply wpn_Create, due_internal; by exists r, c|].
  intros n s' _ _. eapply wpn_seq; [apply wpn_PublishToPlayer|done].
Qed.

Lemma wpn_route own s : wpn (RegisterRoutes notification_JSON (to r) c) own s answers.
Proof.
  destruct (to r) eqn:Ht; cbn [RegisterRoutes].
  - apply wpn_list.
  - by apply wpn_markRead.
  - apply wpn_takeAction. auto.
  - apply wpn_takeAction. auto.
  - by apply wpn_internal.
Qed.
End Request.

Lemma wpn_then {A} (Φ Ψ : A → gset uuid → notif → Prop) (p : prog notif A) own s :
  wpn p own s Φ → (∀ a own' s', Φ a own' s' → Ψ a own' s') → wpn p own s Ψ.
Proof. apply wpo_conseq. Qed.

Lemma wpn_consumer {E} (evt : option E) (k : E → prog notif (result error unit)) own s :
  (∀ e, evt = Some e → wpn (k e) own s (λ _ _ _, True)) →
  wpn (ignore (decoded evt k)) own s (λ _ _ _, True).
Proof.
  intros Hk. apply wpo_bind. apply (wpn_then (λ _ _ _, True)); [|done].
  destruct evt as [e|]; [by apply Hk|done].
Qed.

Lemma wpn_serve c own s : Spawn c ∈ ls → wpn (serve c) own s (λ _ _ _, True).
Proof.
  destruct c as [r|[evt|]|[evt|]|[evt|]|[evt|]]; intros Hls; try done;
    try (apply wpn_consumer; intros e [= <-]).
  - apply wpo_bind. apply (wpn_then (λ resp _ _, good r resp)).
    + assert (Hreq : ∀ s, wpn (Require (M := prog notif) B_error secret (cookie r) (RegisterRoutes notification_JSON (to r)))
        own s (λ resp _ _, good r resp)).
      { intros s1. unfold Require. destruct (cookie r) as [raw|] eqn:Hck; [|done].
        destruct (VerifyToken secret raw) as [c|e] eqn:Hv; [|by destruct (decide _)].
        apply wpn_route; [done|]. unfold claims_of. by rewrite Hck; cbn; rewrite Hv. }
      unfold router, Maintenance. destruct (isMutation _); [|done].
      eapply wpn_seq; [by apply wpn_elsewhere|]. by intros [|] s1 _ _.
    + intros resp own' s1 Hg. eapply wpn_then; [|done]. apply (wpn_local _ _ _ _ (λ _, True)). intros s' HI.
      split; [|split; [by apply keeps_calls_same|done]]. destruct HI as [H1 H2 H3 H4 H5 H6 H7].
      split; [done..|]. cbn. intros r' resp' [Hin|Hin]%elem_of_app; [by apply H7|].
      apply list_elem_of_singleton in Hin as [= -> ->]. by right.
  - apply wpn_parse; [done|]. intros u Hu. apply wpn_unless_seen. intros s1.
    eapply wpn_seq; [apply wpn_time|]. intros t s2 _ _. by apply wpn_create_and_publish, due_requested.
  - apply wpn_parse; [done|]. intros u Hu. apply wpn_parse; [done|]. intros v Hv. apply wpn_unless_seen. intros s1.
    by apply wpn_create_and_publish, due_accepted.
  - apply wpn_parse; [done|]. intros u Hu. apply wpn_unless_seen. intros s1.
    destruct (Events.ExpiresAt evt) as [raw|]; [|by apply wpn_create_and_publish, due_banned].
    destruct (UsersApi.ParseRFC3339 raw) as [e|]; [|done].
    eapply wpn_seq; [apply wpn_time|]. intros t s2 _ _. by apply wpn_create_and_publish, due_banned.
  - apply wpn_parse; [done|]. intros u Hu. apply wpn_unless_seen. intros s1.
    by apply wpn_create_and_publish, due_unlocked.
Qed.

Lemma run_notifications : initial → sound (run ls s0) ∧ goes_on s0 (run ls s0).
Proof.
  intros Hi. apply (run_owned sound goes_on accepted passed_on goes_on_refl goes_on_trans goes_on_accepted
    serve happen ls s0 [] []); [| |by apply sound_initial|].
  - intros e s _ HI. destruct e; (split; [by apply (notify_quiet s)|]); intros o _; split; by try apply goes_on_same.
  - intros c s Hls HI. by apply wpn_serve.
  - split; [constructor|]. by intros i j o o' Hi'.
Qed.
End Reasons.

(** C33: Whatever events are delivered, how often and to how many replicas, whatever
    requests interleave and whatever fails: no player has two notifications of one source
    event; a notification says what an event said to the player it is about, or was made
    through the internal endpoint by someone with a valid token; only its recipient acts
    on it or reads it, actions and readings are final, and nothing is deleted. An accept
    is passed on to the user service at most once for a notification, and only for a
    friend request that its addressee has accepted, with the requester that it names.
    A list shows the caller's notifications only. *)
Theorem notifications_entitled ls s0 : initial s0 → responses s0 = [] →
  let s := run ls s0 in
  (∀ i j n m e, notifications s !! i = Some n → notifications s !! j = Some m →
     N_PlayerID n = N_PlayerID m → SourceEventID n = Some e → SourceEventID m = Some e → i = j) ∧
  (∀ id n, notifications s !! id = Some n →
     ((∃ n0, notifications s0 !! id = Some n0 ∧ same_origin n0 n) ∨ ∃ p, due ls p ∧ made_from p n) ∧
     (∀ a, ActionTaken n = Some a →
        (∃ n0, notifications s0 !! id = Some n0 ∧ ActionTaken n0 = Some a) ∨ acted ls (N_PlayerID n) id a) ∧
     (is_Some (N_ReadAt n) → (∃ n0, notifications s0 !! id = Some n0 ∧ is_Some (N_ReadAt n0)) ∨
        read_by ls (N_PlayerID n) id ∨ ∃ a, acted ls (N_PlayerID n) id a)) ∧
  (∀ id r a, (id, (r, a)) ∈ calls s → consented ls id r a s) ∧ NoDup (calls s).*1 ∧
  (∀ r resp, (r, resp) ∈ responses s → Spawn (Http r) ∈ ls ∧ good r resp) ∧
  goes_on s0 s.
Proof.
  intros Hi Hr s. destruct (run_notifications s0 ls Hi) as [[H1 H2 H3 H4 H5 H6 H7] Hg].
  split_and!; [done| |done|done| |done].
  - intros id n Hn. split; [by apply H2|]. split; [intros a; by apply H3|by apply H4].
  - intros r resp Hin. destruct (H7 r resp Hin) as [Ho|]; [|done]. rewrite Hr in Ho. by apply elem_of_nil in Ho.
Qed.
(** ** From the user service *)

(** An event of the user service that is delivered for the first time, with nothing in the
    way, becomes one notification for the player it is about, who is told. *)
Lemma request_notified id r name a s :
  Users.player_exists a (T s) = true → duplicate a (Some id) s = false →
  notifications s !! Users.gen_random_uuid (Users.generated (T s)) = None →
  dedup s !! (dedupeKeyPrefix +:+ uuid_String id) = None → uuid_String id ≠ "" →
  ∀ c, delivered id (Users.FriendshipRequested r name a) = Some c →
  let s' := (alone (serve c) s).2 in let new := Users.gen_random_uuid (Users.generated (T s)) in
  ∃ n, notifications s' = <[new := n]> (notifications s) ∧ N_PlayerID n = a ∧
    N_Type n = NotificationTypeFriendRequest ∧ as_friend_request (N_Payload n) = Some (uuid_String r, name) ∧
    ActionTaken n = None ∧ SourceEventID n = Some id ∧
    published s' = published s ++
      [(Gateway.PlayerChannelKey a, Gateway.Message EventNotificationReceived (notification_JSON n))].
Proof.
  intros Hp Hd Hn Hs Hid c [= <-]. cbn [serve handleFriendshipRequested decoded].
  unfold handleFriendshipRequested, decoded, parse, PublishFriendshipRequested, newMeta, unless_seen, seenEvent.
  cbn [FR_AddresseeID FR_EventID FR_RequesterID FR_RequesterUsername]. rewrite uuid_Parse_String, decide_False by done.
  unfold ignore, create_and_publish, Create, statement, PublishToPlayer, time_Now, parseSourceEventID, newMeta, write.
  rewrite decide_False, uuid_Parse_String by done.
  cbn -[set_nx insert_notification]. unfold set_nx. rewrite Hs. cbn -[insert_notification].
  unfold insert_notification. cbn -[Users.player_exists duplicate].
  rewrite Hn. change (duplicate _ _ _) with (duplicate a (Some id) s).
  change (Users.player_exists a _) with (Users.player_exists a (T s)). rewrite Hd, Hp. cbn. eexists. by split_and!.
Qed.
End Spec.
