(* ===== verification/ChatDemo.v ===== *)
(** The chat and the notification service on small databases: a friend request from the
    event to the answer, the events of the chat in the websocket gateway of
    [GatewayDemo], witnesses, and what the code does that it should not. *)
From S2P Require Import Prelude Json Backend Store Demo.
From S2P Require Import Programs Middleware Users UsersApi UsersSpec Gateway GatewayDemo Web.
From S2P Require Import Chat ChatSpec.
From S2P Require Notify NotifySpec Streams.
Import Demo Programs Middleware Chat.

(** Ann and Ben sit in a room; the boss in another; the chief takes no messages. *)
Definition no_messages : Users.PlayerSettingMap :=
  Users.mkSettings None None None None None None None None None None None None None None None None None None (Some "nobody").
Definition users : Users.tables :=
  Users.set_settings {["chief" := (no_messages, 0%Z)]}
    (Users.set_friendships {[("ann", "ben") := Users.mkFriendship "ann" "ben" "accepted" None 0 0]} four_players).
Definition room_of (id : string) : Room := mkRoom id "code" "tictactoe" "ann" RoomStatusWaiting 2 None 0 0 None.
Definition games : DB :=
  mkDB ∅ (<["r1" := room_of "r1"]> {["r2" := room_of "r2"]})
    (<[("r1", "ann") := (0, 0)%Z]> (<[("r1", "ben") := (1, 0)%Z]> {[("r2", "boss") := (0, 0)%Z]})) ∅ ∅ ∅ ∅ ∅ ∅ ∅ ∅.

Definition service : chat := mkChat users games true false ∅ ∅ [] [].
Abbreviation schedule := (list (label request happening)).
Abbreviation operate ls := (ChatSpec.run Int "key" ls service).

Definition by_ (who : string) (t : route) : label request happening := Spawn (mkRequest (Some who) true t).
Definition steps (i n : nat) : schedule := replicate n (Run i).

Definition hello : schedule :=
  by_ "ann" (PostRoomMessage "r1" (Some "hello")) :: steps 0 12 ++
  by_ "ann" (PostDM "ben" (Some "psst")) :: steps 1 12 ++
  by_ "ben" (GetRoomMessages_ "r1" "" "") :: steps 2 12.

Definition codes (s : chat) : list Z := (λ x : request * response content, code x.2) <$> responses s.

Lemma hello_answers : codes (operate hello) = [201; 201; 200]%Z ∧
  (λ x : request * response content, body x.2) <$> responses (operate hello) !! 2 =
  Some (B_messages [mkRoomMessage "id-0" "r1" "ann" "hello" false false 0] 1).
Proof. vm_compute. done. Qed.

(** The reaper of the game server deletes the room, and the message with it. *)
Definition without_room : schedule :=
  [Event (Games_change (λ d, set_rooms (delete "r1" (rooms d)) d))].

Lemma room_deleted : let s := operate (hello ++ without_room) in
  room_messages s = ∅ ∧ size (direct_messages s) = 1.
Proof. vm_compute. done. Qed.

Lemma hello_moment : room_messages (ChatSpec.moment Int "key" (hello ++ without_room) service (length hello)) !! "id-0" =
  Some (mkRoomMessage "id-0" "r1" "ann" "hello" false false 0).
Proof. vm_compute. reflexivity. Qed.

Lemma hello_stored : room_messages (operate hello) !! "id-0" = Some (mkRoomMessage "id-0" "r1" "ann" "hello" false false 0).
Proof. vm_compute. reflexivity. Qed.

(** *** Witness *)

Lemma messages_entitled_witness : published service = [] ∧ responses service = [] ∧
  posted (U := UUID_string) Int "key" service hello (mkRoomMessage "id-0" "r1" "ann" "hello" false false 0) ∧
  ChatSpec.message_deleted (U := UUID_string) Int "key" (hello ++ without_room) service (length hello)
    (length (hello ++ without_room)) (mkRoomMessage "id-0" "r1" "ann" "hello" false false 0).
Proof.
  split; [reflexivity|]. split; [reflexivity|]. split.
  - destruct (messages_entitled (U := UUID_string) Int "key" hello service eq_refl eq_refl) as [Hm _].
    destruct (Hm "id-0" _ hello_stored) as [[(m0 & Hm0 & _)|Hp] _]; [discriminate Hm0|exact Hp].
  - destruct (messages_entitled (U := UUID_string) Int "key" (hello ++ without_room) service eq_refl eq_refl)
      as (_ & _ & _ & _ & Hs & _).
    destruct (Hs (length hello) "id-0" _ ltac:(rewrite length_app; lia) hello_moment) as [(m' & Hm' & _)|Hd]; [|exact Hd].
    rewrite (proj1 room_deleted) in Hm'. discriminate Hm'.
Defined.

(** *** What the code does and should not *)

(** The setting of the chief is respected, unless its query fails: then the message goes
    through. *)
Lemma nobody_bypassed :
  codes (operate (by_ "ann" (PostDM "chief" (Some "hi")) :: steps 0 12)) = [403]%Z ∧
  codes (operate (by_ "ann" (PostDM "chief" (Some "hi")) :: steps 0 2 ++ Break 0 :: steps 0 12)) = [201]%Z.
Proof. vm_compute. done. Qed.

(** Someone who sits in one room reports a message of another; and a manager who names a
    room that the message is not in hides it without the players of its room being told. *)
Lemma report_any_room :
  let s := operate (hello ++ by_ "boss" (PostRoomReport "r2" "id-0") :: steps 3 12) in
  codes s = [201; 201; 200; 204]%Z ∧ RM_Reported <$> room_messages s !! "id-0" = Some true ∧
  seated "r1" "boss" s = false.
Proof. vm_compute. done. Qed.

Lemma hidden_in_the_wrong_room :
  let s := operate (hello ++ by_ "boss" (DeleteRoomMessage "r2" "id-0") :: steps 3 12) in
  RM_Hidden <$> room_messages s !! "id-0" = Some true ∧
  fst <$> drop 2 (published s) = [Gateway.RoomChannelKey "r2"].
Proof. vm_compute. done. Qed.

(** Ann's direct message, as Ben's connection receives it: an envelope, which has no type
    that his browser knows; a message that is published bare arrives. *)
Definition dm_text : Gateway.text := default Gateway.Nothing (snd <$> last (published (operate hello))).
Abbreviation gateway ls := (Gateway.run no_room [] "key" ls (Gateway.New in_game)).
Definition received (t : Gateway.text) : list (label Gateway.call Gateway.happening) :=
  open_ alice idle (Gateway.GetRoom room) :: GatewayDemo.steps 0 20 ++
  [Programs.Event (Gateway.StartWriter 0); Programs.Event (Gateway.Subscribed 2)] ++ flush 0 ++
  delivered 1 2 (Gateway.PlayerChannelKey alice) t ++ flush 0.

Lemma dm_not_recognised :
  fst <$> last (published (operate hello)) = Some (Gateway.PlayerChannelKey "ben") ∧
  told 0 (gateway (received dm_text)) = ["presence_update"; "presence_update"; ""] ∧
  told 0 (gateway (received (Gateway.Message "dm_received" Nil))) = ["presence_update"; "presence_update"; "dm_received"].
Proof. vm_compute. done. Qed.

Module NotifyDemo.
Import Streams NotifySpec Notify.Notify.

(** Ann has asked Ben. *)
Definition asking : Users.tables :=
  Users.set_friendships {[("ann", "ben") := Users.mkFriendship "ann" "ben" "pending" None 0 0]} four_players.
Definition inbox : notif := mkNotif asking ∅ ∅ false [] [] [].

Abbreviation deliveries := (list (label call happening)).
Abbreviation notify ls := (NotifySpec.run (λ _, Nil) "key" ls inbox).

Definition asks (who : string) (t : route) : label call happening := Spawn (Http (mkRequest (Some who) t)).
Definition runs (i : nat) : deliveries := replicate 12 (Run i).
Definition wants_ben : FriendshipRequested := mkRequested "e1" "ann" "Ann" "ben".

(** The event, twice; then Ben accepts, twice, and lists what he has read. *)
Definition befriending : deliveries :=
  Spawn (Requested (Some wants_ben)) :: runs 0 ++ Spawn (Requested (Some wants_ben)) :: runs 1 ++
  asks "ben" (PostAccept "id-0") :: runs 2 ++ asks "ben" (PostAccept "id-0") :: runs 3 ++
  asks "ben" (GetNotifications "ben" "true" "" "") :: runs 4.

Definition answer_codes (s : notif) : list Z := (λ x : request * response content, code x.2) <$> responses s.
Definition kind_and_action (n : Notification) : uuid * string * option string := (N_PlayerID n, N_Type n, ActionTaken n).

Lemma befriending_calls : calls (notify befriending) = [("id-0", ("ann", "ben"))].
Proof. vm_compute. reflexivity. Qed.

(** One notification, one accept passed on, and the two are friends. *)
Lemma befriending_done :
  let s := notify befriending in
  answer_codes s = [204; 409; 200]%Z ∧ kind_and_action <$> notifications s = {["id-0" := ("ben", "friend_request", Some "accepted")]} ∧
  UsersSpec.status_of "ann" "ben" (T s) = Some "accepted" ∧ fst <$> published s = [Gateway.PlayerChannelKey "ben"].
Proof. vm_compute. done. Qed.

(** *** Witness *)

Lemma nothing_yet : initial inbox.
Proof.
  split; [done|]. intros i j n m e Hn. change (notifications inbox) with (∅ : gmap string Notification) in Hn.
  discriminate (eq_trans (eq_sym (lookup_empty i)) Hn).
Qed.

Lemma notifications_entitled_witness : initial inbox ∧ responses inbox = [] ∧
  consented "key" befriending "id-0" "ann" "ben" (notify befriending).
Proof.
  split; [exact nothing_yet|]. split; [reflexivity|].
  destruct (notifications_entitled (λ _, Nil) "key" befriending inbox nothing_yet eq_refl) as (_ & _ & Hc & _).
  apply Hc. rewrite befriending_calls. by left.
Defined.

(** *** What the code does and should not *)

(** The event is marked as seen before the notification is created. When that fails, the
    delivery is repeated, and skipped: nobody hears of the request. *)
Lemma lost_notification :
  let failed := Spawn (Requested (Some wants_ben)) :: Run 0 :: Run 0 :: Break 0 :: runs 0 in
  notifications (notify failed) = ∅ ∧
  notifications (notify (failed ++ Spawn (Requested (Some wants_ben)) :: runs 1)) = ∅.
Proof. vm_compute. done. Qed.

(** The endpoint that other services are to call is there for every player: Ann tells Ben
    that he has been banned, and that the boss wants to be his friend. *)
Lemma anyone_notifies :
  let forged t p := Some (mkCreate "ben" t p None None) in
  let s := notify (asks "ann" (PostInternal (forged "ban_issued" (PayloadRaw None))) :: runs 0 ++
                   asks "ann" (PostInternal (forged "friend_request" (PayloadRaw (Some ("boss", "boss"))))) :: runs 1) in
  answer_codes s = [201; 201]%Z ∧
  kind_and_action <$> notifications s =
    <["id-0" := ("ben", "ban_issued", None)]> {["id-1" := ("ben", "friend_request", None)]}.
Proof. vm_compute. done. Qed.

(** Services that have no token are turned away. *)
Lemma no_service_notifies p : answer_codes (notify (Spawn (Http (mkRequest None (PostInternal p))) :: runs 0)) = [401]%Z.
Proof. vm_compute. reflexivity. Qed.

(** An achievement can be accepted. *)
Lemma achievement_accepted :
  let s := notify (Spawn (Unlocked (Some (mkUnlocked "e1" "ben" "veteran" 1 "Bronze"))) :: runs 0 ++
                   asks "ben" (PostAccept "id-0") :: runs 1) in
  answer_codes s = [204]%Z ∧ kind_and_action <$> notifications s = {["id-0" := ("ben", "achievement_unlocked", Some "accepted")]}.
Proof. vm_compute. done. Qed.

(** When the call to the user service fails, the notification stays accepted and the two
    are not friends; there is no second try. *)
Lemma accepted_without_effect :
  let s := notify (Spawn (Requested (Some wants_ben)) :: runs 0 ++
                   asks "ben" (PostAccept "id-0") :: [Run 1; Run 1; Run 1; Run 1; Run 1; Break 1] ++ runs 1 ++
                   asks "ben" (PostAccept "id-0") :: runs 2) in
  answer_codes s = [204; 409]%Z ∧ UsersSpec.status_of "ann" "ben" (T s) = Some "pending".
Proof. vm_compute. done. Qed.

(** *** From the user service *)

(** Ann and Ben become friends in the user service, whose events are delivered here. *)
Definition friends : Users.tables := UsersApi.run "key" (in_turn UsersSpec.befriended) four_players.
Definition events_of (s : Users.tables) : list call :=
  omap (λ x, x) (imap (λ i e, delivered (Demo.id_of (100 + i)) e) (Users.outbox s)).
Definition passed_over : deliveries := mjoin (imap (λ i c, Spawn c :: runs i) (events_of friends)).

(** Each is told; but Ann not by whom her request was accepted. *)
Lemma accepted_by_nobody :
  (λ n, (N_PlayerID n, N_Payload n)) <$> notifications (notify passed_over) =
  <["id-0" := ("ben", PayloadFriendRequest "ann" "ann")]> {["id-1" := ("ann", PayloadFriendRequestAccepted "ben" "")]}.
Proof. vm_compute. done. Qed.

End NotifyDemo.
