(* ===== verification/BotRunner.v ===== *)
(** The bots that play over the network (services/game-server/cmd/bot-runner): the HTTP and
    WebSocket client of a bot, the runner that takes it through ranked games, and the
    activations of the backfill. A bot is an interaction tree: the requests, sockets, clock,
    Redis and tasks it depends on are its events, and whatever they answer, it goes on.
    A text is known by what the structs decode from it. Logs are left out, but for the
    outcome of a game; a URL that does not parse is a request that fails. *)
From Stdlib Require Import Ascii.
From ITree Require Import Core.ITreeDefinition.
From S2P Require Import Prelude Json Float64 Engine Randutil Backend Bot Mcts.
From S2P Require Gateway.
Import Bot.

Module BotRunner.

#[export] Instance itree_ret E : MRet (itree E) := λ A a, Ret a.
#[export] Instance itree_bind E : MBind (itree E) := λ A B f t, ITree.bind t f.

Definition Second : Z := 1000000000.

(** ** Errors *)

(** [DeadlineExceeded] is [context.DeadlineExceeded], and also what the timeout of the HTTP
    client reports itself to be; [Other] is any other error of a library. *)
Inductive failure : Type :=
  | DeadlineExceeded
  | Canceled
  | Other (what : string)
  | UnexpectedStatus (path : string) (code : Z)
  | Undecodable
  | NoDecision (e : gerror)
  | Panicking (e : gerror)
  | Wrap (msg : string) (e : failure).

Fixpoint is_deadline (e : failure) : bool :=
  match e with
  | DeadlineExceeded => true
  | Wrap _ e => is_deadline e
  | _ => false
  end.

(** A panic is not an error: it runs through all callers, and only their deferred calls run. *)
Definition panics (e : failure) : bool := match e with Panicking _ => true | _ => false end.

Definition wrapf (msg : string) (e : failure) : failure := if panics e then e else Wrap msg e.

(** ** Texts *)

(** [json.Unmarshal] into a variable: what the variable holds then, and whether there was
    no error. *)
Record decoded (A : Type) := mkDecoded { value : A; complete : bool }.
Arguments mkDecoded {A} _ _.
Arguments value {A} _.
Arguments complete {A} _.

Definition unmarshal {A} (d : decoded A) : result failure A :=
  if complete d then Ok (value d) else Err Undecodable.

(** The state of a session and its result, in [movePayload] and the answer of [GetSession]. *)
Record sessionView := mkView { State : GameState; Result_ : option Engine.Result }.

Record text := mkText {
  activateMessage : decoded string;
  matchFoundPayload : decoded string;
  matchReadyPayload : decoded (string * string);    (* the room and the session *)
  movePayload : decoded sessionView
}.

Record wsEvent := mkWsEvent { Type_ : string; Payload : text }.

Definition evtMatchFound : string := "match_found".
Definition evtMatchReady : string := "match_ready".
Definition evtGameReady : string := "game_ready".
Definition evtMoveApplied : string := "move_applied".
Definition evtGameOver : string := "game_over".

(** ** What a bot depends on *)

(** A context: [context.Background()], the one it is handed, or one with a deadline. *)
Inductive Ctx : Type :=
  | Background
  | Given
  | WithDeadline (parent : Ctx) (t : Z).

Record httpRequest := mkRequest {
  method : string; url : string; header : list (string * string); body : option data
}.
Record httpResponse := mkResponse { StatusCode : Z; Body : result failure text }.

Definition conn : Type := nat.

Inductive redisCmd : Type := SAdd (key member : string) | SRem (key member : string).

Section Runner.
Context `{R : Rand} `{E : Entropy} `{L : Mcts.MathLog}.

(** [Think] is what a search finds: when its context will be done, and the generators.
    [SleepCtx] tells which of timer and context comes first. [NextTask] is the next task
    the server of Asynq hands over, or how it ended; [GivesUp] tells whether, and how, it
    has ended without waiting any longer for the task that is running, and [Schedule] which
    of two goroutines goes on: that of the task, or that of the runner. The client replays the cookies of its
    jar in every request and dial. *)
Variant botE : Type → Type :=
  | Do (ctx : Ctx) (r : httpRequest) : botE (result failure httpResponse)
  | DialContext (ctx : Ctx) (url origin : string) : botE (result failure conn)
  | ReadJSON (c : conn) : botE (result failure wsEvent)
  | Close (c : conn) : botE unit
  | CtxErr (ctx : Ctx) : botE (option failure)
  | Now : botE Z
  | Sleep (d : Z) : botE unit
  | SleepCtx (ctx : Ctx) (d : Z) : botE (option failure)
  | Int64N (n : Z) : botE Z
  | Think (ctx : Ctx) : botE (context * sources)
  | Exec (ctx : Ctx) (cmds : list redisCmd) : botE (result failure unit)
  | NextTask : botE (result (option failure) text)
  | GivesUp : botE (option (option failure))
  | Schedule : botE bool
  | Outcome (o : string) : botE unit.

Abbreviation bot := (itree botE).
Definition do_ {A} (e : botE A) : bot A := ITree.trigger e.

(** Calls that return an error: the early return of the caller. *)
Definition attempt {A B} (t : bot (result failure A)) (k : A → bot (result failure B)) : bot (result failure B) :=
  r ← t; match r with Ok a => k a | Err e => mret (Err e) end.
Definition wrap {A} (msg : string) (t : bot (result failure A)) : bot (result failure A) :=
  r ← t; mret (match r with Ok a => Ok a | Err e => Err (wrapf msg e) end).
Definition defer {A} (clean : bot unit) (t : bot A) : bot A := r ← t; clean;; mret r.

Local Notation "x ←! t ; k" := (attempt t (λ x, k)) (at level 20, t at level 100, k at level 200).
Local Notation "t !; k" := (attempt t (λ _, k)) (at level 100, k at level 200).

Definition WithTimeout (ctx : Ctx) (d : Z) : bot Ctx := t ← do_ Now; mret (WithDeadline ctx (t + d)).

(** ** The client (internal/client/client.go) *)

Record Client := mkClient { baseURL : string; wsURL : string; playerID : string; botSecret : string }.

Fixpoint drop_slashes (s : string) : string :=
  match s with
  | String a s' => if decide (a = "/"%char) then drop_slashes s' else s
  | EmptyString => s
  end.
Definition TrimRight (s : string) : string := String.rev (drop_slashes (String.rev s)).

(** [strings.TrimPrefix(s, "http")] *)
Definition trimHTTP (s : string) : string :=
  match s with
  | String "h"%char (String "t"%char (String "t"%char (String "p"%char r))) => r
  | _ => s
  end.

Definition NewClient (baseURL playerID botSecret : string) : Client :=
  let baseURL := TrimRight baseURL in
  mkClient baseURL ("ws" +:+ trimHTTP baseURL) playerID botSecret.

Definition jsonHeader : list (string * string) := [("Content-Type", "application/json")].

Definition botLoginRequest (c : Client) : httpRequest :=
  mkRequest "POST" (baseURL c +:+ "/auth/bot-login") (jsonHeader ++ [("X-Bot-Secret", botSecret c)])
    (Some {["player_id" := Str (playerID c)]}).
Definition testLoginRequest (c : Client) : httpRequest :=
  mkRequest "GET" (baseURL c +:+ "/auth/test-login?player_id=" +:+ playerID c) [] None.

Definition login_status (path : string) (r : result failure httpResponse) : result failure unit :=
  match r with
  | Err e => Err (Wrap path e)
  | Ok resp =>
      if decide (StatusCode resp ≠ 204 ∧ StatusCode resp ≠ 200)%Z then Err (UnexpectedStatus path (StatusCode resp))
      else Ok tt
  end.

Definition botLogin (c : Client) (ctx : Ctx) : bot (result failure unit) :=
  r ← do_ (Do ctx (botLoginRequest c)); mret (login_status "bot-login" r).
Definition testLogin (c : Client) (ctx : Ctx) : bot (result failure unit) :=
  r ← do_ (Do ctx (testLoginRequest c)); mret (login_status "test-login" r).
Definition Login (c : Client) (ctx : Ctx) : bot (result failure unit) :=
  if decide (botSecret c ≠ "") then botLogin c ctx else testLogin c ctx.

Definition post (c : Client) (path : string) (h : list (string * string)) (b : option data) : httpRequest :=
  mkRequest "POST" (baseURL c +:+ path) h b.

Definition postNoBody (c : Client) (ctx : Ctx) (path : string) : bot (result failure unit) :=
  r ← do_ (Do ctx (post c path [] None));
  mret (match r with
        | Err e => Err (Wrap path e)
        | Ok resp => if (400 <=? StatusCode resp)%Z then Err (UnexpectedStatus path (StatusCode resp)) else Ok tt
        end).

Definition postJSON (c : Client) (ctx : Ctx) (path : string) (b : data) (wantStatus : Z) : bot (result failure unit) :=
  r ← do_ (Do ctx (post c path jsonHeader (Some b)));
  mret (match r with
        | Err e => Err (Wrap path e)
        | Ok resp =>
            if decide (StatusCode resp ≠ wantStatus) then Err (UnexpectedStatus path (StatusCode resp)) else Ok tt
        end).

Definition JoinQueue (c : Client) (ctx : Ctx) : bot (result failure unit) := postNoBody c ctx "/api/v1/queue".

Definition LeaveQueue (c : Client) (ctx : Ctx) : bot (result failure unit) :=
  r ← do_ (Do ctx (mkRequest "DELETE" (baseURL c +:+ "/api/v1/queue") [] None));
  mret (match r with
        | Err e => Err (Wrap "leave queue" e)
        | Ok resp =>
            if (400 <=? StatusCode resp)%Z && bool_decide (StatusCode resp ≠ 404%Z)
            then Err (UnexpectedStatus "leave queue" (StatusCode resp)) else Ok tt
        end).

Definition AcceptMatch (c : Client) (ctx : Ctx) (matchID : string) : bot (result failure unit) :=
  postJSON c ctx "/api/v1/queue/accept" {["match_id" := Str matchID]} 204.

Definition movePath (sessionID : string) : string := "/api/v1/sessions/" +:+ sessionID +:+ "/move".
Definition moveBody (payload : data) : data := {["payload" := Map payload]}.

(** A number that JSON does not know fails before anything is sent. *)
Definition Move (c : Client) (ctx : Ctx) (sessionID : string) (payload : data) : bot (result failure unit) :=
  if json_ok (Map (moveBody payload)) then
    postJSON c ctx (movePath sessionID) (moveBody payload) 200
  else mret (Err (Wrap "marshal move" (Other "json: unsupported value"))).

Definition MarkReady (c : Client) (ctx : Ctx) (sessionID : string) : bot (result failure unit) :=
  postNoBody c ctx ("/api/v1/sessions/" +:+ sessionID +:+ "/ready").

Definition sessionRequest (c : Client) (sessionID : string) : httpRequest :=
  mkRequest "GET" (baseURL c +:+ "/api/v1/sessions/" +:+ sessionID) [] None.

(** The text of the answer, if it is one. *)
Definition answer (r : result failure httpResponse) : result failure text :=
  match r with
  | Err e => Err (Wrap "get session" e)
  | Ok resp =>
      if decide (StatusCode resp ≠ 200)%Z then Err (UnexpectedStatus "get session" (StatusCode resp))
      else match Body resp with Ok b => Ok b | Err e => Err (Wrap "get session: read body" e) end
  end.

Definition GetSession (c : Client) (ctx : Ctx) (sessionID : string) : bot (result failure text) :=
  r ← do_ (Do ctx (sessionRequest c sessionID)); mret (answer r).

Definition dialWS (c : Client) (ctx : Ctx) (path : string) : bot (result failure conn) :=
  r ← do_ (DialContext ctx (wsURL c +:+ path) (baseURL c));
  mret (match r with Ok ws => Ok ws | Err e => Err (Wrap path e) end).

Definition DialPlayerWS (c : Client) (ctx : Ctx) : bot (result failure conn) :=
  dialWS c ctx ("/ws/players/" +:+ playerID c).
Definition DialRoomWS (c : Client) (ctx : Ctx) (roomID : string) : bot (result failure conn) :=
  dialWS c ctx ("/ws/rooms/" +:+ roomID).

(** ** The runner (internal/runner/runner.go) *)

Definition keyBotKnown : string := "bot:known".
Definition keyBotAvailable : string := "bot:available".
Definition queueBotActivate : string := "bot-activate".
Definition botActivateTaskType (botID : string) : string := "bot:activate:" +:+ botID.
Definition backfillJoinTimeout : Z := 45 * Second.

Record Runner := mkRunner { username : string; gameID : string; client : Client; bot_ : BotPlayer }.

(** [mcts.Search] is bounded by the fuel of the model. *)
Definition New (env : BotEnv) (registry : gmap string Factory) (fuel : nat)
    (username playerID gameID profileName : string) (c : Client) : result gerror Runner :=
  cfg ← ConfigFromProfile env profileName;
  adapter ← NewWithProfile gameID (Personality cfg) registry;
  Ok (mkRunner username gameID c
    (mkBotPlayer playerID gameID adapter cfg
      (λ ctx root pid ad cfg src, Mcts.Search ad fuel ctx root pid cfg src))).

Section Methods.
Variable r : Runner.
Let c : Client := client r.
Let botID : string := BP_ID (bot_ r).

Definition outcomeFromResult (result : option Engine.Result) (bot : string) : string :=
  match result with
  | None => "draw"
  | Some res =>
      match WinnerID res with
      | None => "draw"
      | Some w => if decide (w = bot) then "win" else "loss"
      end
  end.

Definition pickThinkTime (p : PersonalityProfile) : bot Z :=
  if (MinMoveDelay p <=? 0)%Z then mret 0%Z
  else if (MoveDelayJitter p <=? 0)%Z then mret (MinMoveDelay p)
  else j ← do_ (Int64N (MoveDelayJitter p)); mret (wrap64 (MinMoveDelay p + j)).

Definition sleepCtx (ctx : Ctx) (d : Z) : bot (result failure unit) :=
  e ← do_ (SleepCtx ctx d); mret (match e with Some e => Err e | None => Ok tt end).

(** The rest of the time a move of this personality takes. *)
Definition pace (ctx : Ctx) (startedAt : Z) : bot (result failure unit) :=
  target ← pickThinkTime (Personality (BP_Config (bot_ r)));
  if (0 <? target)%Z then
    now ← do_ Now;
    let remaining := (target - (now - startedAt))%Z in
    if (0 <? remaining)%Z then sleepCtx ctx remaining else mret (Ok tt)
  else mret (Ok tt).

(** A search that outruns its fuel never ends. *)
Definition takeTurn (ctx : Ctx) (sessionID : string) : bot (result failure unit) :=
  raw ←! wrap "refresh state" (GetSession c ctx sessionID);
  match unmarshal (movePayload raw) with
  | Err e => mret (Err (Wrap "decode fresh state" e))
  | Ok fresh =>
      match Result_ fresh with
      | Some _ => mret (Ok tt)
      | None =>
          if decide (CurrentPlayerID (State fresh) ≠ botID) then mret (Ok tt)
          else
            searchCtx ← WithTimeout ctx (MaxThinkTime (BP_Config (bot_ r)) + 2 * Second);
            startedAt ← do_ Now;
            th ← do_ (Think searchCtx);
            match DecideMove (bot_ r) th.1 (State fresh) th.2 with
            | Err ErrNoMoves => mret (Ok tt)
            | Err (Crash e) =>
                mret (Err (if is_panic e then Panicking e else Wrap "decide move" (NoDecision e)))
            | Err OutOfFuel => ITree.spin
            | Ok payload =>
                pace ctx startedAt !;
                wrap "submit move" (Move c ctx sessionID payload)
            end
      end
  end.

(** One round of the main loop. *)
Definition react (ctx : Ctx) (roomWS : conn) (sessionID : string) : bot (unit + result failure unit) :=
  done ← do_ (CtxErr ctx);
  match done with
  | Some e => mret (inr (Err e))
  | None =>
      evt ← do_ (ReadJSON roomWS);
      match evt with
      | Err e => mret (inr (Err (Wrap "read room ws" e)))
      | Ok evt =>
          if decide (Type_ evt = evtMoveApplied) then
            match unmarshal (movePayload (Payload evt)) with
            | Err _ => mret (inl tt)
            | Ok mp =>
                if decide (CurrentPlayerID (State mp) ≠ botID) then mret (inl tt)
                else
                  t ← wrap "take turn" (takeTurn ctx sessionID);
                  mret (match t with Ok _ => inl tt | Err e => inr (Err e) end)
            end
          else if decide (Type_ evt = evtGameOver) then
            do_ (Outcome (outcomeFromResult (Result_ (value (movePayload (Payload evt)))) botID));;
            mret (inr (Ok tt))
          else mret (inl tt)
      end
  end.

(** The events of other types are dropped. *)
Definition readEvent (ws : conn) (wantType : string) : bot (result failure text) :=
  ITree.iter (λ _ : unit,
    evt ← do_ (ReadJSON ws);
    mret (match evt with
          | Err e => inr (Err e)
          | Ok evt => if decide (Type_ evt ≠ wantType) then inl tt else inr (Ok (Payload evt))
          end)) tt.

Definition readEventPayload {A} (ws : conn) (wantType : string) (f : text → decoded A) : bot (result failure A) :=
  p ←! readEvent ws wantType; mret (unmarshal (f p)).
Definition waitForEvent (ws : conn) (wantType : string) : bot (result failure unit) :=
  _ ←! readEvent ws wantType; mret (Ok tt).

Definition playGame (ctx : Ctx) (roomWS : conn) (sessionID : string) : bot (result failure unit) :=
  wrap "mark ready" (MarkReady c ctx sessionID) !;
  wrap "await game_ready" (waitForEvent roomWS evtGameReady) !;
  raw ←! wrap "fetch initial state" (GetSession c ctx sessionID);
  match unmarshal (movePayload raw) with
  | Err e => mret (Err (Wrap "decode initial state" e))
  | Ok initial =>
      match Result_ initial with
      | Some res => do_ (Outcome (outcomeFromResult (Some res) botID));; mret (Ok tt)
      | None =>
          (if decide (CurrentPlayerID (State initial) = botID)
           then wrap "take initial turn" (takeTurn ctx sessionID) else mret (Ok tt)) !;
          ITree.iter (λ _, react ctx roomWS sessionID) tt
      end
  end.

Definition playOne (ctx : Ctx) (playerWS : conn) : bot (result failure unit) :=
  wrap "join queue" (JoinQueue c ctx) !;
  mf ←! wrap "match_found" (readEventPayload playerWS evtMatchFound matchFoundPayload);
  wrap "accept match" (AcceptMatch c ctx mf) !;
  mr ←! wrap "match_ready" (readEventPayload playerWS evtMatchReady matchReadyPayload);
  roomWS ←! wrap "dial room ws" (DialRoomWS c ctx mr.1);
  defer (do_ (Close roomWS)) (playGame ctx roomWS mr.2).

Definition playOneBackfill (ctx : Ctx) (playerWS : conn) : bot (result failure unit) :=
  joinCtx ← WithTimeout ctx backfillJoinTimeout;
  res ← playOne joinCtx playerWS;
  match res with
  | Ok _ => mret (Ok tt)
  | Err e =>
      (if is_deadline e then LeaveQueue c ctx;; mret tt else mret tt);;
      mret (Err e)
  end.

(** The loop of [Run]; a panic ends the process. *)
Definition games (ctx : Ctx) (playerWS : conn) (numGames : Z) : bot (result failure unit) :=
  ITree.iter (λ i : Z,
    if bool_decide (numGames = 0%Z) || (i <? numGames)%Z then
      done ← do_ (CtxErr ctx);
      match done with
      | Some e => mret (inr (Err e))
      | None =>
          res ← playOne ctx playerWS;
          match res with
          | Ok _ => mret (inl (i + 1)%Z)
          | Err e =>
              if panics e then mret (inr (Err e))
              else do_ (Sleep Second);; mret (inl (i + 1)%Z)
          end
      end
    else mret (inr (Ok tt))) 0%Z.

Definition Run (ctx : Ctx) (numGames : Z) : bot (result failure unit) :=
  wrap "login" (Login c ctx) !;
  playerWS ←! wrap "dial player ws" (DialPlayerWS c ctx);
  defer (do_ (Close playerWS)) (games ctx playerWS numGames).

(** One dial per activation; the socket is closed before the bot is free again. *)
Definition activated (ctx : Ctx) : bot (result failure unit) :=
  playerWS ←! wrap "dial player ws" (DialPlayerWS c ctx);
  defer (do_ (Close playerWS)) (playOneBackfill ctx playerWS).

Definition handleActivate (ctx : Ctx) (payload : text) : bot (result failure unit) :=
  match unmarshal (activateMessage payload) with
  | Err e => mret (Err (Wrap "unmarshal activate" e))
  | Ok playerID =>
      if decide (playerID ≠ botID) then mret (Ok tt)
      else
        res ← activated ctx;
        match res with
        | Err (Panicking e) => mret (Err (Panicking e))
        | _ => do_ (Exec ctx [SAdd keyBotAvailable botID]);; mret (Ok tt)
        end
  end.

(** What is left of a goroutine after its next step. *)
Definition advance {A} (t : bot A) : bot (bot A) :=
  match observe t with
  | RetF a => mret (Ret a)
  | TauF t => mret t
  | VisF e k => a ← do_ e; mret (k a)
  end.

(** A task under the eyes of the server. At a shutdown the server waits for the task, but
    only for its [ShutdownTimeout]: then the task is left to itself, with what it still has
    to do. *)
Definition supervised {A} (t : bot A) : bot (A + option failure * bot A) :=
  ITree.iter (λ t : bot A,
    match observe t with
    | RetF a => mret (inr (inl a))
    | _ =>
        given_up ← do_ GivesUp;
        match given_up with
        | Some e => mret (inr (inr (e, t)))
        | None => t ← advance t; mret (inl t)
        end
    end) t.

(** The server of Asynq hands over one task at a time, and recovers from their panics. It
    ends between two tasks, or it leaves the last one behind. *)
Definition serveTasks : bot (option failure * option (bot (result failure unit))) :=
  ITree.iter (λ _ : unit,
    task ← do_ NextTask;
    match task with
    | Err e => mret (inr (e, None))
    | Ok payload =>
        x ← supervised (handleActivate Given payload);
        mret (match x with
              | inl _ => inl tt
              | inr (e, task) => inr (e, Some task)
              end)
    end) tt.

Definition deregister : bot unit :=
  cleanupCtx ← WithTimeout Background (3 * Second);
  do_ (Exec cleanupCtx [SRem keyBotKnown botID]);;
  do_ (Exec cleanupCtx [SRem keyBotAvailable botID]);;
  mret tt.

(** A task that was left behind runs on, next to the runner, until the process ends: some
    time after the runner has come to its end. *)
Definition alongside {A B} (task : bot A) (runner : bot B) : bot B :=
  ITree.iter (λ p : bot A * bot B,
    task_next ← do_ Schedule;
    if task_next : bool then t ← advance p.1; mret (inl (t, p.2))
    else
      match observe p.2 with
      | RetF b => mret (inr b)
      | _ => m ← advance p.2; mret (inl (p.1, m))
      end) (task, runner).

Definition RunBackfill (ctx : Ctx) : bot (result failure unit) :=
  wrap "login" (Login c ctx) !;
  wrap "register bot sets" (do_ (Exec ctx [SAdd keyBotKnown botID; SAdd keyBotAvailable botID])) !;
  ended ← serveTasks;
  match ended.2 with
  | Some task => alongside task deregister
  | None => deregister
  end;;
  mret (match ended.1 with Some e => Err e | None => Ok tt end).

End Methods.

End Runner.

(** ** The command (main.go) *)

Section Command.
Context `{U : UUID} (Nil : uuid).

Record botSpec := mkBotSpec { b_username : string; b_id : uuid; b_profile : string }.

(** [strings.SplitN(s, ":", 2)]: what stands before and after the first colon, if any. *)
Fixpoint cut (s acc : string) : option (string * string) :=
  match s with
  | EmptyString => None
  | String a s => if decide (a = ":"%char) then Some (String.rev acc, s) else cut s (String a acc)
  end.

Definition parseBot (p : string) : result string botSpec :=
  match cut p "" with
  | Some (k, v) =>
      if decide (k = "" ∨ v = "") then Err ("invalid bot spec " +:+ p)
      else
        let ident := Gateway.Gateway.TrimSpace k in
        let profile := Gateway.Gateway.TrimSpace v in
        Ok (match uuid_Parse ident with
            | Some id => mkBotSpec "" id profile
            | None => mkBotSpec ident Nil profile
            end)
  | None => Err ("invalid bot spec " +:+ p)
  end.

Fixpoint parseBotList (parts : list string) : result string (list botSpec) :=
  match parts with
  | [] => Ok []
  | p :: parts =>
      let p := Gateway.Gateway.TrimSpace p in
      if decide (p = "") then parseBotList parts
      else s ← parseBot p; specs ← parseBotList parts; Ok (s :: specs)
  end.

Definition parseBots (s : string) : result string (list botSpec) :=
  let s := Gateway.Gateway.TrimSpace s in
  if decide (s = "") then Ok [] else parseBotList (Gateway.Gateway.Split s "").

(** The rows of players: username, id and whether it is a bot. *)
Definition resolveBotIDs (players : list (string * uuid * bool)) (specs : list botSpec) : gmap string uuid :=
  foldl (λ out row, <[row.1.1 := row.1.2]> out) ∅
    (filter (λ row, row.1.1 ∈ b_username <$> specs ∧ row.2 = true) players).

Definition resolve (resolved : gmap string uuid) (s : botSpec) : botSpec :=
  if decide (b_id s = Nil) then mkBotSpec (b_username s) (default Nil (resolved !! b_username s)) (b_profile s)
  else s.

(** The bots that are started. Nobody looks for usernames when there are only UUIDs. *)
Definition started (players : list (string * uuid * bool)) (specs : list botSpec) : list botSpec :=
  let specs :=
    if existsb (λ s, bool_decide (b_id s = Nil)) specs
    then resolve (resolveBotIDs players specs) <$> specs else specs in
  filter (λ s, b_id s ≠ Nil) specs.

(** Autonomous bots play on their own, the others wait for activations. *)
Definition play `{R : Rand} `{E : Entropy} `{L : Mcts.MathLog}
    (backfill : bool) (numGames : Z) (r : Runner) : itree botE (result failure unit) :=
  if backfill then RunBackfill r Given else Run r Given numGames.

End Command.
End BotRunner.
