(* ===== verification/BotRunnerSpec.v ===== *)
(** What a bot of [BotRunner] does, whatever its environment answers: a program logic for its
    interaction trees, the protocol it follows, why every move it sends is a legal move of
    the state it has just fetched, and that an activation gives back what it takes; a bot on a
    small network, and what its code does that it should not. *)
From ITree Require Import Core.ITreeDefinition.
From S2P Require Import Prelude Json Float64 Engine Randutil Backend Bot Mcts MctsSpec.
From S2P Require Import TicTacToeSpec TicTacToeBot.
From S2P Require Import BotRunner.
From S2P Require TicTacToe RootAccessInv RootAccessBot RootAccessBotSpec RootAccessSpec.
Import Bot BotRunner.

(** ** Traces *)

Section Traces.
Context `{R : Rand} `{E : Entropy}.

(** What is seen of a bot, and that the server of its tasks leaves one behind. The clock,
    timers, contexts, tasks and logs are silent. *)
Inductive label : Type :=
  | L_do (ctx : Ctx) (r : httpRequest) (a : result failure httpResponse)
  | L_dial (ctx : Ctx) (url origin : string) (a : result failure conn)
  | L_read (ws : conn) (a : result failure wsEvent)
  | L_close (ws : conn)
  | L_think (ctx : Ctx) (sc : context) (src : sources)
  | L_exec (ctx : Ctx) (cmds : list redisCmd) (a : result failure unit)
  | L_abandoned
  | L_silent.

Definition label_of {A} (e : botE A) : A → label :=
  match e in botE A return A → label with
  | Do ctx r => L_do ctx r
  | DialContext ctx u o => L_dial ctx u o
  | ReadJSON ws => L_read ws
  | Close ws => λ _, L_close ws
  | Think ctx => λ a, L_think ctx a.1 a.2
  | Exec ctx cmds => L_exec ctx cmds
  | GivesUp => λ a, if a is Some _ then L_abandoned else L_silent
  | _ => λ _, L_silent
  end.

(** The traces of the first [n] nodes, with the result when the bot has come to its end. *)
Fixpoint traces (n : nat) {A} (t : itree botE A) (l : list label) (r : option A) : Prop :=
  match n with
  | 0 => l = [] ∧ r = None
  | S n =>
      match observe t with
      | RetF a => l = [] ∧ r = Some a
      | TauF t => traces n t l r
      | VisF e k => (l = [] ∧ r = None) ∨ ∃ a l', l = label_of e a :: l' ∧ traces n (k a) l' r
      end
  end.

Lemma observe_bind {A B} (t : itree botE A) (k : A → itree botE B) :
  observe (ITree.bind t k) =
    match observe t with
    | RetF a => observe (k a)
    | TauF t => TauF (ITree.bind t k)
    | VisF e h => VisF e (λ a, ITree.bind (h a) k)
    end.
Proof. unfold ITree.bind, ITree.subst, observe. cbn. unfold observe. by destruct (_observe t). Qed.

(** An environment: what it answers, from which state. *)
Section Run.
Context {W : Type} (handle : ∀ A, botE A → W → A * W).

Fixpoint execute (n : nat) {A} (t : itree botE A) (w : W) : list label * option A :=
  match n with
  | 0 => ([], None)
  | S n =>
      match observe t with
      | RetF a => ([], Some a)
      | TauF t => execute n t w
      | VisF e k =>
          let '(a, w) := handle _ e w in
          let '(l, r) := execute n (k a) w in (label_of e a :: l, r)
      end
  end.

Lemma execute_traces n {A} (t : itree botE A) w : traces n t (execute n t w).1 (execute n t w).2.
Proof.
  revert t w. induction n as [|n IH]; intros t w; [done|]. cbn.
  destruct (observe t) as [a|t'|X e k]; [done|apply IH|].
  destruct (handle X e w) as [a w']. specialize (IH (k a) w'). destruct (execute n (k a) w') as [l r]. right. eauto.
Qed.
End Run.

(** ** A program logic *)

Section Logic.
Context {G : Type} (step : G → label → G → Prop).

Inductive steps : G → list label → G → Prop :=
  | steps_nil g : steps g [] g
  | steps_snoc g l g1 e g2 : steps g l g1 → step g1 e g2 → steps g (l ++ [e]) g2.

Lemma steps_cons g e g1 l g2 : step g e g1 → steps g1 l g2 → steps g (e :: l) g2.
Proof.
  intros Hs. induction 1 as [|g1 l g3 e' g2 H1 IH H2].
  - apply (steps_snoc g [] g); [constructor|done].
  - apply (steps_snoc g (e :: l) g3); [by apply IH|done].
Qed.

Definition post_step {A} (X : itree botE A → G → Prop) (Φ : A → G → Prop) (t : itree botE A) (g : G) : Prop :=
  match observe t with
  | RetF a => Φ a g
  | TauF t => X t g
  | VisF e k => ∀ a, ∃ g', step g (label_of e a) g' ∧ X (k a) g'
  end.

(** The ghost state follows every trace of [t], and is as [Φ] says when it ends: the
    greatest predicate that holds on from node to node. *)
Definition spec {A} (t : itree botE A) (g : G) (Φ : A → G → Prop) : Prop :=
  ∃ X : itree botE A → G → Prop, X t g ∧ ∀ t g, X t g → post_step X Φ t g.

Lemma post_step_mono {A} (X Y : itree botE A → G → Prop) (Φ Ψ : A → G → Prop) t g :
  post_step X Φ t g → (∀ t g, X t g → Y t g) → (∀ a g, Φ a g → Ψ a g) → post_step Y Ψ t g.
Proof.
  unfold post_step. intros H HX HΦ. destruct (observe t) as [a|t'|Z e k]; [by apply HΦ|by apply HX|].
  intros a. destruct (H a) as (g' & Hs & Hg'). eauto.
Qed.

Lemma spec_unfold {A} (t : itree botE A) g Φ : spec t g Φ → post_step (λ t g, spec t g Φ) Φ t g.
Proof.
  intros (X & Hx & HX). eapply post_step_mono; [by apply HX| |done]. intros t' g' Ht'. by exists X.
Qed.

Lemma spec_fold {A} (t : itree botE A) g Φ : post_step (λ t g, spec t g Φ) Φ t g → spec t g Φ.
Proof.
  intros H. exists (λ t g, post_step (λ t g, spec t g Φ) Φ t g). split; [done|]. intros t' g' H'.
  eapply post_step_mono; [exact H'| |done]. intros t2 g2. apply spec_unfold.
Qed.

Lemma spec_ret {A} (a : A) g (Φ : A → G → Prop) : Φ a g → spec (mret a) g Φ.
Proof. intros H. by apply spec_fold. Qed.

Lemma spec_mono {A} (t : itree botE A) g (Φ Ψ : A → G → Prop) :
  spec t g Φ → (∀ a g, Φ a g → Ψ a g) → spec t g Ψ.
Proof. intros (X & Hx & HX) HΦ. exists X. split; [done|]. intros t' g' Ht'. eapply post_step_mono; eauto. Qed.

Lemma spec_bind {A B} (t : itree botE A) (k : A → itree botE B) g (Φ : B → G → Prop) (Ψ : A → G → Prop) :
  spec t g Ψ → (∀ a g, Ψ a g → spec (k a) g Φ) → spec (t ≫= k) g Φ.
Proof.
  intros Ht Hk. exists (λ t' g, (∃ t, t' = ITree.bind t k ∧ spec t g Ψ) ∨ spec t' g Φ). split; [left; eauto|].
  intros t' g' [(t0 & -> & H0%spec_unfold)|H']; [|by eapply post_step_mono; [by apply spec_unfold|auto|]].
  unfold post_step in *. rewrite observe_bind. destruct (observe t0) as [a|t1|Z e h]; [|by left; eauto|].
  - specialize (spec_unfold _ _ _ (Hk a g' H0)). unfold post_step. destruct (observe (k a)) as [b|t1|Z e h]; [done|by right|].
    intros H a'. destruct (H a') as (g1 & Hs & Hg1). eauto.
  - intros a. destruct (H0 a) as (g1 & Hs & Hg1). exists g1. split; [done|]. left. eauto.
Qed.

Lemma spec_do {A} (e : botE A) g (Φ : A → G → Prop) :
  (∀ a, ∃ g', step g (label_of e a) g' ∧ Φ a g') → spec (do_ e) g Φ.
Proof. intros H. apply spec_fold. intros a. destruct (H a) as (g' & Hs & HΦ). exists g'. split; [done|by apply spec_ret]. Qed.

Lemma spec_then {A B} (e : botE A) (k : A → itree botE B) g (Φ : B → G → Prop) :
  (∀ a, ∃ g', step g (label_of e a) g' ∧ spec (k a) g' Φ) → spec (do_ e ≫= k) g Φ.
Proof.
  intros H. apply spec_bind with (Ψ := λ a g', spec (k a) g' Φ); [|done]. by apply spec_do.
Qed.

Lemma spec_iter {I A} (f : I → itree botE (I + A)) (P : I → G → Prop) (Φ : A → G → Prop) i g :
  P i g → (∀ i g, P i g → spec (f i) g (λ x g, match x with inl i => P i g | inr a => Φ a g end)) →
  spec (ITree.iter f i) g Φ.
Proof.
  intros Hi Hf. pose (next := λ x : I + A, match x with inl i => Tau (ITree.iter f i) | inr a => Ret a end).
  pose (Ψ := λ (x : I + A) g, match x with inl i => P i g | inr a => Φ a g end).
  exists (λ t g, (∃ i, t = ITree.iter f i ∧ P i g) ∨ (∃ t', t = ITree.bind t' next ∧ spec t' g Ψ)).
  split; [left; eauto|]. intros t g1 Ht.
  assert (∃ t', observe t = observe (ITree.bind t' next) ∧ spec t' g1 Ψ) as (t' & Hobs & H').
  { destruct Ht as [(i' & -> & Hi')|(t' & -> & H')]; [|eauto]. exists (f i'). split; [done|by apply Hf]. }
  apply spec_unfold in H'. unfold post_step in *. rewrite Hobs, observe_bind.
  destruct (observe t') as [[i'|a]|t2|Z e h]; [left; eauto|done|right; eauto|].
  intros a. destruct (H' a) as (g2 & Hs & Hg2). exists g2. split; [done|]. right. eauto.
Qed.

Lemma spec_spin {A} g (Φ : A → G → Prop) : spec ITree.spin g Φ.
Proof. exists (λ t _, t = ITree.spin). split; [done|]. by intros t g' ->. Qed.

(** One step of a tree leaves a tree of which the same holds. *)
Lemma spec_advance {A} (t : itree botE A) g Φ : spec t g Φ → spec (advance t) g (λ t g, spec t g Φ).
Proof.
  intros H%spec_unfold. unfold advance, post_step in *. destruct (observe t) as [a|t'|Z e k].
  - by apply spec_ret, spec_ret.
  - by apply spec_ret.
  - apply spec_bind with (Ψ := λ a g', spec (k a) g' Φ); [by apply spec_do|]. intros a g' Ha. by apply spec_ret.
Qed.

Lemma spec_attempt {A B} (t : itree botE (result failure A)) (k : A → itree botE (result failure B)) g
    (Φ : result failure B → G → Prop) (Ψ : result failure A → G → Prop) :
  spec t g Ψ → (∀ a g, Ψ (Ok a) g → spec (k a) g Φ) → (∀ e g, Ψ (Err e) g → Φ (Err e) g) →
  spec (attempt t k) g Φ.
Proof. intros Ht Hk He. eapply spec_bind; [done|]. intros [a|e] g' H; [by apply Hk|apply spec_ret; by apply He]. Qed.

(** What holds of success and of every failure does not change by wrapping. *)
Lemma spec_wrap {A} msg (t : itree botE (result failure A)) g (Φ : result failure A → G → Prop) :
  spec t g (λ r g, match r with Ok a => Φ (Ok a) g | Err e => Φ (Err (wrapf msg e)) g end) →
  spec (wrap msg t) g Φ.
Proof. intros H. eapply spec_bind; [done|]. intros [a|e] g' Ha; by apply spec_ret. Qed.

Lemma spec_defer {A} clean (t : itree botE A) g (Φ : A → G → Prop) :
  spec t g (λ a g, spec clean g (λ _ g, Φ a g)) → spec (defer clean t) g Φ.
Proof.
  intros H. eapply spec_bind; [done|]. intros a g' Ha. eapply spec_bind; [exact Ha|]. intros u g'' H'. by apply spec_ret.
Qed.

(** The logic is sound for traces. *)
Lemma spec_traces {A} (t : itree botE A) g Φ n l r : spec t g Φ → traces n t l r →
  ∃ g', steps g l g' ∧ (∀ a, r = Some a → Φ a g').
Proof.
  revert t g l. induction n as [|n IH]; intros t g l Hw.
  { intros [-> ->]. exists g. split; [constructor|done]. }
  apply spec_unfold in Hw. unfold post_step in Hw. cbn. destruct (observe t) as [a|t'|X e k].
  - intros [-> ->]. exists g. split; [constructor|]. by intros a' [= <-].
  - by apply IH.
  - intros [[-> ->]|(a & l' & -> & Ht)]; [exists g; split; [constructor|done]|].
    destruct (Hw a) as (g1 & H1 & Hw1). destruct (IH _ _ _ Hw1 Ht) as (g2 & H2 & HΦ).
    exists g2. split; [by eapply steps_cons|done].
Qed.

End Logic.
End Traces.

(** ** The protocol *)

(** Where a bot stands: without a game, in the queue, with a proposal, in a room, in a
    session, on turn with the state it has fetched, and decided on a move. *)
Inductive stage : Type :=
  | Idle
  | Queued
  | Proposed (m : string)
  | Accepted (m : string)
  | Started (room sid : string)
  | Seated (sid : string) (ws : conn)
  | Voted (sid : string) (ws : conn)
  | Playing (sid : string) (ws : conn)
  | Turn (sid : string) (ws : conn) (st : GameState)
  | Decided (sid : string) (ws : conn) (st : GameState) (payload : data).

(** With the socket of the channel of the player. *)
Record standing := mkStanding { line : option conn; at_ : stage }.

Section Protocol.
Context `{R : Rand} `{E : Entropy} `{L : Mcts.MathLog} (r : Runner).
Let c : Client := client r.
Let me : string := BP_ID (bot_ r).

Definition lobby (s : stage) : bool :=
  match s with Idle | Queued | Proposed _ | Accepted _ | Started _ _ => true | _ => false end.

Definition in_game (s : stage) : option (string * conn) :=
  match s with Playing sid ws | Turn sid ws _ | Decided sid ws _ _ => Some (sid, ws) | _ => None end.

Definition status_below (n : Z) (a : result failure httpResponse) : bool :=
  match a with Ok resp => (StatusCode resp <? n)%Z | Err _ => false end.
Definition status_is (n : Z) (a : result failure httpResponse) : bool :=
  match a with Ok resp => (StatusCode resp =? n)%Z | Err _ => false end.

(** The state an answer shows, of a session that goes on and in which the bot is to move. *)
Definition own_turn (a : result failure httpResponse) : option GameState :=
  match answer a with
  | Ok t =>
      let v := movePayload t in
      if complete v && bool_decide (Result_ (value v) = None ∧ CurrentPlayerID (State (value v)) = me)
      then Some (State (value v)) else None
  | Err _ => None
  end.

Definition moveRequest (sid : string) (payload : data) : httpRequest :=
  post c (movePath sid) jsonHeader (Some (moveBody payload)).
Definition joinRequest : httpRequest := post c "/api/v1/queue" [] None.
Definition acceptRequest (m : string) : httpRequest :=
  post c "/api/v1/queue/accept" jsonHeader (Some {["match_id" := Str m]}).
Definition readyRequest (sid : string) : httpRequest := post c ("/api/v1/sessions/" +:+ sid +:+ "/ready") [] None.
Definition leaveRequest : httpRequest := mkRequest "DELETE" (baseURL c +:+ "/api/v1/queue") [] None.

(** What a bot says to Redis: that it is known and available, available again, and its farewell. *)
Definition farewell (cmds : list redisCmd) : Prop :=
  cmds = [SRem keyBotKnown me] ∨ cmds = [SRem keyBotAvailable me].
Definition own_commands (cmds : list redisCmd) : Prop :=
  cmds = [SAdd keyBotKnown me; SAdd keyBotAvailable me] ∨ cmds = [SAdd keyBotAvailable me] ∨ farewell cmds.

(** What a bot may do, and where it stands afterwards. *)
Inductive follows : standing → label → standing → Prop :=
  | f_silent g : follows g L_silent g
  | f_exec l ctx cmds a : own_commands cmds →
      follows (mkStanding l Idle) (L_exec ctx cmds a) (mkStanding l Idle)
  | f_login l ctx q a : q = botLoginRequest c ∨ q = testLoginRequest c →
      follows (mkStanding l Idle) (L_do ctx q a) (mkStanding l Idle)
  | f_dial_player l ctx a :
      follows (mkStanding l Idle) (L_dial ctx (wsURL c +:+ "/ws/players/" +:+ playerID c) (baseURL c) a)
        (mkStanding (match a with Ok ws => Some ws | Err _ => None end) Idle)
  | f_close l s ws : follows (mkStanding l s) (L_close ws) (mkStanding l Idle)
  | f_leave l s ctx a : lobby s = true → follows (mkStanding l s) (L_do ctx leaveRequest a) (mkStanding l Idle)
  | f_join l s ctx a : lobby s = true →
      follows (mkStanding l s) (L_do ctx joinRequest a) (mkStanding l (if status_below 400 a then Queued else Idle))
  | f_noise l s ws a : in_game s = None → follows (mkStanding l s) (L_read ws a) (mkStanding l s)
  | f_found ws evt m : Type_ evt = evtMatchFound → unmarshal (matchFoundPayload (Payload evt)) = Ok m →
      follows (mkStanding (Some ws) Queued) (L_read ws (Ok evt)) (mkStanding (Some ws) (Proposed m))
  | f_accept l m ctx a :
      follows (mkStanding l (Proposed m)) (L_do ctx (acceptRequest m) a)
        (mkStanding l (if status_is 204 a then Accepted m else Idle))
  | f_match_ready ws evt m room sid :
      Type_ evt = evtMatchReady → unmarshal (matchReadyPayload (Payload evt)) = Ok (room, sid) →
      follows (mkStanding (Some ws) (Accepted m)) (L_read ws (Ok evt)) (mkStanding (Some ws) (Started room sid))
  | f_dial_room l room sid ctx a :
      follows (mkStanding l (Started room sid)) (L_dial ctx (wsURL c +:+ "/ws/rooms/" +:+ room) (baseURL c) a)
        (mkStanding l (match a with Ok ws => Seated sid ws | Err _ => Idle end))
  | f_vote l sid ws ctx a :
      follows (mkStanding l (Seated sid ws)) (L_do ctx (readyRequest sid) a)
        (mkStanding l (if status_below 400 a then Voted sid ws else Idle))
  | f_game_ready l sid ws evt : Type_ evt = evtGameReady →
      follows (mkStanding l (Voted sid ws)) (L_read ws (Ok evt)) (mkStanding l (Playing sid ws))
  | f_fetch l s sid ws ctx a : in_game s = Some (sid, ws) →
      follows (mkStanding l s) (L_do ctx (sessionRequest c sid) a)
        (mkStanding l (match own_turn a with Some st => Turn sid ws st | None => Playing sid ws end))
  | f_read l s sid ws a : in_game s = Some (sid, ws) →
      follows (mkStanding l s) (L_read ws a) (mkStanding l (Playing sid ws))
  | f_think l sid ws st ctx sc src :
      follows (mkStanding l (Turn sid ws st)) (L_think ctx sc src)
        (mkStanding l (match DecideMove (bot_ r) sc st src with
                       | Ok p => Decided sid ws st p | Err _ => Playing sid ws end))
  | f_move l sid ws st p ctx a :
      follows (mkStanding l (Decided sid ws st p)) (L_do ctx (moveRequest sid p) a) (mkStanding l (Playing sid ws)).

(** With the server of its tasks: once that has left one behind, and only then, the farewell
    of the runner may fall between the steps of a game. *)
Inductive conduct : standing * bool → label → standing * bool → Prop :=
  | c_follows g b e g' : follows g e g' → conduct (g, b) e (g', b)
  | c_abandoned g : conduct (g, false) L_abandoned (g, true)
  | c_farewell g ctx cmds a : farewell cmds → conduct (g, true) (L_exec ctx cmds a) (g, true).

Abbreviation ok t g Φ := (spec follows t g Φ).

Lemma ok_silent {A B} (e : botE A) (k : A → itree botE B) g Φ :
  (∀ a, label_of e a = L_silent) → (∀ a, ok (k a) g Φ) → ok (do_ e ≫= k) g Φ.
Proof. intros He HΦ. apply spec_then. intros a. exists g. rewrite He. split; [constructor|done]. Qed.

(** A call that leads to [s] when it succeeds and otherwise to where [Q] says. *)
Definition lands {A} (s : A → standing) (Q : standing → Prop) (res : result failure A) (g : standing) : Prop :=
  match res with Ok a => g = s a | Err _ => Q g end.

Lemma ok_call {A B} msg (t : itree botE (result failure A)) (k : A → itree botE (result failure B)) g s Q
    (Φ : result failure B → standing → Prop) :
  ok t g (lands s Q) → (∀ a, ok (k a) (s a) Φ) → (∀ e g, Q g → Φ (Err e) g) → ok (attempt (wrap msg t) k) g Φ.
Proof.
  intros Ht Hk Hq. eapply spec_attempt with (Ψ := lands s Q); [by apply spec_wrap; eapply spec_mono; [exact Ht|intros []]| |done].
  by intros a g' ->.
Qed.

(** A request whose answer becomes a result. *)
Lemma ok_request {A} ctx q (f : result failure httpResponse → result failure A) g s Q :
  (∀ x, ∃ g', follows g (L_do ctx q x) g' ∧ lands s Q (f x) g') →
  ok (a ← do_ (Do ctx q); mret (f a)) g (lands s Q).
Proof. intros H. apply spec_then. intros x. destruct (H x) as (g' & Hg & Hl). exists g'. split; [done|by apply spec_ret]. Qed.

Lemma ok_postNoBody ctx path g a (Q : standing → Prop) b : Q b →
  (∀ x, follows g (L_do ctx (post c path [] None) x) (if status_below 400 x then a else b)) →
  ok (postNoBody c ctx path) g (lands (λ _, a) Q).
Proof.
  intros Hb H. apply ok_request. intros x. eexists. split; [apply H|]. destruct x as [resp|e]; cbn; [|done].
  rewrite Z.leb_antisym. by destruct (StatusCode resp <? 400)%Z.
Qed.

Lemma ok_postJSON ctx path body want g a (Q : standing → Prop) b : Q b →
  (∀ x, follows g (L_do ctx (post c path jsonHeader (Some body)) x) (if status_is want x then a else b)) →
  ok (postJSON c ctx path body want) g (lands (λ _, a) Q).
Proof.
  intros Hb H. apply ok_request. intros x. eexists. split; [apply H|]. destruct x as [resp|e]; cbn; [|done].
  destruct (Z.eqb_spec (StatusCode resp) want) as [->|Hne]; [by rewrite decide_False by tauto|by rewrite decide_True].
Qed.

Lemma ok_dialWS ctx path g (s : conn → standing) (Q : standing → Prop) b : Q b →
  (∀ x, follows g (L_dial ctx (wsURL c +:+ path) (baseURL c) x) (match x with Ok ws => s ws | Err _ => b end)) →
  ok (dialWS c ctx path) g (lands s Q).
Proof. intros Hb H. apply spec_then. intros x. eexists. split; [apply H|]. apply spec_ret. by destruct x. Qed.

(** What a call that leaves the bot in the lobby, or in the game, leaves unchanged. *)
Definition in_lobby (l : option conn) (g : standing) : Prop := line g = l ∧ lobby (at_ g) = true.
Definition playing (l : option conn) sid ws (g : standing) : Prop := line g = l ∧ in_game (at_ g) = Some (sid, ws).

(** Waiting for an event of a type: the bot stays where it is until it comes. *)
Lemma ok_readEvent l s ws want (Φ : result failure text → standing → Prop) : in_game s = None →
  (∀ e, Φ (Err e) (mkStanding l s)) →
  (∀ evt, Type_ evt = want → ∃ g, follows (mkStanding l s) (L_read ws (Ok evt)) g ∧ Φ (Ok (Payload evt)) g) →
  ok (readEvent ws want) (mkStanding l s) Φ.
Proof.
  intros Hs He Hok. apply spec_iter with (P := λ _ g, g = mkStanding l s); [done|]. intros _ g ->.
  apply spec_then. intros [evt|e].
  - destruct (decide (Type_ evt = want)) as [Ht|Ht].
    + destruct (Hok evt Ht) as (g & Hg & HΦ). exists g. split; [done|]. apply spec_ret. by rewrite decide_False by tauto.
    + exists (mkStanding l s). split; [by apply f_noise|]. apply spec_ret. by rewrite decide_True.
  - exists (mkStanding l s). split; [by apply f_noise|]. by apply spec_ret.
Qed.

Lemma ok_payload {A} ws want (f : text → decoded A) s (s' : A → stage) : lobby s = true → in_game s = None →
  (∀ evt a, Type_ evt = want → unmarshal (f (Payload evt)) = Ok a →
    follows (mkStanding (Some ws) s) (L_read ws (Ok evt)) (mkStanding (Some ws) (s' a))) →
  ok (readEventPayload ws want f) (mkStanding (Some ws) s)
    (lands (λ a, mkStanding (Some ws) (s' a)) (in_lobby (Some ws))).
Proof.
  intros Hl Hs Hf. apply spec_attempt with (Ψ := λ res g, match res with
    | Ok p => lands (λ a, mkStanding (Some ws) (s' a)) (in_lobby (Some ws)) (unmarshal (f p)) g
    | Err _ => in_lobby (Some ws) g end); [|by intros; apply spec_ret|done].
  apply ok_readEvent; [done|done|]. intros evt Ht.
  destruct (unmarshal (f (Payload evt))) as [a|e] eqn:Ha.
  - eexists. split; [by apply (Hf evt a)|done].
  - eexists. split; [by apply f_noise|done].
Qed.

(** Between the decision and the move nothing is sent or read. *)
Lemma ok_pace ctx t g : ok (pace r ctx t) g (λ _ g', g' = g).
Proof.
  unfold pace. eapply spec_bind with (Ψ := λ _ g', g' = g).
  { unfold pickThinkTime. destruct (_ <=? 0)%Z; [by apply spec_ret|]. destruct (_ <=? 0)%Z; [by apply spec_ret|].
    apply ok_silent; [done|]. intros j. by apply spec_ret. }
  intros target g' ->. destruct (0 <? target)%Z; [|by apply spec_ret].
  apply ok_silent; [done|]. intros now. cbn. destruct (0 <? _)%Z; [|by apply spec_ret].
  apply ok_silent; [done|]. intros e. by apply spec_ret.
Qed.

Lemma ok_WithTimeout ctx d g : ok (WithTimeout ctx d) g (λ _ g', g' = g).
Proof. apply ok_silent; [done|]. intros t. by apply spec_ret. Qed.

Lemma ok_Move ctx l sid ws st p : ok (Move c ctx sid p) (mkStanding l (Decided sid ws st p)) (λ _ g, playing l sid ws g).
Proof.
  unfold Move. destruct (json_ok _); [|by apply spec_ret]. eapply spec_mono.
  { apply ok_postJSON with (a := mkStanding l (Playing sid ws)) (Q := playing l sid ws) (b := mkStanding l (Playing sid ws)); [done|].
    intros x. destruct (status_is 200 x); apply f_move. }
  by intros [] g; [intros ->|].
Qed.

Definition shown (t : text) : option GameState :=
  match unmarshal (movePayload t) with
  | Ok v =>
      match Result_ v with
      | None => if decide (CurrentPlayerID (State v) ≠ me) then None else Some (State v)
      | Some _ => None
      end
  | Err _ => None
  end.

Definition fetched sid ws (o : option GameState) : stage :=
  match o with Some st => Turn sid ws st | None => Playing sid ws end.

Lemma own_turn_shown a t : answer a = Ok t → own_turn a = shown t.
Proof.
  intros Ha. unfold own_turn, shown, unmarshal. rewrite Ha. destruct (complete _); [|done]. cbn.
  destruct (Result_ _) as [res|]; [by rewrite bool_decide_eq_false_2 by naive_solver|].
  case_decide; [by rewrite bool_decide_eq_false_2 by naive_solver|].
  by rewrite bool_decide_eq_true_2.
Qed.

(** The state of the session, fetched in the game. *)
Lemma ok_fetched ctx l s sid ws : in_game s = Some (sid, ws) →
  ok (GetSession c ctx sid) (mkStanding l s) (lands (λ t, mkStanding l (fetched sid ws (shown t))) (playing l sid ws)).
Proof.
  intros Hs. apply ok_request. intros x. eexists. split; [by apply f_fetch|].
  destruct (answer x) as [t|e] eqn:Ha; cbn; [by rewrite (own_turn_shown x t Ha)|by destruct (own_turn x)].
Qed.

(** A turn: the state is fetched, and a move that is sent was decided on this state. *)
Lemma ok_takeTurn ctx l s sid ws : in_game s = Some (sid, ws) →
  ok (takeTurn r ctx sid) (mkStanding l s) (λ _ g, playing l sid ws g).
Proof.
  intros Hs. unfold takeTurn.
  eapply ok_call; [by apply ok_fetched| |done]. intros t. unfold fetched, shown.
  destruct (unmarshal (movePayload t)) as [v|]; [|by apply spec_ret].
  destruct (Result_ v); [by apply spec_ret|]. fold me. case_decide as Hme; [by apply spec_ret|].
  eapply spec_bind; [apply ok_WithTimeout|]. intros sctx g ->. apply ok_silent; [done|]. intros t0.
  apply spec_then. intros [sc src]. eexists. split; [apply f_think|]. cbn [fst snd].
  destruct (DecideMove (bot_ r) sc (State v) src) as [p|[|e|]]; [|by apply spec_ret| |apply spec_spin].
  - eapply spec_attempt; [apply ok_pace| |by intros e g ->]. intros [] g ->.
    apply spec_wrap. eapply spec_mono; [by apply ok_Move|]. by intros [] g Hg.
  - by apply spec_ret.
Qed.

Lemma ok_wrap {A} msg (t : itree botE (result failure A)) g (P : standing → Prop) :
  ok t g (λ _ g, P g) → ok (wrap msg t) g (λ _ g, P g).
Proof. intros H. apply spec_wrap. eapply spec_mono; [exact H|]. by intros [] g'. Qed.

Lemma playing_inv l sid ws g : playing l sid ws g → ∃ s, g = mkStanding l s ∧ in_game s = Some (sid, ws).
Proof. destruct g as [l' s]. intros [<- Hs]. eauto. Qed.

Lemma ok_react ctx l s sid ws : in_game s = Some (sid, ws) →
  ok (react r ctx ws sid) (mkStanding l s) (λ _ g, playing l sid ws g).
Proof.
  intros Hs. unfold react. apply ok_silent; [done|]. intros [e|]; [by apply spec_ret|].
  apply spec_then. intros a. eexists. split; [by eapply f_read|].
  destruct a as [evt|e]; [|by apply spec_ret]. case_decide; [|case_decide; [|by apply spec_ret]].
  - destruct (unmarshal _) as [mp|]; [|by apply spec_ret]. case_decide; [by apply spec_ret|].
    eapply spec_bind; [by apply ok_wrap, ok_takeTurn|]. intros t g Hg. by apply spec_ret.
  - apply ok_silent; [done|]. intros u. by apply spec_ret.
Qed.

Lemma ok_playGame ctx l sid ws :
  ok (playGame r ctx ws sid) (mkStanding l (Seated sid ws)) (λ _ g, line g = l).
Proof.
  unfold playGame.
  eapply ok_call with (Q := λ g, line g = l) (s := λ _, mkStanding l (Voted sid ws)); [| |done].
  { apply ok_postNoBody with (b := mkStanding l Idle); [done|].
    intros x. pose proof (f_vote l sid ws ctx x) as H. by destruct (status_below 400 x). }
  intros u. eapply ok_call with (Q := λ g, line g = l) (s := λ _, mkStanding l (Playing sid ws)); [| |done].
  { eapply spec_attempt with (Ψ := lands (λ _, mkStanding l (Playing sid ws)) (λ g, line g = l)).
    - apply ok_readEvent; [done|done|]. intros evt Ht. eexists. split; [by apply f_game_ready|done].
    - intros t g Hg. by apply spec_ret.
    - done. }
  intros u'. eapply ok_call; [by apply ok_fetched| |by intros e g [? _]]. intros raw.
  assert (∃ s', fetched sid ws (shown raw) = s' ∧ in_game s' = Some (sid, ws)) as (s' & -> & Hs') by (destruct (shown raw); eauto).
  destruct (unmarshal (movePayload raw)) as [v|]; [|by apply spec_ret].
  destruct (Result_ v); [by apply ok_silent; [|intros ?; apply spec_ret]|].
  eapply spec_attempt with (Ψ := λ _ g, playing l sid ws g); [| |by intros e g [? _]].
  { case_decide; [by apply ok_wrap, ok_takeTurn|by apply spec_ret]. }
  intros _ g Hg. eapply spec_mono with (Φ := λ _ g, playing l sid ws g); [|by intros a g' [? _]].
  apply spec_iter with (P := λ _ g, playing l sid ws g); [done|]. intros _ g' (s2 & -> & Hs2)%playing_inv.
  eapply spec_mono; [by apply ok_react|]. by intros [] ? ?.
Qed.

(** A whole game, from the queue on; the socket of the room is closed at its end. *)
Lemma ok_playOne ctx ws s : lobby s = true →
  ok (playOne r ctx ws) (mkStanding (Some ws) s) (λ _ g, in_lobby (Some ws) g).
Proof.
  intros Hs. unfold playOne.
  eapply ok_call with (Q := in_lobby (Some ws)) (s := λ _, mkStanding (Some ws) Queued); [| |done].
  { apply ok_postNoBody with (b := mkStanding (Some ws) Idle); [done|].
    intros x. pose proof (f_join (Some ws) s ctx x Hs) as H. by destruct (status_below 400 x). }
  intros u. eapply ok_call; [apply (ok_payload ws evtMatchFound matchFoundPayload Queued Proposed)| |done].
  { done. } { done. } { intros. by eapply f_found. }
  intros m. eapply ok_call with (Q := in_lobby (Some ws)) (s := λ _, mkStanding (Some ws) (Accepted m)); [| |done].
  { apply ok_postJSON with (b := mkStanding (Some ws) Idle); [done|].
    intros x. pose proof (f_accept (Some ws) m ctx x) as H. by destruct (status_is 204 x). }
  intros u'. eapply ok_call; [apply (ok_payload ws evtMatchReady matchReadyPayload (Accepted m) (λ mr, Started mr.1 mr.2))| |done].
  { done. } { done. } { intros evt [room sid] Ht Hm. by eapply f_match_ready. }
  intros [room sid]. eapply ok_call with (Q := in_lobby (Some ws)) (s := λ ws', mkStanding (Some ws) (Seated sid ws')); [| |done].
  { apply ok_dialWS with (b := mkStanding (Some ws) Idle); [done|].
    intros x. pose proof (f_dial_room (Some ws) room sid ctx x) as H. by destruct x. }
  intros ws'. apply spec_defer. eapply spec_mono; [apply ok_playGame|]. intros res [l s'] Hl. cbn in Hl. subst l.
  apply spec_do. intros x. eexists. split; [apply f_close|done].
Qed.

Lemma ok_playOneBackfill ctx ws s : lobby s = true →
  ok (playOneBackfill r ctx ws) (mkStanding (Some ws) s) (λ _ g, in_lobby (Some ws) g).
Proof.
  intros Hs. unfold playOneBackfill. eapply spec_bind; [apply ok_WithTimeout|]. intros jctx g ->.
  eapply spec_bind; [by apply ok_playOne|]. intros [u|e] g Hg; [by apply spec_ret|].
  eapply spec_bind with (Ψ := λ _ g, in_lobby (Some ws) g); [|intros v g' Hg'; by apply spec_ret].
  destruct (is_deadline e); [|by apply spec_ret]. destruct g as [l s']. destruct Hg as [Hl Hs']. cbn in Hl. subst l.
  eapply spec_bind with (Ψ := λ _ g, in_lobby (Some ws) g); [|intros v g' Hg'; by apply spec_ret].
  apply spec_then. intros x. eexists. split; [by apply f_leave|]. by apply spec_ret.
Qed.

Lemma ok_Login l ctx : ok (Login c ctx) (mkStanding l Idle) (λ _ g, g = mkStanding l Idle).
Proof.
  unfold Login. case_decide; apply spec_then; intros x; eexists; (split; [apply f_login; tauto|by apply spec_ret]).
Qed.

Lemma ok_DialPlayerWS l ctx : ok (DialPlayerWS c ctx) (mkStanding l Idle)
  (lands (λ ws, mkStanding (Some ws) Idle) (λ g, at_ g = Idle)).
Proof.
  apply ok_dialWS with (b := mkStanding None Idle); [done|]. intros x. pose proof (f_dial_player l ctx x) as H. by destruct x.
Qed.

(** The end of what a bot does with a socket of its own. *)
Lemma ok_Close ws (g : standing) : ok (do_ (Close ws)) g (λ _ g, at_ g = Idle).
Proof. destruct g as [l s]. apply spec_do. intros x. eexists. split; [apply f_close|done]. Qed.

Lemma ok_games ctx ws n : ok (games r ctx ws n) (mkStanding (Some ws) Idle) (λ _ _, True).
Proof.
  apply spec_iter with (P := λ _ g, in_lobby (Some ws) g); [done|]. intros i [l s] [Hl Hs]. cbn in Hl, Hs. subst l.
  destruct (_ || _); [|by apply spec_ret]. apply ok_silent; [done|]. intros [e|]; [by apply spec_ret|].
  eapply spec_bind; [by apply ok_playOne|]. intros [u|e] g Hg; [by apply spec_ret|].
  destruct (panics e); [by apply spec_ret|]. apply ok_silent; [done|]. intros v. by apply spec_ret.
Qed.

Lemma ok_Run l ctx n : ok (Run r ctx n) (mkStanding l Idle) (λ _ _, True).
Proof.
  eapply ok_call with (s := λ _, mkStanding l Idle) (Q := λ _, True); [| |done].
  { eapply spec_mono; [apply ok_Login|]. by intros [] g ->. }
  intros u. eapply ok_call; [apply ok_DialPlayerWS| |done]. intros ws. apply spec_defer.
  eapply spec_mono; [apply ok_games|]. intros res g _. eapply spec_mono; [apply ok_Close|done].
Qed.

Lemma ok_handleActivate l ctx payload :
  ok (handleActivate r ctx payload) (mkStanding l Idle) (λ _ g, at_ g = Idle).
Proof.
  unfold handleActivate. destruct (unmarshal _) as [p|]; [|by apply spec_ret].
  case_decide; [by apply spec_ret|]. eapply spec_bind with (Ψ := λ _ g, at_ g = Idle).
  { eapply ok_call; [apply ok_DialPlayerWS| |by intros e g]. intros ws. apply spec_defer.
    eapply spec_mono; [by apply ok_playOneBackfill|]. intros res g _. apply ok_Close. }
  assert (∀ g, at_ g = Idle → ok (do_ (Exec ctx [SAdd keyBotAvailable (BP_ID (bot_ r))]);; mret (@Ok failure unit tt)) g
    (λ _ g, at_ g = Idle)) as Hadd.
  { intros [l' s] Hs. cbn in Hs. subst s. apply spec_then. intros x. eexists.
    split; [apply f_exec; unfold own_commands; auto|by apply spec_ret]. }
  intros res g Hg. destruct res as [u|e]; [by apply Hadd|]. destruct e; try by apply Hadd. by apply spec_ret.
Qed.

(** A task on its own keeps to the protocol, whatever the server of the tasks does. *)
Lemma ok_conduct {A} (t : itree botE A) g b Φ : ok t g Φ → spec conduct t (g, b) (λ a h, Φ a h.1 ∧ h.2 = b).
Proof.
  intros Ht. exists (λ t h, ok t h.1 Φ ∧ h.2 = b). split; [done|]. intros t' [g' b'] [H%spec_unfold Hb]. cbn in Hb. subst b'.
  unfold post_step in *. cbn in H. destruct (observe t') as [a|t1|X e k]; [done|done|].
  intros a. destruct (H a) as (g1 & Hs & H1). exists (g1, b). split; [by apply c_follows|done].
Qed.

Lemma ok_supervised {A} (t : itree botE A) g Φ : ok t g Φ → spec conduct (supervised t) (g, false) (λ x h,
  match x with inl a => Φ a h.1 ∧ h.2 = false | inr (_, t) => ok t h.1 Φ ∧ h.2 = true end).
Proof.
  intros Ht. apply spec_iter with (P := λ t h, ok t h.1 Φ ∧ h.2 = false); [done|].
  clear. intros t [g b] [H Hb]. cbn in H, Hb. subst b.
  assert (spec conduct (given_up ← do_ GivesUp; match given_up with
    | Some e => mret (inr (inr (e, t))) | None => t' ← advance t; mret (inl t') end) (g, false)
    (λ x h, match x with
     | inl t => ok t h.1 Φ ∧ h.2 = false
     | inr (inl a) => Φ a h.1 ∧ h.2 = false
     | inr (inr (_, t)) => ok t h.1 Φ ∧ h.2 = true end)) as Hnext.
  { apply spec_then. intros [e|].
    - exists (g, true). split; [apply c_abandoned|by apply spec_ret].
    - exists (g, false). split; [apply c_follows, f_silent|]. eapply spec_bind; [by apply ok_conduct, spec_advance|].
      intros t' h Ht'. by apply spec_ret. }
  pose proof (spec_unfold _ _ _ _ H) as Ho. unfold post_step in Ho. destruct (observe t) as [a|t'|X e k]; [by apply spec_ret| |].
  all: eapply spec_mono; [exact Hnext|]; by intros [t2|[a|[e2 t2]]] h.
Qed.

(** The runner at the end of a backfill bot, as far as anybody sees. *)
Definition departs (_ : unit) (e : label) (_ : unit) : Prop :=
  e = L_silent ∨ ∃ ctx cmds a, farewell cmds ∧ e = L_exec ctx cmds a.

Lemma departs_deregister : spec departs (deregister r) tt (λ _ _, True).
Proof.
  unfold deregister. eapply spec_bind with (Ψ := λ _ _, True).
  { apply spec_then. intros t. exists tt. split; [by left|by apply spec_ret]. }
  intros cctx [] _. apply spec_then. intros x. exists tt. split; [right; unfold farewell; eauto 6|].
  apply spec_then. intros y. exists tt. split; [right; unfold farewell; eauto 6|by apply spec_ret].
Qed.

Lemma departs_conduct {A} (t : itree botE A) g : spec departs t tt (λ _ _, True) →
  spec conduct t (g, true) (λ _ h, h = (g, true)).
Proof.
  intros Ht. exists (λ t h, spec departs t tt (λ _ _, True) ∧ h = (g, true)). split; [done|].
  intros t' h [H%spec_unfold ->]. unfold post_step in *. destruct (observe t') as [a|t1|X e k]; [done|done|].
  intros a. destruct (H a) as ([] & Hs & H1). exists (g, true). split; [|done].
  destruct Hs as [->|(ctx & cmds & x & Hf & ->)]; [apply c_follows, f_silent|by apply c_farewell].
Qed.

Lemma departs_advance {A} (t : itree botE A) g : spec departs t tt (λ _ _, True) →
  spec conduct (advance t) (g, true) (λ m h, h = (g, true) ∧ spec departs m tt (λ _ _, True)).
Proof.
  intros H%spec_unfold. unfold advance, post_step in *. destruct (observe t) as [a|t'|X e k].
  - apply spec_ret. split; [done|by apply spec_ret].
  - by apply spec_ret.
  - apply spec_then. intros a. destruct (H a) as ([] & Hs & H1). exists (g, true). split; [|by apply spec_ret].
    destruct Hs as [->|(ctx & cmds & x & Hf & ->)]; [apply c_follows, f_silent|by apply c_farewell].
Qed.

Lemma ok_alongside {A B} (task : itree botE A) (runner : itree botE B) g :
  ok task g (λ _ _, True) → spec departs runner tt (λ _ _, True) →
  spec conduct (alongside task runner) (g, true) (λ _ _, True).
Proof.
  intros Ht Hr. apply spec_iter with
    (P := λ p h, ok p.1 h.1 (λ _ _, True) ∧ spec departs p.2 tt (λ _ _, True) ∧ h.2 = true); [done|].
  clear. intros [task runner] [g b] (Ht & Hr & Hb). cbn in Ht, Hr, Hb |- *. subst b.
  apply spec_then. intros goes. exists (g, true). split; [apply c_follows, f_silent|]. destruct goes.
  - eapply spec_bind; [by apply ok_conduct, spec_advance|]. intros t h [H1 H2]. by apply spec_ret.
  - assert (spec conduct (m ← advance runner; mret (@inl _ B (task, m))) (g, true)
      (λ x h, match x with inl p => ok p.1 h.1 (λ _ _, True) ∧ spec departs p.2 tt (λ _ _, True) ∧ h.2 = true
                         | inr _ => True end)) as Hnext.
    { eapply spec_bind; [by apply departs_advance|]. intros m h [-> Hm]. by apply spec_ret. }
    destruct (observe runner); [by apply spec_ret|exact Hnext..].
Qed.

Lemma ok_serveTasks l : spec conduct (serveTasks r) (mkStanding l Idle, false) (λ x h,
  match x.2 with Some t => ok t h.1 (λ _ _, True) ∧ h.2 = true | None => at_ h.1 = Idle end).
Proof.
  apply spec_iter with (P := λ _ h, at_ h.1 = Idle ∧ h.2 = false); [done|]. intros v [[l' s] b] [Hs Hb]. cbn in Hs, Hb. subst s b.
  apply spec_then. intros a. exists (mkStanding l' Idle, false). split; [apply c_follows, f_silent|].
  destruct a as [payload|e]; [|by apply spec_ret].
  eapply spec_bind; [apply ok_supervised, ok_handleActivate|]. intros [res|[e t]] h Hh; apply spec_ret; [done|].
  cbn. destruct Hh as [Ht Hb]. split; [|done]. by eapply spec_mono.
Qed.

Lemma ok_RunBackfill l ctx : spec conduct (RunBackfill r ctx) (mkStanding l Idle, false) (λ _ _, True).
Proof.
  assert (∀ msg (t : itree botE (result failure unit)), ok t (mkStanding l Idle) (λ _ g, g = mkStanding l Idle) →
    spec conduct (wrap msg t) (mkStanding l Idle, false) (λ _ h, h = (mkStanding l Idle, false))) as Hcall.
  { intros msg t Ht. apply spec_wrap. eapply spec_mono; [by apply ok_conduct|].
    intros [u|e] [g b] [Hg Hb]; cbn in Hg, Hb; by subst. }
  eapply spec_attempt; [apply Hcall, ok_Login| |done]. intros u h ->.
  eapply spec_attempt; [apply Hcall| |done].
  { apply spec_do. intros a. eexists. split; [|done]. apply f_exec. unfold own_commands. auto. }
  intros u' h ->. eapply spec_bind; [apply ok_serveTasks|]. intros [e [t|]] [g b] Hh; cbn in Hh |- *.
  - destruct Hh as [Ht Hb]. cbn in Hb. subst b. eapply spec_bind; [apply ok_alongside; [done|apply departs_deregister]|].
    intros v h _. by apply spec_ret.
  - destruct g as [l' s]. cbn in Hh. subst s. eapply spec_bind with (Ψ := λ _ _, True); [|intros; by apply spec_ret].
    eapply spec_mono; [apply (ok_conduct _ _ _ (λ _ _, True))|done]. unfold deregister.
    eapply spec_bind; [apply ok_WithTimeout|]. intros cctx g ->. apply spec_then. intros x. eexists.
    split; [apply f_exec; unfold own_commands, farewell; auto|]. apply spec_then. intros y. eexists.
    split; [apply f_exec; unfold own_commands, farewell; auto|by apply spec_ret].
Qed.

Lemma ok_play l backfill n : spec conduct (play backfill n r) (mkStanding l Idle, false) (λ _ _, True).
Proof.
  destruct backfill; [apply ok_RunBackfill|]. eapply spec_mono; [apply ok_conduct, ok_Run|done].
Qed.

(** ** What the protocol says of a move *)

(** What may happen between two steps of a game. *)
Definition aside (e : label) : Prop :=
  match e with
  | L_silent | L_abandoned => True
  | L_exec _ cmds _ => farewell cmds
  | _ => False
  end.
Definition quiet (l : list label) : Prop := ∀ e, e ∈ l → aside e.

Lemma quiet_nil : quiet [].
Proof. by intros e ?%elem_of_nil. Qed.

Lemma quiet_snoc l e : quiet l → aside e → quiet (l ++ [e]).
Proof. intros H He e' [He'| ->%list_elem_of_singleton]%elem_of_app; [by apply H|done]. Qed.

(** [l] ends with the fetch of the state [st] of the session, in which the bot is to move. *)
Definition just_fetched sid st (l : list label) : Prop :=
  ∃ l0 ctx a q, l = l0 ++ L_do ctx (sessionRequest c sid) a :: q ∧ quiet q ∧ own_turn a = Some st.

(** And then with its decision. *)
Definition just_decided sid st p (l : list label) : Prop :=
  ∃ l0 ctx sc src q, l = l0 ++ L_think ctx sc src :: q ∧ quiet q ∧ just_fetched sid st l0 ∧
    DecideMove (bot_ r) sc st src = Ok p.

Definition history (s : stage) (l : list label) : Prop :=
  match s with
  | Turn sid _ st => just_fetched sid st l
  | Decided sid _ st p => just_decided sid st p l
  | _ => True
  end.

Lemma history_aside s l e : history s l → aside e → history s (l ++ [e]).
Proof.
  intros Hl He. revert Hl. destruct s as [| |?|?|? ?|? ?|? ?|? ?|sid ws st|sid ws st p]; try done; cbn.
  - intros (l0 & ctx & a & q & -> & Hq & Ha). exists l0, ctx, a, (q ++ [e]).
    rewrite <-app_assoc. split_and!; [done|by apply quiet_snoc|done].
  - intros (l0 & ctx & sc & src & q & -> & Hq & Hf & Hd). exists l0, ctx, sc, src, (q ++ [e]).
    rewrite <-app_assoc. split_and!; [done|by apply quiet_snoc|done|done].
Qed.

Lemma follows_history g l e g' : follows g e g' → history (at_ g) l → history (at_ g') (l ++ [e]).
Proof.
  intros Hf IH.
  destruct Hf as [g1|? ? ? ? ?|? ? ? ? ?|? ? a|? ? ?|? s ? ? ?|? ? ? a ?|? s ? ? Hn|? ? ? ? ?|? ? ? a|? ? ? ? ? ? ?|? ? ? ? a
    |? ? ? ? a|? ? ? ? ?|? ? sid ws ctx a ?|? ? ? ? ? ?|? sid ws st ctx sc src|? ? ? ? ? ? ?]; cbn in *; try done.
  - by apply history_aside.
  - by destruct (status_below 400 a).
  - by destruct s.
  - by destruct (status_is 204 a).
  - by destruct a.
  - by destruct (status_below 400 a).
  - destruct (own_turn a) as [st|] eqn:Ha; [|done]. exists l, ctx, a, []. split_and!; [done|apply quiet_nil|done].
  - destruct (DecideMove (bot_ r) sc st src) as [p|] eqn:Hd; [|done].
    exists l, ctx, sc, src, []. split_and!; [done|apply quiet_nil|done|done].
Qed.

Lemma steps_history g l g' : at_ g.1 = Idle → steps conduct g l g' → history (at_ g'.1) l.
Proof.
  intros Hg Hs. induction Hs as [g|g l g1 e g2 Hs IH Hf]; [by rewrite Hg|]. specialize (IH Hg).
  destruct Hf as [g1 b e g2 Hf|g1|g1 ctx cmds a Hf]; cbn in *; [by eapply follows_history|by apply history_aside..].
Qed.

Lemma steps_snoc_inv {G} (step : G → label → G → Prop) g l e g' :
  steps step g (l ++ [e]) g' → ∃ g1, steps step g l g1 ∧ step g1 e g'.
Proof.
  intros H. remember (l ++ [e]) as k eqn:Hk. destruct H as [g|g l1 g1 e1 g2 Hs Hf]; [by destruct l|].
  apply app_inj_tail in Hk as [-> ->]. eauto.
Qed.

Lemma steps_split {G} (step : G → label → G → Prop) g l1 e l2 g' : steps step g (l1 ++ e :: l2) g' →
  ∃ g1 g2, steps step g l1 g1 ∧ step g1 e g2.
Proof.
  revert g'. induction l2 as [|e2 l2 IH] using rev_ind; intros g' H.
  - apply steps_snoc_inv in H as (g1 & Hs & Hf). eauto.
  - rewrite app_comm_cons, app_assoc in H. apply steps_snoc_inv in H as (g1 & Hs & Hf). by eapply IH.
Qed.

(** The paths and bodies of the requests tell them apart. *)
Lemma moveBody_inj p p' : moveBody p = moveBody p' → p = p'.
Proof.
  unfold moveBody. intros H. assert (({["payload" := Map p]} : data) !! "payload" = Some (Map p')) as Hl.
  { rewrite H. apply lookup_singleton_eq. }
  rewrite lookup_singleton_eq in Hl. by injection Hl.
Qed.

Lemma append_inj_l (s t u : string) : s +:+ t = s +:+ u → t = u.
Proof. induction s as [|a s IH]; [done|]. cbn. intros [= H]. by apply IH. Qed.

Lemma length_append (s t : string) : String.length (s +:+ t) = String.length s + String.length t.
Proof. induction s as [|a s IH]; [done|]. exact (f_equal S IH). Qed.

Lemma append_inj_r (s t u : string) : s +:+ u = t +:+ u → s = t.
Proof.
  revert t. induction s as [|a s IH]; intros [|b t] H; [done| | |].
  - apply (f_equal String.length) in H. rewrite !length_append in H. cbn in H. lia.
  - apply (f_equal String.length) in H. rewrite !length_append in H. cbn in H. lia.
  - injection H as -> H. by rewrite (IH t H).
Qed.

Lemma moveRequest_inj sid p sid' p' : moveRequest sid p = moveRequest sid' p' → sid = sid' ∧ p = p'.
Proof.
  intros H. split.
  2:{ apply (f_equal body) in H. change (Some (moveBody p) = Some (moveBody p')) in H.
    by apply (inj Some), moveBody_inj in H. }
  apply (f_equal url) in H. change (baseURL c +:+ movePath sid = baseURL c +:+ movePath sid') in H.
  apply append_inj_l in H. unfold movePath in H. apply append_inj_l, append_inj_r in H. done.
Qed.

(** Only a bot that has decided sends a move, and no other request looks like one. *)
Lemma follows_do g ctx q a g' : follows g (L_do ctx q a) g' →
  (∃ l sid ws st p, g = mkStanding l (Decided sid ws st p) ∧ q = moveRequest sid p) ∨ ∀ sid p, q ≠ moveRequest sid p.
Proof.
  intros H. remember (L_do ctx q a) as e eqn:He.
  destruct H as [| |? ? q' ? Hq| | | | | | | | | | | | | | |]; try done; injection He as <- <- <-.
  2-6: right; intros sid' p' Hm; try discriminate Hm; apply (f_equal url), append_inj_l in Hm; discriminate Hm.
  - right. intros sid' p' Hm. subst q'. destruct Hq as [Hq|Hq]; [|discriminate Hq].
    apply (f_equal url), append_inj_l in Hq. discriminate Hq.
  - left. eauto 10.
Qed.

Lemma conduct_move h ctx sid p a h' : conduct h (L_do ctx (moveRequest sid p) a) h' →
  ∃ ws st, at_ h.1 = Decided sid ws st p.
Proof.
  intros Hc. remember (L_do ctx (moveRequest sid p) a) as e eqn:He.
  destruct Hc as [g b e g' Hf| |]; [|done..]. revert Hf. rewrite He. intros [(l & sid' & ws & st & p' & -> & [-> ->]%moveRequest_inj)|Hn]%follows_do; [|by destruct (Hn sid p)]. eauto.
Qed.

Lemma New_fields env registry fuel name pid game profile cl r' :
  New env registry fuel name pid game profile cl = Ok r' →
  BP_ID (bot_ r') = pid ∧
  BP_Search (bot_ r') = λ ctx root pid ad cfg src, Mcts.Search ad fuel ctx root pid cfg src.
Proof. unfold New. by intros (cfg & _ & (ad & _ & [= <-])%result_bind_ok)%result_bind_ok. Qed.

(** A decision of a search is a legal move. *)
Lemma DecideMove_legal fuel bp sc st src p :
  BP_Search bp = (λ ctx root pid ad cfg src, Mcts.Search ad fuel ctx root pid cfg src) →
  DecideMove bp sc st src = Ok p → Some p ∈ ValidMoves (BP_Adapter bp) st.
Proof.
  intros Hs. unfold DecideMove. rewrite Hs. intros (m & Hm & Hp)%result_bind_ok.
  destruct m as [p'|]; [|done]. injection Hp as ->. by eapply Search_legal.
Qed.

(** C36 Whatever the servers, the sockets, the clock, Redis and the task queue answer,
    a bot, autonomous or of the backfill, follows the protocol at every moment: it accepts
    only the match its own channel proposed, dials the room and votes in the session that
    channel announced for it, plays there after game_ready, moves only once after it has
    fetched the state anew, and logs in and talks to Redis only outside of a game. There is one
    exception: when the server of its tasks shuts down and does not wait for the game any
    longer, the runner says its farewell to Redis while the game goes on by the protocol. *)
Theorem follows_protocol backfill numGames n l res :
  traces n (play backfill numGames r) l res → ∃ g, steps conduct (mkStanding None Idle, false) l g.
Proof. intros Ht. destruct (spec_traces conduct _ _ _ _ _ _ (ok_play None backfill numGames) Ht) as (g & Hs & _). eauto. Qed.

(** C35 Whatever the environment answers: when a bot sends a move, the last thing it has
    sent or received, but for the search and the farewell of a runner that shuts down, is the
    answer of the server that the session goes on, in a state in which the bot is to move.
    The move is the one that the search decided on this state, and legal for the adapter.
    In Tic-tac-toe the game accepts it, if the state represents a position. In Root Access
    the server answers with the view of the player: if the state is the view, as it is decoded
    from JSON, of a state in which the game is live, then the game accepts the move in that
    state. *)
Theorem moves_justified `{P : PRNG} env registry fuel name pid game profile cl backfill numGames n l1 ctx sid p a l2 res :
  New env registry fuel name pid game profile cl = Ok r →
  traces n (play backfill numGames r) (l1 ++ L_do ctx (moveRequest sid p) a :: l2) res →
  ∃ st sc src, just_decided sid st p l1 ∧ CurrentPlayerID st = pid ∧
    DecideMove (bot_ r) sc st src = Ok p ∧ Some p ∈ ValidMoves (BP_Adapter (bot_ r)) st ∧
    (∀ pos t, BP_Adapter (bot_ r) = TicTacToeBot.NewAdapter → represents st pos →
      TicTacToe.TicTacToe.ValidateMove st (mkMove pid p t) = Ok tt) ∧
    (∀ personality full, BP_Adapter (bot_ r) = RootAccessBot.RootAccessBot.NewWithProfile personality →
      pid ≠ "" → RootAccessInv.live full → RootAccessCodec.typed (Data full) → json_ok (Map (Data full)) = true →
      st = reload (RootAccess.RootAccess.FilterState full pid) →
      CurrentPlayerID full = pid ∧ RootAccessBotSpec.acceptable full p).
Proof.
  intros Hnew Ht. destruct (spec_traces conduct _ _ _ _ _ _ (ok_play None backfill numGames) Ht) as (g & Hs & _).
  apply steps_split in Hs as (g1 & g2 & Hs & (ws & st & Hst)%conduct_move).
  apply steps_history in Hs; [|done]. rewrite Hst in Hs.
  destruct Hs as (l0 & ctx' & sc & src & q & -> & Hq & Hf & Hd).
  destruct (New_fields _ _ _ _ _ _ _ _ _ Hnew) as [Hid Hsearch].
  assert (CurrentPlayerID st = pid) as Hcur.
  { destruct Hf as (? & ? & x & ? & -> & _ & Ha). unfold own_turn in Ha. destruct (answer x) as [t|]; [|done].
    destruct (_ && _) eqn:Hb; [|done]. apply andb_true_iff in Hb as [_ Hb%bool_decide_eq_true]. injection Ha as <-.
    by destruct Hb as [_ ->]. }
  pose proof (DecideMove_legal _ _ _ _ _ _ Hsearch Hd) as Hlegal.
  exists st, sc, src. split_and!; [by exists l0, ctx', sc, src, q|done|done|done| |].
  - intros pos t Had Hr. rewrite Had in Hlegal. rewrite <-Hcur.
    destruct (ValidMoves_accepted st pos (Some p) t Hr Hlegal) as (i & [= ->] & _ & _ & Hv). exact Hv.
  - intros personality full Had Hne Hlive Ht' Hj Hst'. rewrite Had in Hlegal.
    assert (CurrentPlayerID full = pid) as <-
      by (by rewrite <-Hcur, Hst'; change (CurrentPlayerID (reload ?x)) with (CurrentPlayerID x); rewrite RootAccessBotSpec.FilterState_cur).
    split; [done|]. rewrite Hst' in Hlegal.
    by destruct (RootAccessBotSpec.own_view_acceptable full (Some p) Hne Ht' Hj Hlive Hlegal) as (p' & [= <-] & Hacc).
Qed.

End Protocol.

(** ** What a bot holds *)

(** Its open sockets, and whether it has last asked for a place among the available bots. *)
Definition holdings : Type := list conn * bool.

Section Holdings.
Context `{R : Rand} `{E : Entropy} `{L : Mcts.MathLog} (r : Runner).
Let c : Client := client r.
Let me : string := BP_ID (bot_ r).

Definition asks (b : bool) (cmd : redisCmd) : bool :=
  match cmd with
  | SAdd k m => if decide (k = keyBotAvailable ∧ m = me) then true else b
  | SRem k m => if decide (k = keyBotAvailable ∧ m = me) then false else b
  end.

Fixpoint without (ws : conn) (open : list conn) : list conn :=
  match open with
  | [] => []
  | ws' :: open => if decide (ws' = ws) then open else ws' :: without ws open
  end.

Definition holds (h : holdings) (e : label) : holdings :=
  match e with
  | L_dial _ _ _ (Ok ws) => (ws :: h.1, h.2)
  | L_close ws => (without ws h.1, h.2)
  | L_exec _ cmds _ => (h.1, foldl asks h.2 cmds)
  | _ => h
  end.

Definition holds_step (h : holdings) (e : label) (h' : holdings) : Prop := h' = holds h e.

Lemma steps_holds h l h' : steps holds_step h l h' → h' = foldl holds h l.
Proof. induction 1 as [h|h l h1 e h2 _ -> ->]; [done|]. by rewrite foldl_app. Qed.

Definition keeps {A} (t : itree botE A) : Prop := ∀ h, spec holds_step t h (λ _ h', h' = h).

Lemma hold_ret {A} (a : A) : keeps (mret a).
Proof. intros h. by apply spec_ret. Qed.
Lemma hold_bind {A B} (t : itree botE A) (k : A → itree botE B) : keeps t → (∀ a, keeps (k a)) → keeps (t ≫= k).
Proof. intros Ht Hk h. eapply spec_bind; [apply Ht|]. intros a h' ->. apply Hk. Qed.
Lemma hold_do {A} (e : botE A) : (∀ a h, holds h (label_of e a) = h) → keeps (do_ e).
Proof. intros He h. apply spec_do. intros a. eexists. split; [done|]. apply He. Qed.
Lemma hold_attempt {A B} (t : itree botE (result failure A)) (k : A → itree botE (result failure B)) :
  keeps t → (∀ a, keeps (k a)) → keeps (attempt t k).
Proof. intros Ht Hk. apply hold_bind; [done|]. intros [a|e]; [apply Hk|apply hold_ret]. Qed.
Lemma hold_wrap {A} msg (t : itree botE (result failure A)) : keeps t → keeps (wrap msg t).
Proof. intros Ht. apply hold_bind; [done|]. intros a. apply hold_ret. Qed.
Lemma hold_iter {I A} (f : I → itree botE (I + A)) i : (∀ i, keeps (f i)) → keeps (ITree.iter f i).
Proof.
  intros Hf h. apply spec_iter with (P := λ _ h', h' = h); [done|]. intros i' h' ->.
  eapply spec_mono; [apply Hf|]. by intros [] ? ->.
Qed.
Lemma hold_spin {A} : keeps (A := A) ITree.spin.
Proof. intros h. apply spec_spin. Qed.

(** A socket that is closed however the use of it ends. *)
Lemma hold_socket {A} msg ctx path (k : conn → itree botE (result failure A)) : (∀ ws, keeps (k ws)) →
  keeps (attempt (wrap msg (dialWS c ctx path)) (λ ws, defer (do_ (Close ws)) (k ws))).
Proof.
  intros Hk h. eapply spec_attempt with
    (Ψ := λ res h', h' = match res with Ok ws => (ws :: h.1, h.2) | Err _ => h end); [| |by intros e h' ->].
  - apply spec_wrap. apply spec_then. intros a. eexists. split; [done|]. apply spec_ret. by destruct a.
  - intros ws h' ->. apply spec_defer. eapply spec_mono; [apply Hk|]. intros res h' ->.
    apply spec_do. intros a. eexists. split; [done|]. cbn. rewrite decide_True by done. by destruct h.
Qed.

(** Everything a bot does between sockets. *)
Ltac keep known :=
  repeat first
    [ done | known | apply hold_ret | apply hold_spin | apply hold_do; (by intros) | apply hold_wrap | apply hold_iter; intros ?
    | apply hold_attempt; [|intros ?] | apply hold_bind; [|intros ?]
    | match goal with |- keeps (match ?x with _ => _ end) => destruct x end ].

Lemma hold_takeTurn ctx sid : keeps (takeTurn r ctx sid).
Proof. unfold takeTurn, GetSession, WithTimeout, pace, pickThinkTime, sleepCtx, Move, postJSON. keep fail. Qed.

Lemma hold_playGame ctx ws sid : keeps (playGame r ctx ws sid).
Proof.
  unfold playGame, react, MarkReady, postNoBody, waitForEvent, readEvent, GetSession.
  keep ltac:(apply hold_takeTurn).
Qed.

Lemma hold_playOne ctx ws : keeps (playOne r ctx ws).
Proof.
  unfold playOne, JoinQueue, postNoBody, readEventPayload, readEvent, AcceptMatch, postJSON.
  do 4 (apply hold_attempt; [keep fail|intros ?]). apply hold_socket. intros ws'. apply hold_playGame.
Qed.

Lemma hold_playOneBackfill ctx ws : keeps (playOneBackfill r ctx ws).
Proof.
  unfold playOneBackfill, WithTimeout, LeaveQueue. apply hold_bind; [keep fail|]. intros jctx.
  apply hold_bind; [apply hold_playOne|]. intros res. keep fail.
Qed.

(** An activation of this bot. *)
Lemma handleActivate_holds ctx payload h : unmarshal (activateMessage payload) = Ok me →
  spec holds_step (handleActivate r ctx payload) h
    (λ res h', (∃ e, res = Err (Panicking e) ∧ h' = h) ∨ res = Ok tt ∧ h' = (h.1, true)).
Proof.
  intros Hp. unfold handleActivate. rewrite Hp, decide_False by tauto. eapply spec_bind.
  { apply (hold_socket "dial player ws" ctx _ (playOneBackfill r ctx)). intros ws. apply hold_playOneBackfill. }
  assert (spec holds_step (do_ (Exec ctx [SAdd keyBotAvailable me]);; mret (@Ok failure unit tt)) h
    (λ res h', (∃ e, res = Err (Panicking e) ∧ h' = h) ∨ res = Ok tt ∧ h' = (h.1, true))) as Hadd.
  { apply spec_then. intros x. eexists. split; [done|]. apply spec_ret. right. split; [done|]. cbn. by rewrite decide_True. }
  intros [u|e] h' ->; [exact Hadd|]. destruct e; try exact Hadd. apply spec_ret. eauto.
Qed.
Lemma hold_Login ctx : keeps (Login c ctx).
Proof. unfold Login, botLogin, testLogin. case_decide; keep fail. Qed.

(** With the eyes also on the server of the tasks. *)
Definition abandons (e : label) : bool := if e is L_abandoned then true else false.
Definition watch (h : holdings * bool) (e : label) : holdings * bool := (holds h.1 e, h.2 || abandons e).
Definition watch_step (h : holdings * bool) (e : label) (h' : holdings * bool) : Prop := h' = watch h e.

Lemma steps_watch h l h' : steps watch_step h l h' → h' = (foldl holds h.1 l, h.2 || existsb abandons l).
Proof.
  induction 1 as [[h b]|h l h1 e h2 _ -> ->]; cbn; [by rewrite orb_false_r|].
  rewrite foldl_app, existsb_app. unfold watch. cbn. by rewrite orb_false_r, orb_assoc.
Qed.

Lemma follows_calm g e g' : follows r g e g' → abandons e = false.
Proof. by destruct 1. Qed.

Lemma watch_keeps {A} (t : itree botE A) g h Φ : spec (follows r) t g (λ _ _, True) → spec holds_step t h Φ →
  spec watch_step t (h, false) (λ a h', Φ a h'.1 ∧ h'.2 = false).
Proof.
  intros Hg Hh. exists (λ t h, (∃ g, spec (follows r) t g (λ _ _, True)) ∧ spec holds_step t h.1 Φ ∧ h.2 = false).
  split; [by eauto|]. clear. intros t [h b] ((g & Hg%spec_unfold) & Hh%spec_unfold & Hb). cbn in Hh, Hb. subst b.
  unfold post_step in *. destruct (observe t) as [a|t'|X e k]; [done|by eauto|].
  intros a. destruct (Hg a) as (g1 & Hs & Hg1), (Hh a) as (h1 & -> & Hh1).
  eexists. split; [done|]. cbn. split; [by eauto|]. split; [done|]. by eapply follows_calm.
Qed.

(** Once it has left a task behind, it has. *)
Lemma watch_abandoned {A} (t : itree botE A) h : h.2 = true → spec watch_step t h (λ _ h', h'.2 = true).
Proof.
  intros Hh. exists (λ _ h, h.2 = true). split; [done|]. clear. intros t h Hh. unfold post_step.
  destruct (observe t); [done|done|]. intros a. eexists. split; [done|]. cbn. by rewrite Hh.
Qed.

Lemma watch_advance {A} (t : itree botE A) g h Φ : spec (follows r) t g (λ _ _, True) → spec holds_step t h Φ →
  spec watch_step (advance t) (h, false) (λ t h',
    (∃ g, spec (follows r) t g (λ _ _, True)) ∧ spec holds_step t h'.1 Φ ∧ h'.2 = false).
Proof.
  intros Hg%spec_unfold Hh%spec_unfold. unfold advance, post_step in *. destruct (observe t) as [a|t'|X e k].
  - apply spec_ret. split; [exists g; by apply spec_ret|]. split; [by apply spec_ret|done].
  - apply spec_ret. eauto.
  - apply spec_then. intros a. destruct (Hg a) as (g1 & Hs & Hg1), (Hh a) as (h1 & -> & Hh1).
    eexists. split; [done|]. apply spec_ret. cbn. split; [by eauto|]. split; [done|]. by eapply follows_calm.
Qed.

Lemma supervised_holds {A} (t : itree botE A) g h Φ : spec (follows r) t g (λ _ _, True) → spec holds_step t h Φ →
  spec watch_step (supervised t) (h, false) (λ x h',
    match x with inl a => Φ a h'.1 ∧ h'.2 = false | inr _ => h'.2 = true end).
Proof.
  intros Hg Hh. apply spec_iter with
    (P := λ t h, (∃ g, spec (follows r) t g (λ _ _, True)) ∧ spec holds_step t h.1 Φ ∧ h.2 = false); [by eauto|].
  clear. intros t [h b] ((g & Hg) & Hh & Hb). cbn in Hh, Hb. subst b.
  assert (spec watch_step (given_up ← do_ GivesUp; match given_up with
    | Some e => mret (inr (inr (e, t))) | None => t' ← advance t; mret (inl t') end) (h, false)
    (λ x h', match x with
     | inl t => (∃ g, spec (follows r) t g (λ _ _, True)) ∧ spec holds_step t h'.1 Φ ∧ h'.2 = false
     | inr (inl a) => Φ a h'.1 ∧ h'.2 = false
     | inr (inr _) => h'.2 = true end)) as Hnext.
  { apply spec_then. intros [e|]; (eexists; split; [done|]); [by apply spec_ret|].
    change (watch (h, false) (label_of GivesUp None)) with (h, false).
    eapply spec_bind; [by eapply watch_advance|]. intros t' h' Ht'. by apply spec_ret. }
  pose proof (spec_unfold _ _ _ _ Hh) as Ho. unfold post_step in Ho. destruct (observe t) as [a|t'|X e k]; [by apply spec_ret| |].
  all: eapply spec_mono; [exact Hnext|]; by intros [t2|[a|x]] h'.
Qed.

Lemma serveTasks_holds h : h.2 = false → spec watch_step (serveTasks r) h (λ x h',
  match x.2 with Some _ => h'.2 = true | None => h'.1.1 = h.1.1 ∧ h'.2 = false end).
Proof.
  intros Hb. apply spec_iter with (P := λ _ h', h'.1.1 = h.1.1 ∧ h'.2 = false); [done|]. intros _ [h1 b] [H1 Hb1]. cbn in H1, Hb1. subst b.
  apply spec_then. intros task. eexists. split; [done|]. change (watch (h1, false) _) with (h1, false).
  destruct task as [payload|e]; [|by apply spec_ret].
  eapply spec_bind with (Ψ := λ x h', match x with inl _ => h'.1.1 = h.1.1 ∧ h'.2 = false | inr _ => h'.2 = true end).
  2:{ intros [a|[e t]] h' Hh; by apply spec_ret. }
  apply supervised_holds with (g := mkStanding None Idle) (Φ := λ _ h', h'.1 = h.1.1).
  { eapply spec_mono; [apply ok_handleActivate|done]. }
  destruct (unmarshal (activateMessage payload)) as [p|e] eqn:Hp.
  - destruct (decide (p = me)) as [->|Hne].
    + eapply spec_mono; [by apply handleActivate_holds|]. by intros res h' [(e & _ & ->)|[_ ->]].
    + unfold handleActivate. rewrite Hp, decide_True by done. by apply spec_ret.
  - unfold handleActivate. rewrite Hp. by apply spec_ret.
Qed.

Lemma RunBackfill_holds ctx o : spec watch_step (RunBackfill r ctx) (o, false, false)
  (λ res h', h' = (o, false, false) ∨ h'.2 = true ∨ ∃ e, res = Err (wrapf "register bot sets" e)).
Proof.
  unfold RunBackfill. eapply spec_attempt with (Ψ := λ _ h', h' = (o, false, false)); [| |by intros e h' ->; left].
  { apply spec_wrap. eapply spec_mono.
    - eapply watch_keeps with (g := mkStanding None Idle); [eapply spec_mono; [apply ok_Login|done]|apply hold_Login].
    - intros [u|e] [h' b] [Hh Hb]; cbn in *; by subst. }
  intros u h' ->. eapply spec_attempt with
    (Ψ := λ res h', h'.1.1 = o ∧ h'.2 = false ∧ ∀ e, res = Err e → ∃ e', e = wrapf "register bot sets" e').
  - apply spec_wrap. apply spec_do. intros a. eexists. split; [done|].
    destruct a as [v|e]; (split_and!; [done|done|]); [done|]. intros e' [= <-]. eauto.
  - intros v h' (Ho & Hb & _). eapply spec_bind; [by apply serveTasks_holds|]. intros [e [t|]] [[o' b] b'] H1; cbn in H1 |- *.
    { eapply spec_bind; [by apply watch_abandoned|]. intros v' h2 H2. apply spec_ret. auto. }
    destruct H1 as [Ho1 ->]. assert (o' = o) as -> by exact (eq_trans Ho1 Ho).
    eapply spec_bind with (Ψ := λ _ h', h' = (o, false, false)); [|intros v' h2 ->; apply spec_ret; by left]. unfold deregister.
    eapply spec_bind with (Ψ := λ _ h', h' = (o, b, false)).
    { apply spec_then. intros t. eexists. split; [done|]. by apply spec_ret. }
    intros cctx h2 ->. apply spec_then. intros x. eexists. split; [done|].
    apply spec_then. intros y. eexists. split; [done|]. apply spec_ret. unfold watch. cbn. by rewrite decide_True by done.
  - intros e h' (_ & _ & He). destruct (He e eq_refl) as [e' ->]. eauto.
Qed.

Lemma Run_holds ctx numGames : keeps (Run r ctx numGames).
Proof.
  apply hold_attempt; [apply hold_wrap, hold_Login|]. intros u.
  apply (hold_socket "dial player ws" ctx _ (λ ws, games r ctx ws numGames)). intros ws. unfold games.
  apply hold_iter. intros i. destruct (_ || _); [|apply hold_ret]. apply hold_bind; [keep fail|].
  intros [e|]; [apply hold_ret|]. apply hold_bind; [apply hold_playOne|]. intros res. keep fail.
Qed.

(** Whatever the environment answers: when an activation of the bot ends, all sockets
    that were opened are closed, and the activation counts as done and the bot has asked to be
    available again, unless its search panicked. When a backfill bot ends, it has given
    up its place and closed its sockets, unless it could not register, or the server of its
    tasks has left one behind; an autonomous one has closed its sockets. *)
Theorem activation_releases ctx payload b numGames n l res :
  (unmarshal (activateMessage payload) = Ok me → traces n (handleActivate r ctx payload) l (Some res) →
    res = Ok tt ∧ foldl holds ([], b) l = ([], true) ∨
    (∃ e, res = Err (Panicking e)) ∧ foldl holds ([], b) l = ([], b)) ∧
  (traces n (play true numGames r) l (Some res) →
    foldl holds ([], false) l = ([], false) ∨ L_abandoned ∈ l ∨ ∃ e, res = Err (wrapf "register bot sets" e)) ∧
  (traces n (play false numGames r) l (Some res) → foldl holds ([], b) l = ([], b)).
Proof.
  split_and!.
  - intros Hp Ht. destruct (spec_traces _ _ _ _ _ _ _ (handleActivate_holds ctx payload ([], b) Hp) Ht)
      as (h & <-%steps_holds & Hh). destruct (Hh res eq_refl) as [(e & -> & ->)|[-> ->]]; eauto.
  - intros Ht. destruct (spec_traces _ _ _ _ _ _ _ (RunBackfill_holds Given []) Ht) as (h & ->%steps_watch & Hh).
    cbn in Hh. destruct (Hh res eq_refl) as [[= H _]|[(e & He & Hab)%existsb_exists|H]]; [by left| |by right; right].
    right. left. destruct e; try done. by apply list_elem_of_In.
  - intros Ht. destruct (spec_traces _ _ _ _ _ _ _ (Run_holds Given numGames ([], b)) Ht) as (h & <-%steps_holds & Hh).
    by apply (Hh res).
Qed.
End Holdings.

(** ** The command *)

Section Command.
Context `{U : UUID} (Nil : uuid).

Lemma resolveBotIDs_bots players specs name id :
  resolveBotIDs players specs !! name = Some id → (name, id, true) ∈ players.
Proof.
  unfold resolveBotIDs. assert (∀ (rows : list (string * uuid * bool)) (out : gmap string uuid),
    foldl (λ out row, <[row.1.1 := row.1.2]> out) out rows !! name = Some id →
    out !! name = Some id ∨ ∃ row, row ∈ rows ∧ row.1 = (name, id)) as H.
  { induction rows as [|row rows IH]; intros out; cbn; [by left|]. intros [Hl|(row' & Hin & Hrow)]%IH.
    - apply lookup_insert_Some in Hl as [[<- <-]|[_ Hl]]; [|by left].
      right. exists row. split; [left|by destruct row.1].
    - right. exists row'. split; [by right|done]. }
  intros [Hl|(row & Hin & Hrow)]%H; [by rewrite lookup_empty in Hl|].
  apply list_elem_of_filter in Hin as [[_ Hb] Hin]. destruct row as [nid b]. cbn in *. by subst.
Qed.

(** Only what was given as a UUID, or the row of a bot with the name given, is started. *)
Lemma started_bots players specs s : s ∈ started Nil players specs →
  b_id s ≠ Nil ∧ (s ∈ specs ∨ (b_username s, b_id s, true) ∈ players).
Proof.
  unfold started. intros [Hid Hin]%list_elem_of_filter. split; [done|].
  destruct (existsb _ specs); [|by left]. apply list_elem_of_fmap in Hin as (s0 & -> & Hin).
  revert Hid. unfold resolve. case_decide as H0; [|by left]. cbn. intros Hid. right.
  destruct (resolveBotIDs players specs !! b_username s0) as [id|] eqn:Hl; [|done]. by eapply resolveBotIDs_bots.
Qed.
End Command.

(** ** A bot on a small network *)

Module BotRunnerDemo.

#[local] Existing Instance counting_Rand.
#[local] Existing Instance counting_Entropy.
#[local] Existing Instance RootAccessSpec.zeroPRNG.
#[local] Instance identity_Log : Mcts.MathLog := Mcts.Build_MathLog (λ x, x).

(** A server with one game of Tic-tac-toe, in which everything that is heard takes a
    while, and a human answers with the first legal move; what the sockets of the player and
    of the room still carry; the clock; when the server of the tasks loses patience, and
    whether a task that it left behind is next. *)
Record network := mkNetwork {
  clock : Z; human_takes : Z; patience : option Z; task_next : bool; game : GameState;
  inbox : list (result failure wsEvent); room : list (result failure wsEvent); jobs : list text
}.

Definition expired (ctx : Ctx) (t : Z) : bool := match ctx with WithDeadline _ d => (d <=? t)%Z | _ => false end.
Definition set_clock t w := mkNetwork t (human_takes w) (patience w) (task_next w) (game w) (inbox w) (room w) (jobs w).

Definition nothing {A} (a : A) : decoded A := mkDecoded a false.
Definition noText : text := mkText (nothing "") (nothing "") (nothing ("", "")) (nothing (mkView empty_game None)).
Definition view (st : GameState) : text :=
  mkText (nothing "") (nothing "") (nothing ("", ""))
    (mkDecoded (mkView st (if (TicTacToe.TicTacToe.IsOver st).1 then Some (TicTacToe.TicTacToe.IsOver st).2 else None)) true).

Definition move_in (st : GameState) (payload : data) : GameState :=
  match TicTacToe.TicTacToe.ValidateMove st (mkMove (CurrentPlayerID st) payload 0) with
  | Ok _ => match TicTacToe.TicTacToe.ApplyMove st (mkMove (CurrentPlayerID st) payload 0) with Ok st => st | Err _ => st end
  | Err _ => st
  end.

(** The move of the bot, and after it that of the human. *)
Definition moved (payload : data) (w : network) : network :=
  let st := move_in (game w) payload in
  let over s := (TicTacToe.TicTacToe.IsOver s).1 in
  let told s := Ok (mkWsEvent (if over s then evtGameOver else evtMoveApplied) (view s)) in
  let reply := if over st then None
               else match head (TicTacToeBot.TicTacToeBot.ValidMoves st) with Some (Some p) => Some (move_in st p) | _ => None end in
  let say st' news := mkNetwork (clock w) (human_takes w) (patience w) (task_next w) st' (inbox w) (room w ++ news) (jobs w) in
  match reply with
  | Some st' => say st' [told st; told st']
  | None => say st [told st]
  end.

Definition payload_of (q : httpRequest) : option data :=
  b ← body q; match b !! "payload" with Some (Map p) => Some p | _ => None end.

Definition respond (q : httpRequest) (w : network) : httpResponse * network :=
  match payload_of q with
  | Some p => (mkResponse 200 (Ok noText), moved p w)
  | None =>
      if decide (method q = "GET") then (mkResponse 200 (Ok (view (game w))), w)
      else (mkResponse (if body q is Some _ then 204 else 200)%Z (Ok noText), w)
  end.

Definition handle {A} (e : botE A) (w : network) : A * network :=
  match e in botE A return A * network with
  | Do ctx q =>
      if expired ctx (clock w) then (Err DeadlineExceeded, w)
      else let '(a, w') := respond q w in (Ok a, w')
  | DialContext ctx u _ => (if expired ctx (clock w) then Err DeadlineExceeded
                            else Ok (if decide (u = "ws://recess/ws/players/x") then 1 else 2), w)
  | ReadJSON 1 =>
      match inbox w with
      | m :: ms => (m, mkNetwork (clock w + human_takes w) (human_takes w) (patience w) (task_next w) (game w) ms (room w) (jobs w))
      | [] => (Err (Other "EOF"), w)
      end
  | ReadJSON _ =>
      match room w with
      | m :: ms => (m, mkNetwork (clock w + human_takes w) (human_takes w) (patience w) (task_next w) (game w) (inbox w) ms (jobs w))
      | [] => (Err (Other "EOF"), w)
      end
  | Close _ => (tt, w)
  | CtxErr ctx => (if expired ctx (clock w) then Some DeadlineExceeded else None, w)
  | Now => (clock w, w)
  | Sleep d => (tt, set_clock (clock w + d) w)
  | SleepCtx ctx d => (if expired ctx (clock w + d)%Z then Some DeadlineExceeded else None, set_clock (clock w + d) w)
  | Int64N _ => (0%Z, w)
  | Think _ => ((never, seeds), w)
  | Exec _ _ => (Ok tt, w)
  | GivesUp => (if patience w is Some t then if (t <=? clock w)%Z then Some None else None else None, w)
  | Schedule => (task_next w, mkNetwork (clock w) (human_takes w) (patience w) (negb (task_next w)) (game w) (inbox w) (room w) (jobs w))
  | NextTask =>
      match jobs w with
      | j :: js => (Ok j, mkNetwork (clock w) (human_takes w) (patience w) (task_next w) (game w) (inbox w) (room w) js)
      | [] => (Err None, w)
      end
  | Outcome _ => (tt, w)
  end.

Definition adapters : gmap string Factory :=
  {["tictactoe" := mkFactory (Some TicTacToeBot.TicTacToeBot.NewAdapter) None]}.
Definition no_env : BotEnv := mkBotEnv None None None None.
Definition the_client : Client := NewClient "http://recess/" "x" "secret".

Definition the_bot : Runner :=
  match New no_env adapters 9 "bot_easy_1" "x" "tictactoe" "easy" the_client with
  | Ok r => r
  | Err _ => mkRunner "" "" the_client bot_x
  end.

Lemma the_bot_new : New no_env adapters 9 "bot_easy_1" "x" "tictactoe" "easy" the_client = Ok the_bot.
Proof. reflexivity. Qed.

Definition found : wsEvent := mkWsEvent evtMatchFound (mkText (nothing "") (mkDecoded "m" true) (nothing ("", "")) (nothing (mkView empty_game None))).
Definition ready : wsEvent := mkWsEvent evtMatchReady (mkText (nothing "") (nothing "") (mkDecoded ("r", "s") true) (nothing (mkView empty_game None))).
Definition chat : wsEvent := mkWsEvent "chat_message" noText.
Definition activation : text := mkText (mkDecoded "x" true) (nothing "") (nothing ("", "")) (nothing (mkView empty_game None)).

Definition server (human_takes : Z) (inbox : list (result failure wsEvent)) : network :=
  mkNetwork 0 human_takes None true empty_game inbox [Ok (mkWsEvent evtGameReady noText)] [activation].

(** What is counted in a trace. *)
Definition is_move (e : label) : bool := if e is L_do _ q _ then bool_decide (is_Some (payload_of q)) else false.
Definition is_request (m u : string) (e : label) : bool :=
  if e is L_do _ q _ then bool_decide (method q = m ∧ url q = "http://recess/api/v1/" +:+ u) else false.
Definition reads (want : string) (e : label) : bool := if e is L_read _ (Ok evt) then bool_decide (Type_ evt = want) else false.
Definition fails (e : label) : bool := if e is L_read _ (Err _) then true else false.
Definition count (p : label → bool) (l : list label) : nat := length (filter (λ e, p e = true) l).
Definition joins := count (is_request "POST" "queue").
Definition leaves := count (is_request "DELETE" "queue").
Definition accepts := count (is_request "POST" "queue/accept").

Abbreviation ran t w := (execute (@handle) 400 t w).
Abbreviation activate := (handleActivate the_bot Given activation).

(** A backfill bot comes up, is activated, plays its game to the end and shuts down. *)
Definition steady : network := server Second [Ok chat; Ok found; Ok chat; Ok ready].
Definition a_run : list label * option (result failure unit) := ran (play true 0 the_bot) steady.

Lemma a_run_trace : traces 400 (play true 0 the_bot) a_run.1 a_run.2.
Proof. exact (execute_traces (@handle) 400 (play true 0 the_bot) steady). Qed.

Lemma a_run_done : a_run.2 = Some (Ok tt) ∧ count is_move a_run.1 = 3 ∧ count (reads evtGameOver) a_run.1 = 1.
Proof. by vm_compute. Qed.

Lemma a_move : a_run.1 !! 44 = Some (L_do (WithDeadline Given (45 * Second)) (moveRequest the_bot "s" (cell_payload 2))
  (Ok (mkResponse 200 (Ok noText)))).
Proof. by vm_compute. Qed.

Lemma a_run_split : a_run.1 = take 44 a_run.1 ++ L_do (WithDeadline Given (45 * Second))
  (moveRequest the_bot "s" (cell_payload 2)) (Ok (mkResponse 200 (Ok noText))) :: drop 45 a_run.1.
Proof. symmetry. exact (take_drop_middle _ _ _ a_move). Qed.

Lemma a_move_trace : traces 400 (play true 0 the_bot) (take 44 a_run.1 ++ L_do (WithDeadline Given (45 * Second))
  (moveRequest the_bot "s" (cell_payload 2)) (Ok (mkResponse 200 (Ok noText))) :: drop 45 a_run.1) a_run.2.
Proof. rewrite <-a_run_split. exact a_run_trace. Qed.

(** A bot at the opening of a game of Root Access, of which the server shows it the view of
    its player, and whose search has time for one iteration. *)
Definition own_adapters : gmap string Factory :=
  {["rootaccess" := mkFactory (Some RootAccessBot.RootAccessBot.New) (Some RootAccessBot.RootAccessBot.NewWithProfile)]}.
Definition ana_client : Client := NewClient "http://recess/" "ana" "secret".
Definition ana_bot : Runner :=
  match New no_env own_adapters 300 "bot_easy_2" "ana" "rootaccess" "easy" ana_client with
  | Ok r => r
  | Err _ => mkRunner "" "" ana_client bot_x
  end.

Lemma ana_bot_new : New no_env own_adapters 300 "bot_easy_2" "ana" "rootaccess" "easy" ana_client = Ok ana_bot.
Proof. reflexivity. Qed.

Definition hurried {A} (e : botE A) : network → A * network :=
  match e in botE A return network → A * network with
  | Think _ => λ w, ((λ i : nat, 1 <=? i, seeds), w)
  | e => handle e
  end.

Abbreviation ana_view := (RootAccessBotSpec.own_view RootAccessSpec.opening).
Definition b_run : list label * option (result failure unit) :=
  execute (@hurried) 60 (play false 1 ana_bot)
    (mkNetwork 0 Second None true ana_view [] [Ok found; Ok ready; Ok (mkWsEvent evtGameReady noText)] []).

Lemma b_views : omap (λ e, if e is L_do _ _ a then own_turn ana_bot a else None) (take 18 b_run.1) = [ana_view; ana_view].
Proof. vm_compute. reflexivity. Qed.

Lemma b_fetched sid st p : just_decided ana_bot sid st p (take 18 b_run.1) → st = ana_view.
Proof.
  intros (l0 & ctx & sc & src & q & Hl & _ & (l1 & ctx1 & a & q1 & -> & _ & Ha) & _).
  assert (st ∈ omap (λ e, if e is L_do _ _ a then own_turn ana_bot a else None) (take 18 b_run.1)) as Hin.
  { rewrite Hl. apply list_elem_of_omap. exists (L_do ctx1 (sessionRequest (client ana_bot) sid) a). split; [|exact Ha].
    apply elem_of_app; left. apply elem_of_app; right. left. }
  rewrite b_views in Hin. by apply elem_of_cons in Hin as [->| ->%list_elem_of_singleton].
Qed.

Definition b_answer : result failure httpResponse :=
  match b_run.1 !! 18 with Some (L_do _ _ a) => a | _ => Err Undecodable end.

Lemma b_move : b_run.1 !! 18 = Some (L_do Given (moveRequest ana_bot "s" (Engine.Payload RootAccessSpec.ana_pings)) b_answer).
Proof. by vm_compute. Qed.

Lemma b_move_trace : traces 60 (play false 1 ana_bot) (take 18 b_run.1 ++
  L_do Given (moveRequest ana_bot "s" (Engine.Payload RootAccessSpec.ana_pings)) b_answer :: drop 19 b_run.1) b_run.2.
Proof. rewrite (take_drop_middle _ _ _ b_move). exact (execute_traces (@hurried) 60 _ _). Qed.

Lemma follows_protocol_witness : ∃ g, steps (conduct the_bot) (mkStanding None Idle, false) a_run.1 g.
Proof. exact (follows_protocol the_bot true 0 400 a_run.1 a_run.2 a_run_trace). Defined.

Lemma moves_justified_witness :
  (∃ st, just_decided the_bot "s" st (cell_payload 2) (take 44 a_run.1) ∧
    Some (cell_payload 2) ∈ ValidMoves TicTacToeBot.NewAdapter st) ∧
  RootAccessBotSpec.acceptable RootAccessSpec.opening (Engine.Payload RootAccessSpec.ana_pings).
Proof.
  split.
  - destruct (moves_justified the_bot no_env adapters 9 "bot_easy_1" "x" "tictactoe" "easy" the_client true 0 400
      _ _ _ _ _ _ _ the_bot_new a_move_trace) as (st & sc & src & Hd & _ & _ & Hv & _).
    exact (ex_intro _ st (conj Hd Hv)).
  - destruct (moves_justified ana_bot no_env own_adapters 300 "bot_easy_2" "ana" "rootaccess" "easy" ana_client false 1 60
      _ _ _ _ _ _ _ ana_bot_new b_move_trace) as (st & sc & src & Hd & _ & _ & _ & _ & Hra).
    exact (proj2 (Hra _ RootAccessSpec.opening eq_refl ltac:(discriminate) (proj2 RootAccessSpec.opening_ok)
      (proj1 RootAccessSpec.opening_ok) RootAccessBotSpec.opening_json (b_fetched _ _ _ Hd))).
Defined.

Lemma activated_trace : traces 400 activate (ran activate steady).1 (Some (Ok tt)).
Proof.
  assert ((ran activate steady).2 = Some (Ok tt)) as Hr by (by vm_compute).
  rewrite <-Hr. exact (execute_traces (@handle) 400 activate steady).
Qed.

Lemma activation_releases_witness :
  Ok tt = @Ok failure unit tt ∧ foldl (holds the_bot) ([], false) (ran activate steady).1 = ([], true) ∨
  (∃ e, @Ok failure unit tt = Err (Panicking e)) ∧ foldl (holds the_bot) ([], false) (ran activate steady).1 = ([], false).
Proof.
  exact (proj1 (activation_releases the_bot Given activation false 0 400 (ran activate steady).1 (Ok tt))
    eq_refl activated_trace).
Defined.

(** The deadline of 45 seconds is that of the whole game: when everybody takes 12 seconds,
    the bot walks out after one move, and leaves the queue, in which it no longer is. *)
Lemma long_game_abandoned : let l := (ran activate (server (12 * Second) [Ok found; Ok ready])).1 in
  count is_move l = 1 ∧ leaves l = 1 ∧ count (reads evtGameOver) l = 0 ∧ count fails l = 0.
Proof. by vm_compute. Qed.

(** While the bot waits for a match nobody looks at the deadline: it reads for nine minutes,
    and when the match comes it no longer accepts. *)
Lemma wait_is_not_bounded :
  let l := (ran activate (server (60 * Second) (replicate 9 (Ok chat) ++ [Ok found; Ok ready]))).1 in
  count (reads "chat_message") l = 9 ∧ count (reads evtMatchFound) l = 1 ∧
  existsb (λ e, if e is L_do _ q (Ok _) then bool_decide (url q = "http://recess/api/v1/queue/accept") else false) l = false.
Proof. by vm_compute. Qed.

(** A shutdown during a game: the server of the tasks waits no longer, the runner deregisters,
    and the process ends before the task that was left behind: with both sockets open. *)
Lemma shutdown_in_game : let run := ran (play true 0 the_bot)
    (mkNetwork 0 Second (Some (6 * Second)%Z) true empty_game [Ok chat; Ok found; Ok chat; Ok ready]
      [Ok (mkWsEvent evtGameReady noText)] [activation]) in
  run.2 = Some (Ok tt) ∧ count is_move run.1 = 1 ∧ count abandons run.1 = 1 ∧
  count (reads evtGameOver) run.1 = 0 ∧ foldl (holds the_bot) ([], false) run.1 = ([2; 1], false).
Proof. by vm_compute. Qed.

(** When the socket of the player is lost, the bot stays in the queue and is available
    at the same time. *)
Lemma queued_and_available : let l := (ran activate (server Second [])).1 in
  joins l = 1 ∧ leaves l = 0 ∧ (foldl (holds the_bot) ([], false) l).2 = true.
Proof. by vm_compute. Qed.

(** An autonomous bot dials once: after its socket is lost it joins the queue for game
    after game, and cannot hear of any match. *)
Lemma deaf_bot_queues : let run := ran (play false 3 the_bot) (server Second []) in
  run.2 = Some (Ok tt) ∧ joins run.1 = 3 ∧ count fails run.1 = 3 ∧ accepts run.1 = 0 ∧ leaves run.1 = 0.
Proof. by vm_compute. Qed.

End BotRunnerDemo.
